(** * Collector dashboard: data-quality pipeline, normalizers and roll-up

    A shallow embedding of [src/utils/normalization.ts],
    [src/utils/dataQuality.ts] and the four-week roll-up of
    [src/utils/calculations.ts], with the properties of the specification
    stated and settled against it.

    Strings are sequences of ASCII characters (the code units below 128 of
    a JavaScript string); characters above 127 are outside the model.
    Whatever the JavaScript engine supplies (IEEE numbers, [Date] parsing,
    the clock, error-message texts, [localeCompare]) is gathered in the
    record [Engine] and left abstract; [Ref.engine] is one instance, used
    to run the code on concrete rows. *)

From Stdlib Require Import Ascii String List ZArith NArith Lia Bool.
From Stdlib Require Import Sorting.Sorted Sorting.Permutation.
From stdpp Require Import base option list gmap strings.

Set Default Goal Selector "!".

(** [simpl] may unfold the concatenation of strings when its first
    argument shows a constructor. *)
Arguments String.append !s1 s2 : simpl nomatch.

(* ================================================================== *)
(** * Characters and strings, as the ECMAScript string methods see them *)
(* ================================================================== *)

Module JsString.

Definition code (c : ascii) : N := N_of_ascii c.

Definition between (lo hi : N) (c : ascii) : bool :=
  (N.leb lo (code c) && N.leb (code c) hi)%bool.

Definition isDigit (c : ascii) : bool := between 48 57 c.
Definition isUpper (c : ascii) : bool := between 65 90 c.
Definition isLower (c : ascii) : bool := between 97 122 c.

(** [\s] and [String.prototype.trim]: TAB, LF, VT, FF, CR and SPACE. *)
Definition isSpace (c : ascii) : bool :=
  (between 9 13 c || N.eqb (code c) 32)%bool.

(** [\w]: letters, digits and underscore. *)
Definition isWord (c : ascii) : bool :=
  (isDigit c || isUpper c || isLower c || N.eqb (code c) 95)%bool.

(** Line terminators, which [.] does not match. *)
Definition isLineTerminator (c : ascii) : bool :=
  (N.eqb (code c) 10 || N.eqb (code c) 13)%bool.

Definition lowerChar (c : ascii) : ascii :=
  if isUpper c then ascii_of_N (code c + 32) else c.

Definition upperChar (c : ascii) : ascii :=
  if isLower c then ascii_of_N (code c - 32) else c.

Fixpoint mapChars (f : ascii -> ascii) (s : string) : string :=
  match s with
  | EmptyString => EmptyString
  | String c s' => String (f c) (mapChars f s')
  end.

Definition toLowerCase : string -> string := mapChars lowerChar.
Definition toUpperCase : string -> string := mapChars upperChar.

Fixpoint trimStart (s : string) : string :=
  match s with
  | String c s' => if isSpace c then trimStart s' else s
  | EmptyString => EmptyString
  end.

(** [trimEnd] keeps a character when it is not a space or when something
    survives after it. *)
Fixpoint trimEnd (s : string) : string :=
  match s with
  | EmptyString => EmptyString
  | String c s' =>
      match trimEnd s' with
      | EmptyString => if isSpace c then EmptyString else String c EmptyString
      | t => String c t
      end
  end.

Definition trim (s : string) : string := trimEnd (trimStart s).

Definition isEmpty (s : string) : bool :=
  match s with EmptyString => true | _ => false end.

Fixpoint take (n : nat) (s : string) : string :=
  match n, s with
  | S n', String c s' => String c (take n' s')
  | _, _ => EmptyString
  end.

Fixpoint drop (n : nat) (s : string) : string :=
  match n, s with
  | S n', String _ s' => drop n' s'
  | _, _ => s
  end.

(** [s.substring(a, b)]: both ends clamped to the length, swapped when
    [a > b]. *)
Definition substring (a b : nat) (s : string) : string :=
  let len := String.length s in
  let a' := Nat.min a len in
  let b' := Nat.min b len in
  let lo := Nat.min a' b' in
  let hi := Nat.max a' b' in
  take (hi - lo) (drop lo s).

(** [s.slice(1)]. *)
Definition slice1 (s : string) : string := drop 1 s.

(** [s.charAt(0)]: the empty string when [s] is empty. *)
Definition charAt0 (s : string) : string := take 1 s.

Fixpoint startsWith (p s : string) : bool :=
  match p, s with
  | EmptyString, _ => true
  | String a p', String b s' => (Ascii.eqb a b && startsWith p' s')%bool
  | String _ _, EmptyString => false
  end.

Definition endsWith (p s : string) : bool :=
  let lp := String.length p in
  let ls := String.length s in
  (Nat.leb lp ls && String.eqb (drop (ls - lp) s) p)%bool.

(** [s.indexOf(p)]: the least offset at which [p] occurs. *)
Fixpoint indexOf (p s : string) : option nat :=
  if startsWith p s then Some 0
  else match s with
       | EmptyString => None
       | String _ s' => option_map S (indexOf p s')
       end.

Definition includes (p s : string) : bool :=
  match indexOf p s with Some _ => true | None => false end.

Fixpoint repeat (s : string) (n : nat) : string :=
  match n with
  | O => EmptyString
  | S n' => s +:+ repeat s n'
  end.

Fixpoint join (sep : string) (l : list string) : string :=
  match l with
  | [] => EmptyString
  | [x] => x
  | x :: rest => x +:+ sep +:+ join sep rest
  end.

(** [s.split(c)] for a one-character separator; [cur] is the piece being
    read. The empty string splits into one empty piece. *)
Fixpoint splitChar (c : ascii) (cur : string) (s : string) : list string :=
  match s with
  | EmptyString => [cur]
  | String a s' =>
      if Ascii.eqb a c then cur :: splitChar c EmptyString s'
      else splitChar c (cur +:+ String a EmptyString) s'
  end.

Definition split1 (c : ascii) (s : string) : list string :=
  splitChar c EmptyString s.

(** The character that stands just before the suffix [rest] of [s], or
    [prev] when [rest] is all of [s]. *)
Definition charBefore (prev : option ascii) (s rest : string) : option ascii :=
  let consumed := (String.length s - String.length rest)%nat in
  match consumed with
  | O => prev
  | S i => match drop i s with String a _ => Some a | EmptyString => prev end
  end.

Definition headChar (s : string) : option ascii :=
  match s with String a _ => Some a | EmptyString => None end.

End JsString.

(* ================================================================== *)
(** * Regular expressions with the backtracking semantics of ECMAScript *)
(* ================================================================== *)

Module Regex.
Import JsString.

(** An item of a character class. *)
Inductive ClassItem :=
| CChar (c : ascii)
| CRange (lo hi : ascii)
| CSpace        (* \s *)
| CWordChar     (* \w *)
| CDigit.       (* \d *)

Inductive regex :=
| Eps
| Chr (c : ascii)
| Any                                         (* . *)
| Class (negated : bool) (items : list ClassItem)
| Seq (r1 r2 : regex)
| Alt (r1 r2 : regex)
| Star (r : regex)                            (* greedy *)
| Bol                                         (* ^ *)
| Eol                                         (* $ *)
| WordB.                                      (* \b *)

(** Derived forms. *)
Definition Plus (r : regex) : regex := Seq r (Star r).
Definition Opt (r : regex) : regex := Alt r Eps.

Fixpoint Lit (s : string) : regex :=
  match s with
  | EmptyString => Eps
  | String c EmptyString => Chr c
  | String c s' => Seq (Chr c) (Lit s')
  end.

Fixpoint Alts (l : list regex) : regex :=
  match l with
  | [] => Class false []
  | [r] => r
  | r :: rest => Alt r (Alts rest)
  end.

Fixpoint Seqs (l : list regex) : regex :=
  match l with
  | [] => Eps
  | [r] => r
  | r :: rest => Seq r (Seqs rest)
  end.

Definition Sp : regex := Class false [CSpace].          (* \s *)
Definition Dg : regex := Class false [CDigit].          (* \d *)

Definition isWordOpt (o : option ascii) : bool :=
  match o with Some c => isWord c | None => false end.

Section Matcher.
(** The flag [i]. *)
Variable ci : bool.

Definition charEq (a b : ascii) : bool :=
  if ci then Ascii.eqb (lowerChar a) (lowerChar b) else Ascii.eqb a b.

Definition inRange (lo hi a : ascii) : bool :=
  between (code lo) (code hi) a.

Definition itemMatches (a : ascii) (it : ClassItem) : bool :=
  match it with
  | CChar c => charEq c a
  | CRange lo hi =>
      if ci then (inRange lo hi a || inRange lo hi (lowerChar a)
                  || inRange lo hi (upperChar a))%bool
      else inRange lo hi a
  | CSpace => isSpace a
  | CWordChar => isWord a
  | CDigit => isDigit a
  end.

Definition classMatches (negated : bool) (items : list ClassItem)
    (a : ascii) : bool :=
  xorb negated (existsb (itemMatches a) items).

(** A continuation receives the character just consumed (for [\b]) and
    the rest of the input; a matcher answers with the rest of the input
    after the whole match, the first one in backtracking order. *)
Definition Cont := option ascii -> string -> option string.
Definition Matcher := option ascii -> string -> Cont -> option string.

(** Greedy repetition: try one more iteration, refuse an iteration that
    consumes nothing, fall back to the continuation. *)
Fixpoint starK (fuel : nat) (mr : Matcher) (prev : option ascii)
    (s : string) (k : Cont) : option string :=
  match fuel with
  | O => k prev s
  | S f =>
      match mr prev s (fun p' s' =>
               if Nat.ltb (String.length s') (String.length s)
               then starK f mr p' s' k else None) with
      | Some x => Some x
      | None => k prev s
      end
  end.

Fixpoint matchK (r : regex) (prev : option ascii) (s : string) (k : Cont)
    : option string :=
  match r with
  | Eps => k prev s
  | Chr c =>
      match s with
      | String a s' => if charEq c a then k (Some a) s' else None
      | EmptyString => None
      end
  | Any =>
      match s with
      | String a s' => if isLineTerminator a then None else k (Some a) s'
      | EmptyString => None
      end
  | Class negated items =>
      match s with
      | String a s' =>
          if classMatches negated items a then k (Some a) s' else None
      | EmptyString => None
      end
  | Seq r1 r2 => matchK r1 prev s (fun p' s' => matchK r2 p' s' k)
  | Alt r1 r2 =>
      match matchK r1 prev s k with
      | Some x => Some x
      | None => matchK r2 prev s k
      end
  | Star r1 => starK (String.length s) (matchK r1) prev s k
  | Bol => match prev with None => k prev s | Some _ => None end
  | Eol => match s with EmptyString => k prev s | String _ _ => None end
  | WordB =>
      if xorb (isWordOpt prev) (isWordOpt (headChar s)) then k prev s
      else None
  end.

(** A match that starts exactly here: the rest after it. *)
Definition matchHere (r : regex) (prev : option ascii) (s : string)
    : option string :=
  matchK r prev s (fun _ rest => Some rest).

(** The leftmost match: how many characters precede it, and the rest of
    the input after it. *)
Fixpoint search (r : regex) (prev : option ascii) (s : string)
    : option (nat * string) :=
  match matchHere r prev s with
  | Some rest => Some (O, rest)
  | None =>
      match s with
      | EmptyString => None
      | String a s' =>
          match search r (Some a) s' with
          | Some (i, rest) => Some (S i, rest)
          | None => None
          end
      end
  end.

(** [re.test(s)]. *)
Definition test (r : regex) (s : string) : bool :=
  match search r None s with Some _ => true | None => false end.

(** [s.replace(re, by)] without the flag [g]. *)
Definition replace (r : regex) (by_ : string) (s : string) : string :=
  match search r None s with
  | Some (i, rest) => take i s +:+ by_ +:+ rest
  | None => s
  end.

(** The text of the leftmost match. *)
Definition matched (r : regex) (s : string) : option string :=
  match search r None s with
  | Some (i, rest) =>
      Some (take (String.length s - i - String.length rest) (drop i s))
  | None => None
  end.

(** [s.replace(re, by)] with the flag [g]: after a match the scan goes on
    behind it, one character further when the match was empty. *)
Fixpoint replaceAllFrom (fuel : nat) (r : regex) (by_ : string)
    (prev : option ascii) (s : string) : string :=
  match fuel with
  | O => s
  | S f =>
      match search r prev s with
      | None => s
      | Some (i, rest) =>
          let tail := drop i s in
          if Nat.eqb (String.length rest) (String.length tail) then
            match tail with
            | String a t' =>
                take i s +:+ by_ +:+
                  String a (replaceAllFrom f r by_ (Some a) t')
            | EmptyString => take i s +:+ by_
            end
          else
            take i s +:+ by_ +:+
              replaceAllFrom f r by_ (charBefore prev s rest) rest
      end
  end.

Definition replaceAll (r : regex) (by_ : string) (s : string) : string :=
  replaceAllFrom (S (String.length s)) r by_ None s.

(** [(s.match(re) || []).length] with the flag [g]. *)
Fixpoint countFrom (fuel : nat) (r : regex) (prev : option ascii)
    (s : string) : nat :=
  match fuel with
  | O => O
  | S f =>
      match search r prev s with
      | None => O
      | Some (i, rest) =>
          let tail := drop i s in
          if Nat.eqb (String.length rest) (String.length tail) then
            match tail with
            | String a t' => S (countFrom f r (Some a) t')
            | EmptyString => 1
            end
          else S (countFrom f r (charBefore prev s rest) rest)
      end
  end.

Definition countMatches (r : regex) (s : string) : nat :=
  countFrom (S (String.length s)) r None s.

(** [s.split(re)]: [cur] is the piece read so far, [s] what follows it. *)
Fixpoint splitFrom (fuel : nat) (r : regex) (prev : option ascii)
    (cur : string) (s : string) : list string :=
  match fuel with
  | O => [cur +:+ s]
  | S f =>
      match s with
      | EmptyString => [cur]
      | String a s' =>
          match matchHere r prev s with
          | Some rest =>
              if (Nat.eqb (String.length rest) (String.length s)
                  && isEmpty cur)%bool
              then splitFrom f r (Some a) (cur +:+ String a EmptyString) s'
              else cur :: splitFrom f r (charBefore prev s rest)
                                    EmptyString rest
          | None => splitFrom f r (Some a) (cur +:+ String a EmptyString) s'
          end
      end
  end.

Definition split (r : regex) (s : string) : list string :=
  match s with
  | EmptyString =>
      match matchHere r None s with Some _ => [] | None => [s] end
  | _ => splitFrom (S (2 * String.length s)) r None EmptyString s
  end.

End Matcher.

End Regex.

(* ================================================================== *)
(** * normalization.ts *)
(* ================================================================== *)

Module Normalization.
Import JsString Regex.

(** [/,\s*(florida|fl|california|ca|texas|tx|new york|ny)\s*$/i] *)
Definition reStateSuffix : regex :=
  Seqs [Chr ","; Star Sp;
        Alts [Lit "florida"; Lit "fl"; Lit "california"; Lit "ca";
              Lit "texas"; Lit "tx"; Lit "new york"; Lit "ny"];
        Star Sp; Eol].

(** [/\s+county\s*$/i] *)
Definition reCountySuffix : regex :=
  Seqs [Plus Sp; Lit "county"; Star Sp; Eol].

(** [/^miami\s*-?\s*dade(\s+county)?$/i] *)
Definition reMiamiDade : regex :=
  Seqs [Bol; Lit "miami"; Star Sp; Opt (Chr "-"); Star Sp; Lit "dade";
        Opt (Seq (Plus Sp) (Lit "county")); Eol].

(** The entries of [countyMap], in the order [Object.entries] lists them.
    The keys go into [new RegExp] unescaped, so the dot of [st.] and [ft.]
    is the wildcard. *)
Definition countyMap : list (regex * string) :=
  [ (Seqs [WordB; Lit "nyc"; WordB], "new york");
    (Seqs [WordB; Lit "ny"; WordB], "new york");
    (Seqs [WordB; Lit "new york city"; WordB], "new york");
    (Seqs [WordB; Lit "st"; Any; WordB], "saint");
    (Seqs [WordB; Lit "st"; WordB], "saint");
    (Seqs [WordB; Lit "ft"; Any; WordB], "fort");
    (Seqs [WordB; Lit "ft"; WordB], "fort") ].

(** [/[\s-]+/] *)
Definition reSpaceHyphen : regex := Plus (Class false [CSpace; CChar "-"]).

(** [/\bMiami\s+Dade\b/gi] *)
Definition reMiamiSpaceDade : regex :=
  Seqs [WordB; Lit "Miami"; Plus Sp; Lit "Dade"; WordB].

(** [part.charAt(0).toUpperCase() + part.slice(1)] *)
Definition capitalize (part : string) : string :=
  toUpperCase (charAt0 part) +:+ slice1 part.

(** The body of [normalizeCounty] once its argument is known to be a
    non-empty string. *)
Definition normalizeCountyString (countyStr : string) : string :=
  let normalized := toLowerCase (trim countyStr) in
  let normalized := trim (replace true reStateSuffix EmptyString normalized) in
  let normalized := trim (replace true reCountySuffix EmptyString normalized) in
  let normalized :=
    if String.eqb normalized "dade" then "miami-dade" else normalized in
  let normalized := replace true reMiamiDade "miami-dade" normalized in
  let normalized :=
    fold_left (fun acc kv => replaceAll true (fst kv) (snd kv) acc)
              countyMap normalized in
  let parts :=
    List.filter (fun p => Nat.ltb 0 (String.length p))
           (split false reSpaceHyphen normalized) in
  let capitalized := map capitalize parts in
  let hadHyphen := includes "-" normalized in
  let normalized :=
    if hadHyphen then join "-" capitalized else join " " capitalized in
  replaceAll true reMiamiSpaceDade "Miami-Dade" normalized.

(** [normalizeCounty] on a string argument: the empty string is falsy. *)
Definition normalizeCountyOfString (county : string) : string :=
  if isEmpty county then "Unknown" else normalizeCountyString county.

(** The class of [. , ; : ! ?], the apostrophe, the double quote
    (character 34) and the two parentheses, with the flag [g]. *)
Definition rePunctuation : regex :=
  Class false [CChar "."; CChar ","; CChar ";"; CChar ":"; CChar "!";
               CChar "?"; CChar "'"; CChar (ascii_of_nat 34);
               CChar "("; CChar ")"].

(** [/\b(us|u\.s\.|united states)\b/gi] *)
Definition reUnitedStates : regex :=
  Seqs [WordB; Alts [Lit "us"; Lit "u.s."; Lit "united states"]; WordB].

(** [new RegExp(`\\b${escaped key}\\b`, 'gi')]: the escaping turns every
    dot of a key into a literal dot, and no key holds another special
    character. *)
Definition wholeWord (key : string) : regex := Seqs [WordB; Lit key; WordB].

Definition abbreviationMap : list (string * string) :=
  [ ("inc", "incorporated"); ("inc.", "incorporated");
    ("llc", "limited liability company");
    ("llc.", "limited liability company");
    ("ltd", "limited"); ("ltd.", "limited");
    ("corp", "corporation"); ("corp.", "corporation");
    ("co", "company"); ("co.", "company");
    ("lp", "limited partnership"); ("lp.", "limited partnership");
    ("llp", "limited liability partnership");
    ("llp.", "limited liability partnership");
    ("na", "national association");
    ("fsa", "federal savings association");
    ("fcu", "federal credit union");
    ("cu", "credit union");
    ("fcb", "federal credit bank");
    ("&", "and"); ("amp", "and");
    ("mtg", "mortgage"); ("mtg.", "mortgage");
    ("svc", "service"); ("svc.", "service");
    ("svcs", "services"); ("svcs.", "services");
    ("mgmt", "management"); ("mgmt.", "management");
    ("fin", "financial"); ("fin.", "financial");
    ("fnd", "fund"); ("fnd.", "fund");
    ("grp", "group"); ("grp.", "group") ].

Definition pluralMap : list (string * string) :=
  [ ("banks", "bank"); ("mortgages", "mortgage"); ("services", "service");
    ("groups", "group"); ("companies", "company");
    ("corporations", "corporation"); ("associations", "association");
    ("unions", "union"); ("funds", "fund"); ("trusts", "trust") ].

Definition wordVariations : list (string * string) :=
  [ ("finance", "financial") ].

Definition applyWordMap (m : list (string * string)) (s : string) : string :=
  fold_left (fun acc kv => replaceAll true (wholeWord (fst kv)) (snd kv) acc)
            m s.

(** [/^the\s+/i] *)
Definition reLeadingThe : regex := Seqs [Bol; Lit "the"; Plus Sp].

(** [/\b(incorporated|corporation|limited liability company|llc|inc|corp)\b/i] *)
Definition reCompanyType : regex :=
  Seqs [WordB;
        Alts [Lit "incorporated"; Lit "corporation";
              Lit "limited liability company"; Lit "llc"; Lit "inc";
              Lit "corp"];
        WordB].

(** [/\s+company\s*$/i] *)
Definition reTrailingCompany : regex :=
  Seqs [Plus Sp; Lit "company"; Star Sp; Eol].

(** The consolidation overrides, in the order of the [if] statements. *)
Definition lenderOverrides : list (regex * string) :=
  [ (Seqs [Bol; Lit "wilmington"; WordB], "Wilmington");
    (Seqs [Bol; Lit "jpmorgan"; WordB], "JPMorgan");
    (Seqs [Bol; Lit "wells"; Star Sp; Lit "fargo"; WordB], "Wells Fargo");
    (Seqs [Bol; Lit "computershare"; Plus Sp; Lit "trust"; Plus Sp;
           Lit "company"; Plus Sp; Lit "national"; WordB],
     "Computer Trust Company");
    (Seqs [Bol; Lit "lincoln"; Plus Sp; Lit "street"; WordB],
     "Lincoln Street");
    (Seqs [Bol; Lit "american"; Plus Sp; Lit "general"; Plus Sp;
           Lit "life"; Plus Sp; Lit "insurance"; WordB],
     "American General Life");
    (Seqs [Lit "ef"; Plus Sp; Lit "mortgage"], "EF Mortgage");
    (Seqs [Alt (Lit "tryon") (Lit "tyron"); Plus Sp; Lit "street"],
     "Tryon Street");
    (Seqs [Bol; Lit "sig"; Star Sp; Lit "rcrs"; WordB], "SIG RCRS");
    (Seqs [Bol; Lit "sig"; Star Sp; Lit "cre"; WordB], "Sig Cre") ].

Fixpoint firstOverride (l : list (regex * string)) (s : string)
    : option string :=
  match l with
  | [] => None
  | (re, name) :: rest =>
      if test true re s then Some name else firstOverride rest s
  end.

Definition commonWords : list string :=
  ["the"; "of"; "and"; "a"; "an"; "in"; "on"; "at"; "to"; "for"].

(** The callback of the title-casing [map]; [normalized] is the string
    being split, which the callback reads while it is still unchanged. *)
Definition titleWord (normalized word : string) : string :=
  let positive :=
    match indexOf word normalized with
    | Some i => Nat.ltb 0 i
    | None => false
    end in
  if (existsb (String.eqb word) commonWords && positive)%bool then word
  else capitalize word.

(** The body of [normalizeLender] once its argument is known to be a
    non-empty string. *)
Definition normalizeLenderString (lenderStr : string) : string :=
  let normalized := toLowerCase (trim lenderStr) in
  let normalized := replaceAll false rePunctuation EmptyString normalized in
  let normalized := replaceAll true reUnitedStates "united states" normalized in
  let normalized := applyWordMap abbreviationMap normalized in
  let normalized := applyWordMap pluralMap normalized in
  let normalized := applyWordMap wordVariations normalized in
  let normalized := replace true reLeadingThe EmptyString normalized in
  let hasCompanyType := test true reCompanyType normalized in
  let normalized :=
    if hasCompanyType
    then replace true reTrailingCompany EmptyString normalized
    else normalized in
  let normalized := trim (replaceAll false (Plus Sp) " " normalized) in
  match firstOverride lenderOverrides normalized with
  | Some name => name
  | None => join " " (map (titleWord normalized) (split1 " " normalized))
  end.

Definition normalizeLenderOfString (lender : string) : string :=
  if isEmpty lender then "Unknown" else normalizeLenderString lender.

End Normalization.

(* ================================================================== *)
(** * JSON.parse: the JSON grammar of ECMA-404 *)
(* ================================================================== *)

Module Json.
Import JsString.

#[warnings="-register-all"]
(** A parsed text. Numbers and strings keep their source text; the code
    under study never looks inside a parsed value. *)
Inductive json :=
| JNull
| JBool (b : bool)
| JNumber (lexeme : string)
| JString (raw : string)
| JArray (elements : list json)
| JObject (members : list (string * json)).

Definition isJsonSpace (c : ascii) : bool :=
  (N.eqb (code c) 32 || N.eqb (code c) 9
   || N.eqb (code c) 10 || N.eqb (code c) 13)%bool.

Fixpoint skipWs (s : string) : string :=
  match s with
  | String c s' => if isJsonSpace c then skipWs s' else s
  | EmptyString => EmptyString
  end.

Definition isHex (c : ascii) : bool :=
  (isDigit c || between 65 70 c || between 97 102 c)%bool.

Definition quote : ascii := ascii_of_nat 34.
Definition backslash : ascii := ascii_of_nat 92.

Definition isSimpleEscape (c : ascii) : bool :=
  (Ascii.eqb c quote || Ascii.eqb c backslash || Ascii.eqb c "/"
   || Ascii.eqb c "b" || Ascii.eqb c "f" || Ascii.eqb c "n"
   || Ascii.eqb c "r" || Ascii.eqb c "t")%bool.

(** The characters of a string literal after its opening quote: the raw
    text up to the closing quote, and what follows that quote. *)
Fixpoint stringBody (s : string) : option (string * string) :=
  match s with
  | EmptyString => None
  | String c s' =>
      if Ascii.eqb c quote then Some (EmptyString, s')
      else if Ascii.eqb c backslash then
        match s' with
        | String e s'' =>
            if isSimpleEscape e then
              match stringBody s'' with
              | Some (body, rest) => Some (String c (String e body), rest)
              | None => None
              end
            else if Ascii.eqb e "u" then
              match s'' with
              | String h1 (String h2 (String h3 (String h4 s4))) =>
                  if (isHex h1 && isHex h2 && isHex h3 && isHex h4)%bool then
                    match stringBody s4 with
                    | Some (body, rest) =>
                        Some (String c (String e (String h1 (String h2
                               (String h3 (String h4 body))))), rest)
                    | None => None
                    end
                  else None
              | _ => None
              end
            else None
        | EmptyString => None
        end
      else if N.ltb (code c) 32 then None
      else
        match stringBody s' with
        | Some (body, rest) => Some (String c body, rest)
        | None => None
        end
  end.

Fixpoint digits (s : string) : string * string :=
  match s with
  | String c s' =>
      if isDigit c then let '(d, rest) := digits s' in (String c d, rest)
      else (EmptyString, s)
  | EmptyString => (EmptyString, EmptyString)
  end.

(** A number: an optional minus sign; a zero, or a non-zero digit and
    more digits; optionally a dot and digits; optionally an exponent. *)
Definition numberLexeme (s : string) : option (string * string) :=
  let '(sign, s1) :=
    match s with
    | String "-" s' => ("-", s')
    | _ => (EmptyString, s)
    end in
  let intPart :=
    match s1 with
    | String "0" s' => Some ("0", s')
    | String c _ =>
        if isDigit c then Some (digits s1) else None
    | EmptyString => None
    end in
  match intPart with
  | None => None
  | Some (ip, s2) =>
      let fracPart :=
        match s2 with
        | String "." s' =>
            let '(d, rest) := digits s' in
            if isEmpty d then None else Some ("." +:+ d, rest)
        | _ => Some (EmptyString, s2)
        end in
      match fracPart with
      | None => None
      | Some (fp, s3) =>
          let expPart :=
            match s3 with
            | String e s' =>
                if (Ascii.eqb e "e" || Ascii.eqb e "E")%bool then
                  let '(sg, s'') :=
                    match s' with
                    | String "+" t => ("+", t)
                    | String "-" t => ("-", t)
                    | _ => (EmptyString, s')
                    end in
                  let '(d, rest) := digits s'' in
                  if isEmpty d then None
                  else Some (String e sg +:+ d, rest)
                else Some (EmptyString, s3)
            | EmptyString => Some (EmptyString, s3)
            end in
          match expPart with
          | None => None
          | Some (ep, s4) => Some (sign +:+ ip +:+ fp +:+ ep, s4)
          end
      end
  end.

(** One value, after optional white space; [fuel] bounds the nesting. *)
Fixpoint parseValue (fuel : nat) (s : string) : option (json * string) :=
  match fuel with
  | O => None
  | S f =>
      let elements :=
        fix elements (n : nat) (s : string) (acc : list json)
            : option (json * string) :=
          match n with
          | O => None
          | S n' =>
              match parseValue f s with
              | Some (v, rest) =>
                  match skipWs rest with
                  | String "," rest' => elements n' rest' (v :: acc)
                  | String "]" rest' => Some (JArray (rev (v :: acc)), rest')
                  | _ => None
                  end
              | None => None
              end
          end in
      let members :=
        fix members (n : nat) (s : string) (acc : list (string * json))
            : option (json * string) :=
          match n with
          | O => None
          | S n' =>
              match skipWs s with
              | String q s1 =>
                  if Ascii.eqb q quote then
                    match stringBody s1 with
                    | Some (key, s2) =>
                        match skipWs s2 with
                        | String ":" s3 =>
                            match parseValue f s3 with
                            | Some (v, rest) =>
                                match skipWs rest with
                                | String "," rest' =>
                                    members n' rest' ((key, v) :: acc)
                                | String "}" rest' =>
                                    Some (JObject (rev ((key, v) :: acc)),
                                          rest')
                                | _ => None
                                end
                            | None => None
                            end
                        | _ => None
                        end
                    | None => None
                    end
                  else None
              | EmptyString => None
              end
          end in
      match skipWs s with
      | EmptyString => None
      | String c s1 =>
          if Ascii.eqb c "{" then
            match skipWs s1 with
            | String "}" s2 => Some (JObject [], s2)
            | _ => members (S (String.length s1)) s1 []
            end
          else if Ascii.eqb c "[" then
            match skipWs s1 with
            | String "]" s2 => Some (JArray [], s2)
            | _ => elements (S (String.length s1)) s1 []
            end
          else if Ascii.eqb c quote then
            match stringBody s1 with
            | Some (body, rest) => Some (JString body, rest)
            | None => None
            end
          else if startsWith "true" (String c s1) then
            Some (JBool true, drop 4 (String c s1))
          else if startsWith "false" (String c s1) then
            Some (JBool false, drop 5 (String c s1))
          else if startsWith "null" (String c s1) then
            Some (JNull, drop 4 (String c s1))
          else
            match numberLexeme (String c s1) with
            | Some (lexeme, rest) => Some (JNumber lexeme, rest)
            | None => None
            end
      end
  end.

(** [JSON.parse(s)]: [None] when it throws a [SyntaxError]. *)
Definition parse (s : string) : option json :=
  match parseValue (S (String.length s)) s with
  | Some (v, rest) => if isEmpty (skipWs rest) then Some v else None
  | None => None
  end.

End Json.

(* ================================================================== *)
(** * What the JavaScript engine supplies *)
(* ================================================================== *)

(** Numbers are IEEE doubles, dates are parsed and printed, the clock is
    read, and errors carry a message: none of this is code of the
    repository, and all of it is taken as given. *)
Record Engine := {
  (** Numbers. *)
  num : Type;
  num_of_Z : Z -> num;                  (* the numeric literals of the code *)
  num_isNaN : num -> bool;              (* isNaN(x) *)
  num_ltb : num -> num -> bool;         (* x < y *)
  num_eqb : num -> num -> bool;         (* x === y *)
  num_add : num -> num -> num;          (* x + y *)
  num_toString : num -> string;         (* String(x), x.toString() *)
  parseFloat : string -> num;
  (** Objects other than dates, arrays included. *)
  obj : Type;
  obj_toString : obj -> string;         (* String(o) *)
  obj_lengthBelow5 : obj -> bool;       (* o.length < 5 *)
  (** Dates, as milliseconds since the epoch. *)
  dateParse : string -> option Z;       (* new Date(s); None is Invalid Date *)
  dateToString : option Z -> string;    (* String(d) *)
  toISODate : Z -> string;              (* d.toISOString().split('T')[0] *)
  now : Z;                              (* new Date() *)
  tenYearsBefore : Z -> Z;              (* setFullYear(getFullYear() - 10) *)
  subDays : Z -> nat -> Z;              (* date-fns subDays *)
  (** Messages of the errors the engine throws. *)
  jsonSyntaxError : string -> string;   (* JSON.parse on this text *)
  invalidTimeError : string;            (* toISOString on the Invalid Date *)
  nullishRowError : bool -> string;     (* a property read on null (true)
                                           or on undefined (false) *)
  (** [a.localeCompare(b)]: negative, zero or positive. *)
  localeCompare : string -> string -> Z
}.

(** An engine in scope is the engine meant. *)
Existing Class Engine.

(** A call either returns or throws an [Error] with a message. *)
Inductive Completion (A : Type) :=
| Normal (a : A)
| Throw (message : string).
Arguments Normal {A} a.
Arguments Throw {A} message.

Definition bindC {A B} (c : Completion A) (f : A -> Completion B)
    : Completion B :=
  match c with
  | Normal a => f a
  | Throw m => Throw m
  end.

(** The double quote, for the messages that quote a value. *)
Definition dq : string := String (ascii_of_nat 34) EmptyString.

(** A natural number in decimal, as template literals print it. *)
Definition digitChar (d : nat) : ascii := ascii_of_nat (48 + d).

Fixpoint natToStringAux (fuel n : nat) (acc : string) : string :=
  match fuel with
  | O => acc
  | S f =>
      let acc' := String (digitChar (n mod 10)) acc in
      if Nat.ltb n 10 then acc' else natToStringAux f (n / 10) acc'
  end.

Definition natToString (n : nat) : string := natToStringAux (S n) n EmptyString.

(** [parseInt] on a string of decimal digits. *)
Definition parseDigits (s : string) : nat :=
  (fix go (acc : nat) (s : string) : nat :=
     match s with
     | String c s' =>
         if JsString.isDigit c
         then go (10 * acc + (nat_of_ascii c - 48)) s'
         else acc
     | EmptyString => acc
     end) 0 s.

(* ================================================================== *)
(** * Values, rows and records *)
(* ================================================================== *)

Section Model.
Context {E : Engine}.
Import JsString Regex.

Inductive JSValue :=
| VUndefined
| VNull
| VBool (b : bool)
| VNumber (n : num E)
| VString (s : string)
| VDate (t : option Z)          (* a Date; [None] is the Invalid Date *)
| VObject (o : obj E).          (* any other object or array *)

(** The number is truthy unless it is a zero or NaN. *)
Definition numTruthy (n : num E) : bool :=
  (negb (num_eqb E n (num_of_Z E 0)) && negb (num_isNaN E n))%bool.

Definition truthy (v : JSValue) : bool :=
  match v with
  | VUndefined | VNull => false
  | VBool b => b
  | VNumber n => numTruthy n
  | VString s => negb (isEmpty s)
  | VDate _ | VObject _ => true
  end.

Definition typeOf (v : JSValue) : string :=
  match v with
  | VUndefined => "undefined"
  | VNull | VDate _ | VObject _ => "object"
  | VBool _ => "boolean"
  | VNumber _ => "number"
  | VString _ => "string"
  end.

Definition isNullish (v : JSValue) : bool :=
  match v with VUndefined | VNull => true | _ => false end.

(** [String(v)]. *)
Definition toStringValue (v : JSValue) : string :=
  match v with
  | VUndefined => "undefined"
  | VNull => "null"
  | VBool true => "true"
  | VBool false => "false"
  | VNumber n => num_toString E n
  | VString s => s
  | VDate t => dateToString E t
  | VObject o => obj_toString E o
  end.

(** [a || b] and [a ?? b] on values. *)
Definition orElse (a b : JSValue) : JSValue := if truthy a then a else b.
Definition coalesce (a b : JSValue) : JSValue := if isNullish a then b else a.

(** The own properties of a row object, in the order [Object.keys] lists
    them. *)
Definition Fields := list (string * JSValue).

Fixpoint getProp (fields : Fields) (key : string) : JSValue :=
  match fields with
  | [] => VUndefined
  | (k, v) :: rest => if String.eqb k key then v else getProp rest key
  end.

(** An element of the array handed to the pipeline: a row object, or
    [null] or [undefined], on which every property read throws. *)
Inductive RawRow :=
| RowObject (fields : Fields)
| RowNull
| RowUndefined.

(** What [{...row}] copies. *)
Definition spread (r : RawRow) : Fields :=
  match r with RowObject fields => fields | _ => [] end.

(** [complaintDate] of a processed record: a [Date] or a string. *)
Inductive DateValue :=
| DateObject (t : option Z)
| DateString (s : string).

Record ProcessedComplaint := {
  row : Fields;                         (* the properties copied by [...row] *)
  upb : option (num E);
  complaintDate : option DateValue;
  isValid : bool;
  errors : option (list string);
  normalizedCounty : string;
  normalizedLender : string;
  isDuplicate : bool                    (* read in boolean position only *)
}.

Definition setNormalized (county lender : string) (p : ProcessedComplaint)
    : ProcessedComplaint :=
  {| row := row p; upb := upb p; complaintDate := complaintDate p;
     isValid := isValid p; errors := errors p;
     normalizedCounty := county; normalizedLender := lender;
     isDuplicate := isDuplicate p |}.

Definition setDuplicate (p : ProcessedComplaint) : ProcessedComplaint :=
  {| row := row p; upb := upb p; complaintDate := complaintDate p;
     isValid := isValid p; errors := errors p;
     normalizedCounty := normalizedCounty p;
     normalizedLender := normalizedLender p;
     isDuplicate := true |}.

Definition setErrors (errs : option (list string)) (p : ProcessedComplaint)
    : ProcessedComplaint :=
  {| row := row p; upb := upb p; complaintDate := complaintDate p;
     isValid := isValid p; errors := errs;
     normalizedCounty := normalizedCounty p;
     normalizedLender := normalizedLender p;
     isDuplicate := isDuplicate p |}.

(** ** normalizeCounty and normalizeLender on values *)

Definition normalizeCounty (county : JSValue) : string :=
  if negb (truthy county) then "Unknown"
  else Normalization.normalizeCountyString (toStringValue county).

Definition normalizeLender (lender : JSValue) : string :=
  if negb (truthy lender) then "Unknown"
  else match lender with
       | VDate _ => "Unknown"
       | _ => Normalization.normalizeLenderString (toStringValue lender)
       end.

(* ------------------------------------------------------------------ *)
(** ** dataQuality.ts: comparison keys *)
(* ------------------------------------------------------------------ *)

(** [/[^\w\s]/g] *)
Definition reNotWordNotSpace : regex := Class true [CWordChar; CSpace].

(** [normalizeForComparison] behind its guard. *)
Definition comparable (s : string) : string :=
  replaceAll false reNotWordNotSpace EmptyString
    (replaceAll false (Plus Sp) " " (trim (toLowerCase s))).

Definition normalizeForComparison (str : JSValue) : string :=
  if negb (truthy str) then EmptyString
  else comparable (toStringValue str).

(** [d.toISOString().split('T')[0]], which throws on the Invalid Date. *)
Definition isoDatePart (t : option Z) : Completion string :=
  match t with
  | Some ms => Normal (toISODate E ms)
  | None => Throw (invalidTimeError E)
  end.

Definition dateTruthy (d : option DateValue) : bool :=
  match d with
  | None => false
  | Some (DateObject _) => true
  | Some (DateString s) => negb (isEmpty s)
  end.

Definition dateStrOf (d : option DateValue) : Completion string :=
  match d with
  | Some (DateObject t) => isoDatePart t
  | Some (DateString s) =>
      if isEmpty s then Normal EmptyString else isoDatePart (dateParse E s)
  | None => Normal EmptyString
  end.

(** [row.upb?.toString() || ''] *)
Definition upbStrOf (u : option (num E)) : string :=
  match u with
  | Some n => num_toString E n
  | None => EmptyString
  end.

(** [x || y] on strings. *)
Definition orString (a b : string) : string := if isEmpty a then b else a.

Definition createRowKeys (r : ProcessedComplaint) : Completion (list string) :=
  let address := normalizeForComparison (getProp (row r) "propertyAddress") in
  let county :=
    normalizeForComparison
      (VString (orString (normalizedCounty r)
                         (normalizeCounty (getProp (row r) "county")))) in
  let lender :=
    normalizeForComparison
      (VString (orString (normalizedLender r)
                  (normalizeLender (orElse (getProp (row r) "lender")
                                           (getProp (row r) "plaintiff"))))) in
  bindC (dateStrOf (complaintDate r)) (fun dateStr =>
  let upbStr := upbStrOf (upb r) in
  let exactKey := join "|" [address; county; lender; dateStr; upbStr] in
  let withoutUPB := join "|" [address; county; lender; dateStr] in
  let addressDate := join "|" [address; dateStr] in
  let fuzzyAddress := substring 0 20 address in
  let fuzzyKey := join "|" [fuzzyAddress; county; lender; dateStr] in
  Normal [exactKey; withoutUPB; addressDate; fuzzyKey]).

(* ------------------------------------------------------------------ *)
(** ** dataQuality.ts: detectDuplicates *)
(* ------------------------------------------------------------------ *)

Record DuplicateInfo := {
  di_isDuplicate : bool;
  di_duplicateOf : option nat
}.

(** The loop over the keys that looks for a registered one: it stops at
    the first key registered under another index. *)
Fixpoint findOriginal (seenKeys : gmap string nat) (index : nat)
    (keys : list string) : option nat :=
  match keys with
  | [] => None
  | key :: rest =>
      if negb (isEmpty key) then
        match seenKeys !! key with
        | Some originalIndex =>
            if negb (Nat.eqb originalIndex index) then Some originalIndex
            else findOriginal seenKeys index rest
        | None => findOriginal seenKeys index rest
        end
      else findOriginal seenKeys index rest
  end.

(** [keys.forEach(key => { if (key && !seenKeys.has(key)) seenKeys.set(key, index) })] *)
Definition registerKey (index : nat) (seenKeys : gmap string nat)
    (key : string) : gmap string nat :=
  if negb (isEmpty key) then
    match seenKeys !! key with
    | Some _ => seenKeys
    | None => <[key := index]> seenKeys
    end
  else seenKeys.

Definition registerKeys (index : nat) (keys : list string)
    (seenKeys : gmap string nat) : gmap string nat :=
  fold_left (registerKey index) keys seenKeys.

(** One turn of [rows.forEach]: the entry set in [duplicateMap] and the
    new [seenKeys]. *)
Definition detectStep (seenKeys : gmap string nat) (index : nat)
    (r : ProcessedComplaint)
    : Completion (DuplicateInfo * gmap string nat) :=
  if negb (isValid r) then
    Normal ({| di_isDuplicate := false; di_duplicateOf := None |}, seenKeys)
  else
    bindC (createRowKeys r) (fun keys =>
      match findOriginal seenKeys index keys with
      | Some originalIndex =>
          Normal ({| di_isDuplicate := true;
                     di_duplicateOf := Some originalIndex |}, seenKeys)
      | None =>
          Normal ({| di_isDuplicate := false; di_duplicateOf := None |},
                  registerKeys index keys seenKeys)
      end).

(** [rows.forEach] from [index] on. The entries come out in the order in
    which [duplicateMap.set] inserts them, which is the order in which
    [duplicateMap.forEach] visits them. *)
Fixpoint detectFrom (seenKeys : gmap string nat) (index : nat)
    (rows : list ProcessedComplaint)
    : Completion (list (nat * DuplicateInfo)) :=
  match rows with
  | [] => Normal []
  | r :: rest =>
      bindC (detectStep seenKeys index r) (fun '(info, seenKeys') =>
      bindC (detectFrom seenKeys' (S index) rest) (fun entries =>
      Normal ((index, info) :: entries)))
  end.

Definition detectDuplicates (rows : list ProcessedComplaint)
    : Completion (list (nat * DuplicateInfo)) :=
  detectFrom ∅ 0 rows.

(* ------------------------------------------------------------------ *)
(** ** dataQuality.ts: JSON fields *)
(* ------------------------------------------------------------------ *)

(** [/^\s*[\{\[]/] *)
Definition reLeadingBrace : regex :=
  Seqs [Bol; Star Sp; Class false [CChar "{"; CChar "["]].

Definition looksLikeJSON (str : string) : bool :=
  let trimmed := trim str in
  ((startsWith "{" trimmed && endsWith "}" trimmed)
   || (startsWith "[" trimmed && endsWith "]" trimmed)
   || startsWith dq trimmed
   || test false reLeadingBrace trimmed)%bool.

(** [attemptJSONFix]; it never returns [null]. *)
Definition attemptJSONFix (jsonString : string) : string :=
  let fixed := trim jsonString in
  let openBraces := countMatches false (Chr "{") fixed in
  let closeBraces := countMatches false (Chr "}") fixed in
  let openBrackets := countMatches false (Chr "[") fixed in
  let closeBrackets := countMatches false (Chr "]") fixed in
  let fixed :=
    if Nat.ltb closeBraces openBraces
    then fixed +:+ repeat "}" (openBraces - closeBraces) else fixed in
  let fixed :=
    if Nat.ltb closeBrackets openBrackets
    then fixed +:+ repeat "]" (openBrackets - closeBrackets) else fixed in
  if (negb (startsWith "{" fixed) && negb (startsWith "[" fixed)
      && includes ":" fixed)%bool
  then "{" +:+ fixed +:+ "}"
  else fixed.

(** The [parsed] field of the result. *)
Inductive Parsed :=
| ParsedNull
| ParsedField (v : JSValue)
| ParsedJSON (j : Json.json).

Record JSONFieldResult := {
  jr_isValid : bool;
  jr_parsed : Parsed;
  jr_error : option string;
  jr_wasFixed : bool
}.

(** [/position (\d+)/] *)
Definition rePosition : regex := Seqs [Lit "position "; Plus Dg].

(** The context appended to the message when it names a position. *)
Definition errorContext (errorMsg trimmed : string) : string :=
  if includes "position" errorMsg then
    match matched false rePosition errorMsg with
    | Some m =>
        let pos := parseDigits (drop 9 m) in
        let start := Nat.max 0 (pos - 20) in
        let end_ := Nat.min (String.length trimmed) (pos + 20) in
        " (near: " +:+ dq +:+ substring start end_ trimmed +:+ dq +:+ ")"
    | None => EmptyString
    end
  else EmptyString.

Definition validateJSONField (field : JSValue) (fieldName : string)
    : JSONFieldResult :=
  match field with
  | VNull | VUndefined =>
      {| jr_isValid := true; jr_parsed := ParsedNull;
         jr_error := None; jr_wasFixed := false |}
  | VDate _ | VObject _ =>
      {| jr_isValid := true; jr_parsed := ParsedField field;
         jr_error := None; jr_wasFixed := false |}
  | VString s =>
      if isEmpty s then
        {| jr_isValid := true; jr_parsed := ParsedNull;
           jr_error := None; jr_wasFixed := false |}
      else
        let trimmed := trim s in
        if (negb (looksLikeJSON trimmed)
            && Nat.ltb (String.length trimmed) 2)%bool then
          {| jr_isValid := true; jr_parsed := ParsedField field;
             jr_error := None; jr_wasFixed := false |}
        else
          match Json.parse trimmed with
          | Some parsed =>
              {| jr_isValid := true; jr_parsed := ParsedJSON parsed;
                 jr_error := None; jr_wasFixed := false |}
          | None =>
              let fixed := attemptJSONFix trimmed in
              let retry :=
                if negb (isEmpty fixed) then Json.parse fixed else None in
              match retry with
              | Some parsed =>
                  {| jr_isValid := true; jr_parsed := ParsedJSON parsed;
                     jr_error :=
                       Some ("JSON in " +:+ fieldName
                             +:+ " was malformed but auto-fixed");
                     jr_wasFixed := true |}
              | None =>
                  let errorMsg := jsonSyntaxError E trimmed in
                  let detailedError :=
                    "Invalid JSON in " +:+ fieldName +:+ ": " +:+ errorMsg
                    +:+ errorContext errorMsg trimmed in
                  {| jr_isValid := false; jr_parsed := ParsedNull;
                     jr_error := Some detailedError; jr_wasFixed := false |}
              end
          end
  | VBool _ | VNumber _ =>
      {| jr_isValid := true; jr_parsed := ParsedField field;
         jr_error := None; jr_wasFixed := false |}
  end.

Definition jsonNameHints : list string :=
  ["json"; "metadata"; "data"; "details"; "info"; "extra"; "additional"].

Definition isJSONCandidate (key : string) (value : JSValue) : bool :=
  let keyLower := toLowerCase key in
  (existsb (fun hint => includes hint keyLower) jsonNameHints
   || match value with
      | VString s => looksLikeJSON s
      | _ => false
      end)%bool.

Definition scanForJSONFields (fields : Fields) : Fields :=
  List.filter (fun kv => isJSONCandidate (fst kv) (snd kv)) fields.

(* ------------------------------------------------------------------ *)
(** ** dataQuality.ts: validateRow *)
(* ------------------------------------------------------------------ *)

(** The two arrays [errors] and [warnings] that [validateRow] fills. *)
Record Issues := {
  i_errors : list string;
  i_warnings : list string
}.

Definition noIssues : Issues := {| i_errors := []; i_warnings := [] |}.

Definition pushError (msg : string) (i : Issues) : Issues :=
  {| i_errors := i_errors i ++ [msg]; i_warnings := i_warnings i |}.

Definition pushWarning (msg : string) (i : Issues) : Issues :=
  {| i_errors := i_errors i; i_warnings := i_warnings i ++ [msg] |}.

(** [typeof v === 'string' ? v.trim() : v] *)
Definition trimIfString (v : JSValue) : JSValue :=
  match v with
  | VString s => VString (trim s)
  | _ => v
  end.

(** [!v || v === ''] *)
Definition missing (v : JSValue) : bool :=
  (negb (truthy v)
   || match v with VString s => isEmpty s | _ => false end)%bool.

(** [v.length < 5] on a truthy value: booleans, numbers and dates have no
    [length], and [undefined < 5] is false. *)
Definition lengthBelow5 (v : JSValue) : bool :=
  match v with
  | VString s => Nat.ltb (String.length s) 5
  | VObject o => obj_lengthBelow5 E o
  | _ => false
  end.

Definition checkPropertyAddress (fields : Fields) (i : Issues) : Issues :=
  let propertyAddress := trimIfString (getProp fields "propertyAddress") in
  if missing propertyAddress then
    pushError "Missing or empty property address" i
  else if lengthBelow5 propertyAddress then
    pushWarning "Property address seems too short" i
  else i.

Definition checkCounty (fields : Fields) (i : Issues) : Issues :=
  let county := trimIfString (getProp fields "county") in
  if missing county then pushError "Missing or empty county" i else i.

Definition checkLender (fields : Fields) (i : Issues) : Issues :=
  let lender := trimIfString (getProp fields "lender") in
  let plaintiff := trimIfString (getProp fields "plaintiff") in
  let i :=
    if (missing lender && missing plaintiff)%bool
    then pushError "Missing or empty lender/plaintiff" i else i in
  let lenderValue := coalesce lender plaintiff in
  match lenderValue with
  | VDate _ => pushError "Invalid lender/plaintiff value: date" i
  | VUndefined | VNull | VString _ => i
  | _ =>
      pushError ("Invalid lender/plaintiff value type: "
                 +:+ typeOf lenderValue) i
  end.

(** The warnings on the sign and the size of a UPB. *)
Definition upbWarnings (n : num E) (i : Issues) : Issues :=
  if num_ltb E n (num_of_Z E 0) then pushWarning "UPB is negative" i
  else if num_eqb E n (num_of_Z E 0) then pushWarning "UPB is zero" i
  else if num_ltb E (num_of_Z E 1000000000) n
       then pushWarning "UPB seems unusually high" i
  else i.

(** [/[^0-9.-]/g] *)
Definition reNotNumeric : regex :=
  Class true [CRange "0" "9"; CChar "."; CChar "-"].

Definition checkUPB (fields : Fields) (i : Issues)
    : Issues * option (num E) :=
  match getProp fields "upb" with
  | VUndefined | VNull => (pushWarning "UPB is missing" i, None)
  | VString s =>
      let cleaned := replaceAll false reNotNumeric EmptyString (trim s) in
      if isEmpty cleaned then
        (pushError "UPB is empty or contains no numbers" i, None)
      else
        let parsed := parseFloat E cleaned in
        if num_isNaN E parsed then
          (pushError ("Invalid UPB format: " +:+ dq +:+ s +:+ dq) i, None)
        else (upbWarnings parsed i, Some parsed)
  | VNumber n => (upbWarnings n i, Some n)
  | v => (pushError ("Invalid UPB type: " +:+ typeOf v) i, None)
  end.

(** The warnings on the age of a date. Every [new Date()] of one call is
    taken to read the same instant [now]. *)
Definition dateWarnings (t : Z) (i : Issues) : Issues :=
  let i :=
    if Z.ltb (now E) t
    then pushWarning "Complaint date is in the future" i else i in
  let tenYearsAgo := tenYearsBefore E (now E) in
  if Z.ltb t tenYearsAgo
  then pushWarning "Complaint date is more than 10 years old" i
  else i.

Definition checkDate (fields : Fields) (i : Issues) : Issues * option Z :=
  let v := getProp fields "complaintDate" in
  if truthy v then
    match v with
    | VDate None => (pushError "Invalid Date object" i, None)
    | VDate (Some t) => (dateWarnings t i, Some t)
    | VString s =>
        let trimmed := trim s in
        if isEmpty trimmed then
          (pushError "Complaint date is empty string" i, None)
        else
          match dateParse E trimmed with
          | None =>
              (pushError ("Invalid date format: " +:+ dq +:+ trimmed +:+ dq) i,
               None)
          | Some t => (dateWarnings t i, Some t)
          end
    | _ => (pushError ("Invalid date type: " +:+ typeOf v) i, None)
    end
  else (pushWarning "Complaint date is missing" i, None).

(** The callback of [jsonFields.forEach]. *)
Definition checkJSONField (i : Issues) (kv : string * JSValue) : Issues :=
  let result := validateJSONField (snd kv) (fst kv) in
  match jr_error result with
  | Some err =>
      if (negb (jr_isValid result) && negb (isEmpty err))%bool then
        pushError err i
      else if (jr_wasFixed result && negb (isEmpty err))%bool then
        pushWarning err i
      else i
  | None => i
  end.

(** Everything [validateRow] computes before it builds its result: the
    two arrays, the coerced UPB and the coerced date. *)
Definition collectIssues (fields : Fields)
    : Issues * option (num E) * option Z :=
  let i := checkPropertyAddress fields noIssues in
  let i := checkCounty fields i in
  let i := checkLender fields i in
  let '(i, upb) := checkUPB fields i in
  let '(i, complaintDate) := checkDate fields i in
  let i := fold_left checkJSONField (scanForJSONFields fields) i in
  (i, upb, complaintDate).

Definition dateObjectOf (t : option Z) : option DateValue :=
  match t with
  | Some ms => Some (DateObject (Some ms))
  | None => None
  end.

(** [validateRow] on a row object. The property [isDuplicate] is not set
    here: the record has the one the row brings, if any. *)
Definition validateFields (fields : Fields) : ProcessedComplaint :=
  let '(i, upb, complaintDate) := collectIssues fields in
  let allIssues :=
    if Nat.ltb 0 (length (i_errors i)) then i_errors i else i_warnings i in
  {| row := fields;
     upb := upb;
     complaintDate := dateObjectOf complaintDate;
     isValid := Nat.eqb (length (i_errors i)) 0;
     errors := if Nat.ltb 0 (length allIssues) then Some allIssues else None;
     normalizedCounty := EmptyString;
     normalizedLender := EmptyString;
     isDuplicate := truthy (getProp fields "isDuplicate") |}.

(** [validateRow]: reading [row.propertyAddress] throws a [TypeError] when
    the row is [null] or [undefined]. *)
Definition validateRow (r : RawRow) (_index : nat)
    : Completion ProcessedComplaint :=
  match r with
  | RowObject fields => Normal (validateFields fields)
  | RowNull => Throw (nullishRowError E true)
  | RowUndefined => Throw (nullishRowError E false)
  end.

(* ------------------------------------------------------------------ *)
(** ** dataQuality.ts: processRowsWithQualityChecks *)
(* ------------------------------------------------------------------ *)

(** An entry of [issues]. [di_sharesErrors] records that [errors] is the
    very array held by the processed record of the same row (the entry was
    built with [validated.errors]), so that a later [unshift] on it shows
    in that record too. *)
Record DataQualityIssue := {
  di_rowIndex : nat;
  di_row : RawRow;
  di_errors : list string;
  di_duplicate : bool;
  di_original : option nat;
  di_sharesErrors : bool
}.

Record Summary := {
  totalRows : nat;
  validRows : nat;
  invalidRows : nat;
  duplicateRows : nat;
  rowsWithJSONErrors : nat;
  rowsWithOtherErrors : nat
}.

Record QualityReport := {
  processed : list ProcessedComplaint;
  issues : list DataQualityIssue;
  summary : Summary
}.

(** [array.forEach((x, index) => ...)] threading a state. *)
Fixpoint forEachIndexed {St A : Type} (f : St -> nat -> A -> St)
    (index : nat) (l : list A) (st : St) : St :=
  match l with
  | [] => st
  | x :: rest => forEachIndexed f (S index) rest (f st index x)
  end.

(** The state of the first pass. *)
Record FirstPass := {
  fp_processed : list ProcessedComplaint;
  fp_issues : list DataQualityIssue;
  fp_json : nat;
  fp_other : nat
}.

(** [validated.errors?.some(err => err.toLowerCase().includes('json')) || false] *)
Definition hasJSONError (errs : option (list string)) : bool :=
  match errs with
  | Some l => existsb (fun err => includes "json" (toLowerCase err)) l
  | None => false
  end.

Definition hasErrors (errs : option (list string)) : bool :=
  match errs with
  | Some l => Nat.ltb 0 (length l)
  | None => false
  end.

(** The record pushed by the [catch] clause. Validation throws on [null]
    and [undefined] only, where the spread copies nothing, so the record
    has neither a UPB nor a date. *)
Definition failedRecord (r : RawRow) (errorMsg : string)
    : ProcessedComplaint :=
  {| row := spread r;
     upb := None;
     complaintDate := None;
     isValid := false;
     errors := Some ["Validation failed: " +:+ errorMsg];
     normalizedCounty := EmptyString;
     normalizedLender := EmptyString;
     isDuplicate := truthy (getProp (spread r) "isDuplicate") |}.

Definition firstPassStep (st : FirstPass) (index : nat) (r : RawRow)
    : FirstPass :=
  match validateRow r index with
  | Normal validated =>
      let hasJSON := hasJSONError (errors validated) in
      let json := if hasJSON then S (fp_json st) else fp_json st in
      if (negb (isValid validated) || hasErrors (errors validated))%bool then
        {| fp_processed := fp_processed st ++ [validated];
           fp_issues :=
             fp_issues st ++
               [{| di_rowIndex := index;
                   di_row := r;
                   di_errors := default [] (errors validated);
                   di_duplicate := false;
                   di_original := None;
                   di_sharesErrors :=
                     match errors validated with
                     | Some _ => true
                     | None => false
                     end |}];
           fp_json := json;
           fp_other := if negb hasJSON then S (fp_other st) else fp_other st |}
      else
        {| fp_processed := fp_processed st ++ [validated];
           fp_issues := fp_issues st;
           fp_json := json;
           fp_other := fp_other st |}
  | Throw errorMsg =>
      {| fp_processed := fp_processed st ++ [failedRecord r errorMsg];
         fp_issues :=
           fp_issues st ++
             [{| di_rowIndex := index;
                 di_row := r;
                 di_errors := ["Validation exception: " +:+ errorMsg];
                 di_duplicate := false;
                 di_original := None;
                 di_sharesErrors := false |}];
         fp_json := fp_json st;
         fp_other := S (fp_other st) |}
  end.

Definition firstPass (rows : list RawRow) : FirstPass :=
  forEachIndexed firstPassStep 0 rows
    {| fp_processed := []; fp_issues := []; fp_json := 0; fp_other := 0 |}.

(** The callback of the normalizing [processed.forEach]. *)
Definition normalizeRecord (p : ProcessedComplaint) : ProcessedComplaint :=
  setNormalized
    (normalizeCounty (getProp (row p) "county"))
    (normalizeLender (orElse (getProp (row p) "lender")
                             (getProp (row p) "plaintiff")))
    p.

(** The state of the pass that merges the duplicates into the report. *)
Record MergePass := {
  mp_processed : list ProcessedComplaint;
  mp_issues : list DataQualityIssue;
  mp_count : nat
}.

(** [`Duplicate row (matches row ${(duplicateOf ?? 0) + 1})`] *)
Definition duplicateMessage (info : DuplicateInfo) : string :=
  "Duplicate row (matches row "
  +:+ natToString (default 0 (di_duplicateOf info) + 1) +:+ ")".

(** [issues.find(issue => issue.rowIndex === index)], with the place of
    the entry found. *)
Fixpoint findIssue (index : nat) (pos : nat) (l : list DataQualityIssue)
    : option (nat * DataQualityIssue) :=
  match l with
  | [] => None
  | issue :: rest =>
      if Nat.eqb (di_rowIndex issue) index then Some (pos, issue)
      else findIssue index (S pos) rest
  end.

(** The callback of [duplicateMap.forEach]. Reading a property of
    [processed[index]] throws when there is no such element. *)
Definition mergeStep (rows : list RawRow) (st : MergePass)
    (entry : nat * DuplicateInfo) : Completion MergePass :=
  let '(index, info) := entry in
  if di_isDuplicate info then
    match mp_processed st !! index with
    | None => Throw (nullishRowError E false)
    | Some p =>
        let marked := <[index := setDuplicate p]> (mp_processed st) in
        match findIssue index 0 (mp_issues st) with
        | Some (pos, existing) =>
            let errs :=
              if negb (existsb (String.eqb "Duplicate row")
                               (di_errors existing))
              then duplicateMessage info :: di_errors existing
              else di_errors existing in
            let updated :=
              {| di_rowIndex := di_rowIndex existing;
                 di_row := di_row existing;
                 di_errors := errs;
                 di_duplicate := true;
                 di_original := di_duplicateOf info;
                 di_sharesErrors := di_sharesErrors existing |} in
            Normal
              {| mp_processed :=
                   if di_sharesErrors existing
                   then <[index := setErrors (Some errs) (setDuplicate p)]>
                          (mp_processed st)
                   else marked;
                 mp_issues := <[pos := updated]> (mp_issues st);
                 mp_count := S (mp_count st) |}
        | None =>
            Normal
              {| mp_processed := marked;
                 mp_issues :=
                   mp_issues st ++
                     [{| di_rowIndex := index;
                         di_row := nth index rows RowUndefined;
                         di_errors := [duplicateMessage info];
                         di_duplicate := true;
                         di_original := di_duplicateOf info;
                         di_sharesErrors := false |}];
                 mp_count := S (mp_count st) |}
        end
    end
  else Normal st.

Fixpoint mergeAll (rows : list RawRow) (entries : list (nat * DuplicateInfo))
    (st : MergePass) : Completion MergePass :=
  match entries with
  | [] => Normal st
  | entry :: rest =>
      bindC (mergeStep rows st entry) (fun st' => mergeAll rows rest st')
  end.

Definition countsAsValid (p : ProcessedComplaint) : bool :=
  (isValid p && negb (isDuplicate p))%bool.

Definition processRowsWithQualityChecks (rows : list RawRow)
    : Completion QualityReport :=
  let first := firstPass rows in
  let normalized := map normalizeRecord (fp_processed first) in
  bindC (detectDuplicates normalized) (fun duplicateMap =>
  bindC (mergeAll rows duplicateMap
           {| mp_processed := normalized;
              mp_issues := fp_issues first;
              mp_count := 0 |}) (fun merged =>
  let validRows := length (List.filter countsAsValid (mp_processed merged)) in
  let invalidRows := length (mp_processed merged) - validRows in
  Normal
    {| processed := mp_processed merged;
       issues := mp_issues merged;
       summary :=
         {| totalRows := length rows;
            validRows := validRows;
            invalidRows := invalidRows;
            duplicateRows := mp_count merged;
            rowsWithJSONErrors := fp_json first;
            rowsWithOtherErrors := fp_other first |} |})).

(* ------------------------------------------------------------------ *)
(** ** calculations.ts: the four-week roll-up by county *)
(* ------------------------------------------------------------------ *)

Definition meetsCriteria (c : ProcessedComplaint) : bool :=
  let v := getProp (row c) "meetsCriteria" in
  if negb (truthy v) then false
  else includes "meets criteria" (toLowerCase (toStringValue v)).

Definition filterValidComplaints (complaints : list ProcessedComplaint)
    : list ProcessedComplaint :=
  List.filter countsAsValid complaints.

Record FourWeekRollUp := {
  county : string;
  totalComplaints : nat;
  totalUPB : num E;
  totalMeetsCriteria : nat;
  totalUPBMeetsCriteria : num E
}.

(** The time value of [c.complaintDate instanceof Date ? c.complaintDate
    : new Date(c.complaintDate)]; [None] is NaN. *)
Definition timeOf (d : DateValue) : option Z :=
  match d with
  | DateObject t => t
  | DateString s => dateParse E s
  end.

(** The callback of the first [filter]: [date >= fourWeeksAgo]. *)
Definition isRecent (fourWeeksAgo : Z) (c : ProcessedComplaint) : bool :=
  if negb (dateTruthy (complaintDate c)) then false
  else
    match complaintDate c with
    | Some d =>
        match timeOf d with
        | Some t => Z.leb fourWeeksAgo t
        | None => false
        end
    | None => false
    end.

(** [complaint.normalizedCounty || normalizeCounty(complaint.county)] *)
Definition countyOf (c : ProcessedComplaint) : string :=
  orString (normalizedCounty c) (normalizeCounty (getProp (row c) "county")).

Definition upbTruthy (c : ProcessedComplaint) : bool :=
  match upb c with
  | Some n => numTruthy n
  | None => false
  end.

Definition upbOr0 (c : ProcessedComplaint) : num E :=
  match upb c with
  | Some n => n
  | None => num_of_Z E 0
  end.

(** [countyMap], as its entries in insertion order. *)
Definition hasCounty (name : string) (m : list FourWeekRollUp) : bool :=
  existsb (fun stats => String.eqb (county stats) name) m.

(** The update of the entry that [countyMap.get(county)] returns. *)
Fixpoint updateStats (name : string) (f : FourWeekRollUp -> FourWeekRollUp)
    (m : list FourWeekRollUp) : list FourWeekRollUp :=
  match m with
  | [] => []
  | stats :: rest =>
      if String.eqb (county stats) name then f stats :: rest
      else stats :: updateStats name f rest
  end.

Definition emptyStats (name : string) : FourWeekRollUp :=
  {| county := name;
     totalComplaints := 0;
     totalUPB := num_of_Z E 0;
     totalMeetsCriteria := 0;
     totalUPBMeetsCriteria := num_of_Z E 0 |}.

(** The callback of [allRecentComplaints.forEach]. *)
Definition countComplaint (m : list FourWeekRollUp) (c : ProcessedComplaint)
    : list FourWeekRollUp :=
  let name := countyOf c in
  let m := if negb (hasCounty name m) then m ++ [emptyStats name] else m in
  updateStats name
    (fun stats =>
       {| county := county stats;
          totalComplaints := S (totalComplaints stats);
          totalUPB :=
            if (isValid c && upbTruthy c)%bool
            then num_add E (totalUPB stats) (upbOr0 c)
            else totalUPB stats;
          totalMeetsCriteria := totalMeetsCriteria stats;
          totalUPBMeetsCriteria := totalUPBMeetsCriteria stats |})
    m.

(** The callback of [validComplaints.forEach]. *)
Definition countCriteria (m : list FourWeekRollUp) (c : ProcessedComplaint)
    : list FourWeekRollUp :=
  if meetsCriteria c then
    updateStats (countyOf c)
      (fun stats =>
         {| county := county stats;
            totalComplaints := totalComplaints stats;
            totalUPB := totalUPB stats;
            totalMeetsCriteria := S (totalMeetsCriteria stats);
            totalUPBMeetsCriteria :=
              if upbTruthy c
              then num_add E (totalUPBMeetsCriteria stats) (upbOr0 c)
              else totalUPBMeetsCriteria stats |})
      m
  else m.

(** [Array.prototype.sort] with a comparator: a stable sort, here by
    insertion. An element goes before the first one it compares below. *)
Fixpoint insertSorted {A : Type} (cmp : A -> A -> Z) (x : A) (l : list A)
    : list A :=
  match l with
  | [] => [x]
  | y :: rest =>
      if Z.ltb (cmp x y) 0 then x :: y :: rest
      else y :: insertSorted cmp x rest
  end.

Definition sortWith {A : Type} (cmp : A -> A -> Z) (l : list A) : list A :=
  fold_left (fun acc x => insertSorted cmp x acc) l [].

Definition calculateFourWeekRollUp (complaints : list ProcessedComplaint)
    : list FourWeekRollUp :=
  let fourWeeksAgo := subDays E (now E) 28 in
  let allRecentComplaints := List.filter (isRecent fourWeeksAgo) complaints in
  let validComplaints := filterValidComplaints allRecentComplaints in
  let countyMap := fold_left countComplaint allRecentComplaints [] in
  let countyMap := fold_left countCriteria validComplaints countyMap in
  sortWith (fun a b => localeCompare E (county a) (county b)) countyMap.

End Model.

(* ================================================================== *)
(** * A reference engine *)
(* ================================================================== *)

(** Exact decimal numbers instead of doubles, dates in the form
    YYYY-MM-DD read as UTC midnights, a clock stopped at 2024-06-15, and
    strings compared by character codes. *)
Module Ref.
Import JsString.
Local Open Scope Z_scope.

(** [RDec m e] is [m / 10^e]. *)
Inductive RefNum :=
| RNaN
| RDec (m : Z) (e : nat).

Definition pow10 (e : nat) : Z := Z.pow 10 (Z.of_nat e).

Definition isNaN (x : RefNum) : bool :=
  match x with RNaN => true | RDec _ _ => false end.

Definition ltb (x y : RefNum) : bool :=
  match x, y with
  | RDec m1 e1, RDec m2 e2 => Z.ltb (m1 * pow10 e2) (m2 * pow10 e1)
  | _, _ => false
  end.

Definition eqb (x y : RefNum) : bool :=
  match x, y with
  | RDec m1 e1, RDec m2 e2 => Z.eqb (m1 * pow10 e2) (m2 * pow10 e1)
  | _, _ => false
  end.

Definition add (x y : RefNum) : RefNum :=
  match x, y with
  | RDec m1 e1, RDec m2 e2 => RDec (m1 * pow10 e2 + m2 * pow10 e1) (e1 + e2)%nat
  | _, _ => RNaN
  end.

(** The digits of a non-negative integer. *)
Fixpoint digitsOfZ (fuel : nat) (n : Z) (acc : string) : string :=
  match fuel with
  | O => acc
  | S f =>
      let acc' := String (ascii_of_N (Z.to_N (48 + n mod 10))) acc in
      if Z.ltb n 10 then acc' else digitsOfZ f (n / 10) acc'
  end.

Definition ZToString (n : Z) : string :=
  let a := Z.abs n in
  let body := digitsOfZ (S (Z.to_nat (Z.log2 a))) a EmptyString in
  if Z.ltb n 0 then String "-" body else body.

(** Drop the zeros at the end of the fraction. *)
Fixpoint reduce (m : Z) (e : nat) : Z * nat :=
  match e with
  | O => (m, O)
  | S e' => if Z.eqb (m mod 10) 0 then reduce (m / 10) e' else (m, e)
  end.

Fixpoint padLeft (n : nat) (s : string) : string :=
  match n with
  | O => s
  | S n' => if Nat.ltb (String.length s) n then padLeft n' (String "0" s) else s
  end.

Definition toString (x : RefNum) : string :=
  match x with
  | RNaN => "NaN"
  | RDec m e =>
      let '(m', e') := reduce m e in
      match e' with
      | O => ZToString m'
      | S _ =>
          let a := Z.abs m' in
          let whole := ZToString (a / pow10 e') in
          let frac := padLeft e' (ZToString (a mod pow10 e')) in
          (if Z.ltb m' 0 then "-" else EmptyString) +:+ whole +:+ "." +:+ frac
      end
  end.

Fixpoint readDigits (acc : Z) (n : nat) (s : string) : Z * nat * string :=
  match s with
  | String c s' =>
      if isDigit c
      then readDigits (10 * acc + (Z.of_N (code c) - 48)) (S n) s'
      else (acc, n, s)
  | EmptyString => (acc, n, s)
  end.

(** [parseFloat] on plain decimal notation: the longest prefix made of a
    sign, digits, a dot and digits. *)
Definition refParseFloat (s : string) : RefNum :=
  let s := trimStart s in
  let '(negative, s1) :=
    match s with
    | String "-" s' => (true, s')
    | String "+" s' => (false, s')
    | _ => (false, s)
    end in
  let '(whole, nWhole, s2) := readDigits 0 0%nat s1 in
  let '(frac, nFrac, _) :=
    match s2 with
    | String "." s' => readDigits 0 0%nat s'
    | _ => (0, 0%nat, s2)
    end in
  if Nat.eqb (nWhole + nFrac)%nat 0%nat then RNaN
  else
    let m := (whole * pow10 nFrac + frac) in
    RDec (if negative then (- m)%Z else m) nFrac.

(** Days since 1970-01-01 of a civil date, and back. *)
Definition daysFromCivil (y m d : Z) : Z :=
  let y' := if Z.leb m 2 then y - 1 else y in
  let era := y' / 400 in
  let yoe := y' - era * 400 in
  let doy := (153 * (m + (if Z.ltb 2 m then -3 else 9)) + 2) / 5 + d - 1 in
  let doe := yoe * 365 + yoe / 4 - yoe / 100 + doy in
  era * 146097 + doe - 719468.

Definition civilFromDays (z : Z) : Z * Z * Z :=
  let z' := z + 719468 in
  let era := z' / 146097 in
  let doe := z' - era * 146097 in
  let yoe := (doe - doe / 1460 + doe / 36524 - doe / 146096) / 365 in
  let doy := doe - (365 * yoe + yoe / 4 - yoe / 100) in
  let mp := (5 * doy + 2) / 153 in
  let d := doy - (153 * mp + 2) / 5 + 1 in
  let m := mp + (if Z.ltb mp 10 then 3 else -9) in
  let y := yoe + era * 400 + (if Z.leb m 2 then 1 else 0) in
  (y, m, d).

Definition msPerDay : Z := 86400000.

Definition twoDigits (n : Z) : string := padLeft 2 (ZToString n).
Definition fourDigits (n : Z) : string := padLeft 4 (ZToString n).

Definition refToISODate (ms : Z) : string :=
  let '(y, m, d) := civilFromDays (ms / msPerDay) in
  fourDigits y +:+ "-" +:+ twoDigits m +:+ "-" +:+ twoDigits d.

Definition allDigits (s : string) : bool :=
  String.eqb (snd (readDigits 0 0%nat s)) EmptyString.

(** [new Date(s)] for YYYY-MM-DD with a month and a day that exist. *)
Definition refDateParse (s : string) : option Z :=
  let ys := take 4 s in
  let ms := take 2 (drop 5 s) in
  let ds := take 2 (drop 8 s) in
  if (Nat.eqb (String.length s) 10%nat
      && String.eqb (take 1 (drop 4 s)) "-"
      && String.eqb (take 1 (drop 7 s)) "-"
      && allDigits ys && allDigits ms && allDigits ds)%bool
  then
    let y := fst (fst (readDigits 0 0%nat ys)) in
    let m := fst (fst (readDigits 0 0%nat ms)) in
    let d := fst (fst (readDigits 0 0%nat ds)) in
    let days := daysFromCivil y m d in
    if (Z.leb 1 m && Z.leb m 12 && Z.leb 1 d
        && match civilFromDays days with
           | (y', m', d') => Z.eqb y y' && Z.eqb m m' && Z.eqb d d'
           end)%bool
    then Some (days * msPerDay)%Z
    else None
  else None.

Definition refDateToString (t : option Z) : string :=
  match t with
  | Some ms => refToISODate ms
  | None => "Invalid Date"
  end.

(** 2024-06-15, at midnight. *)
Definition refNow : Z := (daysFromCivil 2024 6 15 * msPerDay)%Z.

Definition refTenYearsBefore (ms : Z) : Z :=
  let '(y, m, d) := civilFromDays (ms / msPerDay) in
  (daysFromCivil (y - 10) m d * msPerDay + ms mod msPerDay)%Z.

Definition refSubDays (ms : Z) (n : nat) : Z := (ms - Z.of_nat n * msPerDay)%Z.

(** Strings by character codes. *)
Fixpoint compareCodes (a b : string) : Z :=
  match a, b with
  | EmptyString, EmptyString => 0
  | EmptyString, String _ _ => -1
  | String _ _, EmptyString => 1
  | String x a', String y b' =>
      if N.ltb (code x) (code y) then -1
      else if N.ltb (code y) (code x) then 1
      else compareCodes a' b'
  end.

Definition engine : Engine :=
  {| num := RefNum;
     num_of_Z := fun z => RDec z 0;
     num_isNaN := isNaN;
     num_ltb := ltb;
     num_eqb := eqb;
     num_add := add;
     num_toString := toString;
     parseFloat := refParseFloat;
     obj := unit;
     obj_toString := fun _ => "[object Object]";
     obj_lengthBelow5 := fun _ => false;
     dateParse := refDateParse;
     dateToString := refDateToString;
     toISODate := refToISODate;
     now := refNow;
     tenYearsBefore := refTenYearsBefore;
     subDays := refSubDays;
     jsonSyntaxError := fun _ => "Unexpected end of JSON input";
     invalidTimeError := "Invalid time value";
     nullishRowError := fun isNull =>
       if isNull
       then "Cannot read properties of null (reading 'propertyAddress')"
       else "Cannot read properties of undefined (reading 'propertyAddress')";
     localeCompare := compareCodes |}.

End Ref.

(* ================================================================== *)
(** * Rows and records to run the code on *)
(* ================================================================== *)

Module Examples.
Import JsString.

#[local] Existing Instance Ref.engine.

Definition number (z : Z) : JSValue := @VNumber Ref.engine (Ref.RDec z 0).

Definition complaint (address countyName lender : string) (balance : Z)
    (criteria date : string) : Fields :=
  [ ("propertyAddress", VString address);
    ("county", VString countyName);
    ("lender", VString lender);
    ("upb", number balance);
    ("meetsCriteria", VString criteria);
    ("complaintDate", VString date) ].

(** The valid row of the test data, and one more. *)
Definition mainStreet : Fields :=
  complaint "123 Main St, New York, NY 10001" "New York"
            "ABC Mortgage Company Inc." 250000 "Meets criteria" "2024-01-15".

Definition pineRoad : Fields :=
  complaint "789 Pine Rd, Queens, NY 11101" "Queens"
            "DEF Financial Services" 320000 "Meets criteria" "2024-03-10".

(** A row of the window that lacks its county. *)
Definition noCounty : Fields :=
  [ ("propertyAddress", VString "12 Harbor Street");
    ("lender", VString "Harbor Bank");
    ("upb", number 100);
    ("meetsCriteria", VString "Meets criteria");
    ("complaintDate", VString "2024-06-10") ].

(** A batch with [null] in the middle. *)
Definition batchWithNull : list RawRow :=
  [RowObject mainStreet; RowNull; RowObject pineRoad].

(** A record as the tests of [detectDuplicates] build them: the row, with
    [isValid] set and a date still in string form. *)
Definition record (address : string) : ProcessedComplaint :=
  {| row := complaint address "New York" "ABC Mortgage Company Inc."
                      250000 "Meets criteria" "2024-01-15";
     upb := Some (Ref.RDec 250000 0);
     complaintDate := Some (DateString "2024-01-15");
     isValid := true;
     errors := None;
     normalizedCounty := EmptyString;
     normalizedLender := EmptyString;
     isDuplicate := false |}.

(** What to look at in a record and in a line of the roll-up. *)
Definition showRecord (c : ProcessedComplaint) : bool * option string :=
  (isValid c, option_map Ref.toString (upb c)).

Definition showLine (stats : FourWeekRollUp) : string * nat * string :=
  (county stats, totalComplaints stats, Ref.toString (totalUPB stats)).

(** Two records whose addresses differ by a full stop. *)
Definition nearDuplicates : list ProcessedComplaint :=
  [record "123 Main St"; record "123 Main St."].

End Examples.

(* ================================================================== *)
(** * Definitions that follow the words of the specification *)
(* ================================================================== *)

Section SpecSide.
Context {E : Engine}.
Import JsString.

(** The record that stands for a row after validation: the validated
    record, or the synthetic one when validation throws. *)
Definition recordOfRow (r : RawRow) : ProcessedComplaint :=
  match validateRow r 0 with
  | Normal validated => validated
  | Throw errorMsg => failedRecord r errorMsg
  end.

(** The issues a record reports. *)
Definition reportedIssues (p : ProcessedComplaint) : list string :=
  default [] (errors p).

(** Some issue mentions json, whatever the case of its letters. *)
Definition mentionsJSON (l : list string) : bool :=
  existsb (fun msg => includes "json" (toLowerCase msg)) l.

(** A row counts as a JSON row when validation returns and one of its
    reported issues mentions json. *)
Definition countedAsJSON (r : RawRow) : bool :=
  match validateRow r 0 with
  | Normal validated => mentionsJSON (reportedIssues validated)
  | Throw _ => false
  end.

(** A row counts as another error row when validation throws, or when it
    reports issues none of which mentions json. *)
Definition countedAsOther (r : RawRow) : bool :=
  match validateRow r 0 with
  | Normal validated =>
      (Nat.ltb 0 (length (reportedIssues validated))
       && negb (mentionsJSON (reportedIssues validated)))%bool
  | Throw _ => true
  end.


(** Row [j] registers key [k]: it is valid, it is not flagged as a
    duplicate, and [k] is one of its keys. *)
Definition registers (rows : list ProcessedComplaint)
    (infos : list DuplicateInfo) (j : nat) (k : string) : Prop :=
  exists r info keys,
    rows !! j = Some r /\ infos !! j = Some info
    /\ isValid r = true /\ di_isDuplicate info = false
    /\ createRowKeys r = Normal keys /\ In k keys.

(** When row [i] is examined, key [k] is registered under [j]: [j] is the
    first row before [i] that registers it. *)
Definition registeredTo (rows : list ProcessedComplaint)
    (infos : list DuplicateInfo) (i : nat) (k : string) (j : nat) : Prop :=
  j < i /\ registers rows infos j k
  /\ forall j', j' < j -> ~ registers rows infos j' k.

(** The keys of a valid record can be built. *)
Definition keysDefined (p : ProcessedComplaint) : bool :=
  (negb (isValid p)
   || match createRowKeys p with Normal _ => true | Throw _ => false end)%bool.

(** What the specification says of the entry of row [i]. *)
Definition entrySpec (rows : list ProcessedComplaint)
    (infos : list DuplicateInfo) (i : nat) (r : ProcessedComplaint)
    (info : DuplicateInfo) : Prop :=
  (isValid r = false ->
     info = {| di_isDuplicate := false; di_duplicateOf := None |})
  /\ (isValid r = true ->
      exists keys, createRowKeys r = Normal keys
      /\ (di_isDuplicate info = true <->
          exists k j, In k keys /\ registeredTo rows infos i k j)
      /\ (di_isDuplicate info = true ->
          exists before k after j,
            keys = before ++ k :: after
            /\ registeredTo rows infos i k j
            /\ (forall k' j', In k' before ->
                  ~ registeredTo rows infos i k' j')
            /\ di_duplicateOf info = Some j)
      /\ (di_isDuplicate info = false -> di_duplicateOf info = None)).

(** The registry [seenKeys] when [rows] have been examined with the
    results [infos]. *)
Definition SeenInv (rows : list ProcessedComplaint) (infos : list DuplicateInfo)
    (seen : gmap string nat) : Prop :=
  length rows = length infos
  /\ (forall k j, seen !! k = Some j ->
        registeredTo rows infos (length rows) k j)
  /\ (forall k, seen !! k = None ->
        forall j, j < length rows -> ~ registers rows infos j k).

(** Two records that differ at most in [errors] and [isDuplicate]. *)
Definition sameCore (p p' : ProcessedComplaint) : Prop :=
  isValid p' = isValid p /\ row p' = row p /\ upb p' = upb p
  /\ complaintDate p' = complaintDate p
  /\ normalizedCounty p' = normalizedCounty p
  /\ normalizedLender p' = normalizedLender p.

(** A record of the window: it has a date, and the date is not earlier
    than 28 days before the call. *)
Definition inWindow (c : ProcessedComplaint) : bool :=
  isRecent (subDays E (now E) 28) c.

Definition inCounty (name : string) (c : ProcessedComplaint) : bool :=
  String.eqb (countyOf c) name.

(** The balances of the records of [l], added up in their order. *)
Definition sumUPB (l : list ProcessedComplaint) : num E :=
  fold_left (fun acc c => num_add E acc (upbOr0 c)) l (num_of_Z E 0).

Definition qualifies (c : ProcessedComplaint) : bool :=
  (isValid c && negb (isDuplicate c) && meetsCriteria c)%bool.

(** The line of the roll-up for a county, in the words of the amended
    claim. *)
Definition rollUpOf (complaints : list ProcessedComplaint) (name : string)
    : FourWeekRollUp :=
  let window :=
    List.filter (fun c => (inWindow c && inCounty name c)%bool) complaints in
  {| county := name;
     totalComplaints := length window;
     totalUPB :=
       sumUPB (List.filter (fun c => (isValid c && upbTruthy c)%bool) window);
     totalMeetsCriteria := length (List.filter qualifies window);
     totalUPBMeetsCriteria :=
       sumUPB (List.filter (fun c => (qualifies c && upbTruthy c)%bool)
                           window) |}.

(** The total balance as the claim states it: over every record of the
    window, valid or not. *)
Definition claimedTotalUPB (complaints : list ProcessedComplaint)
    (name : string) : num E :=
  sumUPB (List.filter (fun c => (inWindow c && inCounty name c)%bool)
                      complaints).

(** The counties in the order in which the records first show them. *)
Definition addName (names : list string) (name : string) : list string :=
  if existsb (String.eqb name) names then names else names ++ [name].

Definition namesOf (l : list ProcessedComplaint) : list string :=
  fold_left addName (map countyOf l) [].

(** The entry of a county when [all] has gone through the first loop and
    [valid] through the second. *)
Definition statsAfter (all valid : list ProcessedComplaint) (name : string)
    : FourWeekRollUp :=
  {| county := name;
     totalComplaints := length (List.filter (inCounty name) all);
     totalUPB :=
       sumUPB (List.filter (fun c => (isValid c && upbTruthy c)%bool)
                           (List.filter (inCounty name) all));
     totalMeetsCriteria :=
       length (List.filter meetsCriteria (List.filter (inCounty name) valid));
     totalUPBMeetsCriteria :=
       sumUPB (List.filter (fun c => (meetsCriteria c && upbTruthy c)%bool)
                           (List.filter (inCounty name) valid)) |}.

(** The malformed text of the scenario: an object whose last string is
    not closed. *)
Definition badJSON : string :=
  "{" +:+ dq +:+ "incomplete" +:+ dq +:+ ": " +:+ dq +:+ "json".

(** An object that lacks its closing brace only. *)
Definition unclosedJSON : string :=
  "{" +:+ dq +:+ "key" +:+ dq +:+ ": " +:+ dq +:+ "value" +:+ dq.

(** A row whose county and lender are blank. *)
Definition blankRow : RawRow :=
  RowObject [ ("propertyAddress", VString "123 Main St");
              ("county", VString "   ");
              ("lender", VString "   ") ].

End SpecSide.

(* ================================================================== *)
(** * What an expression can match, and the county names that stay *)
(* ================================================================== *)

Section CountyNames.
Import JsString Regex Normalization.

(** The previous character after the text [m] has been read. *)
Fixpoint lastOr (prev : option ascii) (m : string) : option ascii :=
  match m with
  | EmptyString => prev
  | String a m' => lastOr (Some a) m'
  end.

(** [Matches ci r prev s prev' s']: read from [s], with [prev] just before
    it, the expression [r] can match a prefix and leave [s'], with [prev']
    just before it. *)
Inductive Matches (ci : bool)
    : regex -> option ascii -> string -> option ascii -> string -> Prop :=
| MEps p s : Matches ci Eps p s p s
| MChr c a p s : charEq ci c a = true -> Matches ci (Chr c) p (String a s) (Some a) s
| MAny a p s : isLineTerminator a = false -> Matches ci Any p (String a s) (Some a) s
| MClass negated items a p s :
    classMatches ci negated items a = true ->
    Matches ci (Class negated items) p (String a s) (Some a) s
| MSeq r1 r2 p s p1 s1 p2 s2 :
    Matches ci r1 p s p1 s1 -> Matches ci r2 p1 s1 p2 s2 ->
    Matches ci (Seq r1 r2) p s p2 s2
| MAltL r1 r2 p s p' s' : Matches ci r1 p s p' s' -> Matches ci (Alt r1 r2) p s p' s'
| MAltR r1 r2 p s p' s' : Matches ci r2 p s p' s' -> Matches ci (Alt r1 r2) p s p' s'
| MStarStop r p s : Matches ci (Star r) p s p s
| MStarStep r p s p1 s1 p2 s2 :
    Matches ci r p s p1 s1 -> Matches ci (Star r) p1 s1 p2 s2 ->
    Matches ci (Star r) p s p2 s2
| MBol s : Matches ci Bol None s None s
| MEol p : Matches ci Eol p EmptyString p EmptyString
| MWordB p s :
    xorb (isWordOpt p) (isWordOpt (headChar s)) = true ->
    Matches ci WordB p s p s.

(** No match anywhere in [s], read with [prev] before it. *)
Definition NoMatch (ci : bool) (r : regex) (prev : option ascii) (s : string)
    : Prop :=
  forall pre suf p' rest,
    s = pre +:+ suf -> ~ Matches ci r (lastOr prev pre) suf p' rest.

(** [m] is the literal [L] up to the flag [i]. *)
Fixpoint litEq (ci : bool) (L m : string) : bool :=
  match L, m with
  | EmptyString, EmptyString => true
  | String c L', String a m' => (charEq ci c a && litEq ci L' m')%bool
  | _, _ => false
  end.

(** Every character of [s] satisfies [f]. *)
Fixpoint allChars (f : ascii -> bool) (s : string) : bool :=
  match s with
  | EmptyString => true
  | String c s' => (f c && allChars f s')%bool
  end.

Definition isBlank (c : ascii) : bool := Ascii.eqb c " ".
Definition lowerOrBlank (c : ascii) : bool := (isLower c || isBlank c)%bool.

(** A non-empty run of word characters. *)
Definition wordy (w : string) : bool :=
  (negb (isEmpty w) && allChars isWord w)%bool.

Definition lowercaseLetters : list ascii := map ascii_of_nat (seq 97 26).

(** The name in lower case between two spaces, so that a whole word [w]
    of it shows as [" w "]. *)
Definition padded (s : string) : string := " " +:+ toLowerCase s +:+ " ".

(** The words [normalizeCounty] rewrites or removes. *)
Definition rewrittenWords : list string :=
  [" county "; " ny "; " nyc "; " new york city "; " st "; " ft "; "dade"].

(** [prefix] and one more letter as a whole word: what [\bst.\b] matches
    besides [st] and a space. *)
Definition followedBy (prefix : string) : list string :=
  map (fun x => " " +:+ prefix +:+ String x " ") lowercaseLetters.

Definition rewritePatterns : list string :=
  rewrittenWords ++ followedBy "st" ++ followedBy "ft".

Definition mentionsRewritten (s : string) : bool :=
  existsb (fun pat => includes pat (padded s)) rewritePatterns.

(** An upper-case letter and then lower-case letters. *)
Definition capitalizedWord (w : string) : bool :=
  match w with
  | String c rest => (isUpper c && allChars isLower rest)%bool
  | EmptyString => false
  end.

(** Capitalized words with one space between them, none of them one that
    [normalizeCounty] rewrites. *)
Definition plainName (y : string) : bool :=
  (forallb capitalizedWord (split1 " " y) && negb (mentionsRewritten y))%bool.

(** The expression mentions the literal [L]: whatever it matches holds
    [L], up to case. *)
Definition Mentions (r : regex) (L : string) : Prop :=
  forall p s p' s', Matches true r p s p' s' ->
    exists a m b, s = a +:+ m +:+ b /\ litEq true L m = true.

(** The names [normalizeCounty] leaves as they are: the plain ones and
    the one it writes itself. *)
Definition canonicalCounty (y : string) : bool :=
  (plainName y || String.eqb y "Miami-Dade")%bool.

End CountyNames.

Section SettledNames.
Import JsString Regex Normalization.

(** A character that [/[\s-]+/] takes for a separator of parts. *)
Definition isSeparator (c : ascii) : bool :=
  (isSpace c || Ascii.eqb c "-")%bool.

Definition separatorFree (w : string) : bool :=
  allChars (fun c => negb (isSeparator c)) w.

(** A part as the capitalization step writes it: not empty, without a
    separator in it, and the same after it is put in lower case and
    capitalized again. *)
Definition writtenPart (w : string) : bool :=
  (negb (isEmpty w) && separatorFree w
   && String.eqb (capitalize (toLowerCase w)) w)%bool.

(** The separator that joins the parts of [y]: the hyphen when [y] holds
    one, the space otherwise. *)
Definition separatorOf (y : string) : ascii :=
  if includes "-" y then "-"%char else " "%char.

(** A name as the capitalization step writes it: parts joined by single
    hyphens, or by single spaces. *)
Definition writtenName (y : string) : bool :=
  forallb writtenPart (split1 (separatorOf y) y).

(** One of the expressions of [normalizeCounty] finds something to
    rewrite in [y]: the state suffix, the county suffix, the name [dade],
    the spellings of Miami-Dade and the seven expressions of [countyMap]
    in [y] in lower case, and [Miami Dade] in [y]. *)
Definition rewritable (y : string) : bool :=
  let l := toLowerCase y in
  (test true reStateSuffix l
   || test true reCountySuffix l
   || String.eqb l "dade"
   || test true reMiamiDade l
   || existsb (fun kv => test true (fst kv) l) countyMap
   || test true reMiamiSpaceDade y)%bool.

(** The names on which a second pass has nothing to do: written as the
    capitalization writes them, with nothing to rewrite in them; and the
    one name that the function rewrites to itself. *)
Definition settledName (y : string) : bool :=
  ((writtenName y && negb (rewritable y)) || String.eqb y "Miami-Dade")%bool.

End SettledNames.

(** The texts of at most [n] characters of [alphabet]. *)
Fixpoint textsUpTo (alphabet : list ascii) (n : nat) : list string :=
  match n with
  | O => [EmptyString]
  | S n' =>
      EmptyString
      :: flat_map (fun s => map (fun c => String c s) alphabet)
                  (textsUpTo alphabet n')
  end.

(** The text holds characters of ASCII only, on which the case mappings
    and the spaces of this model are those of ECMAScript. *)
Definition asciiText (s : string) : bool :=
  allChars (fun c => N.ltb (JsString.code c) 128) s.

Section RollUpWindow.
Context {E : Engine}.

(** A record dated within the last 28 days, as the claim on the roll-up
    has the window: not earlier than 28 days before the call, and not
    later than the call. *)
Definition withinLast28Days (c : ProcessedComplaint) : bool :=
  (inWindow c
   && match complaintDate c with
      | Some d =>
          match timeOf d with
          | Some t => Z.leb t (now E)
          | None => false
          end
      | None => false
      end)%bool.

(** The count of a county as the claim states it: over the records dated
    within the last 28 days. *)
Definition claimedTotalComplaints (complaints : list ProcessedComplaint)
    (name : string) : nat :=
  length (List.filter
            (fun c => (withinLast28Days c && inCounty name c)%bool)
            complaints).

End RollUpWindow.


(* ================================================================== *)
(** * More of the code *)
(* ================================================================== *)

Section CharacterCounts.
Import JsString.

(** The characters of [s] that [p] rejects. *)
Fixpoint removeChars (p : ascii -> bool) (s : string) : string :=
  match s with
  | EmptyString => EmptyString
  | String c s' => if p c then removeChars p s' else String c (removeChars p s')
  end.

(** How many characters of [s] satisfy [p]. *)
Fixpoint countChars (p : ascii -> bool) (s : string) : nat :=
  match s with
  | EmptyString => 0
  | String c s' => (if p c then 1 else 0) + countChars p s'
  end.

End CharacterCounts.

(* ------------------------------------------------------------------ *)
(** ** services/googleSheets.ts: parseCSVLine *)
(* ------------------------------------------------------------------ *)

Module Csv.
Import JsString.

Definition quoteChar : ascii := ascii_of_nat 34.
Definition comma : ascii := ",".

(** The loop of [parseCSVLine] from index [i] on: [line] is what is left
    of the line at [i], [result], [current] and [inQuotes] are the
    variables of the function. An escaped quote moves [i] twice. *)
Fixpoint parseCSVFrom (result : list string) (current : string)
    (inQuotes : bool) (line : string) : list string :=
  match line with
  | EmptyString => result ++ [current]
  | String char rest =>
      if Ascii.eqb char quoteChar then
        match rest with
        | String next rest' =>
            if (inQuotes && Ascii.eqb next quoteChar)%bool
            then parseCSVFrom result (current +:+ String quoteChar EmptyString)
                   inQuotes rest'
            else parseCSVFrom result current (negb inQuotes) rest
        | EmptyString => parseCSVFrom result current (negb inQuotes) rest
        end
      else if (Ascii.eqb char comma && negb inQuotes)%bool
      then parseCSVFrom (result ++ [current]) EmptyString inQuotes rest
      else parseCSVFrom result (current +:+ String char EmptyString)
             inQuotes rest
  end.

Definition parseCSVLine (line : string) : list string :=
  parseCSVFrom [] EmptyString false line.

(** A field as a CSV writer quotes it: between quotes, each quote of the
    field written twice. *)
Fixpoint escapeQuotes (field : string) : string :=
  match field with
  | EmptyString => EmptyString
  | String c rest =>
      if Ascii.eqb c quoteChar
      then String quoteChar (String quoteChar (escapeQuotes rest))
      else String c (escapeQuotes rest)
  end.

Definition quoted (field : string) : string :=
  String quoteChar (escapeQuotes field +:+ String quoteChar EmptyString).

Definition quotedLine (fields : list string) : string :=
  join "," (map quoted fields).

Definition noQuote (c : ascii) : bool := negb (Ascii.eqb c quoteChar).
Definition plainChar (c : ascii) : bool :=
  (negb (Ascii.eqb c quoteChar) && negb (Ascii.eqb c comma))%bool.

End Csv.

(* ------------------------------------------------------------------ *)
(** ** Property reads on object literals *)
(* ------------------------------------------------------------------ *)

Module PlainObject.
Import JsString.

(** The properties every object literal inherits from
    [Object.prototype]; each of them reads as a function or an object,
    hence truthy. *)
Definition inheritedNames : list string :=
  [ "constructor"; "__defineGetter__"; "__defineSetter__"; "hasOwnProperty";
    "__lookupGetter__"; "__lookupSetter__"; "isPrototypeOf";
    "propertyIsEnumerable"; "toString"; "valueOf"; "__proto__";
    "toLocaleString" ].

Definition isInherited (key : string) : bool :=
  existsb (String.eqb key) inheritedNames.

(** What [table[key]] reads on an object literal with the own properties
    [table]. *)
Inductive Read (A : Type) :=
| Own (a : A)
| Inherited (name : string)
| Absent.
Arguments Own {A} a.
Arguments Inherited {A} name.
Arguments Absent {A}.

Fixpoint ownProp {A} (table : list (string * A)) (key : string) : option A :=
  match table with
  | [] => None
  | (k, v) :: rest => if String.eqb k key then Some v else ownProp rest key
  end.

Definition read {A} (table : list (string * A)) (key : string) : Read A :=
  match ownProp table key with
  | Some v => Own v
  | None => if isInherited key then Inherited key else Absent
  end.

End PlainObject.

(* ------------------------------------------------------------------ *)
(** ** config/columnMapping.ts *)
(* ------------------------------------------------------------------ *)

Module ColumnMapping.
Import JsString PlainObject.

Definition COLUMN_MAPPING : list (string * string) :=
  [ ("Property Address", "propertyAddress");
    ("County", "county");
    ("Plaintiff", "plaintiff");
    ("Sum of Unpaid Balance(s)", "upb");
    ("Unpaid Balance(s)", "upb");
    ("Meets Criteria?", "meetsCriteria");
    ("Processing Log", "complaintDate");
    ("Document Title", "documentTitle");
    ("Defendant", "defendant");
    ("Original Loan Amount", "originalLoanAmount");
    ("Default Date", "defaultDate") ].

(** What [mapColumnName] returns: a string, or the member of
    [Object.prototype] that the table inherits under that name. *)
Inductive ColumnName :=
| FieldName (s : string)
| PrototypeMember (name : string).

Definition mapColumnName (columnName : string) : ColumnName :=
  let trimmed := trim columnName in
  match read COLUMN_MAPPING trimmed with
  | Own v => if isEmpty v then FieldName trimmed else FieldName v
  | Inherited name => PrototypeMember name
  | Absent => FieldName trimmed
  end.

End ColumnMapping.

(* ------------------------------------------------------------------ *)
(** ** utils/regionMapping.ts *)
(* ------------------------------------------------------------------ *)

Section RegionMapping.
Context {E : Engine}.
Import JsString PlainObject.

Definition REGION_MAPPING : list (string * string) :=
  [ ("Miami-Dade", "Miami-Dade");
    ("Dade", "Miami-Dade");
    ("Miami Dade", "Miami-Dade");
    ("Miami-Dade County", "Miami-Dade");
    ("Miami Dade County", "Miami-Dade");
    ("Pinellas", "Other Florida");
    ("Pinellas County", "Other Florida");
    ("Orange", "Other Florida");
    ("Orange County", "Other Florida");
    ("Broward", "Other Florida");
    ("Broward County", "Other Florida");
    ("Collier", "Other Florida");
    ("Collier County", "Other Florida");
    ("Volusia", "Other Florida");
    ("Volusia County", "Other Florida");
    ("Kings", "New York");
    ("Kings County", "New York");
    ("Suffolk", "New York");
    ("Suffolk County", "New York");
    ("Bronx", "New York");
    ("Bronxs", "New York");
    ("Bronx County", "New York");
    ("New York", "New York");
    ("New York County", "New York");
    ("Queens", "New York");
    ("Queens County", "New York");
    ("Nassau", "New York");
    ("Nassau County", "New York");
    ("Rockland", "New York");
    ("Rockland County", "New York");
    ("Westchester", "New York");
    ("Westchester County", "New York") ].

(** What [getRegionFromCounty] returns: a region name, or the member of
    [Object.prototype] that the table inherits under the normalized
    name. *)
Inductive RegionResult :=
| Region (name : string)
| InheritedMember (name : string).

(** The loop over [Object.entries(REGION_MAPPING)]. *)
Fixpoint matchIgnoringCase (entries : list (string * string))
    (normalizedLower : string) : option string :=
  match entries with
  | [] => None
  | (key, region) :: rest =>
      if String.eqb (toLowerCase key) normalizedLower then Some region
      else matchIgnoringCase rest normalizedLower
  end.

(** [getRegionFromCounty] once the county name is normalized. *)
Definition regionOfNormalized (normalized : string) : RegionResult :=
  let fallback :=
    match matchIgnoringCase REGION_MAPPING (toLowerCase normalized) with
    | Some region => Region region
    | None => Region "Other/Unmapped"
    end in
  match read REGION_MAPPING normalized with
  | Own region => if isEmpty region then fallback else Region region
  | Inherited name => InheritedMember name
  | Absent => fallback
  end.

Definition getRegionFromCounty (county : JSValue) : RegionResult :=
  if negb (truthy county) then Region "Other/Unmapped"
  else regionOfNormalized (normalizeCounty county).

Definition getOrderedRegions : list string :=
  ["Miami-Dade"; "Other Florida"; "New York"].

Definition getAllRegions : list string :=
  ["Miami-Dade"; "Other Florida"; "New York"; "Other/Unmapped"].

End RegionMapping.

(* ------------------------------------------------------------------ *)
(** ** utils/calculations.ts: the other figures *)
(* ------------------------------------------------------------------ *)

(** What [calculations.ts] takes from date-fns besides [subDays], and
    from the engine besides what [Engine] has, on dates as milliseconds
    since the epoch. [format] throws a [RangeError] on the Invalid Date;
    [formatMonth] is [format(date, 'yyyy-MM')] on the others. [fullYear]
    is [date.getFullYear().toString()]. [missingEntryError] is the message
    of the [TypeError] that reading [totalComplaints] of [undefined]
    throws. *)
Record Runtime := {
  startOfYear : Z -> Z;
  startOfMonth : Z -> Z;
  formatMonth : Z -> string;
  formatRangeError : string;
  fullYear : Z -> string;
  missingEntryError : string
}.
Existing Class Runtime.

Section MoreCalculations.
Context {E : Engine} {RT : Runtime}.
Import JsString.

(** ** A [Map] keyed by strings, as its values in insertion order *)

Definition hasKey {A} (key : A -> string) (name : string) (m : list A)
    : bool :=
  existsb (fun entry => String.eqb (key entry) name) m.

(** The mutation of the entry that [map.get(name)] returns. *)
Fixpoint updateEntry {A} (key : A -> string) (name : string) (f : A -> A)
    (m : list A) : list A :=
  match m with
  | [] => []
  | entry :: rest =>
      if String.eqb (key entry) name then f entry :: rest
      else entry :: updateEntry key name f rest
  end.

(** [if (!map.has(name)) map.set(name, fresh); const stats =
    map.get(name)!;] and then the mutation [f] of [stats]. *)
Definition upsert {A} (key : A -> string) (name : string) (fresh : A)
    (f : A -> A) (m : list A) : list A :=
  updateEntry key name f (if negb (hasKey key name m) then m ++ [fresh] else m).

(** ** Reads shared by the calculations *)

(** [c.normalizedLender || normalizeLender(c.lender || c.plaintiff)] *)
Definition lenderOf (c : ProcessedComplaint) : string :=
  orString (normalizedLender c)
    (normalizeLender (orElse (getProp (row c) "lender")
                             (getProp (row c) "plaintiff"))).

(** [c.upb || 0] *)
Definition upbOrZero (c : ProcessedComplaint) : num E :=
  if upbTruthy c then upbOr0 c else num_of_Z E 0.

(** [typeof c.upb === 'number' && !isNaN(c.upb) ? c.upb : 0] *)
Definition upbNumber (c : ProcessedComplaint) : num E :=
  match upb c with
  | Some n => if negb (num_isNaN E n) then n else num_of_Z E 0
  | None => num_of_Z E 0
  end.

(** The time value of [c.complaintDate instanceof Date ? c.complaintDate
    : new Date(c.complaintDate!)]; a missing date reads as
    [new Date(undefined)], the Invalid Date. *)
Definition dateOf (c : ProcessedComplaint) : option Z :=
  match complaintDate c with
  | Some d => timeOf d
  | None => None
  end.

(** [date >= start] *)
Definition notBefore (start : Z) (date : option Z) : bool :=
  match date with
  | Some t => Z.leb start t
  | None => false
  end.

(** [b.complaintDate.getTime() - a.complaintDate.getTime()]; a comparator
    that returns NaN counts as one that returns zero. *)
Definition newestFirst (a b : option Z) : Z :=
  match a, b with
  | Some ta, Some tb => (tb - ta)%Z
  | _, _ => 0%Z
  end.

(** ** calculateYTDStats and calculateCurrentMonthStats *)

Record YTDStats := {
  ytd_totalComplaints : nat;
  ytd_totalMeetsCriteria : nat;
  ytd_totalUPBMeetsCriteria : num E
}.

(** The callback of the [forEach] of both functions. *)
Definition countIfMeets (stats : YTDStats) (c : ProcessedComplaint)
    : YTDStats :=
  if meetsCriteria c then
    {| ytd_totalComplaints := ytd_totalComplaints stats;
       ytd_totalMeetsCriteria := S (ytd_totalMeetsCriteria stats);
       ytd_totalUPBMeetsCriteria :=
         if upbTruthy c
         then num_add E (ytd_totalUPBMeetsCriteria stats) (upbOr0 c)
         else ytd_totalUPBMeetsCriteria stats |}
  else stats.

(** The body the two functions share, from the start of the period on. *)
Definition statsSince (start : Z) (complaints : list ProcessedComplaint)
    : YTDStats :=
  let validComplaints := filterValidComplaints complaints in
  let periodComplaints := List.filter (isRecent start) validComplaints in
  fold_left countIfMeets periodComplaints
    {| ytd_totalComplaints := length periodComplaints;
       ytd_totalMeetsCriteria := 0;
       ytd_totalUPBMeetsCriteria := num_of_Z E 0 |}.

Definition calculateYTDStats (complaints : list ProcessedComplaint)
    : YTDStats :=
  statsSince (startOfYear RT (now E)) complaints.

Definition calculateCurrentMonthStats (complaints : list ProcessedComplaint)
    : YTDStats :=
  statsSince (startOfMonth RT (now E)) complaints.

(** ** getRecentComplaints, getLast7DaysComplaints, getFlowThroughYTD and
    getFlowThroughLastWeek *)

Record RecentComplaint := {
  rc_propertyAddress : JSValue;
  rc_county : string;
  rc_lender : string;
  rc_upb : num E;
  rc_complaintDate : option Z
}.

Record Last7DaysComplaint := {
  l7_propertyAddress : JSValue;
  l7_lender : string;
  l7_totalUPB : num E;
  l7_complaintDate : option Z;
  l7_county : string
}.

Record FlowThroughDeal := {
  ft_propertyAddress : JSValue;
  ft_county : string;
  ft_lender : string;
  ft_upb : num E;
  ft_complaintDate : option Z;
  ft_meetsCriteria : bool
}.

(** [c.propertyAddress || 'Unknown'] *)
Definition addressOf (c : ProcessedComplaint) : JSValue :=
  orElse (getProp (row c) "propertyAddress") (VString "Unknown").

(** The complaints the four lists start from: valid, not duplicates,
    meeting the criteria, and dated from [start] on. *)
Definition qualifyingSince (start : Z) (complaints : list ProcessedComplaint)
    : list ProcessedComplaint :=
  let validComplaints := filterValidComplaints complaints in
  let qualifyingComplaints := List.filter meetsCriteria validComplaints in
  List.filter (isRecent start) qualifyingComplaints.

Definition toRecentComplaint (c : ProcessedComplaint) : RecentComplaint :=
  {| rc_propertyAddress := addressOf c;
     rc_county := countyOf c;
     rc_lender := lenderOf c;
     rc_upb := upbOrZero c;
     rc_complaintDate := dateOf c |}.

Definition getRecentComplaints (complaints : list ProcessedComplaint)
    : list RecentComplaint :=
  let fifteenDaysAgo := subDays E (now E) 15 in
  sortWith (fun a b => newestFirst (rc_complaintDate a) (rc_complaintDate b))
    (map toRecentComplaint (qualifyingSince fifteenDaysAgo complaints)).

Definition toLast7DaysComplaint (c : ProcessedComplaint)
    : Last7DaysComplaint :=
  {| l7_propertyAddress := addressOf c;
     l7_lender := lenderOf c;
     l7_totalUPB := upbOrZero c;
     l7_complaintDate := dateOf c;
     l7_county := countyOf c |}.

(** [getLast7DaysComplaints] when its [new Date()] reads [today]. *)
Definition getLast7DaysComplaintsAt (today : Z)
    (complaints : list ProcessedComplaint) : list Last7DaysComplaint :=
  let sevenDaysAgo := subDays E today 7 in
  sortWith (fun a b => newestFirst (l7_complaintDate a) (l7_complaintDate b))
    (map toLast7DaysComplaint (qualifyingSince sevenDaysAgo complaints)).

Definition getLast7DaysComplaints (complaints : list ProcessedComplaint)
    : list Last7DaysComplaint :=
  getLast7DaysComplaintsAt (now E) complaints.

Definition toFlowThroughDeal (c : ProcessedComplaint) : FlowThroughDeal :=
  {| ft_propertyAddress := addressOf c;
     ft_county := countyOf c;
     ft_lender := lenderOf c;
     ft_upb := upbOrZero c;
     ft_complaintDate := dateOf c;
     ft_meetsCriteria := true |}.

Definition flowThroughSince (start : Z) (complaints : list ProcessedComplaint)
    : list FlowThroughDeal :=
  sortWith (fun a b => newestFirst (ft_complaintDate a) (ft_complaintDate b))
    (map toFlowThroughDeal (qualifyingSince start complaints)).

Definition getFlowThroughYTD (complaints : list ProcessedComplaint)
    : list FlowThroughDeal :=
  flowThroughSince (startOfYear RT (now E)) complaints.

(** [getFlowThroughLastWeek] when its [new Date()] reads [today]. *)
Definition getFlowThroughLastWeekAt (today : Z)
    (complaints : list ProcessedComplaint) : list FlowThroughDeal :=
  flowThroughSince (subDays E today 7) complaints.

Definition getFlowThroughLastWeek (complaints : list ProcessedComplaint)
    : list FlowThroughDeal :=
  getFlowThroughLastWeekAt (now E) complaints.

(** ** calculateLenderCriteriaSummary *)

Record LenderCriteriaSummary := {
  lc_lender : string;
  lc_totalComplaints : nat;
  lc_totalUPB : num E
}.

(** [normalizeLender(c.normalizedLender || c.lender || c.plaintiff)] *)
Definition summaryLender (c : ProcessedComplaint) : string :=
  normalizeLender
    (orElse (orElse (VString (normalizedLender c)) (getProp (row c) "lender"))
            (getProp (row c) "plaintiff")).

Definition countForLender (m : list LenderCriteriaSummary)
    (c : ProcessedComplaint) : list LenderCriteriaSummary :=
  let lender := summaryLender c in
  let upb := upbNumber c in
  upsert lc_lender lender
    {| lc_lender := lender; lc_totalComplaints := 0;
       lc_totalUPB := num_of_Z E 0 |}
    (fun stats =>
       {| lc_lender := lc_lender stats;
          lc_totalComplaints := S (lc_totalComplaints stats);
          lc_totalUPB := num_add E (lc_totalUPB stats) upb |})
    m.

Definition calculateLenderCriteriaSummary
    (complaints : list ProcessedComplaint) : list LenderCriteriaSummary :=
  let validComplaints := filterValidComplaints complaints in
  let qualifyingComplaints := List.filter meetsCriteria validComplaints in
  fold_left countForLender qualifyingComplaints [].

(** ** calculateFourWeekRollUpWeekly *)

Record WeekData := {
  week : nat;
  wd_totalComplaints : nat;
  wd_totalUPB : num E
}.

Record FourWeekRollUpWeekly := {
  w_county : string;
  week1 : WeekData;
  week2 : WeekData;
  week3 : WeekData;
  week4 : WeekData;
  w_totalComplaints : nat;
  w_totalUPB : num E;
  w_totalMeetsCriteria : nat;
  w_totalUPBMeetsCriteria : num E
}.

Definition emptyWeek (n : nat) : WeekData :=
  {| week := n; wd_totalComplaints := 0; wd_totalUPB := num_of_Z E 0 |}.

Definition emptyWeekly (name : string) : FourWeekRollUpWeekly :=
  {| w_county := name;
     week1 := emptyWeek 1; week2 := emptyWeek 2;
     week3 := emptyWeek 3; week4 := emptyWeek 4;
     w_totalComplaints := 0; w_totalUPB := num_of_Z E 0;
     w_totalMeetsCriteria := 0; w_totalUPBMeetsCriteria := num_of_Z E 0 |}.

(** [w.totalComplaints++; w.totalUPB += upb] *)
Definition addToWeek (upb : num E) (w : WeekData) : WeekData :=
  {| week := week w;
     wd_totalComplaints := S (wd_totalComplaints w);
     wd_totalUPB := num_add E (wd_totalUPB w) upb |}.

(** The week a date falls in, 1 to 4, by the chain of comparisons; 0 when
    every comparison fails. *)
Definition weekOf (today : Z) (date : option Z) : nat :=
  if notBefore (subDays E today 7) date then 1
  else if notBefore (subDays E today 14) date then 2
  else if notBefore (subDays E today 21) date then 3
  else if notBefore (subDays E today 28) date then 4
  else 0.

(** The mutation of the entry of the county by one complaint. *)
Definition addToWeekly (today : Z) (c : ProcessedComplaint)
    (stats : FourWeekRollUpWeekly) : FourWeekRollUpWeekly :=
  let upb := upbOrZero c in
  let n := weekOf today (dateOf c) in
  {| w_county := w_county stats;
     week1 := if Nat.eqb n 1 then addToWeek upb (week1 stats) else week1 stats;
     week2 := if Nat.eqb n 2 then addToWeek upb (week2 stats) else week2 stats;
     week3 := if Nat.eqb n 3 then addToWeek upb (week3 stats) else week3 stats;
     week4 := if Nat.eqb n 4 then addToWeek upb (week4 stats) else week4 stats;
     w_totalComplaints := S (w_totalComplaints stats);
     w_totalUPB := num_add E (w_totalUPB stats) upb;
     w_totalMeetsCriteria := S (w_totalMeetsCriteria stats);
     w_totalUPBMeetsCriteria :=
       num_add E (w_totalUPBMeetsCriteria stats) upb |}.

Definition countWeekly (today : Z) (m : list FourWeekRollUpWeekly)
    (c : ProcessedComplaint) : list FourWeekRollUpWeekly :=
  let name := countyOf c in
  upsert w_county name (emptyWeekly name) (addToWeekly today c) m.

(** The callback of the [filter] that selects the complaints. *)
Definition qualifiesWeekly (fourWeeksAgo : Z) (c : ProcessedComplaint)
    : bool :=
  if (negb (dateTruthy (complaintDate c)) || negb (meetsCriteria c))%bool
  then false
  else notBefore fourWeeksAgo (dateOf c).

Definition calculateFourWeekRollUpWeekly
    (complaints : list ProcessedComplaint) : list FourWeekRollUpWeekly :=
  let today := now E in
  let fourWeeksAgo := subDays E today 28 in
  let validComplaints := filterValidComplaints complaints in
  let qualifyingComplaints :=
    List.filter (qualifiesWeekly fourWeeksAgo) validComplaints in
  let countyMap := fold_left (countWeekly today) qualifyingComplaints [] in
  sortWith (fun a b => localeCompare E (w_county a) (w_county b)) countyMap.

(** ** calculateMonthlyTrendSummary *)

Record MonthlyTrendSummary := {
  mt_month : string;
  mt_totalComplaints : nat;
  mt_complaintsMeetingCriteria : nat;
  mt_totalUPB : num E;
  mt_upbMeetingCriteria : num E
}.

(** [format(date, 'yyyy-MM')] *)
Definition formatYearMonth (date : option Z) : Completion string :=
  match date with
  | Some t => Normal (formatMonth RT t)
  | None => Throw (formatRangeError RT)
  end.

(** [forEach] with a callback that may throw. *)
Fixpoint forEachC {St A : Type} (f : St -> A -> Completion St) (l : list A)
    (st : St) : Completion St :=
  match l with
  | [] => Normal st
  | x :: rest => bindC (f st x) (forEachC f rest)
  end.

Definition emptyMonth (month : string) : MonthlyTrendSummary :=
  {| mt_month := month;
     mt_totalComplaints := 0;
     mt_complaintsMeetingCriteria := 0;
     mt_totalUPB := num_of_Z E 0;
     mt_upbMeetingCriteria := num_of_Z E 0 |}.

(** The mutation of the entry of the month by one complaint. *)
Definition addToMonth (c : ProcessedComplaint) (stats : MonthlyTrendSummary)
    : MonthlyTrendSummary :=
  let upb := upbNumber c in
  {| mt_month := mt_month stats;
     mt_totalComplaints := S (mt_totalComplaints stats);
     mt_complaintsMeetingCriteria :=
       if meetsCriteria c then S (mt_complaintsMeetingCriteria stats)
       else mt_complaintsMeetingCriteria stats;
     mt_totalUPB := num_add E (mt_totalUPB stats) upb;
     mt_upbMeetingCriteria :=
       if meetsCriteria c then num_add E (mt_upbMeetingCriteria stats) upb
       else mt_upbMeetingCriteria stats |}.

Definition countMonth (m : list MonthlyTrendSummary) (c : ProcessedComplaint)
    : Completion (list MonthlyTrendSummary) :=
  if negb (dateTruthy (complaintDate c)) then Normal m
  else
    bindC (formatYearMonth (dateOf c)) (fun month =>
      Normal (upsert mt_month month (emptyMonth month) (addToMonth c) m)).

Definition calculateMonthlyTrendSummary (complaints : list ProcessedComplaint)
    : Completion (list MonthlyTrendSummary) :=
  let validComplaints := filterValidComplaints complaints in
  bindC (forEachC countMonth validComplaints []) (fun monthMap =>
    Normal (sortWith (fun a b => localeCompare E (mt_month b) (mt_month a))
                     monthMap)).

(** ** calculateCurrentMonthRegionSummary, calculateYTDRegionSummary and
    calculateYearSummary *)

(** [RegionSummary] and [YearSummary]: the same fields, under the key
    [region] or [year]. *)
Record GroupSummary := {
  gs_key : string;
  gs_totalComplaints : nat;
  gs_totalUPB : num E;
  gs_complaintsMeetingCriteria : nat;
  gs_upbMeetingCriteria : num E
}.

Definition emptyGroup (name : string) : GroupSummary :=
  {| gs_key := name;
     gs_totalComplaints := 0;
     gs_totalUPB := num_of_Z E 0;
     gs_complaintsMeetingCriteria := 0;
     gs_upbMeetingCriteria := num_of_Z E 0 |}.

(** The mutation of the entry of the group by one complaint. *)
Definition addToGroup (c : ProcessedComplaint) (stats : GroupSummary)
    : GroupSummary :=
  let upb := upbNumber c in
  {| gs_key := gs_key stats;
     gs_totalComplaints := S (gs_totalComplaints stats);
     gs_totalUPB := num_add E (gs_totalUPB stats) upb;
     gs_complaintsMeetingCriteria :=
       if meetsCriteria c then S (gs_complaintsMeetingCriteria stats)
       else gs_complaintsMeetingCriteria stats;
     gs_upbMeetingCriteria :=
       if meetsCriteria c then num_add E (gs_upbMeetingCriteria stats) upb
       else gs_upbMeetingCriteria stats |}.

(** [map.get(name)] *)
Fixpoint getEntry {A} (key : A -> string) (name : string) (m : list A)
    : option A :=
  match m with
  | [] => None
  | entry :: rest =>
      if String.eqb (key entry) name then Some entry
      else getEntry key name rest
  end.

(** [names.map(name => map.get(name)!).filter(stats =>
    stats.totalComplaints > 0)]: reading [totalComplaints] of an entry
    that is not there throws a [TypeError]. *)
Fixpoint groupsWithData (names : list string) (m : list GroupSummary)
    : Completion (list GroupSummary) :=
  match names with
  | [] => Normal []
  | name :: rest =>
      bindC (groupsWithData rest m) (fun more =>
        match getEntry gs_key name m with
        | Some stats =>
            Normal (if Nat.ltb 0 (gs_totalComplaints stats)
                    then stats :: more else more)
        | None => Throw (missingEntryError RT)
        end)
  end.

(** [getRegionFromCounty(complaint.normalizedCounty || complaint.county)],
    as the key to look up in [regionMap]: none when the complaint is
    skipped, for [Other/Unmapped] and for a result that is no string. *)
Definition regionKey (c : ProcessedComplaint) : option string :=
  match getRegionFromCounty
          (orElse (VString (normalizedCounty c)) (getProp (row c) "county"))
  with
  | Region name =>
      if String.eqb name "Other/Unmapped" then None else Some name
  | InheritedMember _ => None
  end.

(** The callback of the [forEach] over the complaints: the entry of the
    key is updated when there is one. *)
Definition countInGroup (keyOf : ProcessedComplaint -> option string)
    (m : list GroupSummary) (c : ProcessedComplaint) : list GroupSummary :=
  match keyOf c with
  | Some name => updateEntry gs_key name (addToGroup c) m
  | None => m
  end.

(** The body the two region summaries share, from the start of the period
    on. *)
Definition regionSummarySince (start : Z)
    (complaints : list ProcessedComplaint) : Completion (list GroupSummary) :=
  let validComplaints := filterValidComplaints complaints in
  let periodComplaints := List.filter (isRecent start) validComplaints in
  let regionMap := map emptyGroup getOrderedRegions in
  let regionMap := fold_left (countInGroup regionKey) periodComplaints regionMap in
  groupsWithData getOrderedRegions regionMap.

Definition calculateCurrentMonthRegionSummary
    (complaints : list ProcessedComplaint) : Completion (list GroupSummary) :=
  regionSummarySince (startOfMonth RT (now E)) complaints.

Definition calculateYTDRegionSummary
    (complaints : list ProcessedComplaint) : Completion (list GroupSummary) :=
  regionSummarySince (startOfYear RT (now E)) complaints.

Definition years : list string := ["2024"; "2025"].

(** The year of a complaint, as the key to look up in [yearMap]: none
    when the complaint is skipped, for want of a date or for a year that
    is not listed. *)
Definition yearKey (c : ProcessedComplaint) : option string :=
  if negb (dateTruthy (complaintDate c)) then None
  else
    let year := match dateOf c with
                | Some t => fullYear RT t
                | None => "NaN"
                end in
    if existsb (String.eqb year) years then Some year else None.

Definition calculateYearSummary
    (complaints : list ProcessedComplaint) : Completion (list GroupSummary) :=
  let validComplaints := filterValidComplaints complaints in
  let yearMap := map emptyGroup years in
  let yearMap := fold_left (countInGroup yearKey) validComplaints yearMap in
  groupsWithData years yearMap.

End MoreCalculations.

(* ------------------------------------------------------------------ *)
(** ** utils/normalization.ts: NormalizationRegistry *)
(* ------------------------------------------------------------------ *)

Section Registry.
Context {E : Engine}.

(** The two arrays of rules of a registry; a rule is a function from
    strings to strings. *)
Record NormalizationRegistry := {
  countyRules : list (string -> string);
  lenderRules : list (string -> string)
}.

(** [new NormalizationRegistry()] *)
Definition newRegistry : NormalizationRegistry :=
  {| countyRules := []; lenderRules := [] |}.

(** [this.countyRules.push(rule)] *)
Definition addCountyRule (rule : string -> string)
    (registry : NormalizationRegistry) : NormalizationRegistry :=
  {| countyRules := countyRules registry ++ [rule];
     lenderRules := lenderRules registry |}.

Definition addLenderRule (rule : string -> string)
    (registry : NormalizationRegistry) : NormalizationRegistry :=
  {| countyRules := countyRules registry;
     lenderRules := lenderRules registry ++ [rule] |}.

(** The methods [normalizeCounty] and [normalizeLender] of the class. *)
Definition registryNormalizeCounty (registry : NormalizationRegistry)
    (county : string) : string :=
  fold_left (fun result rule => rule result) (countyRules registry)
    (normalizeCounty (VString county)).

Definition registryNormalizeLender (registry : NormalizationRegistry)
    (lender : string) : string :=
  fold_left (fun result rule => rule result) (lenderRules registry)
    (normalizeLender (VString lender)).

End Registry.

(* ------------------------------------------------------------------ *)
(** ** hooks/useSheetData.ts: the normalization in fetchData *)
(* ------------------------------------------------------------------ *)

Section SheetData.
Context {E : Engine}.

(** [processed.map(row => ({ ...row, normalizedCounty:
    normalizeCounty(row.county), normalizedLender:
    normalizeLender(row.lender || row.plaintiff) }))] *)
Definition applyNormalization (processed : list ProcessedComplaint)
    : list ProcessedComplaint :=
  map (fun row_ =>
         setNormalized
           (normalizeCounty (getProp (row row_) "county"))
           (normalizeLender (orElse (getProp (row row_) "lender")
                                    (getProp (row row_) "plaintiff")))
           row_)
      processed.

(** The date of a record is missing, or it is a [Date] with a time. *)
Definition readableDate (p : ProcessedComplaint) : bool :=
  match complaintDate p with
  | None => true
  | Some (DateObject (Some _)) => true
  | Some _ => false
  end.

End SheetData.

(* ------------------------------------------------------------------ *)
(** ** Definitions that the properties of this code are stated with *)
(* ------------------------------------------------------------------ *)

(** The names in the order in which they first show. *)
Definition firstSeen (names : list string) : list string :=
  fold_left addName names [].

(** The entry of [name] after the items [l]. *)
Definition entryAfter {A B : Type} (keyOf : B -> string) (fresh : string -> A)
    (step : B -> A -> A) (l : list B) (name : string) : A :=
  fold_left (fun a b => step b a)
    (List.filter (fun b => String.eqb (keyOf b) name) l) (fresh name).

Section MoreSpecSide.
Context {E : Engine} {RT : Runtime}.
Import JsString.

(** A line of the last seven days, read as a flow-through deal. *)
Definition dealOfLast7 (x : Last7DaysComplaint) : FlowThroughDeal :=
  {| ft_propertyAddress := l7_propertyAddress x;
     ft_county := l7_county x;
     ft_lender := l7_lender x;
     ft_upb := l7_totalUPB x;
     ft_complaintDate := l7_complaintDate x;
     ft_meetsCriteria := true |}.

(** A line of the last seven days, read as a recent complaint. *)
Definition recentOfLast7 (x : Last7DaysComplaint) : RecentComplaint :=
  {| rc_propertyAddress := l7_propertyAddress x;
     rc_county := l7_county x;
     rc_lender := l7_lender x;
     rc_upb := l7_totalUPB x;
     rc_complaintDate := l7_complaintDate x |}.

(** [b] is not newer than [a]; both have a time. *)
Definition notNewer (a b : option Z) : Prop :=
  match a, b with
  | Some ta, Some tb => (tb <= ta)%Z
  | _, _ => False
  end.

Definition weekTotal (line : FourWeekRollUpWeekly) : nat :=
  wd_totalComplaints (week1 line) + wd_totalComplaints (week2 line)
  + wd_totalComplaints (week3 line) + wd_totalComplaints (week4 line).

Definition lenderLine (qualifying : list ProcessedComplaint) (name : string)
    : LenderCriteriaSummary :=
  entryAfter summaryLender
    (fun n => {| lc_lender := n; lc_totalComplaints := 0;
                 lc_totalUPB := num_of_Z E 0 |})
    (fun c stats =>
       {| lc_lender := lc_lender stats;
          lc_totalComplaints := S (lc_totalComplaints stats);
          lc_totalUPB := num_add E (lc_totalUPB stats) (upbNumber c) |})
    qualifying name.

(** The line of a county after the complaints [l] of the weekly
    roll-up. *)
Definition weeklyLine (today : Z) (l : list ProcessedComplaint)
    (name : string) : FourWeekRollUpWeekly :=
  entryAfter countyOf emptyWeekly (addToWeekly today) l name.

(** No separator of the keys in [s]. *)
Definition sepFree (s : string) : bool :=
  allChars (fun c => negb (Ascii.eqb c "|")) s.

(** The parts of the comparison keys of a record. *)
Definition addressKey (r : ProcessedComplaint) : string :=
  normalizeForComparison (getProp (row r) "propertyAddress").

Definition dateKey (r : ProcessedComplaint) : string :=
  match dateStrOf (complaintDate r) with
  | Normal dateStr => dateStr
  | Throw _ => EmptyString
  end.

(** A valid record whose date is there and cannot be read: the Invalid
    Date, or a text that [new Date] does not parse. *)
Definition hasUnreadableDate (p : ProcessedComplaint) : bool :=
  (isValid p
   && match complaintDate p with
      | Some d =>
          dateTruthy (Some d)
          && match timeOf d with Some _ => false | None => true end
      | None => false
      end)%bool.

End MoreSpecSide.

Section GroupSpecSide.
Context {E : Engine} {RT : Runtime}.
Import JsString.

(** The complaint has a date, readable or not. *)
Definition dated (c : ProcessedComplaint) : bool :=
  dateTruthy (complaintDate c).

(** The month of a complaint whose date can be read. *)
Definition monthOf (c : ProcessedComplaint) : string :=
  match dateOf c with
  | Some t => formatMonth RT t
  | None => EmptyString
  end.

(** The line of a month after the complaints [l]. *)
Definition monthLine (l : list ProcessedComplaint) (name : string)
    : MonthlyTrendSummary :=
  entryAfter monthOf emptyMonth addToMonth l name.

(** The complaints that a summary by groups counts under [name]. *)
Definition inGroup (keyOf : ProcessedComplaint -> option string)
    (name : string) (c : ProcessedComplaint) : bool :=
  match keyOf c with
  | Some n => String.eqb n name
  | None => false
  end.

(** A key for every complaint: the one it has, or none of [names]. *)
Definition keyOr (keyOf : ProcessedComplaint -> option string)
    (c : ProcessedComplaint) : string :=
  match keyOf c with Some n => n | None => EmptyString end.

(** What the lines of a summary by groups are, for the groups [names] and
    the complaints [l]: lines of groups of [names] in their order, each
    with the count of the complaints of its group, which is not zero, and
    with no more complaints that meet the criteria than complaints. *)
Definition summarizes (names : list string)
    (keyOf : ProcessedComplaint -> option string)
    (l : list ProcessedComplaint) (result : list GroupSummary) : Prop :=
  sublist (map gs_key result) names
  /\ forall line, In line result ->
       gs_totalComplaints line
       = length (List.filter (inGroup keyOf (gs_key line)) l)
       /\ gs_complaintsMeetingCriteria line
          = length (List.filter meetsCriteria
                      (List.filter (inGroup keyOf (gs_key line)) l))
       /\ 1 <= gs_totalComplaints line
       /\ gs_complaintsMeetingCriteria line <= gs_totalComplaints line.

End GroupSpecSide.

(* ------------------------------------------------------------------ *)
(** ** A runtime and records to run the calculations on *)
(* ------------------------------------------------------------------ *)

Module RefRuntime.
Import JsString Ref.

Definition refStartOfYear (ms : Z) : Z :=
  let '(y, _, _) := civilFromDays (ms / msPerDay) in
  (daysFromCivil y 1 1 * msPerDay)%Z.

Definition refStartOfMonth (ms : Z) : Z :=
  let '(y, m, _) := civilFromDays (ms / msPerDay) in
  (daysFromCivil y m 1 * msPerDay)%Z.

Definition refFormatMonth (ms : Z) : string :=
  let '(y, m, _) := civilFromDays (ms / msPerDay) in
  fourDigits y +:+ "-" +:+ twoDigits m.

Definition refFullYear (ms : Z) : string :=
  let '(y, _, _) := civilFromDays (ms / msPerDay) in
  ZToString y.

Definition runtime : Runtime :=
  {| startOfYear := refStartOfYear;
     startOfMonth := refStartOfMonth;
     formatMonth := refFormatMonth;
     formatRangeError := "Invalid time value";
     fullYear := refFullYear;
     missingEntryError :=
       "Cannot read properties of undefined (reading 'totalComplaints')" |}.

End RefRuntime.

Module MoreExamples.
Import JsString.

#[local] Existing Instance Ref.engine.

(** A record of 2024-06-10, five days before the day of the reference
    engine, as the pipeline returns it. *)
Definition harborStreet : ProcessedComplaint :=
  {| row := Examples.complaint "12 Harbor Street" "Kings" "Harbor Bank"
              100 "Meets criteria" "2024-06-10";
     upb := Some (Ref.RDec 100 0);
     complaintDate :=
       Some (DateObject (Some (Ref.daysFromCivil 2024 6 10 * Ref.msPerDay)%Z));
     isValid := true;
     errors := None;
     normalizedCounty := "Kings";
     normalizedLender := "Harbor Bank";
     isDuplicate := false |}.

(** A row dated after the day of the reference engine. *)
Definition nextDecade : Fields :=
  Examples.complaint "5 Bay Road" "Kings" "Bay Bank" 5 "Meets criteria"
                     "2030-01-01".

(** What the pipeline makes of rows. *)
Definition recordsOf (rows : list RawRow) : list ProcessedComplaint :=
  match processRowsWithQualityChecks rows with
  | Normal report => processed report
  | Throw _ => []
  end.

(** Three rows of the four weeks before the day of the reference engine:
    two counties, and a row that lacks its county. *)
Definition juneRows : list RawRow :=
  [ RowObject (Examples.complaint "12 Harbor Street" "Queens" "Harbor Bank"
                 100 "Meets criteria" "2024-06-10");
    RowObject (Examples.complaint "7 Dock Lane" "Kings County" "Dock Bank"
                 250 "Meets criteria" "2024-06-01");
    RowObject Examples.noCounty ].

End MoreExamples.

(* ================================================================== *)
(** * Properties *)
(* ================================================================== *)

Section PipelineFacts.
Context {E : Engine}.
Import JsString.

Lemma validateRow_index (r : RawRow) (i : nat) :
  validateRow r i = validateRow r 0.
Proof. destruct r; reflexivity. Qed.

Lemma validateFields_issues (fields : Fields) :
  let i := fst (fst (collectIssues fields)) in
  let v := validateFields fields in
  isValid v = Nat.eqb (length (i_errors i)) 0
  /\ reportedIssues v
     = (if Nat.ltb 0 (length (i_errors i)) then i_errors i else i_warnings i).
Proof.
  unfold validateFields, reportedIssues.
  destruct (collectIssues fields) as [[i u] d]; simpl.
  split; [reflexivity|].
  destruct (i_errors i) as [|e es]; simpl.
  - destruct (i_warnings i); reflexivity.
  - reflexivity.
Qed.

Lemma invalid_reports (fields : Fields) :
  isValid (validateFields fields) = false ->
  Nat.ltb 0 (length (reportedIssues (validateFields fields))) = true.
Proof.
  destruct (validateFields_issues fields) as [Hv Hr].
  rewrite Hv, Hr.
  destruct (i_errors _); simpl; [discriminate|reflexivity].
Qed.

Lemma hasErrors_reported (p : ProcessedComplaint) :
  hasErrors (errors p) = Nat.ltb 0 (length (reportedIssues p)).
Proof. unfold hasErrors, reportedIssues. destruct (errors p); reflexivity. Qed.

Lemma hasJSONError_reported (p : ProcessedComplaint) :
  hasJSONError (errors p) = mentionsJSON (reportedIssues p).
Proof. unfold hasJSONError, reportedIssues, mentionsJSON. destruct (errors p); reflexivity. Qed.

Lemma firstPassStep_spec (st : FirstPass) (index : nat) (r : RawRow) :
  let st' := firstPassStep st index r in
  fp_processed st' = fp_processed st ++ [recordOfRow r]
  /\ fp_json st' = fp_json st + (if countedAsJSON r then 1 else 0)
  /\ fp_other st' = fp_other st + (if countedAsOther r then 1 else 0).
Proof.
  unfold firstPassStep, recordOfRow, countedAsJSON, countedAsOther.
  rewrite (validateRow_index r index).
  destruct r as [fields| |]; simpl.
  - rewrite hasErrors_reported, hasJSONError_reported.
    destruct (mentionsJSON (reportedIssues (validateFields fields))) eqn:HJ;
      destruct (isValid (validateFields fields)) eqn:HV; simpl.
    all: try (apply invalid_reports in HV; rewrite HV).
    all: try destruct (Nat.ltb 0 (length (reportedIssues (validateFields fields)))); simpl.
    all: repeat split; lia.
  - repeat split; lia.
  - repeat split; lia.
Qed.

Lemma forEach_firstPass (rows : list RawRow) : forall (index : nat) (st : FirstPass),
  let st' := forEachIndexed firstPassStep index rows st in
  fp_processed st' = fp_processed st ++ map recordOfRow rows
  /\ fp_json st' = fp_json st + length (List.filter countedAsJSON rows)
  /\ fp_other st' = fp_other st + length (List.filter countedAsOther rows).
Proof.
  induction rows as [|r rows IH]; intros index st; simpl.
  - rewrite app_nil_r. repeat split; lia.
  - destruct (IH (S index) (firstPassStep st index r)) as (Hp & Hj & Ho).
    destruct (firstPassStep_spec st index r) as (Hp1 & Hj1 & Ho1).
    simpl in *. rewrite Hp, Hj, Ho, Hp1, Hj1, Ho1.
    rewrite <- app_assoc. simpl.
    destruct (countedAsJSON r), (countedAsOther r); simpl; repeat split; lia.
Qed.

Lemma firstPass_spec (rows : list RawRow) :
  fp_processed (firstPass rows) = map recordOfRow rows
  /\ fp_json (firstPass rows) = length (List.filter countedAsJSON rows)
  /\ fp_other (firstPass rows) = length (List.filter countedAsOther rows).
Proof.
  unfold firstPass.
  destruct (forEach_firstPass rows 0
    {| fp_processed := []; fp_issues := []; fp_json := 0; fp_other := 0 |})
    as (Hp & Hj & Ho).
  simpl in *. auto.
Qed.

End PipelineFacts.

Section DetectFacts.
Context {E : Engine}.
Import JsString.

Lemma append_nonempty (a : string) (c : ascii) (b : string) :
  isEmpty (a +:+ String c b) = false.
Proof. destruct a; reflexivity. Qed.

Lemma createRowKeys_nonempty (r : ProcessedComplaint) (keys : list string) :
  createRowKeys r = Normal keys -> forall k, In k keys -> isEmpty k = false.
Proof.
  unfold createRowKeys. destruct (dateStrOf (complaintDate r)) as [d|m]; simpl; [|discriminate].
  intros H. injection H as <-. intros k Hk. simpl in Hk.
  destruct Hk as [<-|[<-|[<-|[<-|[]]]]]; apply append_nonempty.
Qed.

Lemma findOriginal_Some seen index keys j :
  findOriginal seen index keys = Some j ->
  exists before k after,
    keys = before ++ k :: after /\ isEmpty k = false
    /\ seen !! k = Some j /\ j <> index
    /\ forall k', In k' before ->
         isEmpty k' = true \/ seen !! k' = None \/ seen !! k' = Some index.
Proof.
  induction keys as [|k keys IH]; simpl; [discriminate|].
  destruct (isEmpty k) eqn:Hk; simpl.
  - intros H. destruct (IH H) as (b & k0 & a & -> & ? & ? & ? & Hb).
    exists (k :: b), k0, a. repeat split; auto.
    intros k' [<-|Hin]; auto.
  - destruct (seen !! k) as [o|] eqn:Hs.
    + destruct (Nat.eqb o index) eqn:Ho; simpl.
      * apply Nat.eqb_eq in Ho. subst o. intros H.
        destruct (IH H) as (b & k0 & a & -> & ? & ? & ? & Hb).
        exists (k :: b), k0, a. repeat split; auto.
        intros k' [<-|Hin]; auto.
      * intros H. injection H as <-. apply Nat.eqb_neq in Ho.
        exists [], k, keys. repeat split; auto; try (intros k' []).
    + intros H. destruct (IH H) as (b & k0 & a & -> & ? & ? & ? & Hb).
      exists (k :: b), k0, a. repeat split; auto.
      intros k' [<-|Hin]; auto.
Qed.

Lemma findOriginal_None seen index keys :
  findOriginal seen index keys = None ->
  forall k, In k keys ->
    isEmpty k = true \/ seen !! k = None \/ seen !! k = Some index.
Proof.
  induction keys as [|k keys IH]; simpl; [intros _ k []|].
  destruct (isEmpty k) eqn:Hk; simpl.
  - intros H k' [<-|Hin]; auto.
  - destruct (seen !! k) as [o|] eqn:Hs.
    + destruct (Nat.eqb o index) eqn:Ho; simpl; [|discriminate].
      apply Nat.eqb_eq in Ho. subst o.
      intros H k' [<-|Hin]; auto.
    + intros H k' [<-|Hin]; auto.
Qed.

Lemma registerKey_lookup index seen key k :
  registerKey index seen key !! k
  = match seen !! k with
    | Some j => Some j
    | None => if (negb (isEmpty key) && String.eqb key k)%bool then Some index else None
    end.
Proof.
  unfold registerKey. destruct (isEmpty key) eqn:He; simpl.
  - destruct (seen !! k); reflexivity.
  - destruct (String.eqb_spec key k) as [->|Hne].
    + destruct (seen !! k) as [j|] eqn:Hs.
      * exact Hs.
      * apply lookup_insert_eq.
    + destruct (seen !! key) as [j|] eqn:Hs.
      * destruct (seen !! k); reflexivity.
      * rewrite lookup_insert_ne by congruence. destruct (seen !! k); reflexivity.
Qed.

Lemma registerKeys_lookup index keys : forall seen k,
  registerKeys index keys seen !! k
  = match seen !! k with
    | Some j => Some j
    | None => if (negb (isEmpty k) && existsb (String.eqb k) keys)%bool then Some index else None
    end.
Proof.
  unfold registerKeys.
  induction keys as [|key keys IH]; intros seen k; simpl.
  - destruct (seen !! k); [reflexivity|]. rewrite andb_false_r. reflexivity.
  - rewrite IH, registerKey_lookup.
    destruct (seen !! k) as [j|]; [reflexivity|].
    destruct (String.eqb_spec key k) as [->|Hne].
    + destruct (isEmpty k); simpl; [|rewrite String.eqb_refl; reflexivity].
      reflexivity.
    + rewrite andb_false_r.
      destruct (String.eqb_spec k key) as [->|_]; [congruence|]. reflexivity.
Qed.

Lemma existsb_eqb_In (k : string) (keys : list string) :
  existsb (String.eqb k) keys = true <-> In k keys.
Proof.
  rewrite existsb_exists. split.
  - intros (x & Hin & Heq). apply String.eqb_eq in Heq. subst. exact Hin.
  - intros Hin. exists k. split; [exact Hin|apply String.eqb_refl].
Qed.


Lemma registers_app rows infos rs is_ j k :
  length rows = length infos -> j < length rows ->
  registers (rows ++ rs) (infos ++ is_) j k <-> registers rows infos j k.
Proof.
  intros Hlen Hj. unfold registers.
  rewrite (lookup_app_l rows rs j) by lia.
  rewrite (lookup_app_l infos is_ j) by lia.
  reflexivity.
Qed.

Lemma registeredTo_app rows infos rs is_ i k j :
  length rows = length infos -> i <= length rows ->
  registeredTo (rows ++ rs) (infos ++ is_) i k j
  <-> registeredTo rows infos i k j.
Proof.
  intros Hlen Hi. unfold registeredTo. split.
  - intros (Hj & Hr & Hmin). split; [exact Hj|]. split.
    + apply (registers_app rows infos rs is_) in Hr; [exact Hr|exact Hlen|lia].
    + intros j' Hj' Hr'. apply (Hmin j' Hj').
      apply registers_app; [exact Hlen|lia|exact Hr'].
  - intros (Hj & Hr & Hmin). split; [exact Hj|]. split.
    + apply registers_app; [exact Hlen|lia|exact Hr].
    + intros j' Hj' Hr'. apply (Hmin j' Hj').
      apply (registers_app rows infos rs is_) in Hr'; [exact Hr'|exact Hlen|lia].
Qed.

Lemma entrySpec_app rows infos rs is_ i r info :
  length rows = length infos -> i <= length rows ->
  entrySpec rows infos i r info ->
  entrySpec (rows ++ rs) (infos ++ is_) i r info.
Proof.
  intros Hlen Hi [Hinv Hval]. split; [exact Hinv|].
  intros Hv. destruct (Hval Hv) as (keys & Hk & Hiff & Hfirst & Hnone).
  exists keys. split; [exact Hk|]. split; [|split; [|exact Hnone]].
  - rewrite Hiff. split; intros (k & j & Hin & Hreg); exists k, j; split; auto;
      apply (registeredTo_app rows infos rs is_ i k j Hlen Hi); exact Hreg.
  - intros Hd. destruct (Hfirst Hd) as (b & k & a & j & Hkeys & Hreg & Hb & Hof).
    exists b, k, a, j. split; [exact Hkeys|]. split; [|split; [|exact Hof]].
    + apply registeredTo_app; assumption.
    + intros k' j' Hin Hreg'. apply (Hb k' j' Hin).
      apply (registeredTo_app rows infos rs is_ i k' j' Hlen Hi). exact Hreg'.
Qed.

Lemma registers_last rows infos r info k :
  length rows = length infos ->
  registers (rows ++ [r]) (infos ++ [info]) (length rows) k ->
  isValid r = true /\ di_isDuplicate info = false
  /\ exists keys, createRowKeys r = Normal keys /\ In k keys.
Proof.
  intros Hlen (r' & info' & keys & Hr & Hi & Hv & Hd & Hk & Hin).
  rewrite lookup_app_r in Hr by lia. rewrite Nat.sub_diag in Hr.
  rewrite lookup_app_r in Hi by lia. rewrite Hlen, Nat.sub_diag in Hi.
  simpl in Hr, Hi. injection Hr as <-. injection Hi as <-.
  split; [exact Hv|]. split; [exact Hd|]. exists keys. auto.
Qed.

(** A row that registers nothing leaves the registry as it is. *)
Lemma SeenInv_skip rows infos seen r info :
  SeenInv rows infos seen ->
  (isValid r = false \/ di_isDuplicate info = true) ->
  SeenInv (rows ++ [r]) (infos ++ [info]) seen.
Proof.
  intros (Hlen & Ha & Hb) Hskip.
  assert (Hno : forall k, ~ registers (rows ++ [r]) (infos ++ [info]) (length rows) k).
  { intros k Hr. destruct (registers_last _ _ _ _ _ Hlen Hr) as (Hv & Hd & _).
    destruct Hskip; congruence. }
  split; [rewrite !length_app; simpl; lia|]. split.
  - intros k j Hs. destruct (Ha k j Hs) as (Hj & Hr & Hmin).
    rewrite length_app; simpl. split; [lia|]. split.
    + apply registers_app; assumption.
    + intros j' Hj' Hr'. apply (Hmin j' Hj').
      apply (registers_app rows infos [r] [info]) in Hr'; [exact Hr'|exact Hlen|lia].
  - intros k Hs j Hj. rewrite length_app in Hj; simpl in Hj.
    destruct (Nat.eq_dec j (length rows)) as [->|Hne].
    + apply Hno.
    + intros Hr. apply (Hb k Hs j); [lia|].
      apply (registers_app rows infos [r] [info]) in Hr; [exact Hr|exact Hlen|lia].
Qed.

Lemma detectStep_spec rows infos seen r info seen' :
  SeenInv rows infos seen ->
  detectStep seen (length rows) r = Normal (info, seen') ->
  SeenInv (rows ++ [r]) (infos ++ [info]) seen'
  /\ entrySpec rows infos (length rows) r info.
Proof.
  intros Hinv. pose proof Hinv as (Hlen & Ha & Hb).
  unfold detectStep. destruct (isValid r) eqn:Hv; simpl.
  2:{ intros [= <- <-]. split.
      - apply SeenInv_skip; auto.
      - split; [reflexivity|(intros; simpl in *; congruence)]. }
  destruct (createRowKeys r) as [keys|m] eqn:Hkeys; simpl; [|discriminate].
  pose proof (createRowKeys_nonempty r keys Hkeys) as Hne.
  destruct (findOriginal seen (length rows) keys) as [j0|] eqn:Hfind.
  - intros [= <- <-]. split.
    + apply SeenInv_skip; auto.
    + split; [(intros; simpl in *; congruence)|]. intros _. exists keys. split; [exact Hkeys|].
      destruct (findOriginal_Some _ _ _ _ Hfind)
        as (b & k & a & Hk & Hke & Hs & Hj0 & Hbefore).
      assert (Hink : In k keys) by (rewrite Hk; apply in_elt).
      split; [|split; [|(intros; simpl in *; congruence)]].
      * simpl. split; [|reflexivity]. intros _. exists k, j0. split; [exact Hink|].
        apply Ha. exact Hs.
      * intros _. exists b, k, a, j0. split; [exact Hk|].
        split; [apply Ha; exact Hs|]. split; [|reflexivity].
        intros k' j' Hin (Hj' & Hr' & _).
        destruct (Hbefore k' Hin) as [He|[Hn|Hsome]].
        -- assert (In k' keys) by (rewrite Hk; apply in_or_app; left; exact Hin).
           rewrite (Hne k') in He by assumption. discriminate.
        -- exact (Hb k' Hn j' Hj' Hr').
        -- destruct (Ha k' _ Hsome) as (Hlt & _). lia.
  - intros [= <- <-].
    assert (Hfresh : forall k, In k keys -> seen !! k = None).
    { intros k Hin.
      destruct (findOriginal_None _ _ _ Hfind k Hin) as [He|[Hn|Hsome]].
      - rewrite (Hne k Hin) in He. discriminate.
      - exact Hn.
      - destruct (Ha k _ Hsome) as (Hlt & _). lia. }
    assert (Hreg : forall k, In k keys ->
              registers (rows ++ [r]) (infos ++ [ {| di_isDuplicate := false; di_duplicateOf := None |} ]) (length rows) k).
    { intros k Hin. exists r, {| di_isDuplicate := false; di_duplicateOf := None |}, keys.
      rewrite lookup_app_r by lia. rewrite Nat.sub_diag.
      rewrite lookup_app_r by lia. rewrite Hlen, Nat.sub_diag. simpl. auto 6. }
    split.
    + split; [rewrite !length_app; simpl; lia|]. split.
      * intros k j. rewrite registerKeys_lookup.
        destruct (seen !! k) as [j1|] eqn:Hs.
        -- intros H. injection H as <-.
           destruct (Ha k j1 Hs) as (Hj & Hr & Hmin).
           rewrite length_app; simpl. split; [lia|]. split.
           ++ apply registers_app; assumption.
           ++ intros j' Hj' Hr'. apply (Hmin j' Hj').
              apply (registers_app rows infos [r]) in Hr'; [exact Hr'|exact Hlen|lia].
        -- destruct (negb (isEmpty k) && existsb (String.eqb k) keys)%bool eqn:Hc; [|(intros; simpl in *; congruence)].
           intros H. injection H as <-.
           apply andb_prop in Hc. destruct Hc as [_ Hex].
           apply existsb_eqb_In in Hex.
           rewrite length_app; simpl. split; [lia|]. split.
           ++ apply Hreg. exact Hex.
           ++ intros j' Hj' Hr'. apply (Hb k Hs j' Hj').
              apply (registers_app rows infos [r]) in Hr'; [exact Hr'|exact Hlen|lia].
      * intros k. rewrite registerKeys_lookup.
        destruct (seen !! k) as [j1|] eqn:Hs; [(intros; simpl in *; congruence)|].
        destruct (negb (isEmpty k) && existsb (String.eqb k) keys)%bool eqn:Hc; [(intros; simpl in *; congruence)|].
        intros _ j Hj. rewrite length_app in Hj; simpl in Hj.
        destruct (Nat.eq_dec j (length rows)) as [->|Hnej].
        -- intros Hr. destruct (registers_last _ _ _ _ _ Hlen Hr) as (_ & _ & keys' & Hk' & Hin).
           rewrite Hkeys in Hk'. injection Hk' as <-.
           apply andb_false_iff in Hc. destruct Hc as [Hc|Hc].
           ++ rewrite (Hne k Hin) in Hc. discriminate.
           ++ apply existsb_eqb_In in Hin. congruence.
        -- intros Hr. apply (Hb k Hs j); [lia|].
           apply (registers_app rows infos [r]) in Hr; [exact Hr|exact Hlen|lia].
    + split; [(intros; simpl in *; congruence)|]. intros _. exists keys. split; [exact Hkeys|].
      split; [|split; [(intros; simpl in *; congruence)|reflexivity]].
      simpl. split; [(intros; simpl in *; congruence)|].
      intros (k & j & Hin & Hj & Hr & _). exfalso.
      exact (Hb k (Hfresh k Hin) j Hj Hr).
Qed.

Lemma detectFrom_spec rest : forall rows infos seen entries,
  SeenInv rows infos seen ->
  detectFrom seen (length rows) rest = Normal entries ->
  map fst entries = seq (length rows) (length rest)
  /\ forall i r info,
       length rows <= i ->
       (rows ++ rest) !! i = Some r ->
       (infos ++ map snd entries) !! i = Some info ->
       entrySpec (rows ++ rest) (infos ++ map snd entries) i r info.
Proof.
  induction rest as [|r rest IH]; intros rows infos seen entries Hinv; simpl.
  - intros H. injection H as <-. split; [reflexivity|].
    intros i r info Hi Hr. rewrite app_nil_r in Hr.
    apply lookup_lt_Some in Hr. lia.
  - destruct (detectStep seen (length rows) r) as [[info seen']|m] eqn:Hstep;
      simpl; [|discriminate].
    destruct (detectStep_spec _ _ _ _ _ _ Hinv Hstep) as (Hinv' & Hspec).
    destruct (detectFrom seen' (S (length rows)) rest) as [entries'|m] eqn:Hrest;
      simpl; [|discriminate].
    intros H. injection H as <-.
    assert (Hlen' : length (rows ++ [r]) = S (length rows))
      by (rewrite length_app; simpl; lia).
    rewrite <- Hlen' in Hrest.
    destruct (IH _ _ _ _ Hinv' Hrest) as (Hfst & Hall).
    rewrite Hlen' in Hfst. simpl. split; [f_equal; exact Hfst|].
    rewrite <- !app_assoc in Hall. simpl in Hall.
    intros i r0 info0 Hi Hr0 Hi0.
    destruct (Nat.eq_dec i (length rows)) as [->|Hne].
    + destruct Hinv as (Hlen & _).
      rewrite lookup_app_r in Hr0 by lia. rewrite Nat.sub_diag in Hr0.
      rewrite lookup_app_r in Hi0 by lia. rewrite Hlen, Nat.sub_diag in Hi0.
      simpl in Hr0, Hi0. injection Hr0 as <-. injection Hi0 as <-.
      apply entrySpec_app; [exact Hlen|lia|exact Hspec].
    + apply Hall; [lia|exact Hr0|exact Hi0].
Qed.

Lemma detectFrom_total rest : forall seen index,
  Forall (fun p => keysDefined p = true) rest ->
  exists entries, detectFrom seen index rest = Normal entries.
Proof.
  induction rest as [|r rest IH]; intros seen index Hall; simpl.
  - eexists. reflexivity.
  - inversion Hall as [|? ? Hr Hrest]; subst.
    unfold detectStep. unfold keysDefined in Hr.
    destruct (isValid r); simpl in *.
    + destruct (createRowKeys r) as [keys|m]; simpl in *; [|discriminate].
      destruct (findOriginal seen index keys); simpl.
      * destruct (IH seen (S index) Hrest) as (entries & ->). simpl. eexists. reflexivity.
      * destruct (IH (registerKeys index keys seen) (S index) Hrest) as (entries & ->).
        simpl. eexists. reflexivity.
    + destruct (IH seen (S index) Hrest) as (entries & ->). simpl. eexists. reflexivity.
Qed.

Lemma SeenInv_empty : SeenInv [] [] ∅.
Proof.
  split; [reflexivity|]. split.
  - intros k j H. rewrite lookup_empty in H. discriminate.
  - intros k _ j Hj. simpl in Hj. lia.
Qed.

(** [detectDuplicates] against the words of the specification. *)
Lemma detectDuplicates_spec (rows : list ProcessedComplaint) :
  Forall (fun p => keysDefined p = true) rows ->
  exists entries,
    detectDuplicates rows = Normal entries
    /\ map fst entries = seq 0 (length rows)
    /\ forall i r info,
         rows !! i = Some r -> map snd entries !! i = Some info ->
         entrySpec rows (map snd entries) i r info.
Proof.
  intros Hall. unfold detectDuplicates.
  destruct (detectFrom_total rows ∅ 0 Hall) as (entries & Hent).
  exists entries. split; [exact Hent|].
  destruct (detectFrom_spec rows [] [] ∅ entries SeenInv_empty Hent) as (Hfst & Hspec).
  split; [exact Hfst|].
  intros i r info Hr Hi. apply (Hspec i r info); simpl; [lia|exact Hr|exact Hi].
Qed.

End DetectFacts.

Section MergeFacts.
Context {E : Engine}.
Import JsString.

Lemma sameCore_refl p : sameCore p p.
Proof. repeat split. Qed.

Lemma sameCore_trans p q r : sameCore p q -> sameCore q r -> sameCore p r.
Proof.
  intros (a1 & a2 & a3 & a4 & a5 & a6) (b1 & b2 & b3 & b4 & b5 & b6).
  repeat split; congruence.
Qed.

Lemma lookup_map {A B : Type} (f : A -> B) (l : list A) (i : nat) :
  map f l !! i = option_map f (l !! i).
Proof.
  revert i. induction l as [|x l IH]; intros [|i]; simpl; auto.
Qed.

Lemma mergeStep_spec rows st index info :
  index < length (mp_processed st) ->
  exists st',
    mergeStep rows st (index, info) = Normal st'
    /\ length (mp_processed st') = length (mp_processed st)
    /\ forall i p, mp_processed st !! i = Some p ->
         exists p', mp_processed st' !! i = Some p'
           /\ sameCore p p'
           /\ (i <> index \/ di_isDuplicate info = false -> p' = p).
Proof.
  intros Hlt. unfold mergeStep.
  destruct (di_isDuplicate info) eqn:Hd.
  2:{ exists st. split; [reflexivity|]. split; [reflexivity|].
      intros i p Hp. exists p. split; [exact Hp|]. split; [apply sameCore_refl|auto]. }
  destruct (lookup_lt_is_Some_2 _ _ Hlt) as (p0 & Hp0). rewrite Hp0.
  assert (Hgen : forall q, sameCore p0 q ->
            length (<[index := q]> (mp_processed st)) = length (mp_processed st)
            /\ forall i p, mp_processed st !! i = Some p ->
                 exists p', <[index := q]> (mp_processed st) !! i = Some p'
                   /\ sameCore p p' /\ (i <> index \/ true = false -> p' = p)).
  { intros q Hq. split; [apply length_insert|].
    intros i p Hp. destruct (Nat.eq_dec i index) as [->|Hne].
    - exists q. rewrite list_lookup_insert_eq by exact Hlt.
      split; [reflexivity|]. rewrite Hp0 in Hp. injection Hp as <-.
      split; [exact Hq|]. intros [?|?]; congruence.
    - exists p. rewrite list_lookup_insert_ne by congruence.
      split; [exact Hp|]. split; [apply sameCore_refl|auto]. }
  assert (Hdup : sameCore p0 (setDuplicate p0)) by (repeat split).
  destruct (findIssue index 0 (mp_issues st)) as [[pos existing]|].
  - eexists. split; [reflexivity|]. simpl.
    destruct (di_sharesErrors existing).
    + apply Hgen. repeat split.
    + apply Hgen. exact Hdup.
  - eexists. split; [reflexivity|]. simpl. apply Hgen. exact Hdup.
Qed.

Lemma mergeAll_spec rows entries : forall st,
  (forall index info, In (index, info) entries ->
     index < length (mp_processed st)) ->
  exists st',
    mergeAll rows entries st = Normal st'
    /\ length (mp_processed st') = length (mp_processed st)
    /\ forall i p, mp_processed st !! i = Some p ->
         exists p', mp_processed st' !! i = Some p'
           /\ sameCore p p'
           /\ ((forall info, In (i, info) entries ->
                  di_isDuplicate info = false) -> p' = p).
Proof.
  induction entries as [|[index info] entries IH]; intros st Hin.
  - exists st. split; [reflexivity|]. split; [reflexivity|].
    intros i p Hp. exists p. split; [exact Hp|]. split; [apply sameCore_refl|auto].
  - cbn [mergeAll].
    destruct (mergeStep_spec rows st index info) as (st1 & Hst1 & Hlen1 & Hp1).
    { apply (Hin index info). left. reflexivity. }
    rewrite Hst1. simpl.
    destruct (IH st1) as (st2 & Hst2 & Hlen2 & Hp2).
    { intros i0 info0 H0. rewrite Hlen1. apply (Hin i0 info0). right. exact H0. }
    exists st2. split; [exact Hst2|]. split; [congruence|].
    intros i p Hp. destruct (Hp1 i p Hp) as (p1 & Hl1 & Hc1 & He1).
    destruct (Hp2 i p1 Hl1) as (p2 & Hl2 & Hc2 & He2).
    exists p2. split; [exact Hl2|]. split; [eapply sameCore_trans; eauto|].
    intros Hno. rewrite He2.
    + apply He1. destruct (Nat.eq_dec i index) as [->|Hne]; [right|left; exact Hne].
      apply Hno. left. reflexivity.
    + intros info0 H0. apply Hno. right. exact H0.
Qed.

Lemma createRowKeys_defined (p : ProcessedComplaint) (s : string) :
  dateStrOf (complaintDate p) = Normal s ->
  exists keys, createRowKeys p = Normal keys.
Proof. intros H. unfold createRowKeys. rewrite H. simpl. eexists. reflexivity. Qed.

Lemma recordOfRow_keysDefined (r : RawRow) :
  keysDefined (normalizeRecord (recordOfRow r)) = true.
Proof.
  unfold keysDefined, recordOfRow.
  destruct r as [fields| |]; simpl; try reflexivity.
  destruct (isValid (validateFields fields)); simpl; [|reflexivity].
  unfold createRowKeys. simpl. unfold validateFields.
  destruct (collectIssues fields) as [[i u] [t|]]; reflexivity.
Qed.

Lemma entries_lookup (entries : list (nat * DuplicateInfo)) (n i : nat) info :
  map fst entries = seq 0 n -> In (i, info) entries ->
  map snd entries !! i = Some info.
Proof.
  intros Hfst Hin. apply list_elem_of_In in Hin.
  apply list_elem_of_lookup in Hin. destruct Hin as (j & Hj).
  assert (Hi : map fst entries !! j = Some i) by (rewrite lookup_map, Hj; reflexivity).
  rewrite Hfst in Hi. apply lookup_seq in Hi. destruct Hi as (-> & _).
  simpl. rewrite lookup_map, Hj. reflexivity.
Qed.

Lemma entries_in_range (entries : list (nat * DuplicateInfo)) (n i : nat) info :
  map fst entries = seq 0 n -> In (i, info) entries -> i < n.
Proof.
  intros Hfst Hin. apply list_elem_of_In in Hin.
  apply list_elem_of_lookup in Hin. destruct Hin as (j & Hj).
  assert (Hi : map fst entries !! j = Some i) by (rewrite lookup_map, Hj; reflexivity).
  rewrite Hfst in Hi. apply lookup_seq in Hi. lia.
Qed.

(** The pipeline returns, and this is what it returns. *)
Lemma pipeline_runs (rows : list RawRow) :
  let normalized := map normalizeRecord (map recordOfRow rows) in
  exists report entries,
    processRowsWithQualityChecks rows = Normal report
    /\ detectDuplicates normalized = Normal entries
    /\ map fst entries = seq 0 (length rows)
    /\ length (processed report) = length rows
    /\ totalRows (summary report) = length rows
    /\ validRows (summary report)
       = length (List.filter countsAsValid (processed report))
    /\ invalidRows (summary report)
       = length (processed report) - validRows (summary report)
    /\ rowsWithJSONErrors (summary report)
       = length (List.filter countedAsJSON rows)
    /\ rowsWithOtherErrors (summary report)
       = length (List.filter countedAsOther rows)
    /\ (forall i p info,
          normalized !! i = Some p -> map snd entries !! i = Some info ->
          entrySpec normalized (map snd entries) i p info)
    /\ forall i p, normalized !! i = Some p ->
         exists p', processed report !! i = Some p'
           /\ sameCore p p'
           /\ ((forall info, In (i, info) entries ->
                  di_isDuplicate info = false) -> p' = p).
Proof.
  intros normalized.
  destruct (firstPass_spec rows) as (Hproc & Hjson & Hother).
  assert (Hkeys : Forall (fun p => keysDefined p = true) normalized).
  { unfold normalized. apply List.Forall_forall. intros p Hp.
    rewrite in_map_iff in Hp. destruct Hp as (q & <- & Hq).
    rewrite in_map_iff in Hq. destruct Hq as (r & <- & _).
    apply recordOfRow_keysDefined. }
  destruct (detectDuplicates_spec normalized Hkeys) as (entries & Hent & Hfst & Hspec).
  assert (Hlen : length normalized = length rows)
    by (unfold normalized; rewrite !length_map; reflexivity).
  rewrite Hlen in Hfst.
  destruct (mergeAll_spec rows entries
              {| mp_processed := normalized;
                 mp_issues := fp_issues (firstPass rows);
                 mp_count := 0 |}) as (merged & Hmerge & Hmlen & Hmp).
  { simpl. intros index info Hin. rewrite Hlen.
    eapply entries_in_range; eauto. }
  simpl in Hmlen, Hmp.
  eexists. exists entries.
  split.
  { unfold processRowsWithQualityChecks. rewrite Hproc.
    fold normalized. rewrite Hent. simpl. rewrite Hmerge. simpl. reflexivity. }
  simpl. rewrite Hjson, Hother.
  repeat match goal with |- _ /\ _ => split end; auto; congruence.
Qed.

End MergeFacts.

(* ------------------------------------------------------------------ *)
(** ** The claims on the pipeline *)
(* ------------------------------------------------------------------ *)

Section PipelineClaims.
Context {E : Engine}.
Import JsString.

Lemma filter_length_le {A : Type} (f : A -> bool) (l : list A) :
  length (List.filter f l) <= length l.
Proof.
  induction l as [|x l IH]; simpl; [lia|]. destruct (f x); simpl; lia.
Qed.

(** C1. For every list of raw rows the pipeline returns a report in
    which [validRows + invalidRows = totalRows]: there is one processed
    record per row (also for a row whose validation throws), [totalRows]
    is the number of rows, [validRows] counts the records that are valid
    and not duplicates, and [invalidRows] is the remainder. *)
Theorem C1_summary_counts_add_up (rows : list RawRow) :
  exists report,
    processRowsWithQualityChecks rows = Normal report
    /\ length (processed report) = length rows
    /\ totalRows (summary report) = length rows
    /\ validRows (summary report)
       = length (List.filter
                   (fun p => (isValid p && negb (isDuplicate p))%bool)
                   (processed report))
    /\ invalidRows (summary report)
       = length (processed report) - validRows (summary report)
    /\ validRows (summary report) + invalidRows (summary report)
       = totalRows (summary report).
Proof.
  destruct (pipeline_runs rows)
    as (report & entries & Hrun & _ & _ & Hlen & Htot & Hval & Hinv & _).
  exists report. repeat split; try assumption.
  rewrite Hinv, Htot, <- Hlen, Hval.
  pose proof (filter_length_le countsAsValid (processed report)). lia.
Qed.

Lemma normalized_lookup (rows : list RawRow) (i : nat) (r : RawRow) :
  rows !! i = Some r ->
  map normalizeRecord (map recordOfRow rows) !! i
  = Some (normalizeRecord (recordOfRow r)).
Proof. intros H. rewrite !lookup_map, H. reflexivity. Qed.

(** C5. When the validation of a row throws, the pipeline still returns:
    it has one processed record per row, the record of that row is
    invalid and carries the single synthetic error, and every row whose
    validation returns is processed as validated. *)
Theorem C5_row_exception_is_contained
    (rows : list RawRow) (i : nat) (r : RawRow) (msg : string) :
  rows !! i = Some r ->
  validateRow r i = Throw msg ->
  exists report,
    processRowsWithQualityChecks rows = Normal report
    /\ length (processed report) = length rows
    /\ (exists p, processed report !! i = Some p
          /\ isValid p = false
          /\ errors p = Some ["Validation failed: " +:+ msg])
    /\ (forall j r' validated,
          rows !! j = Some r' -> validateRow r' j = Normal validated ->
          exists p', processed report !! j = Some p'
            /\ isValid p' = isValid validated
            /\ row p' = row validated
            /\ upb p' = upb validated
            /\ complaintDate p' = complaintDate validated).
Proof.
  intros Hi Hthrow.
  destruct (pipeline_runs rows)
    as (report & entries & Hrun & _ & Hfst & Hlen & _ & _ & _ & _ & _
        & Hspec & Hproc).
  exists report. split; [exact Hrun|]. split; [exact Hlen|]. split.
  - pose proof (normalized_lookup rows i r Hi) as Hn.
    destruct (Hproc _ _ Hn) as (p' & Hp' & _ & Hsame).
    assert (Hrec : recordOfRow r = failedRecord r msg).
    { unfold recordOfRow. rewrite <- (validateRow_index r i), Hthrow. reflexivity. }
    exists p'. split; [exact Hp'|].
    rewrite Hsame.
    + rewrite Hrec. split; reflexivity.
    + intros info Hin.
      pose proof (entries_lookup entries (length rows) i info Hfst Hin) as Hinfo.
      destruct (Hspec _ _ _ Hn Hinfo) as (Hinvalid & _).
      rewrite Hinvalid; [reflexivity|]. rewrite Hrec. reflexivity.
  - intros j r' validated Hj Hok.
    pose proof (normalized_lookup rows j r' Hj) as Hn.
    destruct (Hproc _ _ Hn) as (p' & Hp' & Hcore & _).
    assert (Hrec : recordOfRow r' = validated).
    { unfold recordOfRow. rewrite <- (validateRow_index r' j), Hok. reflexivity. }
    exists p'. split; [exact Hp'|].
    destruct Hcore as (Hv & Hr & Hu & Hd & _).
    rewrite Hv, Hr, Hu, Hd, Hrec. repeat split.
Qed.

Lemma counted_exclusive (r : RawRow) :
  countedAsJSON r = true -> countedAsOther r = false.
Proof.
  unfold countedAsJSON, countedAsOther.
  destruct (validateRow r 0); [|discriminate].
  intros ->. apply andb_false_r.
Qed.

Lemma counted_le (rows : list RawRow) :
  length (List.filter countedAsJSON rows)
  + length (List.filter countedAsOther rows) <= length rows.
Proof.
  induction rows as [|r rows IH]; simpl; [lia|].
  destruct (countedAsJSON r) eqn:HJ.
  - rewrite (counted_exclusive r HJ). simpl. lia.
  - destruct (countedAsOther r); simpl; lia.
Qed.

(** C9. No row is counted both in [rowsWithJSONErrors] and in
    [rowsWithOtherErrors]: the first counts the rows whose validation
    returns with a reported issue that mentions json, the second the rows
    whose validation throws or returns with reported issues none of which
    mentions json, and the two classes are disjoint. *)
Theorem C9_json_and_other_errors_are_exclusive (rows : list RawRow) :
  exists report,
    processRowsWithQualityChecks rows = Normal report
    /\ rowsWithJSONErrors (summary report)
       = length (List.filter countedAsJSON rows)
    /\ rowsWithOtherErrors (summary report)
       = length (List.filter countedAsOther rows)
    /\ (forall r, countedAsJSON r = true -> countedAsOther r = false)
    /\ rowsWithJSONErrors (summary report)
       + rowsWithOtherErrors (summary report) <= length rows.
Proof.
  destruct (pipeline_runs rows)
    as (report & entries & Hrun & _ & _ & _ & _ & _ & _ & Hj & Ho & _).
  exists report. split; [exact Hrun|]. split; [exact Hj|]. split; [exact Ho|].
  split; [exact counted_exclusive|].
  rewrite Hj, Ho. apply counted_le.
Qed.

(** C6, at a row that breaks it. A row whose county and lender are blank
    comes out of the pipeline with an empty [normalizedCounty] and an
    empty [normalizedLender], not with the default. *)
Theorem C6_blank_source_yields_empty_names :
  exists report p,
    processRowsWithQualityChecks [blankRow] = Normal report
    /\ processed report = [p]
    /\ normalizedCounty p = EmptyString
    /\ normalizedLender p = EmptyString.
Proof.
  destruct (pipeline_runs [blankRow])
    as (report & entries & Hrun & _ & _ & Hlen & _ & _ & _ & _ & _ & _ & Hproc).
  destruct (Hproc 0 (normalizeRecord (recordOfRow blankRow)) eq_refl)
    as (p & Hp & Hcore & _).
  exists report, p. split; [exact Hrun|].
  destruct (processed report) as [|q [|q' l]]; simpl in Hlen; try lia.
  simpl in Hp. injection Hp as ->. split; [reflexivity|].
  destruct Hcore as (_ & _ & _ & _ & Hc & Hl).
  rewrite Hc, Hl. split; vm_compute; reflexivity.
Qed.

End PipelineClaims.

(** The hypotheses of C5 hold at the batch with [null] in the middle. *)
Lemma C5_witness :
  Examples.batchWithNull !! 1 = Some RowNull
  /\ validateRow (E := Ref.engine) RowNull 1
     = Throw "Cannot read properties of null (reading 'propertyAddress')"
  /\ exists report,
       processRowsWithQualityChecks Examples.batchWithNull = Normal report
       /\ length (processed report) = 3.
Proof.
  split; [reflexivity|]. split; [reflexivity|].
  destruct (C5_row_exception_is_contained (E := Ref.engine)
              Examples.batchWithNull 1 RowNull
              "Cannot read properties of null (reading 'propertyAddress')"
              eq_refl eq_refl) as (report & Hrun & Hlen & _).
  exists report. split; [exact Hrun|exact Hlen].
Defined.

(* ------------------------------------------------------------------ *)
(** ** The claim on validateRow *)
(* ------------------------------------------------------------------ *)

Section ValidateRowClaims.
Context {E : Engine}.
Import JsString.

(** C3. For every row object, [validateRow] returns a record that is
    valid exactly when no error was found; its [errors] hold the errors
    found when there is one, and the warnings found when there is no
    error (the field being left undefined when there is no warning
    either). *)
Theorem C3_valid_iff_no_error (fields : Fields) (index : nat) :
  exists validated,
    validateRow (RowObject fields) index = Normal validated
    /\ let found := fst (fst (collectIssues fields)) in
       (isValid validated = true <-> i_errors found = [])
       /\ (i_errors found <> [] ->
           errors validated = Some (i_errors found))
       /\ (i_errors found = [] ->
           errors validated
           = match i_warnings found with
             | [] => None
             | _ :: _ => Some (i_warnings found)
             end).
Proof.
  exists (validateFields fields). split; [reflexivity|].
  unfold validateFields.
  destruct (collectIssues fields) as [[found u] d]. simpl.
  destruct (i_errors found) as [|e es]; simpl.
  - split; [split; reflexivity|]. split; [congruence|].
    intros _. destruct (i_warnings found); reflexivity.
  - split; [split; discriminate|]. split; [reflexivity|discriminate].
Qed.

End ValidateRowClaims.

(* ------------------------------------------------------------------ *)
(** ** The claims on detectDuplicates *)
(* ------------------------------------------------------------------ *)

Section DetectClaims.
Context {E : Engine}.
Import JsString.

(** [detectDuplicates] returns exactly when the keys of every valid
    record can be built. *)
Lemma detectFrom_returns rest : forall seen index entries,
  detectFrom seen index rest = Normal entries ->
  Forall (fun p => keysDefined p = true) rest.
Proof.
  induction rest as [|r rest IH]; intros seen index entries; [constructor|].
  cbn [detectFrom].
  destruct (detectStep seen index r) as [[info seen']|m] eqn:Hstep;
    simpl; [|discriminate].
  destruct (detectFrom seen' (S index) rest) as [entries'|m] eqn:Hrest;
    simpl; [|discriminate].
  intros _. constructor; [|eapply IH; exact Hrest].
  unfold detectStep in Hstep. unfold keysDefined.
  destruct (isValid r); simpl in *; [|reflexivity].
  destruct (createRowKeys r); simpl in *; [reflexivity|discriminate].
Qed.

(** C2. Run over a list of processed records, the valid ones with keys
    that can be built, [detectDuplicates] returns one entry per record, in
    order. An invalid record is marked not duplicate and registers no
    key. A valid record is marked duplicate exactly when one of its four
    keys is registered by an earlier record; then [duplicateOf] is the
    record under which the first such key, in strategy order, is
    registered, that is the first earlier record that is valid, not a
    duplicate and has this key. A valid record that is not a duplicate
    registers its keys, and never takes over a key registered before. *)
Theorem C2_detectDuplicates_policy (rows : list ProcessedComplaint) :
  Forall (fun p => keysDefined p = true) rows ->
  exists entries,
    detectDuplicates rows = Normal entries
    /\ map fst entries = seq 0 (length rows)
    /\ forall i r info,
         rows !! i = Some r -> map snd entries !! i = Some info ->
         (isValid r = false ->
            info = {| di_isDuplicate := false; di_duplicateOf := None |})
         /\ (isValid r = true ->
             exists keys, createRowKeys r = Normal keys
             /\ (di_isDuplicate info = true <->
                 exists k j, In k keys
                   /\ registeredTo rows (map snd entries) i k j)
             /\ (di_isDuplicate info = true ->
                 exists before k after j,
                   keys = before ++ k :: after
                   /\ registeredTo rows (map snd entries) i k j
                   /\ (forall k' j', In k' before ->
                         ~ registeredTo rows (map snd entries) i k' j')
                   /\ di_duplicateOf info = Some j)
             /\ (di_isDuplicate info = false ->
                 di_duplicateOf info = None)).
Proof.
  intros Hkeys.
  destruct (detectDuplicates_spec rows Hkeys) as (entries & Hrun & Hfst & Hspec).
  exists entries. split; [exact Hrun|]. split; [exact Hfst|].
  intros i r info Hr Hi. exact (Hspec i r info Hr Hi).
Qed.

(** C10. Every entry that flags a duplicate names an original: its
    [duplicateOf] is defined, is below the index of the entry, and is the
    index of a record that is valid and is not itself flagged. *)
Theorem C10_duplicate_points_to_earlier_original
    (rows : list ProcessedComplaint) :
  Forall (fun p => keysDefined p = true) rows ->
  exists entries,
    detectDuplicates rows = Normal entries
    /\ forall i info,
         In (i, info) entries -> di_isDuplicate info = true ->
         exists j original originalInfo,
           di_duplicateOf info = Some j
           /\ j < i
           /\ rows !! j = Some original
           /\ map snd entries !! j = Some originalInfo
           /\ isValid original = true
           /\ di_isDuplicate originalInfo = false.
Proof.
  intros Hkeys.
  destruct (detectDuplicates_spec rows Hkeys) as (entries & Hrun & Hfst & Hspec).
  exists entries. split; [exact Hrun|].
  intros i info Hin Hdup.
  pose proof (entries_lookup entries _ i info Hfst Hin) as Hinfo.
  pose proof (entries_in_range entries _ i info Hfst Hin) as Hrange.
  destruct (lookup_lt_is_Some_2 rows i Hrange) as (r & Hr).
  destruct (Hspec i r info Hr Hinfo) as (Hinvalid & Hvalid).
  destruct (isValid r) eqn:Hv.
  - destruct (Hvalid eq_refl) as (keys & _ & _ & Hfirst & _).
    destruct (Hfirst Hdup) as (b & k & a & j & _ & Hreg & _ & Hof).
    destruct Hreg as (Hlt & (original & originalInfo & keys' & Ho & Hoi
                             & Hov & Hod & _) & _).
    exists j, original, originalInfo. auto 7.
  - rewrite (Hinvalid eq_refl) in Hdup. discriminate.
Qed.

End DetectClaims.

(** The hypothesis of C2 holds at the two records whose addresses differ
    by a full stop, and the second is flagged as a duplicate of the
    first. *)
Lemma C2_witness :
  Forall (fun p => keysDefined (E := Ref.engine) p = true)
         Examples.nearDuplicates
  /\ exists entries,
       detectDuplicates Examples.nearDuplicates = Normal entries
       /\ map fst entries = [0; 1].
Proof.
  assert (H : Forall (fun p => keysDefined (E := Ref.engine) p = true)
                     Examples.nearDuplicates)
    by (repeat constructor).
  split; [exact H|].
  destruct (C2_detectDuplicates_policy (E := Ref.engine)
              Examples.nearDuplicates H) as (entries & Hrun & Hfst & _).
  exists entries. split; [exact Hrun|exact Hfst].
Defined.

Lemma C10_witness :
  Forall (fun p => keysDefined (E := Ref.engine) p = true)
         Examples.nearDuplicates
  /\ exists entries,
       detectDuplicates Examples.nearDuplicates = Normal entries
       /\ forall i info,
            In (i, info) entries -> di_isDuplicate info = true ->
            exists j, di_duplicateOf info = Some j /\ j < i.
Proof.
  assert (H : Forall (fun p => keysDefined (E := Ref.engine) p = true)
                     Examples.nearDuplicates)
    by (repeat constructor).
  split; [exact H|].
  destruct (C10_duplicate_points_to_earlier_original (E := Ref.engine)
              Examples.nearDuplicates H) as (entries & Hrun & Hall).
  exists entries. split; [exact Hrun|].
  intros i info Hin Hdup.
  destruct (Hall i info Hin Hdup) as (j & _ & _ & Hof & Hlt & _).
  exists j. split; [exact Hof|exact Hlt].
Defined.

(** The run of the repository's own test: the second record is flagged,
    and points at the first. *)
Example nearDuplicates_run :
  detectDuplicates (E := Ref.engine) Examples.nearDuplicates
  = Normal [ (0, {| di_isDuplicate := false; di_duplicateOf := None |});
             (1, {| di_isDuplicate := true; di_duplicateOf := Some 0 |}) ].
Proof. vm_compute. reflexivity. Qed.

(* ------------------------------------------------------------------ *)
(** ** The claim on JSON fields *)
(* ------------------------------------------------------------------ *)

Section JsonClaims.
Context {E : Engine}.
Import JsString.

Lemma append_isEmpty (a b : string) :
  isEmpty a = false -> isEmpty (a +:+ b) = false.
Proof. destruct a; [discriminate|reflexivity]. Qed.

Lemma startsWith_append (p s : string) : startsWith p (p +:+ s) = true.
Proof.
  induction p as [|c p IH]; simpl; [reflexivity|].
  rewrite Ascii.eqb_refl. exact IH.
Qed.

Lemma includes_startsWith (p s : string) :
  startsWith p s = true -> includes p s = true.
Proof.
  intros H. unfold includes. destruct s; simpl; rewrite H; reflexivity.
Qed.

Lemma includes_prefix (p s : string) : includes p (p +:+ s) = true.
Proof.
  unfold includes.
  destruct (p +:+ s) as [|c t] eqn:Hps; simpl.
  - destruct p; [reflexivity|discriminate].
  - rewrite <- Hps, startsWith_append. reflexivity.
Qed.

Lemma append_assoc (a b c : string) : (a +:+ b) +:+ c = a +:+ (b +:+ c).
Proof. induction a as [|x a IH]; simpl; [reflexivity|]. rewrite IH. reflexivity. Qed.

(** The outcome of [validateJSONField] on a string that does not parse. *)
Lemma validateJSONField_unparsed (fieldName s : string) :
  isEmpty s = false ->
  (looksLikeJSON (trim s) = true \/ 2 <= String.length (trim s)) ->
  Json.parse (trim s) = None ->
  validateJSONField (VString s) fieldName
  = match Json.parse (attemptJSONFix (trim s)) with
    | Some parsed =>
        {| jr_isValid := true; jr_parsed := ParsedJSON parsed;
           jr_error := Some ("JSON in " +:+ fieldName
                             +:+ " was malformed but auto-fixed");
           jr_wasFixed := true |}
    | None =>
        {| jr_isValid := false; jr_parsed := ParsedNull;
           jr_error :=
             Some ("Invalid JSON in " +:+ fieldName +:+ ": "
                   +:+ jsonSyntaxError E (trim s)
                   +:+ errorContext (jsonSyntaxError E (trim s)) (trim s));
           jr_wasFixed := false |}
    end.
Proof.
  intros Hs Hshape Hparse. unfold validateJSONField. rewrite Hs.
  assert (Hguard : (negb (looksLikeJSON (trim s))
                    && Nat.ltb (String.length (trim s)) 2)%bool = false).
  { destruct Hshape as [->|Hlen]; [reflexivity|].
    apply andb_false_iff. right. apply Nat.ltb_ge. exact Hlen. }
  rewrite Hguard, Hparse.
  destruct (isEmpty (attemptJSONFix (trim s))) eqn:Hfix; simpl.
  - destruct (attemptJSONFix (trim s)); [|discriminate]. reflexivity.
  - reflexivity.
Qed.

Lemma checkJSONField_errors_grow (i : Issues) (kv : string * JSValue) :
  incl (i_errors i) (i_errors (checkJSONField i kv))
  /\ incl (i_warnings i) (i_warnings (checkJSONField i kv)).
Proof.
  unfold checkJSONField.
  destruct (jr_error _) as [err|]; [|split; apply incl_refl].
  destruct (negb (jr_isValid _) && negb (isEmpty err))%bool.
  - split; simpl; [apply incl_appl|]; apply incl_refl.
  - destruct (jr_wasFixed _ && negb (isEmpty err))%bool.
    + split; simpl; [|apply incl_appl]; apply incl_refl.
    + split; apply incl_refl.
Qed.

Lemma fold_checkJSONField_grow (l : Fields) : forall i,
  incl (i_errors i) (i_errors (fold_left checkJSONField l i))
  /\ incl (i_warnings i) (i_warnings (fold_left checkJSONField l i)).
Proof.
  induction l as [|kv l IH]; intros i; simpl; [split; apply incl_refl|].
  destruct (IH (checkJSONField i kv)) as (He & Hw).
  destruct (checkJSONField_errors_grow i kv) as (He1 & Hw1).
  split; eapply incl_tran; eauto.
Qed.

Lemma fold_checkJSONField_error (l : Fields) kv e : forall i,
  In kv l ->
  (forall i', checkJSONField i' kv = pushError e i') ->
  In e (i_errors (fold_left checkJSONField l i)).
Proof.
  induction l as [|kv' l IH]; intros i Hin Hstep; [destruct Hin|].
  simpl. destruct Hin as [->|Hin].
  - rewrite Hstep. apply (proj1 (fold_checkJSONField_grow l _)).
    simpl. apply in_or_app. right. left. reflexivity.
  - apply IH; assumption.
Qed.

Lemma fold_checkJSONField_warning (l : Fields) kv w : forall i,
  In kv l ->
  (forall i', checkJSONField i' kv = pushWarning w i') ->
  In w (i_warnings (fold_left checkJSONField l i)).
Proof.
  induction l as [|kv' l IH]; intros i Hin Hstep; [destruct Hin|].
  simpl. destruct Hin as [->|Hin].
  - rewrite Hstep. apply (proj2 (fold_checkJSONField_grow l _)).
    simpl. apply in_or_app. right. left. reflexivity.
  - apply IH; assumption.
Qed.

Lemma collectIssues_json (fields : Fields) :
  exists i0,
    fst (fst (collectIssues fields))
    = fold_left checkJSONField (scanForJSONFields fields) i0.
Proof.
  unfold collectIssues.
  destruct (checkUPB fields _) as [i1 u].
  destruct (checkDate fields i1) as [i2 d]. simpl.
  exists i2. reflexivity.
Qed.

Lemma error_invalidates (fields : Fields) (e : string) :
  In e (i_errors (fst (fst (collectIssues fields)))) ->
  isValid (validateFields fields) = false
  /\ In e (reportedIssues (validateFields fields)).
Proof.
  intros Hin. unfold validateFields, reportedIssues.
  destruct (collectIssues fields) as [[i u] d]. simpl in *.
  destruct (i_errors i) as [|e0 es]; [destruct Hin|]. simpl.
  split; [reflexivity|exact Hin].
Qed.

Lemma scan_candidate (fields : Fields) (key : string) (value : JSValue) :
  In (key, value) fields -> isJSONCandidate key value = true ->
  In (key, value) (scanForJSONFields fields).
Proof.
  intros Hin Hc. unfold scanForJSONFields. apply filter_In.
  split; [exact Hin|exact Hc].
Qed.

(** C4, as the code has it. Take a string field. When its trimmed value
    is shorter than two characters and is not JSON-shaped, the field is
    accepted as it is and raises no issue. Otherwise, when direct parsing
    fails: if the repaired text parses, the field is accepted with the
    warning [JSON in <field> was malformed but auto-fixed], which adds no
    error to the row; if the repaired text does not parse either, the
    error [Invalid JSON in <field>: <parser message>], followed by the
    context when the message names a position, is added to the errors, and
    a row that has this field among its JSON candidates is invalid and
    reports that error. In particular every row whose field [metadata]
    holds the text of the scenario is invalid and reports an error that
    contains [Invalid JSON]. *)
Theorem C4_json_field_repair_or_error (fieldName s : string) :
  (isEmpty s = false ->
   looksLikeJSON (trim s) = false -> String.length (trim s) < 2 ->
   validateJSONField (VString s) fieldName
   = {| jr_isValid := true; jr_parsed := ParsedField (VString s);
        jr_error := None; jr_wasFixed := false |}
   /\ forall i, checkJSONField i (fieldName, VString s) = i)
  /\ (isEmpty s = false ->
      (looksLikeJSON (trim s) = true \/ 2 <= String.length (trim s)) ->
      Json.parse (trim s) = None ->
      (forall parsed,
         Json.parse (attemptJSONFix (trim s)) = Some parsed ->
         let warning :=
           "JSON in " +:+ fieldName +:+ " was malformed but auto-fixed" in
         validateJSONField (VString s) fieldName
         = {| jr_isValid := true; jr_parsed := ParsedJSON parsed;
              jr_error := Some warning; jr_wasFixed := true |}
         /\ (forall i,
               checkJSONField i (fieldName, VString s)
               = pushWarning warning i)
         /\ (forall fields,
               In (fieldName, VString s) (scanForJSONFields fields) ->
               In warning (i_warnings (fst (fst (collectIssues fields))))))
      /\ (Json.parse (attemptJSONFix (trim s)) = None ->
          let message := jsonSyntaxError E (trim s) in
          let error :=
            "Invalid JSON in " +:+ fieldName +:+ ": " +:+ message
            +:+ errorContext message (trim s) in
          validateJSONField (VString s) fieldName
          = {| jr_isValid := false; jr_parsed := ParsedNull;
               jr_error := Some error; jr_wasFixed := false |}
          /\ (forall i,
                checkJSONField i (fieldName, VString s) = pushError error i)
          /\ (forall fields,
                In (fieldName, VString s) (scanForJSONFields fields) ->
                isValid (validateFields fields) = false
                /\ In error (reportedIssues (validateFields fields)))))
  /\ (forall fields,
        In ("metadata", VString badJSON) fields ->
        isValid (validateFields fields) = false
        /\ exists error,
             In error (reportedIssues (validateFields fields))
             /\ includes "Invalid JSON" error = true).
Proof.
  assert (Hfail : forall f t,
    isEmpty t = false ->
    (looksLikeJSON (trim t) = true \/ 2 <= String.length (trim t)) ->
    Json.parse (trim t) = None ->
    Json.parse (attemptJSONFix (trim t)) = None ->
    let error :=
      "Invalid JSON in " +:+ f +:+ ": " +:+ jsonSyntaxError E (trim t)
      +:+ errorContext (jsonSyntaxError E (trim t)) (trim t) in
    (forall i, checkJSONField i (f, VString t) = pushError error i)
    /\ forall fields,
         In (f, VString t) (scanForJSONFields fields) ->
         isValid (validateFields fields) = false
         /\ In error (reportedIssues (validateFields fields))).
  { intros f t Ht Hshape Hparse Hfix error.
    assert (Hstep : forall i, checkJSONField i (f, VString t) = pushError error i).
    { intros i. unfold checkJSONField. cbn [fst snd].
      rewrite (validateJSONField_unparsed f t Ht Hshape Hparse), Hfix.
      reflexivity. }
    split; [exact Hstep|].
    intros fields Hin. apply error_invalidates.
    destruct (collectIssues_json fields) as (i0 & ->).
    eapply fold_checkJSONField_error; eauto. }
  split; [|split].
  - intros Hs Hshape Hlen.
    assert (Hr : validateJSONField (VString s) fieldName
                 = {| jr_isValid := true; jr_parsed := ParsedField (VString s);
                      jr_error := None; jr_wasFixed := false |}).
    { unfold validateJSONField. rewrite Hs, Hshape.
      apply Nat.ltb_lt in Hlen. rewrite Hlen. reflexivity. }
    split; [exact Hr|].
    intros i. unfold checkJSONField. cbn [fst snd]. rewrite Hr. reflexivity.
  - intros Hs Hshape Hparse. split.
    + intros parsed Hfix warning.
      assert (Hr : validateJSONField (VString s) fieldName
                   = {| jr_isValid := true; jr_parsed := ParsedJSON parsed;
                        jr_error := Some warning; jr_wasFixed := true |}).
      { rewrite (validateJSONField_unparsed fieldName s Hs Hshape Hparse), Hfix.
        reflexivity. }
      assert (Hstep : forall i,
                checkJSONField i (fieldName, VString s) = pushWarning warning i).
      { intros i. unfold checkJSONField. cbn [fst snd]. rewrite Hr. reflexivity. }
      split; [exact Hr|]. split; [exact Hstep|].
      intros fields Hin.
      destruct (collectIssues_json fields) as (i0 & ->).
      eapply fold_checkJSONField_warning; eauto.
    + intros Hfix message error.
      split; [|exact (Hfail fieldName s Hs Hshape Hparse Hfix)].
      rewrite (validateJSONField_unparsed fieldName s Hs Hshape Hparse), Hfix.
      reflexivity.
  - intros fields Hin.
    destruct (Hfail "metadata" badJSON eq_refl (or_introl eq_refl) eq_refl eq_refl)
      as (_ & Hrow).
    destruct (Hrow fields (scan_candidate fields _ _ Hin eq_refl)) as (Hv & He).
    split; [exact Hv|].
    eexists. split; [exact He|].
    apply includes_startsWith. reflexivity.
Qed.

End JsonClaims.

(** C4 as it is stated fails at a field [info] that holds [x]: the text
    does not parse, the repaired text does not parse either, and yet the
    field is accepted and the row stays valid with nothing to report. *)
Lemma C4_counterexample :
  isJSONCandidate (E := Ref.engine) "info" (VString "x") = true
  /\ Json.parse (JsString.trim "x") = None
  /\ Json.parse (attemptJSONFix (JsString.trim "x")) = None
  /\ jr_isValid (validateJSONField (E := Ref.engine) (VString "x") "info")
     = true
  /\ jr_error (validateJSONField (E := Ref.engine) (VString "x") "info")
     = None
  /\ isValid (validateFields (E := Ref.engine)
                (Examples.mainStreet ++ [("info", VString "x")])) = true
  /\ errors (validateFields (E := Ref.engine)
               (Examples.mainStreet ++ [("info", VString "x")])) = None.
Proof. repeat split; vm_compute; reflexivity. Qed.

(** The three cases of C4 at concrete fields: a one-letter text, an
    object that lacks its closing brace, and the text of the scenario. *)
Lemma C4_witness :
  (forall i : Issues,
     checkJSONField (E := Ref.engine) i ("info", VString "x") = i)
  /\ (forall i : Issues,
        checkJSONField (E := Ref.engine) i ("metadata", VString unclosedJSON)
        = pushWarning "JSON in metadata was malformed but auto-fixed" i)
  /\ isValid (validateFields (E := Ref.engine)
                [("metadata", VString badJSON)]) = false.
Proof.
  destruct (C4_json_field_repair_or_error (E := Ref.engine) "info" "x")
    as (Hshort & _ & _).
  destruct (C4_json_field_repair_or_error (E := Ref.engine)
              "metadata" unclosedJSON) as (_ & Hfix & Hscenario).
  split; [exact (proj2 (Hshort eq_refl eq_refl (le_n 2)))|]. split.
  - destruct (Hfix eq_refl (or_introl eq_refl) eq_refl) as (Hok & _).
    exact (proj1 (proj2 (Hok _ eq_refl))).
  - exact (proj1 (Hscenario [("metadata", VString badJSON)]
                            (or_introl eq_refl))).
Defined.

(* ------------------------------------------------------------------ *)
(** ** The claim on the four-week roll-up *)
(* ------------------------------------------------------------------ *)

Section RollUpFacts.
Context {E : Engine}.
Import JsString.

Lemma addName_In names name n :
  In n (addName names name) <-> In n names \/ n = name.
Proof.
  unfold addName. destruct (existsb (String.eqb name) names) eqn:Hex.
  - apply existsb_eqb_In in Hex. split; [auto|]. intros [H| ->]; assumption.
  - rewrite in_app_iff. simpl. intuition (subst; auto).
Qed.

Lemma addName_NoDup names name : NoDup names -> NoDup (addName names name).
Proof.
  intros H. unfold addName.
  destruct (existsb (String.eqb name) names) eqn:Hex; [exact H|].
  apply NoDup_app. split; [exact H|]. split.
  - intros x Hx Hx'. apply list_elem_of_In in Hx, Hx'.
    destruct Hx' as [<- |[]].
    apply existsb_eqb_In in Hx. congruence.
  - apply NoDup_singleton.
Qed.

Lemma fold_addName_NoDup l : forall names,
  NoDup names -> NoDup (fold_left addName l names).
Proof.
  induction l as [|n l IH]; intros names H; simpl; [exact H|].
  apply IH. apply addName_NoDup. exact H.
Qed.

Lemma fold_addName_In l : forall names n,
  In n (fold_left addName l names) <-> In n names \/ In n l.
Proof.
  induction l as [|x l IH]; intros names n; simpl.
  - split; [auto|]. intros [H|[]]. exact H.
  - rewrite IH, addName_In. split; intros H; intuition auto.
Qed.

Lemma namesOf_NoDup l : NoDup (namesOf l).
Proof. apply fold_addName_NoDup. constructor. Qed.

Lemma namesOf_In l n :
  In n (namesOf l) <-> exists c, In c l /\ countyOf c = n.
Proof.
  unfold namesOf. rewrite fold_addName_In, in_map_iff. simpl.
  split.
  - intros [[]|(c & Hc & Hin)]. exists c. auto.
  - intros (c & Hin & Hc). right. exists c. auto.
Qed.

Lemma namesOf_snoc l c : namesOf (l ++ [c]) = addName (namesOf l) (countyOf c).
Proof. unfold namesOf. rewrite map_app, fold_left_app. reflexivity. Qed.

(** On entries with distinct counties, [updateStats] changes the one
    entry of the county and nothing else. *)
Lemma updateStats_map (g : string -> FourWeekRollUp)
    (f : FourWeekRollUp -> FourWeekRollUp) (name : string) (names : list string) :
  (forall n, county (g n) = n) ->
  NoDup names ->
  updateStats name f (map g names)
  = map (fun n => if String.eqb n name then f (g n) else g n) names.
Proof.
  intros Hg. induction names as [|n names IH]; intros Hnd; simpl; [reflexivity|].
  apply NoDup_cons in Hnd. destruct Hnd as (Hn & Hnd).
  rewrite Hg. destruct (String.eqb_spec n name) as [->|Hne].
  - f_equal. apply map_ext_in. intros a Ha.
    destruct (String.eqb_spec a name) as [->|_]; [|reflexivity].
    exfalso. apply Hn. apply list_elem_of_In. exact Ha.
  - f_equal. apply IH. exact Hnd.
Qed.

Lemma hasCounty_map (g : string -> FourWeekRollUp) name names :
  (forall n, county (g n) = n) ->
  hasCounty name (map g names) = existsb (String.eqb name) names.
Proof.
  intros Hg. unfold hasCounty. induction names as [|n names IH]; simpl; [reflexivity|].
  rewrite Hg, IH, (String.eqb_sym n name). reflexivity.
Qed.

Lemma filter_snoc {A} (f : A -> bool) l x :
  List.filter f (l ++ [x]) = List.filter f l ++ (if f x then [x] else []).
Proof. rewrite List.filter_app. reflexivity. Qed.

Lemma sumUPB_snoc l c : sumUPB (l ++ [c]) = num_add E (sumUPB l) (upbOr0 c).
Proof. unfold sumUPB. rewrite fold_left_app. reflexivity. Qed.

Lemma statsAfter_none all name :
  ~ In name (namesOf all) -> statsAfter all [] name = emptyStats name.
Proof.
  intros Hn. unfold statsAfter, emptyStats.
  assert (Hf : List.filter (inCounty name) all = []).
  { induction all as [|c all IH]; simpl; [reflexivity|].
    destruct (inCounty name c) eqn:Hc.
    - exfalso. apply Hn. apply namesOf_In. exists c. split; [left; reflexivity|].
      apply String.eqb_eq. exact Hc.
    - apply IH. intros Hin. apply Hn. apply namesOf_In.
      apply namesOf_In in Hin. destruct Hin as (c' & Hin & Hc').
      exists c'. split; [right; exact Hin|exact Hc']. }
  rewrite Hf. reflexivity.
Qed.

Lemma countComplaint_step all c :
  countComplaint (map (statsAfter all []) (namesOf all)) c
  = map (statsAfter (all ++ [c]) []) (namesOf (all ++ [c])).
Proof.
  unfold countComplaint.
  rewrite hasCounty_map by reflexivity.
  rewrite namesOf_snoc.
  set (name := countyOf c).
  assert (Hpre :
    (if negb (existsb (String.eqb name) (namesOf all))
     then map (statsAfter all []) (namesOf all) ++ [emptyStats name]
     else map (statsAfter all []) (namesOf all))
    = map (statsAfter all []) (addName (namesOf all) name)).
  { unfold addName. destruct (existsb (String.eqb name) (namesOf all)) eqn:Hex; simpl.
    - reflexivity.
    - rewrite map_app. simpl. rewrite statsAfter_none; [reflexivity|].
      intros Hin. apply existsb_eqb_In in Hin. congruence. }
  rewrite Hpre.
  rewrite updateStats_map;
    [|reflexivity|apply addName_NoDup, namesOf_NoDup].
  apply map_ext. intros n.
  unfold statsAfter. simpl. rewrite !filter_snoc.
  assert (Hcn : inCounty n c = String.eqb n name)
    by (unfold inCounty, name; apply String.eqb_sym).
  rewrite !Hcn.
  destruct (String.eqb n name); simpl.
  - rewrite length_app, filter_snoc. simpl.
    destruct (isValid c && upbTruthy c)%bool.
    + rewrite sumUPB_snoc. f_equal. lia.
    + rewrite app_nil_r. f_equal. lia.
  - rewrite !app_nil_r. reflexivity.
Qed.

Lemma fold_countComplaint all :
  fold_left countComplaint all []
  = map (statsAfter all []) (namesOf all).
Proof.
  induction all as [|c all IH] using rev_ind; [reflexivity|].
  rewrite fold_left_app. simpl. rewrite IH. apply countComplaint_step.
Qed.

Lemma countCriteria_step all valid c :
  countCriteria (map (statsAfter all valid) (namesOf all)) c
  = map (statsAfter all (valid ++ [c])) (namesOf all).
Proof.
  unfold countCriteria. destruct (meetsCriteria c) eqn:Hm.
  - rewrite updateStats_map; [|reflexivity|apply namesOf_NoDup].
    apply map_ext. intros n.
    unfold statsAfter. simpl. rewrite !filter_snoc.
    assert (Hcn : inCounty n c = String.eqb n (countyOf c))
      by (unfold inCounty; apply String.eqb_sym).
    rewrite !Hcn.
    destruct (String.eqb n (countyOf c)); simpl.
    + rewrite !filter_snoc, Hm. simpl. rewrite length_app. simpl.
      destruct (upbTruthy c).
      * rewrite sumUPB_snoc. f_equal. lia.
      * rewrite app_nil_r. f_equal. lia.
    + rewrite !app_nil_r. reflexivity.
  - apply map_ext. intros n.
    unfold statsAfter. rewrite !filter_snoc.
    destruct (inCounty n c); simpl.
    + rewrite !filter_snoc, Hm. simpl. rewrite !app_nil_r. reflexivity.
    + rewrite !app_nil_r. reflexivity.
Qed.

Lemma fold_countCriteria all valid : forall done,
  fold_left countCriteria valid (map (statsAfter all done) (namesOf all))
  = map (statsAfter all (done ++ valid)) (namesOf all).
Proof.
  induction valid as [|c valid IH]; intros done; simpl.
  - rewrite app_nil_r. reflexivity.
  - rewrite countCriteria_step, IH, <- app_assoc. reflexivity.
Qed.

Lemma filter_filter {A} (f g : A -> bool) (l : list A) :
  List.filter f (List.filter g l) = List.filter (fun x => (g x && f x)%bool) l.
Proof.
  induction l as [|x l IH]; simpl; [reflexivity|].
  destruct (g x); simpl; [|exact IH].
  destruct (f x); simpl; rewrite IH; reflexivity.
Qed.

Lemma statsAfter_rollUpOf complaints name :
  statsAfter (List.filter inWindow complaints)
             (filterValidComplaints (List.filter inWindow complaints)) name
  = rollUpOf complaints name.
Proof.
  unfold statsAfter, rollUpOf, filterValidComplaints.
  rewrite !filter_filter.
  f_equal.
  - f_equal. apply List.filter_ext. intros c. unfold qualifies, countsAsValid.
    destruct (inWindow c), (inCounty name c), (isValid c), (isDuplicate c), (meetsCriteria c); reflexivity.
  - f_equal. apply List.filter_ext. intros c. unfold qualifies, countsAsValid.
    destruct (inWindow c), (inCounty name c), (isValid c), (isDuplicate c), (meetsCriteria c), (upbTruthy c); reflexivity.
Qed.

(** Before it is sorted, the roll-up has one line per county of the
    window, in the order in which the window first shows them. *)
Lemma countyMap_spec complaints :
  let window := List.filter inWindow complaints in
  fold_left countCriteria (filterValidComplaints window)
            (fold_left countComplaint window [])
  = map (rollUpOf complaints) (namesOf window).
Proof.
  intros window. rewrite fold_countComplaint.
  rewrite (fold_countCriteria window (filterValidComplaints window) []).
  simpl. apply map_ext. intros n. apply statsAfter_rollUpOf.
Qed.

(** Sorting by insertion. *)
Lemma insertSorted_perm {A} (cmp : A -> A -> Z) x l :
  Permutation (insertSorted cmp x l) (x :: l).
Proof.
  induction l as [|y l IH]; simpl; [reflexivity|].
  destruct (Z.ltb (cmp x y) 0); [reflexivity|].
  rewrite IH. apply perm_swap.
Qed.

Lemma sortWith_perm {A} (cmp : A -> A -> Z) l : Permutation (sortWith cmp l) l.
Proof.
  unfold sortWith.
  assert (H : forall acc, Permutation (fold_left (fun acc x => insertSorted cmp x acc) l acc) (acc ++ l)).
  { induction l as [|x l IH]; intros acc; simpl.
    - rewrite app_nil_r. reflexivity.
    - rewrite IH, insertSorted_perm.
      change (x :: acc) with ([x] ++ acc).
      rewrite <- (Permutation_middle acc l x). simpl. reflexivity. }
  apply (H []).
Qed.

Section Sorted.
Local Open Scope Z_scope.
Context {A : Type} (cmp : A -> A -> Z).
Hypothesis cmp_total : forall a b, cmp a b < 0 \/ cmp b a <= 0.
Hypothesis cmp_trans : forall a b c, cmp a b <= 0 -> cmp b c <= 0 -> cmp a c <= 0.

Lemma insertSorted_sorted x l :
  StronglySorted (fun a b => cmp a b <= 0) l ->
  StronglySorted (fun a b => cmp a b <= 0) (insertSorted cmp x l).
Proof.
  induction l as [|y l IH]; intros Hs; simpl.
  - constructor; [constructor|constructor].
  - inversion Hs as [|? ? Hl Hy]; subst.
    destruct (Z.ltb (cmp x y) 0) eqn:Hlt.
    + apply Z.ltb_lt in Hlt. constructor; [exact Hs|].
      constructor; [lia|].
      rewrite List.Forall_forall in Hy |- *. intros z Hz.
      apply (cmp_trans x y z); [lia|apply Hy; exact Hz].
    + apply Z.ltb_ge in Hlt. constructor; [apply IH; exact Hl|].
      rewrite List.Forall_forall in Hy |- *. intros z Hz.
      apply (Permutation_in _ (insertSorted_perm cmp x l)) in Hz.
      destruct Hz as [<-|Hz]; [|apply Hy; exact Hz].
      destruct (cmp_total x y); lia.
Qed.

Lemma sortWith_sorted l :
  StronglySorted (fun a b => cmp a b <= 0) (sortWith cmp l).
Proof.
  unfold sortWith.
  assert (H : forall acc, StronglySorted (fun a b => cmp a b <= 0) acc ->
            StronglySorted (fun a b => cmp a b <= 0)
              (fold_left (fun acc x => insertSorted cmp x acc) l acc)).
  { induction l as [|x l IH]; intros acc Hacc; simpl; [exact Hacc|].
    apply IH. apply insertSorted_sorted. exact Hacc. }
  apply H. constructor.
Qed.
End Sorted.

(** C8, as the code has it. The roll-up has one line per normalized
    county of the window, the window being the records dated on or after
    the instant 28 days before the call. On a line, [totalComplaints]
    counts every record of the window for the county, valid or not,
    duplicate or not; [totalUPB] adds the balances of the valid ones among
    them, duplicates included; [totalMeetsCriteria] and
    [totalUPBMeetsCriteria] count and add over the valid, non-duplicate
    records that meet the criteria. The lines are in the order of
    [localeCompare] on the county, when this is a total preorder. *)
Theorem C8_four_week_rollup (complaints : list ProcessedComplaint) :
  (forall a b, (localeCompare E a b < 0 \/ localeCompare E b a <= 0)%Z) ->
  (forall a b c, (localeCompare E a b <= 0)%Z -> (localeCompare E b c <= 0)%Z ->
                 (localeCompare E a c <= 0)%Z) ->
  let result := calculateFourWeekRollUp complaints in
  (forall stats, In stats result ->
     stats = rollUpOf complaints (county stats)
     /\ exists c, In c complaints /\ inWindow c = true
                  /\ countyOf c = county stats)
  /\ (forall c, In c complaints -> inWindow c = true ->
        exists stats, In stats result /\ county stats = countyOf c)
  /\ NoDup (map county result)
  /\ StronglySorted
       (fun x y => (localeCompare E (county x) (county y) <= 0)%Z) result.
Proof.
  intros Htotal Htrans result.
  set (cmp := fun a b : FourWeekRollUp =>
                localeCompare E (county a) (county b)).
  set (window := List.filter inWindow complaints).
  assert (Hres : result = sortWith cmp (map (rollUpOf complaints) (namesOf window))).
  { unfold result, calculateFourWeekRollUp.
    fold cmp. f_equal. apply (countyMap_spec complaints). }
  assert (Hperm : Permutation result (map (rollUpOf complaints) (namesOf window)))
    by (rewrite Hres; apply sortWith_perm).
  assert (Hname : forall n, In n (namesOf window) <->
            exists c, In c complaints /\ inWindow c = true /\ countyOf c = n).
  { intros n. rewrite namesOf_In. unfold window. split.
    - intros (c & Hc & Hn). apply filter_In in Hc. destruct Hc. exists c. auto.
    - intros (c & Hc & Hw & Hn). exists c. split; [|exact Hn].
      apply filter_In. auto. }
  split; [|split; [|split]].
  - intros stats Hin. apply (Permutation_in _ Hperm) in Hin.
    apply in_map_iff in Hin. destruct Hin as (n & <- & Hn).
    split; [reflexivity|]. apply Hname. exact Hn.
  - intros c Hc Hw. exists (rollUpOf complaints (countyOf c)).
    split; [|reflexivity].
    apply (Permutation_in _ (Permutation_sym Hperm)).
    apply in_map. apply Hname. exists c. auto.
  - pose proof (Permutation_map county Hperm) as Hp.
    rewrite Hp, map_map. simpl. rewrite map_id. apply namesOf_NoDup.
  - rewrite Hres. apply sortWith_sorted.
    + intros a b. apply Htotal.
    + intros a b c. apply Htrans.
Qed.

End RollUpFacts.

Lemma compareCodes_total (a b : string) :
  (Ref.compareCodes a b < 0 \/ Ref.compareCodes b a <= 0)%Z.
Proof.
  revert b. induction a as [|x a IH]; intros [|y b]; simpl; try lia.
  destruct (N.ltb_spec (JsString.code x) (JsString.code y)); [lia|].
  destruct (N.ltb_spec (JsString.code y) (JsString.code x)); [lia|].
  apply IH.
Qed.

Lemma compareCodes_trans (a b c : string) :
  (Ref.compareCodes a b <= 0)%Z -> (Ref.compareCodes b c <= 0)%Z ->
  (Ref.compareCodes a c <= 0)%Z.
Proof.
  revert b c. induction a as [|x a IH]; intros [|y b] [|z c]; simpl; try lia.
  destruct (N.ltb_spec (JsString.code x) (JsString.code y)), (N.ltb_spec (JsString.code y) (JsString.code x)),
           (N.ltb_spec (JsString.code y) (JsString.code z)), (N.ltb_spec (JsString.code z) (JsString.code y)),
           (N.ltb_spec (JsString.code x) (JsString.code z)), (N.ltb_spec (JsString.code z) (JsString.code x));
    try lia.
  apply IH.
Qed.

(** C8 as it is stated fails twice. At a row of the window that lacks
    its county, validation keeps its balance of 100 and marks it invalid,
    the roll-up counts the record and leaves its balance out of
    [totalUPB], where the claim has 100. And at a row dated 2030-01-01,
    years after the call, the roll-up has a line that counts it, where
    the claim, whose window is the last 28 days, counts nothing. *)
Lemma C8_counterexample :
  (let complaints :=
     match processRowsWithQualityChecks (E := Ref.engine)
             [RowObject Examples.noCounty] with
     | Normal report => processed report
     | Throw _ => []
     end in
   map Examples.showRecord complaints = [(false, Some "100")]
   /\ map Examples.showLine (calculateFourWeekRollUp complaints)
      = [("Unknown", 1, "0")]
   /\ Ref.toString (claimedTotalUPB (E := Ref.engine) complaints "Unknown")
      = "100")
  /\ (let complaints :=
        MoreExamples.recordsOf [RowObject MoreExamples.nextDecade] in
      map Examples.showRecord complaints = [(true, Some "5")]
      /\ map Examples.showLine
           (calculateFourWeekRollUp (E := Ref.engine) complaints)
         = [("Kings", 1, "5")]
      /\ claimedTotalComplaints (E := Ref.engine) complaints "Kings" = 0).
Proof. vm_compute. repeat split. Qed.

(** The hypotheses of C8 hold for the comparison by character codes, and
    the roll-up of the pipeline's output on three rows of the window has
    three lines, in order. *)
Lemma C8_witness :
  (forall a b, (Ref.compareCodes a b < 0 \/ Ref.compareCodes b a <= 0)%Z)
  /\ (forall a b c, (Ref.compareCodes a b <= 0)%Z ->
                    (Ref.compareCodes b c <= 0)%Z ->
                    (Ref.compareCodes a c <= 0)%Z)
  /\ map Examples.showLine
       (calculateFourWeekRollUp (E := Ref.engine)
          (MoreExamples.recordsOf MoreExamples.juneRows))
     = [("Kings", 1, "250"); ("Queens", 1, "100"); ("Unknown", 1, "0")]
  /\ NoDup (map county
              (calculateFourWeekRollUp (E := Ref.engine)
                 (MoreExamples.recordsOf MoreExamples.juneRows)))
  /\ StronglySorted
       (fun x y => (Ref.compareCodes (county x) (county y) <= 0)%Z)
       (calculateFourWeekRollUp (E := Ref.engine)
          (MoreExamples.recordsOf MoreExamples.juneRows)).
Proof.
  split; [exact compareCodes_total|]. split; [exact compareCodes_trans|].
  split; [vm_compute; reflexivity|].
  exact (proj2 (proj2
    (C8_four_week_rollup (E := Ref.engine)
       (MoreExamples.recordsOf MoreExamples.juneRows)
       compareCodes_total compareCodes_trans))).
Defined.

(* ------------------------------------------------------------------ *)
(** ** The claim on normalizeCounty *)
(* ------------------------------------------------------------------ *)

(** Case by case on the 256 characters. *)
Ltac ascii_cases a :=
  destruct a as [[] [] [] [] [] [] [] []]; try discriminate; try reflexivity.

Section Soundness.
Import JsString Regex Normalization.
Variable ci : bool.

Lemma starK_sound (r : regex) :
  (forall p s k x, matchK ci r p s k = Some x ->
     exists p' s', Matches ci r p s p' s' /\ k p' s' = Some x) ->
  forall fuel p s k x,
    starK fuel (matchK ci r) p s k = Some x ->
    exists p' s', Matches ci (Star r) p s p' s' /\ k p' s' = Some x.
Proof.
  intros IHr. induction fuel as [|f IHf]; intros p s k x; simpl.
  - intros H. exists p, s. split; [constructor|exact H].
  - destruct (matchK ci r p s _) as [y|] eqn:Hm.
    + intros [= ->]. apply IHr in Hm. destruct Hm as (p1 & s1 & Hr & Hk).
      destruct (Nat.ltb (String.length s1) (String.length s)); [|discriminate].
      apply IHf in Hk. destruct Hk as (p2 & s2 & Hs & Hk).
      exists p2, s2. split; [econstructor; eauto|exact Hk].
    + intros H. exists p, s. split; [constructor|exact H].
Qed.

Lemma matchK_sound (r : regex) : forall p s k x,
  matchK ci r p s k = Some x ->
  exists p' s', Matches ci r p s p' s' /\ k p' s' = Some x.
Proof.
  induction r as [|c| |negated items|r1 IH1 r2 IH2|r1 IH1 r2 IH2|r IH| | |];
    intros p s k x; simpl.
  - intros H. exists p, s. split; [constructor|exact H].
  - destruct s as [|a s]; [discriminate|].
    destruct (charEq ci c a) eqn:Hc; [|discriminate].
    intros H. exists (Some a), s. split; [constructor; exact Hc|exact H].
  - destruct s as [|a s]; [discriminate|].
    destruct (isLineTerminator a) eqn:Hc; [discriminate|].
    intros H. exists (Some a), s. split; [constructor; exact Hc|exact H].
  - destruct s as [|a s]; [discriminate|].
    destruct (classMatches ci negated items a) eqn:Hc; [|discriminate].
    intros H. exists (Some a), s. split; [constructor; exact Hc|exact H].
  - intros H. apply IH1 in H. destruct H as (p1 & s1 & H1 & H).
    apply IH2 in H. destruct H as (p2 & s2 & H2 & H).
    exists p2, s2. split; [econstructor; eauto|exact H].
  - destruct (matchK ci r1 p s k) as [y|] eqn:Hm.
    + intros [= ->]. apply IH1 in Hm. destruct Hm as (p' & s' & H1 & H).
      exists p', s'. split; [apply MAltL; exact H1|exact H].
    + intros H. apply IH2 in H. destruct H as (p' & s' & H2 & H).
      exists p', s'. split; [apply MAltR; exact H2|exact H].
  - apply starK_sound. exact IH.
  - destruct p; [discriminate|].
    intros H. exists None, s. split; [constructor|exact H].
  - destruct s; [|discriminate].
    intros H. exists p, EmptyString. split; [constructor|exact H].
  - destruct (xorb _ _) eqn:Hx; [|discriminate].
    intros H. exists p, s. split; [constructor; exact Hx|exact H].
Qed.

Lemma matchHere_sound r p s rest :
  matchHere ci r p s = Some rest -> exists p', Matches ci r p s p' rest.
Proof.
  unfold matchHere. intros H. apply matchK_sound in H.
  destruct H as (p' & s' & Hm' & [= ->]). exists p'. exact Hm'.
Qed.

Lemma search_None r : forall s prev,
  NoMatch ci r prev s -> search ci r prev s = None.
Proof.
  induction s as [|a s IH]; intros prev Hno; simpl.
  - destruct (matchHere ci r prev EmptyString) as [rest|] eqn:Hm; [|reflexivity].
    apply matchHere_sound in Hm. destruct Hm as (p' & Hm').
    exfalso. exact (Hno EmptyString EmptyString p' rest eq_refl Hm').
  - destruct (matchHere ci r prev (String a s)) as [rest|] eqn:Hm.
    + apply matchHere_sound in Hm. destruct Hm as (p' & Hm').
      exfalso. exact (Hno EmptyString (String a s) p' rest eq_refl Hm').
    + rewrite IH; [reflexivity|].
      intros pre suf p' rest Hs Hmatch.
      apply (Hno (String a pre) suf p' rest);
        [simpl; rewrite Hs; reflexivity|exact Hmatch].
Qed.

Lemma replace_NoMatch r by_ s : NoMatch ci r None s -> replace ci r by_ s = s.
Proof. intros H. unfold replace. rewrite (search_None r s None H). reflexivity. Qed.

Lemma replaceAll_NoMatch r by_ s : NoMatch ci r None s -> replaceAll ci r by_ s = s.
Proof.
  intros H. unfold replaceAll. simpl. rewrite (search_None r s None H). reflexivity.
Qed.

End Soundness.

Section StringFacts.
Import JsString Regex Normalization.

Lemma app_nil_r_s (s : string) : s +:+ EmptyString = s.
Proof. induction s as [|c s IH]; simpl; [reflexivity|]. rewrite IH. reflexivity. Qed.

Lemma length_app_s (a b : string) :
  String.length (a +:+ b) = String.length a + String.length b.
Proof. induction a as [|x a IH]; simpl; [reflexivity|]. rewrite IH. reflexivity. Qed.

Lemma mapChars_app (f : ascii -> ascii) (a b : string) :
  mapChars f (a +:+ b) = mapChars f a +:+ mapChars f b.
Proof. induction a as [|x a IH]; simpl; [reflexivity|]. rewrite IH. reflexivity. Qed.

Lemma allChars_app (f : ascii -> bool) (a b : string) :
  allChars f (a +:+ b) = (allChars f a && allChars f b)%bool.
Proof.
  induction a as [|x a IH]; simpl; [reflexivity|]. rewrite IH, andb_assoc. reflexivity.
Qed.

Lemma allChars_impl (f g : ascii -> bool) (s : string) :
  (forall c, f c = true -> g c = true) ->
  allChars f s = true -> allChars g s = true.
Proof.
  intros Hfg. induction s as [|c s IH]; simpl; [reflexivity|].
  intros H. apply andb_prop in H. destruct H as (Hc & Hs).
  rewrite (Hfg c Hc), (IH Hs). reflexivity.
Qed.

(** A string is empty or ends with a character. *)
Lemma string_snoc (s : string) :
  s = EmptyString \/ exists m a, s = m +:+ String a EmptyString.
Proof.
  induction s as [|c s IH]; [left; reflexivity|right].
  destruct IH as [->|(m & a & ->)].
  - exists EmptyString, c. reflexivity.
  - exists (String c m), a. reflexivity.
Qed.

Lemma lastOr_app p a b : lastOr p (a +:+ b) = lastOr (lastOr p a) b.
Proof. revert p. induction a as [|x a IH]; intros p; simpl; [reflexivity|apply IH]. Qed.

Lemma lastOr_snoc p m a : lastOr p (m +:+ String a EmptyString) = Some a.
Proof. rewrite lastOr_app. reflexivity. Qed.

Lemma includes_cons (p : string) (c : ascii) (s : string) :
  includes p s = true -> includes p (String c s) = true.
Proof.
  unfold includes. simpl. destruct (startsWith p (String c s)); [reflexivity|].
  destruct (indexOf p s); [reflexivity|discriminate].
Qed.

Lemma includes_middle (a p b : string) : includes p (a +:+ p +:+ b) = true.
Proof.
  induction a as [|c a IH]; simpl; [apply includes_prefix|].
  apply includes_cons. exact IH.
Qed.

Lemma lowerChar_idem (c : ascii) : lowerChar (lowerChar c) = lowerChar c.
Proof. ascii_cases c. Qed.

Lemma toLowerCase_idem (s : string) : toLowerCase (toLowerCase s) = toLowerCase s.
Proof.
  unfold toLowerCase. induction s as [|c s IH]; simpl; [reflexivity|].
  rewrite lowerChar_idem, IH. reflexivity.
Qed.

Lemma toLowerCase_fixed (s : string) :
  allChars lowerOrBlank s = true -> toLowerCase s = s.
Proof.
  unfold toLowerCase. induction s as [|c s IH]; simpl; [reflexivity|].
  intros H. apply andb_prop in H. destruct H as (Hc & Hs).
  rewrite (IH Hs). f_equal. revert Hc. ascii_cases c.
Qed.

End StringFacts.

Section Inversion.
Import JsString Regex Normalization.
Variable ci : bool.

(** What a match reads is a prefix of the input. *)
Lemma Matches_prefix r p s p' s' :
  Matches ci r p s p' s' -> exists m, s = m +:+ s' /\ p' = lastOr p m.
Proof.
  induction 1;
    try (exists EmptyString; split; reflexivity);
    try (exists (String a EmptyString); split; reflexivity);
    try assumption.
  - destruct IHMatches1 as (m1 & -> & ->). destruct IHMatches2 as (m2 & -> & ->).
    exists (m1 +:+ m2). rewrite append_assoc, lastOr_app. split; reflexivity.
  - destruct IHMatches1 as (m1 & -> & ->). destruct IHMatches2 as (m2 & -> & ->).
    exists (m1 +:+ m2). rewrite append_assoc, lastOr_app. split; reflexivity.
Qed.

Lemma Matches_Chr c p s p' s' :
  Matches ci (Chr c) p s p' s' ->
  exists a, s = String a s' /\ p' = Some a /\ charEq ci c a = true.
Proof. inversion 1; subst. eexists; repeat split; assumption. Qed.

Lemma Matches_Lit L : forall p s p' s',
  Matches ci (Lit L) p s p' s' ->
  exists m, s = m +:+ s' /\ p' = lastOr p m /\ litEq ci L m = true.
Proof.
  induction L as [|c L IH]; intros p s p' s' H.
  - inversion H; subst. exists EmptyString. repeat split.
  - destruct L as [|d L].
    + apply Matches_Chr in H. destruct H as (a & -> & -> & Hc).
      exists (String a EmptyString). simpl. rewrite Hc. repeat split.
    + change (Lit (String c (String d L)))
        with (Seq (Chr c) (Lit (String d L))) in H.
      inversion H as [| | | |r1 r2 p0 s0 p1 s1 p2 s2 H1 H2| | | | | | |]; subst.
      apply Matches_Chr in H1. destruct H1 as (a & -> & -> & Hc).
      apply IH in H2. destruct H2 as (m & -> & -> & Hm).
      exists (String a m). split; [reflexivity|]. split; [reflexivity|].
      change (litEq ci (String c (String d L)) (String a m))
        with (charEq ci c a && litEq ci (String d L) m)%bool.
      rewrite Hc, Hm. reflexivity.
Qed.

Lemma Matches_Star_Class negated items p s p' s' :
  Matches ci (Star (Class negated items)) p s p' s' ->
  exists m, s = m +:+ s' /\ p' = lastOr p m /\
            allChars (classMatches ci negated items) m = true.
Proof.
  remember (Star (Class negated items)) as r eqn:Hr.
  induction 1 as [| | | | | | |r0 p s|r0 p s p1 s1 p2 s2 H1 _ H2 IH2| | |];
    try discriminate.
  - exists EmptyString. repeat split.
  - injection Hr as ->. specialize (IH2 eq_refl).
    destruct IH2 as (m & -> & -> & Hm).
    inversion H1; subst.
    exists (String a m). simpl. rewrite Hm, andb_true_r. repeat split. assumption.
Qed.

Lemma Matches_Seq r1 r2 p s p' s' :
  Matches ci (Seq r1 r2) p s p' s' ->
  exists p1 s1, Matches ci r1 p s p1 s1 /\ Matches ci r2 p1 s1 p' s'.
Proof. inversion 1; subst. eauto. Qed.

Lemma Matches_WordB p s p' s' :
  Matches ci WordB p s p' s' ->
  p' = p /\ s' = s /\ xorb (isWordOpt p) (isWordOpt (headChar s)) = true.
Proof. inversion 1; subst. repeat split. assumption. Qed.

Lemma Matches_Eol p s p' s' :
  Matches ci Eol p s p' s' -> s = EmptyString /\ s' = EmptyString.
Proof. inversion 1; subst. split; reflexivity. Qed.

Lemma Matches_Any p s p' s' :
  Matches ci Any p s p' s' -> exists a, s = String a s' /\ p' = Some a.
Proof. inversion 1; subst. eexists; split; reflexivity. Qed.

Lemma Matches_Class negated items p s p' s' :
  Matches ci (Class negated items) p s p' s' ->
  exists a, s = String a s' /\ p' = Some a /\
            classMatches ci negated items a = true.
Proof. inversion 1; subst. eexists; repeat split; assumption. Qed.

End Inversion.

Section LiteralFacts.
Import JsString Regex Normalization.

Lemma litEq_lower L : forall m,
  litEq true L m = true -> toLowerCase m = toLowerCase L.
Proof.
  unfold toLowerCase.
  induction L as [|c L IH]; intros [|a m]; simpl; try discriminate; [reflexivity|].
  intros H. apply andb_prop in H. destruct H as (Hc & Hm).
  rewrite (IH m Hm). f_equal. unfold charEq in Hc.
  apply Ascii.eqb_eq in Hc. symmetry. exact Hc.
Qed.

Lemma litEq_length ci L : forall m,
  litEq ci L m = true -> String.length m = String.length L.
Proof.
  induction L as [|c L IH]; intros [|a m]; simpl; try discriminate; [reflexivity|].
  intros H. apply andb_prop in H. destruct H as (_ & Hm). rewrite (IH m Hm). reflexivity.
Qed.

(** A match of a literal inside a text puts the literal, in lower case,
    into the text in lower case. *)
Lemma literal_included L a m b :
  litEq true L m = true ->
  includes (toLowerCase L) (toLowerCase (a +:+ m +:+ b)) = true.
Proof.
  intros H. unfold toLowerCase at 2. rewrite !mapChars_app.
  fold (toLowerCase m). rewrite (litEq_lower L m H). apply includes_middle.
Qed.

End LiteralFacts.

Section Boundaries.
Import JsString Regex Normalization.

Lemma blank_not_word a : lowerOrBlank a = true -> isWord a = false -> a = " "%char.
Proof. revert a. intros a. ascii_cases a. Qed.

Lemma space_is_blank a : lowerOrBlank a = true -> isSpace a = true -> a = " "%char.
Proof. revert a. intros a. ascii_cases a. Qed.

Lemma lower_is_word a : isLower a = true -> isWord a = true.
Proof. revert a. intros a. ascii_cases a. Qed.

Lemma lower_listed a : isLower a = true -> In a lowercaseLetters.
Proof.
  intros H. assert (Hex : existsb (Ascii.eqb a) lowercaseLetters = true).
  { revert H. ascii_cases a. }
  apply existsb_exists in Hex. destruct Hex as (x & Hin & Hx).
  apply Ascii.eqb_eq in Hx. subst x. exact Hin.
Qed.

Lemma boundary_before pre :
  allChars lowerOrBlank pre = true ->
  isWordOpt (lastOr None pre) = false ->
  exists pre', " " +:+ pre = pre' +:+ " ".
Proof.
  intros Hpre Hw. destruct (string_snoc pre) as [->|(m & a & ->)].
  - exists EmptyString. reflexivity.
  - rewrite lastOr_snoc in Hw. simpl in Hw.
    rewrite allChars_app in Hpre. apply andb_prop in Hpre.
    destruct Hpre as (_ & Ha). simpl in Ha. rewrite andb_true_r in Ha.
    rewrite (blank_not_word a Ha Hw).
    exists (" " +:+ m). rewrite append_assoc. reflexivity.
Qed.

Lemma boundary_after s :
  allChars lowerOrBlank s = true ->
  isWordOpt (headChar s) = false ->
  exists s', s +:+ " " = " " +:+ s'.
Proof.
  intros Hs Hw. destruct s as [|a t].
  - exists EmptyString. reflexivity.
  - simpl in Hs, Hw. apply andb_prop in Hs. destruct Hs as (Ha & _).
    rewrite (blank_not_word a Ha Hw). exists (t +:+ " "). reflexivity.
Qed.

Lemma sandwich a b L c d :
  " " +:+ a = b +:+ " " -> c +:+ " " = " " +:+ d ->
  " " +:+ (a +:+ L +:+ c) +:+ " " = b +:+ (" " +:+ L +:+ " ") +:+ d.
Proof.
  intros H1 H2.
  transitivity ((" " +:+ a) +:+ L +:+ (c +:+ " ")).
  - rewrite !append_assoc. reflexivity.
  - rewrite H1, H2, !append_assoc. reflexivity.
Qed.

Lemma existsb_none {A} (f : A -> bool) (l : list A) :
  existsb f l = false -> forall x, In x l -> f x = false.
Proof.
  intros H x Hin. destruct (f x) eqn:Hf; [|reflexivity].
  rewrite <- H. symmetry. apply existsb_exists. exists x. split; assumption.
Qed.

End Boundaries.

Section Mentioning.
Import JsString Regex Normalization.

Lemma Mentions_here L r : Mentions (Seq (Lit L) r) L.
Proof.
  intros p s p' s' H. apply Matches_Seq in H. destruct H as (p1 & s1 & H1 & H2).
  apply Matches_Lit in H1. destruct H1 as (m & -> & _ & Hm).
  exists EmptyString, m, s1. split; [reflexivity|exact Hm].
Qed.

Lemma Mentions_skip r1 r2 L : Mentions r2 L -> Mentions (Seq r1 r2) L.
Proof.
  intros Hr p s p' s' H. apply Matches_Seq in H. destruct H as (p1 & s1 & H1 & H2).
  apply Matches_prefix in H1. destruct H1 as (m1 & -> & _).
  apply Hr in H2. destruct H2 as (a & m & b & -> & Hm).
  exists (m1 +:+ a), m, b. rewrite append_assoc. split; [reflexivity|exact Hm].
Qed.

Lemma Mentions_NoMatch r L prev s :
  Mentions r L ->
  includes (toLowerCase L) (padded s) = false ->
  NoMatch true r prev s.
Proof.
  intros Hr Hno pre suf p' rest -> Hm.
  apply Hr in Hm. destruct Hm as (a & m & b & -> & Hm).
  assert (Heq : padded (pre +:+ a +:+ m +:+ b) =
                (" " +:+ toLowerCase pre +:+ toLowerCase a) +:+ toLowerCase L
                  +:+ (toLowerCase b +:+ " ")).
  { unfold padded, toLowerCase. rewrite !mapChars_app.
    fold (toLowerCase m). rewrite (litEq_lower L m Hm).
    rewrite !append_assoc. reflexivity. }
  rewrite Heq, includes_middle in Hno. discriminate.
Qed.

End Mentioning.

Section LowerCaseName.
Import JsString Regex Normalization.
(** A name in lower case: lower-case letters and spaces, none of the
    rewritten words in it. *)
Variable l : string.
Hypothesis Hl : allChars lowerOrBlank l = true.
Hypothesis Hno : forall pat, In pat rewritePatterns ->
  includes pat (" " +:+ l +:+ " ") = false.

Lemma part_lower pre m post :
  l = pre +:+ m +:+ post ->
  allChars lowerOrBlank pre = true /\ allChars lowerOrBlank m = true /\
  allChars lowerOrBlank post = true.
Proof.
  intros Hs. pose proof Hl as H. rewrite Hs, !allChars_app in H.
  apply andb_prop in H. destruct H as (H1 & H).
  apply andb_prop in H. destruct H as (H2 & H3). auto.
Qed.

Lemma literal_exact L pre m post :
  toLowerCase L = L ->
  l = pre +:+ m +:+ post -> litEq true L m = true -> m = L.
Proof.
  intros HL Hs Hm. destruct (part_lower pre m post Hs) as (_ & Hlm & _).
  rewrite <- (toLowerCase_fixed m Hlm), (litEq_lower L m Hm). exact HL.
Qed.

(** [\bL\b] for a word [L]. *)
Lemma word_NoMatch L c0 c1 :
  headChar L = Some c0 -> isWord c0 = true ->
  (forall p, lastOr p L = Some c1) -> isWord c1 = true ->
  toLowerCase L = L ->
  includes (" " +:+ L +:+ " ") (" " +:+ l +:+ " ") = false ->
  NoMatch true (Seq WordB (Seq (Lit L) WordB)) None l.
Proof.
  intros Hhead Hc0 Hlast Hc1 HL Hinc pre suf p' rest Hs Hm.
  apply Matches_Seq in Hm. destruct Hm as (p1 & s1 & Hb & Hm).
  apply Matches_WordB in Hb. destruct Hb as (-> & -> & Hx).
  apply Matches_Seq in Hm. destruct Hm as (p2 & s2 & Hlit & He).
  apply Matches_Lit in Hlit. destruct Hlit as (m & -> & -> & Hm).
  apply Matches_WordB in He. destruct He as (_ & _ & Hy).
  pose proof (literal_exact L pre m s2 HL Hs Hm) as ->.
  destruct (part_lower pre L s2 Hs) as (Hpre & _ & Hs2).
  assert (Hh : headChar (L +:+ s2) = Some c0).
  { destruct L; [discriminate|]. exact Hhead. }
  rewrite Hh in Hx. simpl in Hx. rewrite Hc0, xorb_true_r in Hx.
  apply negb_true_iff in Hx.
  rewrite Hlast in Hy. simpl in Hy. rewrite Hc1 in Hy. simpl in Hy.
  apply negb_true_iff in Hy.
  destruct (boundary_before pre Hpre Hx) as (pre' & Hpre').
  destruct (boundary_after s2 Hs2 Hy) as (s2' & Hs2').
  rewrite Hs, (sandwich pre pre' L s2 s2' Hpre' Hs2'), includes_middle in Hinc.
  discriminate.
Qed.

(** [\bL.\b]: the dot reads a space or one more letter. *)
Lemma word_dot_NoMatch L c0 :
  headChar L = Some c0 -> isWord c0 = true ->
  toLowerCase L = L ->
  includes (" " +:+ L +:+ " ") (" " +:+ l +:+ " ") = false ->
  (forall x, In x lowercaseLetters ->
     includes (" " +:+ L +:+ String x " ") (" " +:+ l +:+ " ") = false) ->
  NoMatch true (Seq WordB (Seq (Lit L) (Seq Any WordB))) None l.
Proof.
  intros Hhead Hc0 HL Hinc Hletters pre suf p' rest Hs Hm.
  apply Matches_Seq in Hm. destruct Hm as (p1 & s1 & Hb & Hm).
  apply Matches_WordB in Hb. destruct Hb as (-> & -> & Hx).
  apply Matches_Seq in Hm. destruct Hm as (p2 & s2 & Hlit & Hm).
  apply Matches_Lit in Hlit. destruct Hlit as (m & -> & -> & Hlm).
  apply Matches_Seq in Hm. destruct Hm as (p3 & s3 & Hany & He).
  apply Matches_Any in Hany. destruct Hany as (a & -> & ->).
  apply Matches_WordB in He. destruct He as (_ & _ & Hy).
  pose proof (literal_exact L pre m (String a s3) HL Hs Hlm) as ->.
  destruct (part_lower pre L (String a s3) Hs) as (Hpre & _ & Has3).
  simpl in Has3. apply andb_prop in Has3. destruct Has3 as (Ha & Hs3).
  assert (Hh : headChar (L +:+ String a s3) = Some c0).
  { destruct L; [discriminate|]. exact Hhead. }
  rewrite Hh in Hx. simpl in Hx. rewrite Hc0, xorb_true_r in Hx.
  apply negb_true_iff in Hx.
  destruct (boundary_before pre Hpre Hx) as (pre' & Hpre').
  destruct (isLower a) eqn:Hlow.
  - simpl in Hy. rewrite (lower_is_word a Hlow) in Hy. simpl in Hy.
    apply negb_true_iff in Hy.
    destruct (boundary_after s3 Hs3 Hy) as (s3' & Hs3').
    specialize (Hletters a (lower_listed a Hlow)).
    assert (Heq : " " +:+ l +:+ " " =
                  pre' +:+ (" " +:+ L +:+ String a " ") +:+ s3').
    { rewrite Hs.
      change (String a s3) with (String a EmptyString +:+ s3).
      rewrite <- (append_assoc L (String a EmptyString) s3).
      rewrite (sandwich pre pre' (L +:+ String a EmptyString) s3 s3' Hpre' Hs3').
      rewrite !append_assoc. reflexivity. }
    rewrite Heq, includes_middle in Hletters. discriminate.
  - unfold lowerOrBlank in Ha. rewrite Hlow in Ha. simpl in Ha.
    apply Ascii.eqb_eq in Ha. subst a.
    assert (Heq : " " +:+ l +:+ " " =
                  pre' +:+ (" " +:+ L +:+ " ") +:+ (s3 +:+ " ")).
    { rewrite Hs.
      rewrite (sandwich pre pre' L (String " " s3) (s3 +:+ " ") Hpre' eq_refl).
      reflexivity. }
    rewrite Heq, includes_middle in Hinc. discriminate.
Qed.

(** The state suffix starts with a comma. *)
Lemma reStateSuffix_NoMatch : NoMatch true reStateSuffix None l.
Proof.
  intros pre suf p' rest Hs Hm.
  unfold reStateSuffix in Hm. cbn [Seqs] in Hm.
  apply Matches_Seq in Hm. destruct Hm as (p1 & s1 & Hc & _).
  apply Matches_Chr in Hc. destruct Hc as (a & -> & _ & Hc).
  destruct (part_lower pre (String a EmptyString) s1 Hs) as (_ & Ha & _).
  simpl in Ha. rewrite andb_true_r in Ha.
  revert Hc Ha. clear. ascii_cases a.
Qed.

Lemma blanks_lower m :
  allChars lowerOrBlank m = true -> allChars isSpace m = true ->
  allChars isBlank m = true.
Proof.
  induction m as [|a m IH]; simpl; [reflexivity|].
  intros H1 H2. apply andb_prop in H1. apply andb_prop in H2.
  destruct H1 as (Ha & Hm), H2 as (Hsa & Hsm).
  rewrite (IH Hm Hsm), (space_is_blank a Ha Hsa). reflexivity.
Qed.

Lemma blanks_end m :
  m <> EmptyString -> allChars isBlank m = true ->
  exists m', m = m' +:+ " ".
Proof.
  intros Hne Hm. destruct (string_snoc m) as [->|(m' & a & ->)]; [congruence|].
  rewrite allChars_app in Hm. apply andb_prop in Hm. destruct Hm as (_ & Ha).
  simpl in Ha. rewrite andb_true_r in Ha. apply Ascii.eqb_eq in Ha. subst a.
  exists m'. reflexivity.
Qed.

Lemma blanks_start m :
  allChars isBlank m = true -> exists m', m +:+ " " = " " +:+ m'.
Proof.
  destruct m as [|a m]; simpl.
  - exists EmptyString. reflexivity.
  - intros H. apply andb_prop in H. destruct H as (Ha & _).
    apply Ascii.eqb_eq in Ha. subst a. exists (m +:+ " "). reflexivity.
Qed.

End LowerCaseName.

Section CountyRewrites.
Import JsString Regex Normalization.
(** The same name, for the expressions of [normalizeCounty]. *)
Variable l : string.
Hypothesis Hl : allChars lowerOrBlank l = true.
Hypothesis Hno : forall pat, In pat rewritePatterns ->
  includes pat (" " +:+ l +:+ " ") = false.

Lemma Sp_class a : classMatches true false [CSpace] a = isSpace a.
Proof. unfold classMatches. simpl. rewrite orb_false_r. reflexivity. Qed.

(** [\s+county\s*$]: the word [county] between spaces. *)
Lemma reCountySuffix_NoMatch : NoMatch true reCountySuffix None l.
Proof.
  intros pre suf p' rest Hs Hm.
  unfold reCountySuffix in Hm. cbn [Seqs] in Hm. unfold Plus in Hm.
  apply Matches_Seq in Hm. destruct Hm as (p1 & s1 & Hsp & Hm).
  apply Matches_Seq in Hsp. destruct Hsp as (p0 & s0 & Hone & Hmore).
  apply Matches_Class in Hone. destruct Hone as (a & -> & -> & Ha).
  apply Matches_Star_Class in Hmore. destruct Hmore as (m2 & -> & -> & Hm2).
  apply Matches_Seq in Hm. destruct Hm as (p2 & s2 & Hlit & Hm).
  apply Matches_Lit in Hlit. destruct Hlit as (C & -> & -> & HC).
  apply Matches_Seq in Hm. destruct Hm as (p3 & s3 & Hsp & He).
  apply Matches_Star_Class in Hsp. destruct Hsp as (m3 & -> & -> & Hm3).
  apply Matches_Eol in He. destruct He as (-> & _).
  rewrite app_nil_r_s in Hs.
  assert (Hs' : l = (pre +:+ String a m2) +:+ C +:+ m3).
  { rewrite Hs, !append_assoc. reflexivity. }
  pose proof (literal_exact l Hl "county" _ C m3 eq_refl Hs' HC) as ->.
  destruct (part_lower l Hl _ _ _ Hs') as (Hpre & _ & Hlm3).
  rewrite allChars_app in Hpre. apply andb_prop in Hpre.
  destruct Hpre as (Hpre & Ham2).
  assert (Hsp : allChars isSpace (String a m2) = true).
  { simpl. rewrite Sp_class in Ha. rewrite Ha. simpl.
    apply (allChars_impl _ _ m2 (fun c H => eq_trans (eq_sym (Sp_class c)) H) Hm2). }
  destruct (blanks_end (String a m2)) as (b & Hb);
    [discriminate|apply blanks_lower; assumption|].
  destruct (blanks_start m3) as (m3' & Hm3').
  { apply blanks_lower; [exact Hlm3|].
    apply (allChars_impl _ _ m3 (fun c H => eq_trans (eq_sym (Sp_class c)) H) Hm3). }
  assert (Heq : " " +:+ l +:+ " " =
                (" " +:+ pre +:+ b) +:+ " county " +:+ m3').
  { rewrite Hs', Hb.
    transitivity (" " +:+ pre +:+ b +:+ " county" +:+ (m3 +:+ " ")).
    - rewrite !append_assoc. reflexivity.
    - rewrite Hm3', !append_assoc. reflexivity. }
  assert (Hin : In " county " rewritePatterns) by (simpl; tauto).
  specialize (Hno _ Hin). rewrite Heq, includes_middle in Hno. discriminate.
Qed.

Lemma followedBy_In L x :
  In x lowercaseLetters -> In (" " +:+ L +:+ String x " ") (followedBy L).
Proof. intros H. unfold followedBy. apply (in_map (fun x => " " +:+ L +:+ String x " ")). exact H. Qed.

(** None of the entries of [countyMap] finds anything to replace. *)
Lemma countyMap_NoMatch :
  Forall (fun kv => NoMatch true (fst kv) None l) countyMap.
Proof.
  unfold countyMap. repeat apply List.Forall_cons; try apply List.Forall_nil; cbn [fst Seqs].
  - apply (word_NoMatch l Hl "nyc" "n" "c"); try reflexivity.
    apply Hno. simpl; tauto.
  - apply (word_NoMatch l Hl "ny" "n" "y"); try reflexivity.
    apply Hno. simpl; tauto.
  - apply (word_NoMatch l Hl "new york city" "n" "y"); try reflexivity.
    apply Hno. simpl; tauto.
  - apply (word_dot_NoMatch l Hl "st" "s"); try reflexivity.
    + apply Hno. simpl; tauto.
    + intros x Hx. apply Hno. unfold rewritePatterns.
      apply in_or_app. right. apply in_or_app. left. apply followedBy_In. exact Hx.
  - apply (word_NoMatch l Hl "st" "s" "t"); try reflexivity.
    apply Hno. simpl; tauto.
  - apply (word_dot_NoMatch l Hl "ft" "f"); try reflexivity.
    + apply Hno. simpl; tauto.
    + intros x Hx. apply Hno. unfold rewritePatterns.
      apply in_or_app. right. apply in_or_app. right. apply followedBy_In. exact Hx.
  - apply (word_NoMatch l Hl "ft" "f" "t"); try reflexivity.
    apply Hno. simpl; tauto.
Qed.

Lemma countyMap_fixed :
  fold_left (fun acc kv => replaceAll true (fst kv) (snd kv) acc) countyMap l = l.
Proof.
  pose proof countyMap_NoMatch as H. induction H as [|kv rest Hkv _ IH]; simpl.
  - reflexivity.
  - rewrite (replaceAll_NoMatch true (fst kv) (snd kv) l Hkv). exact IH.
Qed.

End CountyRewrites.

Section Words.
Import JsString Regex Normalization.

Lemma join_cons sep x l :
  l <> [] -> join sep (x :: l) = x +:+ sep +:+ join sep l.
Proof. destruct l; [congruence|reflexivity]. Qed.

Lemma splitChar_nonempty c s : forall cur, splitChar c cur s <> [].
Proof.
  induction s as [|a s IH]; intros cur; simpl; [discriminate|].
  destruct (Ascii.eqb a c); [discriminate|apply IH].
Qed.

Lemma splitChar_join c s : forall cur,
  join (String c EmptyString) (splitChar c cur s) = cur +:+ s.
Proof.
  induction s as [|a s IH]; intros cur; simpl.
  - rewrite app_nil_r_s. reflexivity.
  - destruct (Ascii.eqb a c) eqn:Hac.
    + apply Ascii.eqb_eq in Hac. subst a.
      rewrite join_cons by apply splitChar_nonempty. rewrite IH. reflexivity.
    + rewrite IH, append_assoc. reflexivity.
Qed.

Lemma split1_join c s : join (String c EmptyString) (split1 c s) = s.
Proof. unfold split1. rewrite splitChar_join. reflexivity. Qed.

Lemma toLowerCase_join ws :
  toLowerCase (join " " ws) = join " " (map toLowerCase ws).
Proof.
  induction ws as [|w ws IH]; [reflexivity|].
  destruct ws as [|w2 ws]; [reflexivity|].
  rewrite join_cons by discriminate.
  change (map toLowerCase (w :: w2 :: ws))
    with (toLowerCase w :: map toLowerCase (w2 :: ws)).
  rewrite (join_cons " " (toLowerCase w)) by (simpl; discriminate).
  rewrite <- IH.
  unfold toLowerCase. rewrite !mapChars_app. reflexivity.
Qed.

Lemma lower_of_upper c : isUpper c = true -> isLower (lowerChar c) = true.
Proof. revert c. intros c. ascii_cases c. Qed.

Lemma upper_of_lower c : isUpper c = true -> upperChar (lowerChar c) = c.
Proof. revert c. intros c. ascii_cases c. Qed.

Lemma lower_fixed c : isLower c = true -> lowerChar c = c.
Proof. revert c. intros c. ascii_cases c. Qed.

Lemma upper_is_word c : isUpper c = true -> isWord c = true.
Proof. revert c. intros c. ascii_cases c. Qed.

Lemma word_not_space c : isWord c = true -> isSpace c = false.
Proof. revert c. intros c. ascii_cases c. Qed.

Lemma lowers_fixed s : allChars isLower s = true -> toLowerCase s = s.
Proof.
  intros H. apply toLowerCase_fixed.
  apply (allChars_impl isLower); [|exact H].
  intros c Hc. unfold lowerOrBlank. rewrite Hc. reflexivity.
Qed.

Lemma capitalized_lower W :
  capitalizedWord W = true ->
  negb (isEmpty (toLowerCase W)) = true /\
  allChars isLower (toLowerCase W) = true.
Proof.
  destruct W as [|c W]; simpl; [discriminate|].
  intros H. apply andb_prop in H. destruct H as (Hc & HW).
  split; [reflexivity|]. rewrite (lower_of_upper c Hc). simpl.
  fold (toLowerCase W). rewrite (lowers_fixed W HW). exact HW.
Qed.

Lemma capitalized_wordy W : capitalizedWord W = true -> wordy W = true.
Proof.
  destruct W as [|c W]; simpl; [discriminate|].
  intros H. apply andb_prop in H. destruct H as (Hc & HW).
  unfold wordy. simpl. rewrite (upper_is_word c Hc). simpl.
  apply (allChars_impl isLower); [exact lower_is_word|exact HW].
Qed.

Lemma capitalize_lower W :
  capitalizedWord W = true -> capitalize (toLowerCase W) = W.
Proof.
  destruct W as [|c W]; simpl; [discriminate|].
  intros H. apply andb_prop in H. destruct H as (Hc & HW).
  unfold capitalize. simpl. rewrite (upper_of_lower c Hc).
  change (slice1 (toLowerCase (String c W))) with (toLowerCase W).
  rewrite (lowers_fixed W HW). reflexivity.
Qed.

Lemma join_lower ws :
  Forall (fun w => allChars isLower w = true) ws ->
  allChars lowerOrBlank (join " " ws) = true.
Proof.
  assert (Hw : forall w, allChars isLower w = true ->
                         allChars lowerOrBlank w = true).
  { intros w. apply allChars_impl. intros c Hc. unfold lowerOrBlank.
    rewrite Hc. reflexivity. }
  induction 1 as [|w ws H _ IH]; [reflexivity|].
  destruct ws as [|w2 ws]; [exact (Hw w H)|].
  rewrite join_cons by discriminate. rewrite !allChars_app, (Hw w H), IH.
  reflexivity.
Qed.

Lemma join_head c w ws :
  exists t, join " " (String c w :: ws) = String c t.
Proof. destruct ws; simpl; eexists; reflexivity. Qed.

Lemma join_last ws :
  ws <> [] -> exists A w, join " " ws = A +:+ w /\ In w ws.
Proof.
  induction ws as [|w ws IH]; [congruence|]. intros _.
  destruct ws as [|w2 ws].
  - exists EmptyString, w. split; [reflexivity|left; reflexivity].
  - destruct IH as (A & x & HA & Hx); [discriminate|].
    exists (w +:+ " " +:+ A), x. rewrite join_cons by discriminate.
    rewrite HA, !append_assoc. split; [reflexivity|right; exact Hx].
Qed.

Lemma trimEnd_word w :
  wordy w = true -> trimEnd w = w.
Proof.
  unfold wordy. induction w as [|c w IH]; [discriminate|]. simpl.
  intros H. apply andb_prop in H. destruct H as (Hc & Hw).
  destruct w as [|d w].
  - simpl. rewrite (word_not_space c Hc). reflexivity.
  - rewrite IH; [reflexivity|exact Hw].
Qed.

Lemma trimEnd_app A w :
  wordy w = true -> trimEnd (A +:+ w) = A +:+ w.
Proof.
  intros Hw. induction A as [|c A IH]; [apply trimEnd_word; exact Hw|].
  simpl. rewrite IH. destruct (A +:+ w) eqn:HAw; [|reflexivity].
  destruct A; [|discriminate]. simpl in HAw. subst w. discriminate.
Qed.

Lemma trim_join ws :
  ws <> [] -> Forall (fun w => wordy w = true) ws ->
  trim (join " " ws) = join " " ws.
Proof.
  intros Hne Hws. unfold trim.
  assert (Hstart : trimStart (join " " ws) = join " " ws).
  { destruct ws as [|w ws]; [congruence|].
    apply Forall_inv in Hws. destruct w as [|c w]; [discriminate|].
    destruct (join_head c w ws) as (t & ->). simpl.
    unfold wordy in Hws. simpl in Hws. apply andb_prop in Hws.
    destruct Hws as (Hc & _). rewrite (word_not_space c Hc). reflexivity. }
  rewrite Hstart. destruct (join_last ws Hne) as (A & w & -> & Hin).
  apply trimEnd_app. rewrite List.Forall_forall in Hws. apply Hws. exact Hin.
Qed.

Lemma no_hyphen s :
  allChars lowerOrBlank s = true -> includes "-" s = false.
Proof.
  unfold includes. induction s as [|a s IH]; [reflexivity|].
  intros H. cbn [allChars] in H. apply andb_prop in H. destruct H as (Ha & Hs).
  specialize (IH Hs).
  assert (Hne : Ascii.eqb "-" a = false) by (revert Ha; clear; ascii_cases a).
  cbn [indexOf startsWith]. rewrite Hne. cbn [andb].
  destruct (indexOf "-" s); [discriminate|reflexivity].
Qed.

End Words.

Section Splitting.
Import JsString Regex Normalization.

Lemma separator_word a :
  isWord a = true -> classMatches false false [CSpace; CChar "-"] a = false.
Proof. revert a. intros a. ascii_cases a. Qed.

Lemma matchHere_word prev a s :
  isWord a = true -> matchHere false reSpaceHyphen prev (String a s) = None.
Proof.
  intros Ha. unfold matchHere, reSpaceHyphen, Plus. cbn [matchK].
  rewrite (separator_word a Ha). reflexivity.
Qed.

Lemma matchHere_blank prev c t :
  isWord c = true ->
  matchHere false reSpaceHyphen prev (String " " (String c t))
  = Some (String c t).
Proof.
  intros Hc. unfold matchHere, reSpaceHyphen, Plus. cbn [matchK].
  change (classMatches false false [CSpace; CChar "-"] " ") with true.
  cbn iota. cbn [String.length starK matchK].
  rewrite (separator_word c Hc). reflexivity.
Qed.

(** Reading a word adds it to the piece in hand. *)
Lemma splitFrom_word w : forall f prev cur s,
  allChars isWord w = true ->
  splitFrom false (String.length w + S f) reSpaceHyphen prev cur (w +:+ s)
  = splitFrom false (S f) reSpaceHyphen (lastOr prev w) (cur +:+ w) s.
Proof.
  induction w as [|a w IH]; intros f prev cur s Hw.
  - rewrite app_nil_r_s. reflexivity.
  - cbn [allChars] in Hw. apply andb_prop in Hw. destruct Hw as (Ha & Hw).
    change (String.length (String a w) + S f)
      with (S (String.length w + S f)).
    change (String a w +:+ s) with (String a (w +:+ s)).
    cbn [splitFrom]. rewrite (matchHere_word prev a (w +:+ s) Ha).
    rewrite (IH f (Some a) (cur +:+ String a EmptyString) s Hw).
    rewrite append_assoc. reflexivity.
Qed.

Lemma splitFrom_join ws :
  ws <> [] -> Forall (fun w => wordy w = true) ws ->
  forall fuel prev, String.length (join " " ws) < fuel ->
    splitFrom false fuel reSpaceHyphen prev EmptyString (join " " ws) = ws.
Proof.
  induction ws as [|w ws IH]; [congruence|]. intros _ Hws fuel prev Hfuel.
  pose proof (Forall_inv Hws) as Hw. pose proof (Forall_inv_tail Hws) as Hrest.
  unfold wordy in Hw. apply andb_prop in Hw. destruct Hw as (_ & Hw).
  destruct ws as [|w2 ws].
  - simpl in Hfuel. simpl join.
    assert (Hf : fuel = String.length w + S (fuel - String.length w - 1)) by lia.
    pose proof (splitFrom_word w (fuel - String.length w - 1) prev
                  EmptyString EmptyString Hw) as Hsw.
    rewrite app_nil_r_s in Hsw. rewrite Hf, Hsw. reflexivity.
  - rewrite join_cons by discriminate.
    rewrite join_cons in Hfuel by discriminate.
    rewrite !length_app_s in Hfuel. change (String.length " ") with 1 in Hfuel.
    assert (Hf : fuel = String.length w + S (fuel - String.length w - 1)) by lia.
    rewrite Hf.
    rewrite (splitFrom_word w _ prev EmptyString _ Hw).
    pose proof (Forall_inv Hrest) as Hw2.
    destruct w2 as [|c w2]; [discriminate|].
    unfold wordy in Hw2. simpl in Hw2. apply andb_prop in Hw2.
    destruct Hw2 as (Hc & _).
    destruct (join_head c w2 ws) as (t & Ht). rewrite Ht.
    change (" " +:+ String c t) with (String " " (String c t)).
    cbn [splitFrom]. rewrite (matchHere_blank _ c t Hc).
    assert (Hlen : Nat.eqb (String.length (String c t))
                     (String.length (String " " (String c t))) = false).
    { apply Nat.eqb_neq. simpl. lia. }
    rewrite Hlen. cbn [andb]. simpl (EmptyString +:+ w). f_equal.
    rewrite <- Ht. apply IH; [discriminate|exact Hrest|]. lia.
Qed.

Lemma split_join ws :
  ws <> [] -> Forall (fun w => wordy w = true) ws ->
  split false reSpaceHyphen (join " " ws) = ws.
Proof.
  intros Hne Hws. unfold split.
  destruct (join " " ws) as [|a s] eqn:Hj.
  - destruct ws as [|w ws]; [congruence|].
    apply Forall_inv in Hws. destruct w as [|c w]; [discriminate|].
    destruct (join_head c w ws) as (t & Ht). congruence.
  - rewrite <- Hj. apply splitFrom_join; [exact Hne|exact Hws|].
    rewrite Hj. lia.
Qed.

Lemma filter_wordy ws :
  Forall (fun w => wordy w = true) ws ->
  List.filter (fun p => Nat.ltb 0 (String.length p)) ws = ws.
Proof.
  induction 1 as [|w ws Hw _ IH]; [reflexivity|]. simpl.
  destruct w as [|c w]; [discriminate|]. simpl. rewrite IH. reflexivity.
Qed.

End Splitting.

Section Canonical.
Import JsString Regex Normalization.

Lemma Forall_map_lower Ws :
  forallb capitalizedWord Ws = true ->
  Forall (fun w => wordy w = true) Ws /\
  Forall (fun w => allChars isLower w = true) (map toLowerCase Ws) /\
  Forall (fun w => wordy w = true) (map toLowerCase Ws) /\
  map capitalize (map toLowerCase Ws) = Ws.
Proof.
  induction Ws as [|W Ws IH]; simpl.
  - intros _. repeat split; constructor.
  - intros H. apply andb_prop in H. destruct H as (HW & HWs).
    destruct (IH HWs) as (H1 & H2 & H3 & H4).
    destruct (capitalized_lower W HW) as (Hne & Hlow).
    repeat split.
    + constructor; [apply capitalized_wordy; exact HW|exact H1].
    + constructor; [exact Hlow|exact H2].
    + constructor; [|exact H3]. unfold wordy. rewrite Hne. simpl.
      apply (allChars_impl isLower); [exact lower_is_word|exact Hlow].
    + rewrite (capitalize_lower W HW), H4. reflexivity.
Qed.

Lemma map_nonempty {A B} (f : A -> B) (l : list A) : l <> [] -> map f l <> [].
Proof. destruct l; [congruence|discriminate]. Qed.

(** [normalizeCounty] leaves a plain name as it is. *)
Lemma plainName_fixed y :
  plainName y = true -> normalizeCountyOfString y = y.
Proof.
  unfold plainName. intros H. apply andb_prop in H. destruct H as (HWs & Hmen).
  apply negb_true_iff in Hmen.
  pose proof (split1_join " " y) as Hy.
  assert (Hne : split1 " " y <> []) by apply splitChar_nonempty.
  set (Ws := split1 " " y) in *.
  destruct (Forall_map_lower Ws HWs) as (HWw & Hlow & Hww & Hcap).
  set (ws := map toLowerCase Ws) in *.
  assert (Hnews : ws <> []) by (apply map_nonempty; exact Hne).
  assert (Hl : toLowerCase y = join " " ws).
  { rewrite <- Hy. apply toLowerCase_join. }
  set (l := join " " ws) in *.
  assert (Hll : allChars lowerOrBlank l = true) by (apply join_lower; exact Hlow).
  assert (Hpad : padded y = " " +:+ l +:+ " ").
  { unfold padded. rewrite Hl. reflexivity. }
  assert (Hpadl : padded l = " " +:+ l +:+ " ").
  { unfold padded. rewrite (toLowerCase_fixed l Hll). reflexivity. }
  assert (Hno : forall pat, In pat rewritePatterns ->
                  includes pat (" " +:+ l +:+ " ") = false).
  { intros pat Hin. rewrite <- Hpad.
    exact (existsb_none _ _ Hmen pat Hin). }
  assert (Hdade : includes "dade" (" " +:+ l +:+ " ") = false).
  { apply Hno. simpl. tauto. }
  assert (Htrimy : trim y = y).
  { rewrite <- Hy. apply trim_join; assumption. }
  assert (Htriml : trim l = l) by (apply trim_join; assumption).
  assert (Hnonempty : isEmpty y = false).
  { rewrite <- Hy. destruct Ws as [|W Ws']; [congruence|].
    apply Forall_inv in HWw. destruct W as [|c W]; [discriminate|].
    destruct (join_head c W Ws') as (t & ->). reflexivity. }
  unfold normalizeCountyOfString. rewrite Hnonempty.
  unfold normalizeCountyString.
  rewrite Htrimy, Hl.
  rewrite (replace_NoMatch true reStateSuffix _ l (reStateSuffix_NoMatch l Hll)).
  rewrite Htriml.
  rewrite (replace_NoMatch true reCountySuffix _ l
             (reCountySuffix_NoMatch l Hll Hno)).
  rewrite Htriml.
  assert (Hnd : String.eqb l "dade" = false).
  { destruct (String.eqb l "dade") eqn:He; [|reflexivity].
    apply String.eqb_eq in He. rewrite He in Hdade. discriminate. }
  rewrite Hnd.
  assert (Hmd : NoMatch true reMiamiDade None l).
  { apply (Mentions_NoMatch _ "dade"); [|rewrite Hpadl; exact Hdade].
    unfold reMiamiDade. cbn [Seqs].
    do 5 apply Mentions_skip. apply Mentions_here. }
  rewrite (replace_NoMatch true reMiamiDade _ l Hmd).
  rewrite (countyMap_fixed l Hll Hno).
  pose proof (split_join ws Hnews Hww) as Hsplit. fold l in Hsplit.
  rewrite Hsplit, (filter_wordy ws Hww).
  unfold ws at 1. rewrite Hcap.
  rewrite (no_hyphen l Hll). rewrite Hy.
  apply replaceAll_NoMatch.
  apply (Mentions_NoMatch _ "Dade"); [|rewrite Hpad; exact Hdade].
  unfold reMiamiSpaceDade. cbn [Seqs].
  do 3 apply Mentions_skip.
  pose proof (Mentions_here "Dade" WordB) as Hh. exact Hh.
Qed.

Lemma canonicalCounty_fixed y :
  canonicalCounty y = true -> normalizeCountyOfString y = y.
Proof.
  unfold canonicalCounty. intros H. apply orb_prop in H. destruct H as [H|H].
  - apply plainName_fixed. exact H.
  - apply String.eqb_eq in H. subst y. reflexivity.
Qed.

End Canonical.

Section Unmatched.
Import JsString Regex Normalization.

(** An expression that finds no match leaves the text as it is. *)
Lemma replace_untested ci r by_ s :
  test ci r s = false -> replace ci r by_ s = s.
Proof.
  unfold test, replace. destruct (search ci r None s) as [[i rest]|];
    [discriminate|reflexivity].
Qed.

Lemma replaceAll_untested ci r by_ s :
  test ci r s = false -> replaceAll ci r by_ s = s.
Proof.
  unfold test, replaceAll. cbn [replaceAllFrom].
  destruct (search ci r None s) as [[i rest]|]; [discriminate|reflexivity].
Qed.

Lemma replaceAll_map_untested (m : list (regex * string)) s :
  existsb (fun kv => test true (fst kv) s) m = false ->
  fold_left (fun acc kv => replaceAll true (fst kv) (snd kv) acc) m s = s.
Proof.
  induction m as [|kv m IH]; [reflexivity|]. cbn [existsb fold_left].
  intros H. apply orb_false_iff in H. destruct H as (Hkv & Hm).
  rewrite (replaceAll_untested true (fst kv) (snd kv) s Hkv). exact (IH Hm).
Qed.

End Unmatched.

Section Parts.
Import JsString Regex Normalization.

Lemma isSeparator_class a :
  classMatches false false [CSpace; CChar "-"] a = isSeparator a.
Proof. revert a. intros a. ascii_cases a. Qed.

Lemma isSeparator_lower a : isSeparator (lowerChar a) = isSeparator a.
Proof. revert a. intros a. ascii_cases a. Qed.

Lemma separator_space a : isSeparator a = false -> isSpace a = false.
Proof. unfold isSeparator. intros H. apply orb_false_iff in H. apply H. Qed.

Lemma hyphen_lower a : Ascii.eqb "-" (lowerChar a) = Ascii.eqb "-" a.
Proof. revert a. intros a. ascii_cases a. Qed.

Lemma separatorFree_lower w :
  separatorFree (toLowerCase w) = separatorFree w.
Proof.
  unfold separatorFree. induction w as [|c w IH]; [reflexivity|].
  cbn [toLowerCase mapChars allChars]. fold (toLowerCase w).
  rewrite isSeparator_lower, IH. reflexivity.
Qed.

Lemma includes_hyphen_lower s :
  includes "-" (toLowerCase s) = includes "-" s.
Proof.
  unfold includes. induction s as [|a s IH]; [reflexivity|].
  cbn [toLowerCase mapChars indexOf startsWith]. fold (toLowerCase s).
  rewrite hyphen_lower. cbn [andb].
  destruct (Ascii.eqb "-" a); [reflexivity|].
  destruct (indexOf "-" (toLowerCase s)), (indexOf "-" s);
    try reflexivity; discriminate.
Qed.

Lemma toLowerCase_join_with sep ws :
  toLowerCase (join sep ws) = join (toLowerCase sep) (map toLowerCase ws).
Proof.
  induction ws as [|w ws IH]; [reflexivity|].
  destruct ws as [|w2 ws]; [reflexivity|].
  rewrite join_cons by discriminate.
  change (map toLowerCase (w :: w2 :: ws))
    with (toLowerCase w :: map toLowerCase (w2 :: ws)).
  rewrite (join_cons (toLowerCase sep) (toLowerCase w)) by (simpl; discriminate).
  rewrite <- IH.
  unfold toLowerCase. rewrite !mapChars_app. reflexivity.
Qed.

(** What [writtenPart] says of a part, and of the part in lower case. *)
Lemma writtenPart_spec W :
  writtenPart W = true ->
  isEmpty W = false /\ separatorFree W = true
  /\ isEmpty (toLowerCase W) = false /\ separatorFree (toLowerCase W) = true
  /\ capitalize (toLowerCase W) = W.
Proof.
  unfold writtenPart. intros H. apply andb_prop in H. destruct H as (H & Hcap).
  apply andb_prop in H. destruct H as (Hne & Hfree).
  apply negb_true_iff in Hne. apply String.eqb_eq in Hcap.
  repeat split; try assumption.
  - destruct W; [discriminate|reflexivity].
  - rewrite separatorFree_lower. exact Hfree.
Qed.

Lemma writtenParts_spec Ws :
  forallb writtenPart Ws = true ->
  Forall (fun w => isEmpty w = false /\ separatorFree w = true) Ws
  /\ Forall (fun w => isEmpty w = false /\ separatorFree w = true)
            (map toLowerCase Ws)
  /\ map capitalize (map toLowerCase Ws) = Ws.
Proof.
  induction Ws as [|W Ws IH]; cbn [forallb map].
  - intros _. repeat split; constructor.
  - intros H. apply andb_prop in H. destruct H as (HW & HWs).
    destruct (IH HWs) as (H1 & H2 & H3).
    destruct (writtenPart_spec W HW) as (Ha & Hb & Hc & Hd & He).
    repeat split.
    + constructor; [split; assumption|exact H1].
    + constructor; [split; assumption|exact H2].
    + rewrite He, H3. reflexivity.
Qed.

Lemma join_head_with sep c w ws :
  exists t, join sep (String c w :: ws) = String c t.
Proof. destruct ws; simpl; eexists; reflexivity. Qed.

Lemma join_last_with sep ws :
  ws <> [] -> exists A w, join sep ws = A +:+ w /\ In w ws.
Proof.
  induction ws as [|w ws IH]; [congruence|]. intros _.
  destruct ws as [|w2 ws].
  - exists EmptyString, w. split; [reflexivity|left; reflexivity].
  - destruct IH as (A & x & HA & Hx); [discriminate|].
    exists (w +:+ sep +:+ A), x. rewrite join_cons by discriminate.
    rewrite HA, !append_assoc. split; [reflexivity|right; exact Hx].
Qed.

Lemma trimEnd_part w :
  isEmpty w = false -> separatorFree w = true -> trimEnd w = w.
Proof.
  unfold separatorFree. induction w as [|c w IH]; [discriminate|].
  cbn [allChars]. intros _ H. apply andb_prop in H. destruct H as (Hc & Hw).
  apply negb_true_iff in Hc. apply separator_space in Hc.
  destruct w as [|d w].
  - cbn [trimEnd]. rewrite Hc. reflexivity.
  - cbn [trimEnd]. cbn [trimEnd] in IH. rewrite IH; [reflexivity|reflexivity|exact Hw].
Qed.

Lemma trimEnd_app_part A w :
  isEmpty w = false -> separatorFree w = true ->
  trimEnd (A +:+ w) = A +:+ w.
Proof.
  intros Hne Hw. induction A as [|c A IH]; [apply trimEnd_part; assumption|].
  change (String c A +:+ w) with (String c (A +:+ w)).
  cbn [trimEnd]. rewrite IH. destruct (A +:+ w) eqn:HAw; [|reflexivity].
  destruct A; [|discriminate]. simpl in HAw. subst w. discriminate.
Qed.

Lemma trim_join_parts sep ws :
  ws <> [] ->
  Forall (fun w => isEmpty w = false /\ separatorFree w = true) ws ->
  trim (join sep ws) = join sep ws /\ isEmpty (join sep ws) = false.
Proof.
  intros Hne Hws.
  assert (Hhead : exists c t, join sep ws = String c t /\ isSpace c = false).
  { destruct ws as [|w ws]; [congruence|].
    apply Forall_inv in Hws. destruct Hws as (Hw & Hfree).
    destruct w as [|c w]; [discriminate|].
    destruct (join_head_with sep c w ws) as (t & Ht).
    exists c, t. split; [exact Ht|].
    unfold separatorFree in Hfree. cbn [allChars] in Hfree.
    apply andb_prop in Hfree. destruct Hfree as (Hc & _).
    apply negb_true_iff in Hc. apply separator_space. exact Hc. }
  destruct Hhead as (c & t & Hj & Hc).
  split; [|rewrite Hj; reflexivity].
  unfold trim.
  assert (Hstart : trimStart (join sep ws) = join sep ws).
  { rewrite Hj. cbn [trimStart]. rewrite Hc. reflexivity. }
  rewrite Hstart. destruct (join_last_with sep ws Hne) as (A & w & -> & Hin).
  rewrite List.Forall_forall in Hws. destruct (Hws w Hin) as (Hw & Hfree).
  apply trimEnd_app_part; assumption.
Qed.

End Parts.

Section SplittingParts.
Import JsString Regex Normalization.

Lemma matchHere_part prev a s :
  isSeparator a = false ->
  matchHere false reSpaceHyphen prev (String a s) = None.
Proof.
  intros Ha. unfold matchHere, reSpaceHyphen, Plus. cbn [matchK].
  rewrite isSeparator_class, Ha. reflexivity.
Qed.

Lemma matchHere_separator prev sep c t :
  isSeparator sep = true -> isSeparator c = false ->
  matchHere false reSpaceHyphen prev (String sep (String c t))
  = Some (String c t).
Proof.
  intros Hsep Hc. unfold matchHere, reSpaceHyphen, Plus. cbn [matchK].
  rewrite isSeparator_class, Hsep.
  cbn [String.length starK matchK].
  rewrite isSeparator_class, Hc. reflexivity.
Qed.

(** Reading a part adds it to the piece in hand. *)
Lemma splitFrom_part w : forall f prev cur s,
  separatorFree w = true ->
  splitFrom false (String.length w + S f) reSpaceHyphen prev cur (w +:+ s)
  = splitFrom false (S f) reSpaceHyphen (lastOr prev w) (cur +:+ w) s.
Proof.
  unfold separatorFree.
  induction w as [|a w IH]; intros f prev cur s Hw.
  - rewrite app_nil_r_s. reflexivity.
  - cbn [allChars] in Hw. apply andb_prop in Hw. destruct Hw as (Ha & Hw).
    apply negb_true_iff in Ha.
    change (String.length (String a w) + S f)
      with (S (String.length w + S f)).
    change (String a w +:+ s) with (String a (w +:+ s)).
    cbn [splitFrom]. rewrite (matchHere_part prev a (w +:+ s) Ha).
    rewrite (IH f (Some a) (cur +:+ String a EmptyString) s Hw).
    rewrite append_assoc. reflexivity.
Qed.

Lemma splitFrom_join_parts sep ws :
  isSeparator sep = true ->
  ws <> [] ->
  Forall (fun w => isEmpty w = false /\ separatorFree w = true) ws ->
  forall fuel prev,
    String.length (join (String sep EmptyString) ws) < fuel ->
    splitFrom false fuel reSpaceHyphen prev EmptyString
      (join (String sep EmptyString) ws) = ws.
Proof.
  intros Hsep.
  induction ws as [|w ws IH]; [congruence|]. intros _ Hws fuel prev Hfuel.
  pose proof (Forall_inv Hws) as Hw. pose proof (Forall_inv_tail Hws) as Hrest.
  destruct Hw as (_ & Hw).
  destruct ws as [|w2 ws].
  - cbn [join] in Hfuel |- *.
    assert (Hf : fuel = String.length w + S (fuel - String.length w - 1)) by lia.
    pose proof (splitFrom_part w (fuel - String.length w - 1) prev
                  EmptyString EmptyString Hw) as Hsw.
    rewrite app_nil_r_s in Hsw. rewrite Hf, Hsw. reflexivity.
  - rewrite join_cons by discriminate.
    rewrite join_cons in Hfuel by discriminate.
    rewrite !length_app_s in Hfuel.
    change (String.length (String sep EmptyString)) with 1 in Hfuel.
    assert (Hf : fuel = String.length w + S (fuel - String.length w - 1)) by lia.
    rewrite Hf.
    rewrite (splitFrom_part w _ prev EmptyString _ Hw).
    pose proof (Forall_inv Hrest) as Hw2. destruct Hw2 as (Hne2 & Hfree2).
    destruct w2 as [|c w2]; [discriminate|].
    assert (Hc : isSeparator c = false).
    { unfold separatorFree in Hfree2. cbn [allChars] in Hfree2.
      apply andb_prop in Hfree2. destruct Hfree2 as (Hc & _).
      apply negb_true_iff in Hc. exact Hc. }
    destruct (join_head_with (String sep EmptyString) c w2 ws) as (t & Ht).
    rewrite Ht.
    change (String sep EmptyString +:+ String c t)
      with (String sep (String c t)).
    cbn [splitFrom]. rewrite (matchHere_separator _ sep c t Hsep Hc).
    assert (Hlen : Nat.eqb (String.length (String c t))
                     (String.length (String sep (String c t))) = false).
    { apply Nat.eqb_neq. simpl. lia. }
    rewrite Hlen. cbn [andb].
    change (EmptyString +:+ w) with w. f_equal.
    rewrite <- Ht. apply IH; [discriminate|exact Hrest|]. lia.
Qed.

Lemma split_join_parts sep ws :
  isSeparator sep = true ->
  ws <> [] ->
  Forall (fun w => isEmpty w = false /\ separatorFree w = true) ws ->
  split false reSpaceHyphen (join (String sep EmptyString) ws) = ws.
Proof.
  intros Hsep Hne Hws. unfold split.
  destruct (join (String sep EmptyString) ws) as [|a s] eqn:Hj.
  - destruct (trim_join_parts (String sep EmptyString) ws Hne Hws) as (_ & He).
    rewrite Hj in He. discriminate.
  - rewrite <- Hj. apply splitFrom_join_parts; [exact Hsep|exact Hne|exact Hws|].
    rewrite Hj. lia.
Qed.

Lemma filter_parts ws :
  Forall (fun w => isEmpty w = false /\ separatorFree w = true) ws ->
  List.filter (fun p => Nat.ltb 0 (String.length p)) ws = ws.
Proof.
  induction 1 as [|w ws Hw _ IH]; [reflexivity|].
  destruct Hw as (Hw & _). destruct w as [|c w]; [discriminate|].
  simpl. rewrite IH. reflexivity.
Qed.

End SplittingParts.

Section Settled.
Import JsString Regex Normalization.

Lemma separatorOf_separator y : isSeparator (separatorOf y) = true.
Proof. unfold separatorOf. destruct (includes "-" y); reflexivity. Qed.

Lemma separatorOf_lower y :
  toLowerCase (String (separatorOf y) EmptyString)
  = String (separatorOf y) EmptyString.
Proof. unfold separatorOf. destruct (includes "-" y); reflexivity. Qed.

(** [normalizeCounty] leaves a name as it is when the name is written as
    the capitalization writes names and holds nothing to rewrite. *)
Lemma writtenName_fixed y :
  writtenName y = true -> rewritable y = false ->
  normalizeCountyOfString y = y.
Proof.
  unfold writtenName, rewritable. intros HWs Hno. cbv zeta in Hno.
  repeat (apply orb_false_iff in Hno; destruct Hno as (Hno & ?)).
  pose proof (split1_join (separatorOf y) y) as Hy.
  assert (Hne : split1 (separatorOf y) y <> []) by apply splitChar_nonempty.
  set (sep := String (separatorOf y) EmptyString) in *.
  set (Ws := split1 (separatorOf y) y) in *.
  destruct (writtenParts_spec Ws HWs) as (HW & Hw & Hcap).
  set (ws := map toLowerCase Ws) in *.
  assert (Hnews : ws <> []) by (apply map_nonempty; exact Hne).
  assert (Hl : toLowerCase y = join sep ws).
  { rewrite <- Hy at 1. rewrite toLowerCase_join_with.
    unfold sep. rewrite separatorOf_lower. reflexivity. }
  destruct (trim_join_parts sep Ws Hne HW) as (Htrimy & Hnonempty).
  rewrite Hy in Htrimy, Hnonempty.
  destruct (trim_join_parts sep ws Hnews Hw) as (Htriml & _).
  rewrite <- Hl in Htriml.
  set (l := toLowerCase y) in *.
  unfold normalizeCountyOfString. rewrite Hnonempty.
  unfold normalizeCountyString. rewrite Htrimy. fold l.
  rewrite (replace_untested true reStateSuffix _ l) by assumption.
  rewrite Htriml.
  rewrite (replace_untested true reCountySuffix _ l) by assumption.
  rewrite Htriml.
  match goal with H : String.eqb l "dade" = false |- _ => rewrite H end.
  rewrite (replace_untested true reMiamiDade _ l) by assumption.
  rewrite (replaceAll_map_untested countyMap l) by assumption.
  pose proof (split_join_parts (separatorOf y) ws (separatorOf_separator y)
                Hnews Hw) as Hsplit.
  fold sep in Hsplit. rewrite <- Hl in Hsplit. rewrite Hsplit.
  rewrite (filter_parts ws Hw), Hcap.
  unfold l. rewrite includes_hyphen_lower.
  assert (Hjoin : (if includes "-" y then join "-" Ws else join " " Ws) = y).
  { pose proof Hy as Hj. unfold sep, separatorOf in Hj.
    destruct (includes "-" y); exact Hj. }
  rewrite Hjoin. apply replaceAll_untested. assumption.
Qed.

Lemma settledName_fixed y :
  settledName y = true -> normalizeCountyOfString y = y.
Proof.
  unfold settledName. intros H. apply orb_prop in H. destruct H as [H|H].
  - apply andb_prop in H. destruct H as (Hw & Hr).
    apply negb_true_iff in Hr. apply writtenName_fixed; assumption.
  - apply String.eqb_eq in H. subst y. reflexivity.
Qed.

End Settled.

Section PlainNames.
Import JsString Regex Normalization.

Lemma NoMatch_untested ci r s : NoMatch ci r None s -> test ci r s = false.
Proof.
  intros H. unfold test. rewrite (search_None ci r s None H). reflexivity.
Qed.

Lemma capitalized_written W : capitalizedWord W = true -> writtenPart W = true.
Proof.
  intros HW. unfold writtenPart.
  pose proof (capitalized_wordy W HW) as Hw. unfold wordy in Hw.
  apply andb_prop in Hw. destruct Hw as (Hne & Hw).
  rewrite Hne, (capitalize_lower W HW), String.eqb_refl, andb_true_r.
  cbn [andb]. unfold separatorFree.
  apply (allChars_impl isWord); [|exact Hw].
  intros c Hc. rewrite <- isSeparator_class, (separator_word c Hc). reflexivity.
Qed.

(** The plain names, in letters only, are among the names that
    [normalizeCounty] writes and finds nothing to rewrite in. *)
Lemma plainName_settled y :
  plainName y = true -> writtenName y = true /\ rewritable y = false.
Proof.
  unfold plainName. intros H. apply andb_prop in H. destruct H as (HWs & Hmen).
  apply negb_true_iff in Hmen.
  pose proof (split1_join " " y) as Hy.
  assert (Hne : split1 " " y <> []) by apply splitChar_nonempty.
  set (Ws := split1 " " y) in *.
  destruct (Forall_map_lower Ws HWs) as (HWw & Hlow & Hww & Hcap).
  set (ws := map toLowerCase Ws) in *.
  assert (Hl : toLowerCase y = join " " ws).
  { rewrite <- Hy. apply toLowerCase_join. }
  set (l := join " " ws) in *.
  assert (Hll : allChars lowerOrBlank l = true) by (apply join_lower; exact Hlow).
  assert (Hpad : padded y = " " +:+ l +:+ " ").
  { unfold padded. rewrite Hl. reflexivity. }
  assert (Hpadl : padded l = " " +:+ l +:+ " ").
  { unfold padded. rewrite (toLowerCase_fixed l Hll). reflexivity. }
  assert (Hno : forall pat, In pat rewritePatterns ->
                  includes pat (" " +:+ l +:+ " ") = false).
  { intros pat Hin. rewrite <- Hpad.
    exact (existsb_none _ _ Hmen pat Hin). }
  assert (Hdade : includes "dade" (" " +:+ l +:+ " ") = false).
  { apply Hno. simpl. tauto. }
  assert (Hhyphen : includes "-" y = false).
  { rewrite <- includes_hyphen_lower, Hl. apply no_hyphen. exact Hll. }
  split.
  - unfold writtenName, separatorOf. rewrite Hhyphen. fold Ws.
    apply forallb_forall. intros W HW. apply capitalized_written.
    exact (proj1 (forallb_forall _ _) HWs W HW).
  - unfold rewritable. cbv zeta. rewrite Hl.
    rewrite (NoMatch_untested true reStateSuffix l
               (reStateSuffix_NoMatch l Hll)).
    rewrite (NoMatch_untested true reCountySuffix l
               (reCountySuffix_NoMatch l Hll Hno)).
    assert (Hnd : String.eqb l "dade" = false).
    { destruct (String.eqb l "dade") eqn:He; [|reflexivity].
      apply String.eqb_eq in He. rewrite He in Hdade. discriminate. }
    rewrite Hnd.
    assert (Hmd : NoMatch true reMiamiDade None l).
    { apply (Mentions_NoMatch _ "dade"); [|rewrite Hpadl; exact Hdade].
      unfold reMiamiDade. cbn [Seqs].
      do 5 apply Mentions_skip. apply Mentions_here. }
    rewrite (NoMatch_untested true reMiamiDade l Hmd).
    assert (Hmap : existsb (fun kv => test true (fst kv) l) countyMap = false).
    { pose proof (countyMap_NoMatch l Hll Hno) as Hall.
      induction Hall as [|kv rest Hkv _ IH]; [reflexivity|].
      cbn [existsb]. rewrite (NoMatch_untested true (fst kv) l Hkv).
      exact IH. }
    rewrite Hmap. cbn [orb].
    apply NoMatch_untested.
    apply (Mentions_NoMatch _ "Dade"); [|rewrite Hpad; exact Hdade].
    unfold reMiamiSpaceDade. cbn [Seqs].
    do 3 apply Mentions_skip.
    pose proof (Mentions_here "Dade" WordB) as Hh. exact Hh.
Qed.

Lemma canonicalCounty_settled y :
  canonicalCounty y = true -> settledName y = true.
Proof.
  unfold canonicalCounty, settledName. intros H.
  apply orb_prop in H. destruct H as [H|H]; [|rewrite H; apply orb_true_r].
  destruct (plainName_settled y H) as (Hw & Hr). rewrite Hw, Hr. reflexivity.
Qed.

End PlainNames.

Section CountyClaims.
Import JsString.
Context {E : Engine}.

Lemma normalizeCounty_string (x : string) :
  normalizeCounty (VString x) = Normalization.normalizeCountyOfString x.
Proof.
  unfold normalizeCounty, Normalization.normalizeCountyOfString.
  destruct x as [|a x]; [reflexivity|].
  cbn [truthy toStringValue isEmpty negb]. reflexivity.
Qed.

(** C7, amended. When the name [y] that [normalizeCounty] returns for a
    text [x] of ASCII characters is settled, normalizing it once more
    changes nothing. Settled are
    [Miami-Dade] and every name that is written as the capitalization
    step writes names (parts without spaces or hyphens, joined by single
    hyphens or by single spaces, each part the same after it is put in
    lower case and capitalized) and in which none of the expressions of
    the function finds a match: the state suffix, the county suffix,
    the name [dade], the spellings of Miami-Dade and the seven
    expressions of [countyMap] in [y] in lower case, and [Miami Dade] in
    [y]. *)
Theorem C7_normalizeCounty_idempotent_on_settled_names (x : string) :
  asciiText x = true ->
  settledName (normalizeCounty (VString x)) = true ->
  normalizeCounty (VString (normalizeCounty (VString x)))
  = normalizeCounty (VString x).
Proof.
  intros _ H. rewrite normalizeCounty_string in H.
  rewrite !normalizeCounty_string.
  apply settledName_fixed. exact H.
Qed.

End CountyClaims.

(** C7 as it is stated fails at [Kings County, NYC]: the first pass turns
    [NYC] into [New York], and only the second pass sees a state suffix
    and, behind it, a county suffix to remove. *)
Lemma C7_counterexample :
  normalizeCounty (E := Ref.engine) (VString "Kings County, NYC")
  = "Kings County, New York"
  /\ normalizeCounty (E := Ref.engine)
       (VString (normalizeCounty (E := Ref.engine)
                   (VString "Kings County, NYC")))
     = "Kings".
Proof. split; vm_compute; reflexivity. Qed.

(** Names with a full stop, a hyphen or an apostrophe in them are settled
    as well as the plain ones; a name that still holds a suffix to remove
    is not, nor one whose capitals the last replacement wrote. *)
Example settled_names :
  map settledName
    ["Saint. Lucie"; "Winston-Salem"; "Prince George's"; "Broward";
     "New York"; "Miami-Dade"; "Kings County, New York"; ".Miami-Dade"]
  = [true; true; true; true; true; true; false; false].
Proof. vm_compute. reflexivity. Qed.

(** Why a settled name has to be written as the capitalization writes
    names: [.miami dade] becomes [.Miami-Dade], in which no expression
    finds a match, and which a second pass turns into [.miami-Dade]. *)
Example written_is_needed :
  Normalization.normalizeCountyOfString ".miami dade" = ".Miami-Dade"
  /\ rewritable ".Miami-Dade" = false
  /\ writtenName ".Miami-Dade" = false
  /\ Normalization.normalizeCountyOfString ".Miami-Dade" = ".miami-Dade".
Proof. vm_compute. repeat split. Qed.

(** On every text of at most three of the characters that the
    expressions of [normalizeCounty] look for, the name that the function
    returns is settled exactly when a second pass leaves it as it is. *)
Example settled_on_short_texts :
  forallb (fun x =>
             let y := Normalization.normalizeCountyOfString x in
             Bool.eqb (settledName y)
                      (String.eqb (Normalization.normalizeCountyOfString y) y))
          (textsUpTo ["a"; " "; "-"; "."; "s"; "t"; "n"; "y"; ","; "f"]%char 3)
  = true.
Proof. vm_compute. reflexivity. Qed.

(** The hypotheses of C7 hold at [St. Lucie County], whose name is
    [Saint. Lucie] after one pass and after two. *)
Lemma C7_witness :
  asciiText "St. Lucie County" = true
  /\ settledName
       (normalizeCounty (E := Ref.engine) (VString "St. Lucie County")) = true
  /\ normalizeCounty (E := Ref.engine) (VString "St. Lucie County")
     = "Saint. Lucie"
  /\ normalizeCounty (E := Ref.engine)
       (VString (normalizeCounty (E := Ref.engine)
                   (VString "St. Lucie County")))
     = normalizeCounty (E := Ref.engine) (VString "St. Lucie County").
Proof.
  split; [reflexivity|].
  split; [vm_compute; reflexivity|]. split; [vm_compute; reflexivity|].
  apply (C7_normalizeCounty_idempotent_on_settled_names (E := Ref.engine)
           "St. Lucie County"); [reflexivity|].
  vm_compute. reflexivity.
Defined.

(* ================================================================== *)
(** * Properties of more of the code *)
(* ================================================================== *)

Section CsvFacts.
Import JsString Csv.

Lemma splitChar_prefix c s : forall cur,
  splitChar c cur s
  = match splitChar c EmptyString s with
    | first :: more => (cur +:+ first) :: more
    | [] => []
    end.
Proof.
  induction s as [|a s IH]; intros cur; simpl.
  - rewrite app_nil_r_s. reflexivity.
  - destruct (Ascii.eqb a c).
    + rewrite app_nil_r_s. reflexivity.
    + rewrite (IH (cur +:+ String a EmptyString)), (IH (String a EmptyString)).
      destruct (splitChar c EmptyString s); [reflexivity|].
      rewrite append_assoc. reflexivity.
Qed.

(** Outside quotes and without quotes ahead, the loop is [split(',')]. *)
Lemma parseCSVFrom_plain line : forall result current,
  allChars noQuote line = true ->
  parseCSVFrom result current false line
  = result ++ splitChar comma current line.
Proof.
  induction line as [|a line IH]; intros result current Hq; [reflexivity|].
  cbn [allChars] in Hq. apply andb_prop in Hq. destruct Hq as (Ha & Hq).
  unfold noQuote in Ha. apply negb_true_iff in Ha.
  cbn [parseCSVFrom splitChar]. rewrite Ha.
  destruct (Ascii.eqb a comma); cbn [andb negb].
  - rewrite (IH _ _ Hq), <- app_assoc. reflexivity.
  - apply IH. exact Hq.
Qed.

(** Inside quotes the loop reads a quoted field up to its closing quote,
    when what follows is not one more quote. *)
Lemma parseCSVFrom_quoted field : forall result current tail,
  headChar tail <> Some quoteChar ->
  parseCSVFrom result current true
    (escapeQuotes field +:+ String quoteChar tail)
  = parseCSVFrom result (current +:+ field) false tail.
Proof.
  induction field as [|c field IH]; intros result current tail Htail.
  - rewrite app_nil_r_s. cbn [escapeQuotes String.append parseCSVFrom].
    rewrite Ascii.eqb_refl.
    destruct tail as [|next tail']; [reflexivity|].
    destruct (Ascii.eqb next quoteChar) eqn:Hn; [|reflexivity].
    apply Ascii.eqb_eq in Hn. subst next. exfalso. apply Htail. reflexivity.
  - cbn [escapeQuotes]. destruct (Ascii.eqb c quoteChar) eqn:Hc.
    + apply Ascii.eqb_eq in Hc. subst c.
      cbn [String.append parseCSVFrom]. rewrite Ascii.eqb_refl. cbn [andb].
      rewrite (IH _ _ _ Htail), append_assoc. reflexivity.
    + cbn [String.append parseCSVFrom]. rewrite Hc.
      replace (Ascii.eqb c comma && negb true)%bool with false
        by (destruct (Ascii.eqb c comma); reflexivity).
      rewrite (IH _ _ _ Htail), append_assoc. reflexivity.
Qed.

Lemma parseCSVFrom_open result current rest :
  parseCSVFrom result current false (String quoteChar rest)
  = parseCSVFrom result current true rest.
Proof.
  cbn [parseCSVFrom]. rewrite Ascii.eqb_refl. destruct rest; reflexivity.
Qed.

Lemma parseCSVFrom_comma result current rest :
  parseCSVFrom result current false (String comma rest)
  = parseCSVFrom (result ++ [current]) EmptyString false rest.
Proof. reflexivity. Qed.

Lemma parseCSVFrom_quotedLine fields : forall result,
  fields <> [] ->
  parseCSVFrom result EmptyString false (quotedLine fields)
  = result ++ fields.
Proof.
  induction fields as [|f fields IH]; intros result Hne; [congruence|].
  destruct fields as [|g fields].
  - unfold quotedLine. cbn [map join]. unfold quoted.
    rewrite parseCSVFrom_open.
    rewrite (parseCSVFrom_quoted f result EmptyString EmptyString);
      [reflexivity|discriminate].
  - unfold quotedLine. change (map quoted (f :: g :: fields))
      with (quoted f :: map quoted (g :: fields)).
    rewrite join_cons by discriminate.
    fold (quotedLine (g :: fields)). unfold quoted at 1.
    change (String quoteChar (escapeQuotes f +:+ String quoteChar EmptyString)
              +:+ "," +:+ quotedLine (g :: fields))
      with (String quoteChar ((escapeQuotes f +:+ String quoteChar EmptyString)
              +:+ String comma (quotedLine (g :: fields)))).
    rewrite parseCSVFrom_open, append_assoc.
    change (String quoteChar EmptyString +:+ String comma (quotedLine (g :: fields)))
      with (String quoteChar (String comma (quotedLine (g :: fields)))).
    rewrite (parseCSVFrom_quoted f result EmptyString); [|discriminate].
    rewrite parseCSVFrom_comma. change (EmptyString +:+ f) with f.
    rewrite (IH (result ++ [f])) by discriminate.
    rewrite <- app_assoc. reflexivity.
Qed.

End CsvFacts.

Section OneCharacter.
Import JsString Regex.
(** An expression that matches exactly the characters that [p] accepts,
    one at a time. *)
Variable ci : bool.
Variable r : regex.
Variable p : ascii -> bool.
Hypothesis r_char : forall prev a s,
  matchHere ci r prev (String a s) = if p a then Some s else None.
Hypothesis r_end : forall prev, matchHere ci r prev EmptyString = None.

Lemma search_char s : forall prev,
  match search ci r prev s with
  | None => countChars p s = 0 /\ removeChars p s = s
  | Some (i, rest) =>
      exists pre a, s = pre +:+ String a rest /\ i = String.length pre
                    /\ p a = true /\ countChars p pre = 0
                    /\ removeChars p pre = pre
  end.
Proof.
  induction s as [|a s IH]; intros prev.
  - cbn [search]. rewrite r_end. split; reflexivity.
  - cbn [search]. rewrite r_char. destruct (p a) eqn:Hpa.
    + exists EmptyString, a. repeat split. exact Hpa.
    + specialize (IH (Some a)). destruct (search ci r (Some a) s) as [[i rest]|].
      * destruct IH as (pre & b & -> & -> & Hb & Hc & Hr).
        exists (String a pre), b. cbn [countChars removeChars]. rewrite Hpa, Hc, Hr.
        repeat split. exact Hb.
      * destruct IH as (Hc & Hr). cbn [countChars removeChars].
        rewrite Hpa, Hc, Hr. split; reflexivity.
Qed.

Lemma take_length_app pre s : take (String.length pre) (pre +:+ s) = pre.
Proof. induction pre as [|c pre IH]; simpl; [destruct s; reflexivity|]. rewrite IH. reflexivity. Qed.

Lemma drop_length_app pre s : drop (String.length pre) (pre +:+ s) = s.
Proof. induction pre as [|c pre IH]; simpl; [destruct s; reflexivity|]. exact IH. Qed.

Lemma length_append_s a b :
  String.length (a +:+ b) = String.length a + String.length b.
Proof. induction a as [|x a IH]; simpl; [reflexivity|]. rewrite IH. reflexivity. Qed.

Lemma removeChars_app a b :
  removeChars p (a +:+ b) = removeChars p a +:+ removeChars p b.
Proof.
  induction a as [|x a IH]; simpl; [reflexivity|].
  rewrite IH. destruct (p x); reflexivity.
Qed.

Lemma countChars_app (q : ascii -> bool) a b :
  countChars q (a +:+ b) = countChars q a + countChars q b.
Proof. induction a as [|x a IH]; simpl; [reflexivity|]. rewrite IH. lia. Qed.

(** Replacing every match by nothing removes the characters. *)
Lemma replaceAllFrom_char fuel : forall s prev,
  String.length s < fuel ->
  replaceAllFrom ci fuel r EmptyString prev s = removeChars p s.
Proof.
  induction fuel as [|f IH]; intros s prev Hlen; [lia|].
  cbn [replaceAllFrom]. pose proof (search_char s prev) as Hs.
  destruct (search ci r prev s) as [[i rest]|].
  - destruct Hs as (pre & a & -> & -> & Ha & _ & Hr).
    rewrite take_length_app, drop_length_app.
    assert (Hne : Nat.eqb (String.length rest) (String.length (String a rest))
                  = false) by (apply Nat.eqb_neq; simpl; lia).
    rewrite Hne. rewrite length_append_s in Hlen. simpl in Hlen.
    rewrite IH by lia.
    rewrite removeChars_app, Hr. cbn [removeChars]. rewrite Ha. reflexivity.
  - symmetry. apply Hs.
Qed.

Lemma replaceAll_char s :
  replaceAll ci r EmptyString s = removeChars p s.
Proof. unfold replaceAll. apply replaceAllFrom_char. lia. Qed.

(** Counting the matches counts the characters. *)
Lemma countFrom_char fuel : forall s prev,
  String.length s < fuel -> countFrom ci fuel r prev s = countChars p s.
Proof.
  induction fuel as [|f IH]; intros s prev Hlen; [lia|].
  cbn [countFrom]. pose proof (search_char s prev) as Hs.
  destruct (search ci r prev s) as [[i rest]|].
  - destruct Hs as (pre & a & -> & -> & Ha & Hc & _).
    rewrite drop_length_app.
    assert (Hne : Nat.eqb (String.length rest) (String.length (String a rest))
                  = false) by (apply Nat.eqb_neq; simpl; lia).
    rewrite Hne. rewrite length_append_s in Hlen. simpl in Hlen.
    rewrite IH by lia.
    rewrite countChars_app, Hc. cbn [countChars]. rewrite Ha. reflexivity.
  - symmetry. apply Hs.
Qed.

Lemma countMatches_char s : countMatches ci r s = countChars p s.
Proof. unfold countMatches. apply countFrom_char. lia. Qed.

End OneCharacter.

Section OneCharacterInstances.
Import JsString Regex.

Lemma replaceAll_Class ci negated items s :
  replaceAll ci (Class negated items) EmptyString s
  = removeChars (classMatches ci negated items) s.
Proof.
  apply replaceAll_char; [|reflexivity].
  intros prev a t. unfold matchHere. cbn [matchK].
  destruct (classMatches ci negated items a); reflexivity.
Qed.

Lemma countMatches_Chr c s :
  countMatches false (Chr c) s = countChars (Ascii.eqb c) s.
Proof.
  apply countMatches_char; [|reflexivity].
  intros prev a t. unfold matchHere. cbn [matchK]. unfold charEq.
  destruct (Ascii.eqb c a); reflexivity.
Qed.

Lemma removeChars_kept p s :
  allChars (fun c => negb (p c)) (removeChars p s) = true.
Proof.
  induction s as [|c s IH]; simpl; [reflexivity|].
  destruct (p c) eqn:Hp; [exact IH|]. simpl. rewrite Hp, IH. reflexivity.
Qed.

End OneCharacterInstances.

Section JsonFixClaims.
Import JsString Regex.
Context {E : Engine}.

Lemma countChars_repeat (q : ascii -> bool) (c : ascii) (n : nat) :
  countChars q (repeat (String c EmptyString) n) = if q c then n else 0.
Proof.
  induction n as [|n IH]; simpl; [destruct (q c); reflexivity|].
  rewrite IH. destruct (q c); reflexivity.
Qed.

(** X9. What [attemptJSONFix] returns holds the trimmed text, has at
    least as many closing braces as opening ones and at least as many
    closing brackets as opening ones; and it is the trimmed text itself
    when that already is so balanced and starts with a brace or a bracket
    or holds no colon. *)
Theorem X9_attemptJSONFix_balances (jsonString : string) :
  let fixed := attemptJSONFix jsonString in
  let braces := fun s => countChars (Ascii.eqb "{") s in
  let closingBraces := fun s => countChars (Ascii.eqb "}") s in
  let brackets := fun s => countChars (Ascii.eqb "[") s in
  let closingBrackets := fun s => countChars (Ascii.eqb "]") s in
  braces fixed <= closingBraces fixed
  /\ brackets fixed <= closingBrackets fixed
  /\ includes (trim jsonString) fixed = true
  /\ ((braces (trim jsonString) <=? closingBraces (trim jsonString))
      && (brackets (trim jsonString) <=? closingBrackets (trim jsonString))
      && (startsWith "{" (trim jsonString) || startsWith "[" (trim jsonString)
          || negb (includes ":" (trim jsonString))) = true ->
      fixed = trim jsonString).
Proof.
  intros fixed braces closingBraces brackets closingBrackets.
  unfold fixed, attemptJSONFix. rewrite !countMatches_Chr.
  set (t := trim jsonString).
  fold (braces t) (closingBraces t) (brackets t) (closingBrackets t).
  set (one := if Nat.ltb (closingBraces t) (braces t)
              then t +:+ repeat "}" (braces t - closingBraces t) else t).
  set (two := if Nat.ltb (closingBrackets t) (brackets t)
              then one +:+ repeat "]" (brackets t - closingBrackets t)
              else one).
  assert (Hone : braces one <= closingBraces one
                 /\ brackets one = brackets t
                 /\ closingBrackets one = closingBrackets t
                 /\ exists tail, one = t +:+ tail).
  { unfold one. destruct (Nat.ltb (closingBraces t) (braces t)) eqn:Hlt.
    - apply Nat.ltb_lt in Hlt. unfold braces, closingBraces, brackets,
        closingBrackets in *.
      rewrite !countChars_app, !(countChars_repeat _ "}"). cbn.
      repeat split; try lia. eexists. reflexivity.
    - apply Nat.ltb_ge in Hlt. repeat split; try lia.
      exists EmptyString. rewrite app_nil_r_s. reflexivity. }
  destruct Hone as (Hb1 & Hk1 & Hc1 & (tail1 & Ht1)).
  assert (Htwo : braces two <= closingBraces two
                 /\ brackets two <= closingBrackets two
                 /\ exists tail, two = t +:+ tail).
  { unfold two.
    destruct (Nat.ltb (closingBrackets t) (brackets t)) eqn:Hlt.
    - apply Nat.ltb_lt in Hlt. unfold braces, closingBraces, brackets,
        closingBrackets in *.
      rewrite !countChars_app, !(countChars_repeat _ "]"). cbn.
      repeat split; try lia.
      exists (tail1 +:+ repeat "]" (countChars (Ascii.eqb "[") t
                                    - countChars (Ascii.eqb "]") t)).
      rewrite Ht1, append_assoc. reflexivity.
    - apply Nat.ltb_ge in Hlt. repeat split; try lia.
      exists tail1. exact Ht1. }
  destruct Htwo as (Hb2 & Hk2 & (tail2 & Ht2)).
  fold one. fold two.
  split; [|split; [|split]].
  - destruct (negb (startsWith "{" two) && negb (startsWith "[" two)
              && includes ":" two)%bool; [|exact Hb2].
    unfold braces, closingBraces in *.
    change ("{" +:+ two +:+ "}") with (String "{" (two +:+ "}")).
    cbn [countChars]. rewrite !countChars_app. cbn. lia.
  - destruct (negb (startsWith "{" two) && negb (startsWith "[" two)
              && includes ":" two)%bool; [|exact Hk2].
    unfold brackets, closingBrackets in *.
    change ("{" +:+ two +:+ "}") with (String "{" (two +:+ "}")).
    cbn [countChars]. rewrite !countChars_app. cbn. lia.
  - destruct (negb (startsWith "{" two) && negb (startsWith "[" two)
              && includes ":" two)%bool.
    + rewrite Ht2, append_assoc. apply (includes_middle "{" t).
    + rewrite Ht2. apply includes_prefix.
  - intros H. apply andb_prop in H. destruct H as (H & Hshape).
    apply andb_prop in H. destruct H as (Hbr & Hbk).
    apply Nat.leb_le in Hbr, Hbk.
    assert (H1 : one = t).
    { unfold one. destruct (Nat.ltb (closingBraces t) (braces t)) eqn:Hlt;
        [apply Nat.ltb_lt in Hlt; lia|reflexivity]. }
    assert (H2 : two = t).
    { unfold two. rewrite H1.
      destruct (Nat.ltb (closingBrackets t) (brackets t)) eqn:Hlt;
        [apply Nat.ltb_lt in Hlt; lia|reflexivity]. }
    rewrite H2.
    destruct (startsWith "{" t), (startsWith "[" t), (includes ":" t);
      simpl in *; try reflexivity; discriminate.
Qed.

End JsonFixClaims.

Section TrimFacts.
Import JsString Regex Normalization.

Lemma trimStart_mapChars f s :
  (forall c, isSpace (f c) = isSpace c) ->
  trimStart (mapChars f s) = mapChars f (trimStart s).
Proof.
  intros Hf. induction s as [|c s IH]; simpl; [reflexivity|].
  rewrite Hf. destruct (isSpace c); [exact IH|reflexivity].
Qed.

Lemma trimEnd_mapChars f s :
  (forall c, isSpace (f c) = isSpace c) ->
  trimEnd (mapChars f s) = mapChars f (trimEnd s).
Proof.
  intros Hf. induction s as [|c s IH]; simpl; [reflexivity|].
  rewrite IH, Hf. destruct (trimEnd s); simpl; [|reflexivity].
  destruct (isSpace c); reflexivity.
Qed.

Lemma trim_mapChars f s :
  (forall c, isSpace (f c) = isSpace c) ->
  trim (mapChars f s) = mapChars f (trim s).
Proof.
  intros Hf. unfold trim.
  rewrite (trimStart_mapChars f s Hf), (trimEnd_mapChars f _ Hf). reflexivity.
Qed.

Lemma upper_space c : isSpace (upperChar c) = isSpace c.
Proof. ascii_cases c. Qed.

Lemma lower_space c : isSpace (lowerChar c) = isSpace c.
Proof. ascii_cases c. Qed.

Lemma lower_upper c : lowerChar (upperChar c) = lowerChar c.
Proof. ascii_cases c. Qed.

Lemma mapChars_mapChars f g s :
  mapChars f (mapChars g s) = mapChars (fun c => f (g c)) s.
Proof. induction s as [|c s IH]; simpl; [reflexivity|]. rewrite IH. reflexivity. Qed.

Lemma mapChars_ext f g s :
  (forall c, f c = g c) -> mapChars f s = mapChars g s.
Proof.
  intros H. induction s as [|c s IH]; simpl; [reflexivity|].
  rewrite H, IH. reflexivity.
Qed.

Lemma lowered_upper s : toLowerCase (trim (toUpperCase s)) = toLowerCase (trim s).
Proof.
  unfold toUpperCase, toLowerCase.
  rewrite (trim_mapChars upperChar s upper_space), mapChars_mapChars.
  apply mapChars_ext. exact lower_upper.
Qed.

Lemma lowered_lower s : toLowerCase (trim (toLowerCase s)) = toLowerCase (trim s).
Proof.
  unfold toLowerCase.
  rewrite (trim_mapChars lowerChar s lower_space), mapChars_mapChars.
  apply mapChars_ext. exact lowerChar_idem.
Qed.

Lemma trimEnd_blank s : trimEnd (s +:+ " ") = trimEnd s.
Proof.
  induction s as [|c s IH]; [reflexivity|].
  change (String c s +:+ " ") with (String c (s +:+ " ")).
  cbn [trimEnd]. rewrite IH. reflexivity.
Qed.

Lemma trim_blank_end s : trim (s +:+ " ") = trim s.
Proof.
  unfold trim. induction s as [|c s IH]; [reflexivity|].
  change (String c s +:+ " ") with (String c (s +:+ " ")).
  cbn [trimStart]. destruct (isSpace c); [exact IH|].
  apply (trimEnd_blank (String c s)).
Qed.

Lemma trim_padded s : trim (" " +:+ s +:+ " ") = trim s.
Proof.
  change (" " +:+ s +:+ " ") with (String " " (s +:+ " ")).
  unfold trim at 1. cbn [trimStart]. change (isSpace " ") with true. cbn iota.
  apply trim_blank_end.
Qed.

Lemma isEmpty_mapChars f s : isEmpty (mapChars f s) = isEmpty s.
Proof. destruct s; reflexivity. Qed.

End TrimFacts.

Section NormalizerClaims.
Import JsString Regex Normalization.
Context {E : Engine}.

Lemma normalizeLender_string (x : string) :
  normalizeLender (VString x) = normalizeLenderOfString x.
Proof.
  unfold normalizeLender, normalizeLenderOfString.
  destruct x as [|a x]; [reflexivity|].
  cbn [truthy toStringValue isEmpty negb]. reflexivity.
Qed.

Lemma normalizeCountyString_lowered x y :
  toLowerCase (trim x) = toLowerCase (trim y) ->
  normalizeCountyString x = normalizeCountyString y.
Proof. intros H. unfold normalizeCountyString. rewrite H. reflexivity. Qed.

Lemma normalizeLenderString_lowered x y :
  toLowerCase (trim x) = toLowerCase (trim y) ->
  normalizeLenderString x = normalizeLenderString y.
Proof. intros H. unfold normalizeLenderString. rewrite H. reflexivity. Qed.

(** X6. On a text of ASCII characters, [normalizeCounty] does not see
    the case of its argument, nor spaces around an argument that is not
    empty. *)
Theorem X6_normalizeCounty_ignores_case_and_padding (x : string) :
  asciiText x = true ->
  normalizeCounty (VString (toUpperCase x)) = normalizeCounty (VString x)
  /\ normalizeCounty (VString (toLowerCase x)) = normalizeCounty (VString x)
  /\ (x <> EmptyString ->
      normalizeCounty (VString (" " +:+ x +:+ " "))
      = normalizeCounty (VString x)).
Proof.
  intros _. rewrite !normalizeCounty_string. unfold normalizeCountyOfString.
  unfold toUpperCase at 1, toLowerCase at 1. rewrite !isEmpty_mapChars.
  fold (toUpperCase x). fold (toLowerCase x).
  split; [|split].
  - destruct (isEmpty x); [reflexivity|].
    apply normalizeCountyString_lowered, lowered_upper.
  - destruct (isEmpty x); [reflexivity|].
    apply normalizeCountyString_lowered, lowered_lower.
  - intros Hne. destruct x as [|a x]; [congruence|]. cbn [isEmpty].
    change (isEmpty (" " +:+ String a x +:+ " ")) with false. cbn iota.
    apply normalizeCountyString_lowered. rewrite trim_padded. reflexivity.
Qed.

(** X7. On a text of ASCII characters, [normalizeLender] does not see
    the case of its argument, nor spaces around an argument that is not
    empty. *)
Theorem X7_normalizeLender_ignores_case_and_padding (x : string) :
  asciiText x = true ->
  normalizeLender (VString (toUpperCase x)) = normalizeLender (VString x)
  /\ normalizeLender (VString (toLowerCase x)) = normalizeLender (VString x)
  /\ (x <> EmptyString ->
      normalizeLender (VString (" " +:+ x +:+ " "))
      = normalizeLender (VString x)).
Proof.
  intros _. rewrite !normalizeLender_string. unfold normalizeLenderOfString.
  unfold toUpperCase at 1, toLowerCase at 1. rewrite !isEmpty_mapChars.
  fold (toUpperCase x). fold (toLowerCase x).
  split; [|split].
  - destruct (isEmpty x); [reflexivity|].
    apply normalizeLenderString_lowered, lowered_upper.
  - destruct (isEmpty x); [reflexivity|].
    apply normalizeLenderString_lowered, lowered_lower.
  - intros Hne. destruct x as [|a x]; [congruence|]. cbn [isEmpty].
    change (isEmpty (" " +:+ String a x +:+ " ")) with false. cbn iota.
    apply normalizeLenderString_lowered. rewrite trim_padded. reflexivity.
Qed.

End NormalizerClaims.

Section ReadFacts.
Import JsString PlainObject.

Lemma ownProp_In {A} (table : list (string * A)) key v :
  ownProp table key = Some v -> In (key, v) table.
Proof.
  induction table as [|[k w] table IH]; simpl; [discriminate|].
  destruct (String.eqb k key) eqn:Hk.
  - intros [= ->]. apply String.eqb_eq in Hk. subst k. left. reflexivity.
  - intros H. right. apply IH. exact H.
Qed.

Lemma trimEnd_cons c s :
  trimEnd (String c s)
  = match trimEnd s with
    | EmptyString => if isSpace c then EmptyString else String c EmptyString
    | t => String c t
    end.
Proof. reflexivity. Qed.

Lemma trimEnd_idem s : trimEnd (trimEnd s) = trimEnd s.
Proof.
  induction s as [|c s IH]; [reflexivity|]. rewrite (trimEnd_cons c s).
  destruct (trimEnd s) as [|d t] eqn:Ht.
  - destruct (isSpace c) eqn:Hc; [reflexivity|].
    rewrite trimEnd_cons. cbn [trimEnd]. rewrite Hc. reflexivity.
  - rewrite trimEnd_cons, IH. reflexivity.
Qed.

Lemma trimEnd_head c t :
  isSpace c = false -> exists t', trimEnd (String c t) = String c t'.
Proof.
  intros Hc. cbn [trimEnd]. destruct (trimEnd t).
  - rewrite Hc. eexists. reflexivity.
  - eexists. reflexivity.
Qed.

Lemma trimStart_head s :
  trimStart s = EmptyString
  \/ exists c t, trimStart s = String c t /\ isSpace c = false.
Proof.
  induction s as [|c s IH]; [left; reflexivity|]. cbn [trimStart].
  destruct (isSpace c) eqn:Hc; [exact IH|].
  right. exists c, s. split; [reflexivity|exact Hc].
Qed.

Lemma trim_idem s : trim (trim s) = trim s.
Proof.
  unfold trim. destruct (trimStart_head s) as [->|(c & t & -> & Hc)];
    [reflexivity|].
  destruct (trimEnd_head c t Hc) as (t' & Ht'). rewrite Ht'.
  cbn [trimStart]. rewrite Hc, <- Ht'. apply trimEnd_idem.
Qed.

End ReadFacts.

Section ColumnClaims.
Import JsString PlainObject.
Import ColumnMapping.

Lemma columnValues_fixed :
  forallb (fun kv =>
             match mapColumnName (snd kv) with
             | FieldName s => String.eqb s (snd kv)
             | PrototypeMember _ => false
             end
             && String.eqb (trim (snd kv)) (snd kv)
             && negb (isEmpty (snd kv)))%bool COLUMN_MAPPING = true.
Proof. vm_compute. reflexivity. Qed.

(** X3. [mapColumnName] returns a trimmed name that it maps to itself:
    mapping twice is mapping once. The one exception is a column whose
    trimmed name is that of a member of [Object.prototype], for which the
    table read gives that member instead of a string. *)
Theorem X3_mapColumnName_idempotent (columnName : string) :
  match mapColumnName columnName with
  | FieldName s => mapColumnName s = FieldName s /\ trim s = s
  | PrototypeMember name =>
      name = trim columnName /\ isInherited name = true
      /\ ownProp COLUMN_MAPPING name = None
  end.
Proof.
  unfold mapColumnName at 1. unfold read.
  destruct (ownProp COLUMN_MAPPING (trim columnName)) as [v|] eqn:Hown.
  - apply ownProp_In in Hown.
    pose proof (proj1 (forallb_forall _ _) columnValues_fixed _ Hown) as Hv.
    cbn [snd] in Hv. apply andb_prop in Hv. destruct Hv as (Hv & Hne).
    apply andb_prop in Hv. destruct Hv as (Hmap & Htrim).
    apply negb_true_iff in Hne. rewrite Hne.
    apply String.eqb_eq in Htrim. split; [|exact Htrim].
    destruct (mapColumnName v) as [s|]; [|discriminate].
    apply String.eqb_eq in Hmap. subst s. reflexivity.
  - destruct (isInherited (trim columnName)) eqn:Hin.
    + repeat split; assumption.
    + split; [|apply trim_idem].
      unfold mapColumnName, read. rewrite trim_idem, Hown, Hin. reflexivity.
Qed.

End ColumnClaims.

Section RegionClaims.
Import JsString PlainObject.
Context {E : Engine}.

Lemma getRegion_string (x : string) :
  getRegionFromCounty (VString x)
  = if isEmpty x then Region "Other/Unmapped"
    else regionOfNormalized (Normalization.normalizeCountyOfString x).
Proof.
  unfold getRegionFromCounty. rewrite normalizeCounty_string.
  destruct x as [|a x]; [reflexivity|].
  cbn [truthy isEmpty negb]. reflexivity.
Qed.

Lemma aliases_resolve :
  forallb (fun kv =>
             negb (isEmpty (fst kv))
             && match regionOfNormalized
                        (Normalization.normalizeCountyOfString (fst kv)) with
                | Region r => String.eqb r (snd kv)
                | InheritedMember _ => false
                end)%bool REGION_MAPPING = true.
Proof. vm_compute. reflexivity. Qed.

(** X4. Every name that [REGION_MAPPING] lists is mapped to the region
    listed for it, also the names with a [County] suffix and the
    spellings of Miami-Dade, which reach the table only after
    [normalizeCounty] has rewritten them. *)
Theorem X4_listed_counties_resolve (name region : string) :
  In (name, region) REGION_MAPPING ->
  getRegionFromCounty (VString name) = Region region.
Proof.
  intros Hin.
  pose proof (proj1 (forallb_forall _ _) aliases_resolve _ Hin) as H.
  cbn [fst snd] in H. apply andb_prop in H. destruct H as (Hne & H).
  apply negb_true_iff in Hne. rewrite getRegion_string, Hne.
  destruct (regionOfNormalized _) as [r|]; [|discriminate].
  apply String.eqb_eq in H. subst r. reflexivity.
Qed.

Lemma regions_listed :
  forallb (fun kv => existsb (String.eqb (snd kv)) getAllRegions
                     && negb (isEmpty (snd kv)))%bool
          REGION_MAPPING = true.
Proof. vm_compute. reflexivity. Qed.

Lemma matchIgnoringCase_In entries lower region :
  matchIgnoringCase entries lower = Some region ->
  exists key, In (key, region) entries.
Proof.
  induction entries as [|[k r] entries IH]; simpl; [discriminate|].
  destruct (String.eqb (toLowerCase k) lower).
  - intros [= ->]. exists k. left. reflexivity.
  - intros H. destruct (IH H) as (key & Hk). exists key. right. exact Hk.
Qed.

Lemma listed_region key region :
  In (key, region) REGION_MAPPING ->
  In region getAllRegions /\ isEmpty region = false.
Proof.
  intros Hin.
  pose proof (proj1 (forallb_forall _ _) regions_listed _ Hin) as H.
  cbn [snd] in H. apply andb_prop in H. destruct H as (H & Hne).
  apply negb_true_iff in Hne. split; [|exact Hne].
  apply existsb_exists in H. destruct H as (r & Hr & Heq).
  apply String.eqb_eq in Heq. subst r. exact Hr.
Qed.

(** X5. [getRegionFromCounty] returns one of the four region names,
    [Other/Unmapped] for a county that is missing, with one exception:
    when the normalized county is the name of a member of
    [Object.prototype], the table read gives that member, and the
    function returns it in place of a region. The county [__proto__] is
    such a case. *)
Theorem X5_region_or_inherited_member (county : JSValue) :
  match getRegionFromCounty county with
  | Region region =>
      In region getAllRegions
      /\ (truthy county = false -> region = "Other/Unmapped")
  | InheritedMember name =>
      truthy county = true /\ normalizeCounty county = name
      /\ isInherited name = true
  end
  /\ getRegionFromCounty (VString "__proto__") = InheritedMember "__proto__".
Proof.
  split; [|rewrite getRegion_string; vm_compute; reflexivity].
  unfold getRegionFromCounty.
  destruct (truthy county) eqn:Ht; cbn [negb].
  2: { split; [simpl; tauto|reflexivity]. }
  unfold regionOfNormalized, read.
  set (normalized := normalizeCounty county).
  assert (Hfallback :
            match
              match matchIgnoringCase REGION_MAPPING (toLowerCase normalized) with
              | Some region => Region region
              | None => Region "Other/Unmapped"
              end
            with
            | Region region =>
                In region getAllRegions
                /\ (true = false -> region = "Other/Unmapped")
            | InheritedMember name =>
                true = true /\ normalized = name /\ isInherited name = true
            end).
  { destruct (matchIgnoringCase REGION_MAPPING (toLowerCase normalized))
      as [region|] eqn:Hm.
    - apply matchIgnoringCase_In in Hm. destruct Hm as (key & Hk).
      split; [apply (listed_region key region Hk)|discriminate].
    - split; [simpl; tauto|discriminate]. }
  destruct (ownProp REGION_MAPPING normalized) as [region|] eqn:Hown.
  - apply ownProp_In in Hown. destruct (listed_region _ _ Hown) as (Hr & Hne).
    rewrite Hne. split; [exact Hr|discriminate].
  - destruct (isInherited normalized) eqn:Hin; [|exact Hfallback].
    repeat split. exact Hin.
Qed.

End RegionClaims.

Section KeyedMapFacts.
Context {A B : Type} (key : A -> string) (keyOf : B -> string)
        (fresh : string -> A) (step : B -> A -> A).
Hypothesis key_fresh : forall n, key (fresh n) = n.
Hypothesis key_step : forall b a, key (step b a) = key a.

Lemma key_entryAfter l name : key (entryAfter keyOf fresh step l name) = name.
Proof.
  unfold entryAfter.
  induction (List.filter (fun b => String.eqb (keyOf b) name) l)
    as [|b bs IH] using rev_ind; simpl; [apply key_fresh|].
  rewrite fold_left_app. simpl. rewrite key_step. exact IH.
Qed.

Lemma hasKey_map (G : string -> A) names name :
  (forall n, key (G n) = n) ->
  hasKey key name (map G names) = existsb (String.eqb name) names.
Proof.
  intros HG. unfold hasKey. induction names as [|n names IH]; simpl; [reflexivity|].
  rewrite HG, IH, (String.eqb_sym n name). reflexivity.
Qed.

Lemma updateEntry_map (G : string -> A) f names name :
  (forall n, key (G n) = n) -> NoDup names ->
  updateEntry key name f (map G names)
  = map (fun n => if String.eqb n name then f (G n) else G n) names.
Proof.
  intros HG. induction names as [|n names IH]; intros Hnd; simpl; [reflexivity|].
  apply NoDup_cons in Hnd. destruct Hnd as (Hn & Hnd).
  rewrite HG. destruct (String.eqb n name) eqn:Hnn.
  - f_equal. apply map_ext_in. intros n' Hin.
    destruct (String.eqb n' name) eqn:Hn'; [|reflexivity].
    apply String.eqb_eq in Hnn, Hn'. subst. exfalso. apply Hn.
    apply list_elem_of_In. exact Hin.
  - rewrite (IH Hnd). reflexivity.
Qed.

Lemma entryAfter_snoc l b name :
  entryAfter keyOf fresh step (l ++ [b]) name
  = if String.eqb (keyOf b) name then step b (entryAfter keyOf fresh step l name)
    else entryAfter keyOf fresh step l name.
Proof.
  unfold entryAfter. rewrite filter_snoc.
  destruct (String.eqb (keyOf b) name).
  - rewrite fold_left_app. reflexivity.
  - rewrite app_nil_r. reflexivity.
Qed.

Lemma entryAfter_unseen l name :
  ~ In name (map keyOf l) -> entryAfter keyOf fresh step l name = fresh name.
Proof.
  intros Hnot. unfold entryAfter.
  replace (List.filter (fun b => String.eqb (keyOf b) name) l) with (@nil B);
    [reflexivity|].
  symmetry. induction l as [|b l IH]; simpl; [reflexivity|].
  destruct (String.eqb (keyOf b) name) eqn:Hb.
  - apply String.eqb_eq in Hb. exfalso. apply Hnot. left. exact Hb.
  - apply IH. intros H. apply Hnot. right. exact H.
Qed.

Lemma firstSeen_NoDup names : NoDup (firstSeen names).
Proof. apply fold_addName_NoDup. constructor. Qed.

Lemma firstSeen_In names n : In n (firstSeen names) <-> In n names.
Proof.
  unfold firstSeen. rewrite fold_addName_In. simpl. tauto.
Qed.

Lemma firstSeen_snoc names n :
  firstSeen (names ++ [n]) = addName (firstSeen names) n.
Proof. unfold firstSeen. rewrite fold_left_app. reflexivity. Qed.

(** The loop that keeps one entry per key: after the items [l] the map
    holds, for each key in the order of first appearance, the entry that
    the items of that key have built. *)
Lemma fold_upsert (l : list B) :
  fold_left
    (fun m b => upsert key (keyOf b) (fresh (keyOf b)) (step b) m) l []
  = map (entryAfter keyOf fresh step l) (firstSeen (map keyOf l)).
Proof.
  induction l as [|b l IH] using rev_ind; [reflexivity|].
  rewrite fold_left_app, IH. cbn [fold_left]. clear IH.
  rewrite (map_app keyOf). cbn [map]. rewrite firstSeen_snoc.
  set (names := firstSeen (map keyOf l)).
  set (name := keyOf b).
  assert (Hnd : NoDup names) by apply firstSeen_NoDup.
  unfold upsert, addName.
  rewrite (hasKey_map (entryAfter keyOf fresh step l) names name (key_entryAfter l)).
  destruct (existsb (String.eqb name) names) eqn:Hex; cbn [negb].
  - rewrite (updateEntry_map (entryAfter keyOf fresh step l) (step b) names name
               (key_entryAfter l) Hnd).
    apply map_ext. intros n. rewrite entryAfter_snoc. fold name.
    rewrite (String.eqb_sym n name). reflexivity.
  - assert (Hnot : ~ In name names).
    { intros Hin. apply not_true_iff_false in Hex. apply Hex.
      apply existsb_exists. exists name. split; [exact Hin|].
      apply String.eqb_refl. }
    assert (Hnd' : NoDup (names ++ [name])).
    { apply NoDup_app. split; [exact Hnd|]. split.
      - intros x Hx Hx'. apply list_elem_of_In in Hx, Hx'.
        destruct Hx' as [<- |[]]. exact (Hnot Hx).
      - apply NoDup_singleton. }
    replace (map (entryAfter keyOf fresh step l) names ++ [fresh name])
      with (map (entryAfter keyOf fresh step l) (names ++ [name])).
    + rewrite (updateEntry_map (entryAfter keyOf fresh step l) (step b) (names ++ [name]) name
                 (key_entryAfter l) Hnd').
      apply map_ext. intros n. rewrite entryAfter_snoc. fold name.
      rewrite (String.eqb_sym n name). reflexivity.
    + rewrite map_app. simpl. f_equal. f_equal.
      apply entryAfter_unseen. intros Hin. apply Hnot.
      apply firstSeen_In. exact Hin.
Qed.

End KeyedMapFacts.

Section CountingFacts.

Lemma filter_length_impl {A} (f g : A -> bool) (l : list A) :
  (forall x, f x = true -> g x = true) ->
  length (List.filter f l) <= length (List.filter g l).
Proof.
  intros Hfg. induction l as [|x l IH]; simpl; [lia|].
  destruct (f x) eqn:Hf.
  - rewrite (Hfg x Hf). simpl. lia.
  - destruct (g x); simpl; lia.
Qed.

Lemma list_sum_add {A} (f g : A -> nat) (l : list A) :
  list_sum (map (fun x => f x + g x) l)
  = list_sum (map f l) + list_sum (map g l).
Proof. induction l as [|x l IH]; simpl; [reflexivity|]. rewrite IH. lia. Qed.

Lemma list_sum_zero {A} (f : A -> nat) (l : list A) :
  (forall x, In x l -> f x = 0) -> list_sum (map f l) = 0.
Proof.
  induction l as [|x l IH]; intros H; simpl; [reflexivity|].
  rewrite (H x (or_introl eq_refl)), IH; [reflexivity|].
  intros y Hy. apply H. right. exact Hy.
Qed.

(** Among names without repetition, one name is counted once. *)
Lemma list_sum_indicator (names : list string) (name : string) :
  NoDup names -> In name names ->
  list_sum (map (fun n => if String.eqb name n then 1 else 0) names) = 1.
Proof.
  induction names as [|n names IH]; intros Hnd Hin; [destruct Hin|].
  apply NoDup_cons in Hnd. destruct Hnd as (Hn & Hnd). simpl.
  destruct (String.eqb name n) eqn:Hnn.
  - apply String.eqb_eq in Hnn. subst n.
    rewrite list_sum_zero; [reflexivity|].
    intros y Hy. destruct (String.eqb name y) eqn:Hy'; [|reflexivity].
    apply String.eqb_eq in Hy'. subst y. exfalso. apply Hn.
    apply list_elem_of_In. exact Hy.
  - destruct Hin as [->|Hin]; [rewrite String.eqb_refl in Hnn; discriminate|].
    rewrite (IH Hnd Hin). reflexivity.
Qed.

(** Every item is counted under one name. *)
Lemma list_sum_by_key {B} (keyOf : B -> string) (l : list B)
    (names : list string) :
  NoDup names -> (forall b, In b l -> In (keyOf b) names) ->
  list_sum
    (map (fun n => length (List.filter (fun b => String.eqb (keyOf b) n) l))
         names)
  = length l.
Proof.
  intros Hnd. induction l as [|b l IH]; intros Hin; simpl.
  - apply list_sum_zero. reflexivity.
  - transitivity
      (list_sum
         (map (fun n =>
                 (if String.eqb (keyOf b) n then 1 else 0)
                 + length (List.filter (fun b' => String.eqb (keyOf b') n) l))
              names)).
    + f_equal. apply map_ext. intros n.
      destruct (String.eqb (keyOf b) n); reflexivity.
    + rewrite list_sum_add.
      rewrite (list_sum_indicator names (keyOf b) Hnd
                 (Hin b (or_introl eq_refl))).
      rewrite (IH (fun b' Hb' => Hin b' (or_intror Hb'))). reflexivity.
Qed.

End CountingFacts.

Section StatsFacts.
Context {E : Engine} {RT : Runtime}.

Lemma fold_countIfMeets l : forall stats,
  ytd_totalComplaints (fold_left countIfMeets l stats)
  = ytd_totalComplaints stats
  /\ ytd_totalMeetsCriteria (fold_left countIfMeets l stats)
     = ytd_totalMeetsCriteria stats + length (List.filter meetsCriteria l).
Proof.
  induction l as [|c l IH]; intros stats; simpl; [split; [reflexivity|lia]|].
  destruct (IH (countIfMeets stats c)) as (H1 & H2). rewrite H1, H2.
  unfold countIfMeets. destruct (meetsCriteria c); simpl; split;
    try reflexivity; lia.
Qed.

Lemma statsSince_counts start complaints :
  let period :=
    List.filter (isRecent start) (filterValidComplaints complaints) in
  ytd_totalComplaints (statsSince start complaints) = length period
  /\ ytd_totalMeetsCriteria (statsSince start complaints)
     = length (List.filter meetsCriteria period).
Proof.
  intros period. unfold statsSince. fold period.
  destruct (fold_countIfMeets period
              {| ytd_totalComplaints := length period;
                 ytd_totalMeetsCriteria := 0;
                 ytd_totalUPBMeetsCriteria := num_of_Z E 0 |}) as (H1 & H2).
  rewrite H1, H2. split; reflexivity.
Qed.

Lemma isRecent_later start start' c :
  (start <= start')%Z -> isRecent start' c = true -> isRecent start c = true.
Proof.
  intros Hle. unfold isRecent.
  destruct (negb (dateTruthy (complaintDate c))); [discriminate|].
  destruct (complaintDate c) as [d|]; [|discriminate].
  destruct (timeOf d) as [t|]; [|discriminate].
  intros H. apply Z.leb_le in H. apply Z.leb_le. lia.
Qed.

End StatsFacts.

Section SortFacts.
Local Open Scope Z_scope.

Lemma insertSorted_map {A B} (f : A -> B) (cmpA : A -> A -> Z)
    (cmpB : B -> B -> Z) x l :
  (forall a b, cmpA a b = cmpB (f a) (f b)) ->
  map f (insertSorted cmpA x l) = insertSorted cmpB (f x) (map f l).
Proof.
  intros H. induction l as [|y l IH]; simpl; [reflexivity|].
  rewrite <- H. destruct (Z.ltb (cmpA x y) 0); simpl; [reflexivity|].
  rewrite IH. reflexivity.
Qed.

Lemma sortWith_map {A B} (f : A -> B) (cmpA : A -> A -> Z)
    (cmpB : B -> B -> Z) l :
  (forall a b, cmpA a b = cmpB (f a) (f b)) ->
  map f (sortWith cmpA l) = sortWith cmpB (map f l).
Proof.
  intros H. unfold sortWith.
  assert (Hacc : forall acc,
            map f (fold_left (fun acc x => insertSorted cmpA x acc) l acc)
            = fold_left (fun acc x => insertSorted cmpB x acc) (map f l)
                (map f acc)).
  { induction l as [|x l IH]; intros acc; simpl; [reflexivity|].
    rewrite IH, (insertSorted_map f cmpA cmpB x acc H). reflexivity. }
  apply (Hacc []).
Qed.

(** Sorting elements that all satisfy [P], under a comparator that is a
    total preorder on them. *)
Section SortedOn.
Context {A : Type} (cmp : A -> A -> Z) (P : A -> Prop).
Hypothesis cmp_total : forall a b, P a -> P b -> cmp a b < 0 \/ cmp b a <= 0.
Hypothesis cmp_trans : forall a b c, P a -> P b -> P c ->
  cmp a b <= 0 -> cmp b c <= 0 -> cmp a c <= 0.

Lemma insertSorted_sorted_on x l :
  P x -> Forall P l ->
  StronglySorted (fun a b => cmp a b <= 0) l ->
  StronglySorted (fun a b => cmp a b <= 0) (insertSorted cmp x l).
Proof.
  intros Hx. induction l as [|y l IH]; intros HP Hs; simpl.
  - constructor; [constructor|constructor].
  - inversion Hs as [|? ? Hl Hy]; subst.
    pose proof (Forall_inv HP) as HPy. pose proof (Forall_inv_tail HP) as HPl.
    destruct (Z.ltb (cmp x y) 0) eqn:Hlt.
    + apply Z.ltb_lt in Hlt. constructor; [exact Hs|].
      constructor; [lia|].
      rewrite List.Forall_forall in Hy, HPl |- *. intros z Hz.
      apply (cmp_trans x y z Hx HPy (HPl z Hz)); [lia|apply Hy; exact Hz].
    + apply Z.ltb_ge in Hlt. constructor; [apply IH; assumption|].
      rewrite List.Forall_forall in Hy |- *. intros z Hz.
      apply (Permutation_in _ (insertSorted_perm cmp x l)) in Hz.
      destruct Hz as [<-|Hz]; [|apply Hy; exact Hz].
      destruct (cmp_total x y Hx HPy); lia.
Qed.

Lemma insertSorted_Forall x l : P x -> Forall P l -> Forall P (insertSorted cmp x l).
Proof.
  intros Hx Hl. rewrite List.Forall_forall in Hl |- *. intros z Hz.
  apply (Permutation_in _ (insertSorted_perm cmp x l)) in Hz.
  destruct Hz as [<-|Hz]; [exact Hx|apply Hl; exact Hz].
Qed.

Lemma sortWith_sorted_on l :
  Forall P l -> StronglySorted (fun a b => cmp a b <= 0) (sortWith cmp l).
Proof.
  unfold sortWith.
  assert (H : forall acc, Forall P l -> Forall P acc ->
            StronglySorted (fun a b => cmp a b <= 0) acc ->
            StronglySorted (fun a b => cmp a b <= 0)
              (fold_left (fun acc x => insertSorted cmp x acc) l acc)).
  { induction l as [|x l IH]; intros acc Hl HP Hacc; simpl; [exact Hacc|].
    pose proof (Forall_inv Hl) as Hx. pose proof (Forall_inv_tail Hl) as Hl'.
    apply IH; [exact Hl'| |].
    - apply insertSorted_Forall; assumption.
    - apply insertSorted_sorted_on; assumption. }
  intros Hl. apply H; [exact Hl|constructor|constructor].
Qed.
End SortedOn.

End SortFacts.

Section CalculationClaims.
Context {E : Engine} {RT : Runtime}.
Import JsString.

(** X13. The figures of the current month never exceed those of the year
    to date, when the month starts no earlier than the year; in both,
    the complaints that meet the criteria are among the complaints
    counted, and these are among the valid ones that are no duplicates. *)
Theorem X13_month_within_year (complaints : list ProcessedComplaint) :
  (startOfYear RT (now E) <= startOfMonth RT (now E))%Z ->
  let month := calculateCurrentMonthStats complaints in
  let year := calculateYTDStats complaints in
  ytd_totalComplaints month <= ytd_totalComplaints year
  /\ ytd_totalMeetsCriteria month <= ytd_totalMeetsCriteria year
  /\ ytd_totalMeetsCriteria month <= ytd_totalComplaints month
  /\ ytd_totalMeetsCriteria year <= ytd_totalComplaints year
  /\ ytd_totalComplaints year
     <= length (List.filter countsAsValid complaints).
Proof.
  intros Hle month year. unfold month, year, calculateCurrentMonthStats,
    calculateYTDStats.
  destruct (statsSince_counts (startOfMonth RT (now E)) complaints) as (Hm1 & Hm2).
  destruct (statsSince_counts (startOfYear RT (now E)) complaints) as (Hy1 & Hy2).
  rewrite Hm1, Hm2, Hy1, Hy2. unfold filterValidComplaints.
  repeat match goal with |- _ /\ _ => split end.
  - apply filter_length_impl. intros c. apply isRecent_later. exact Hle.
  - rewrite !filter_filter. apply filter_length_impl. intros c H.
    pose proof (isRecent_later _ _ c Hle) as Hr.
    destruct (countsAsValid c), (isRecent (startOfMonth RT (now E)) c),
      (meetsCriteria c); simpl in *; try discriminate.
    rewrite Hr; reflexivity.
  - apply filter_length_le.
  - apply filter_length_le.
  - apply filter_length_le.
Qed.

Lemma lenderSummary_map complaints :
  let qualifying :=
    List.filter meetsCriteria (filterValidComplaints complaints) in
  calculateLenderCriteriaSummary complaints
  = map (lenderLine qualifying) (firstSeen (map summaryLender qualifying)).
Proof.
  intros qualifying. unfold calculateLenderCriteriaSummary. fold qualifying.
  unfold lenderLine.
  rewrite <- (fold_upsert lc_lender summaryLender); [reflexivity| |];
    reflexivity.
Qed.

Lemma lenderLine_count qualifying name :
  lc_lender (lenderLine qualifying name) = name
  /\ lc_totalComplaints (lenderLine qualifying name)
     = length (List.filter (fun c => String.eqb (summaryLender c) name)
                           qualifying).
Proof.
  unfold lenderLine, entryAfter.
  induction (List.filter (fun c => String.eqb (summaryLender c) name) qualifying)
    as [|c l IH] using rev_ind; [split; reflexivity|].
  rewrite fold_left_app, length_app. simpl. destruct IH as (H1 & H2).
  rewrite H1, H2. split; [reflexivity|lia].
Qed.

(** X14. The lender summary has one line per normalized lender of the
    valid, non-duplicate complaints that meet the criteria, in the order
    in which they first show; a line counts the complaints of its lender,
    at least one; and the lines together count each of these complaints
    once. *)
Theorem X14_lender_summary_counts (complaints : list ProcessedComplaint) :
  let qualifying :=
    List.filter meetsCriteria (filterValidComplaints complaints) in
  let result := calculateLenderCriteriaSummary complaints in
  map lc_lender result = firstSeen (map summaryLender qualifying)
  /\ NoDup (map lc_lender result)
  /\ (forall line, In line result ->
        lc_totalComplaints line
        = length (List.filter
                    (fun c => String.eqb (summaryLender c) (lc_lender line))
                    qualifying)
        /\ 1 <= lc_totalComplaints line)
  /\ list_sum (map lc_totalComplaints result) = length qualifying.
Proof.
  intros qualifying result.
  assert (Hres : result
            = map (lenderLine qualifying)
                  (firstSeen (map summaryLender qualifying)))
    by apply lenderSummary_map.
  assert (Hnames : map lc_lender result
                   = firstSeen (map summaryLender qualifying)).
  { rewrite Hres, map_map. rewrite <- (map_id (firstSeen _)) at 2.
    apply map_ext. intros n. apply lenderLine_count. }
  split; [exact Hnames|]. split; [rewrite Hnames; apply firstSeen_NoDup|].
  split.
  - intros line Hin. rewrite Hres in Hin. apply in_map_iff in Hin.
    destruct Hin as (n & <- & Hn).
    destruct (lenderLine_count qualifying n) as (H1 & H2).
    rewrite H1, H2. split; [reflexivity|].
    apply (proj1 (firstSeen_In _ _)) in Hn. apply in_map_iff in Hn.
    destruct Hn as (c & Hc & Hin).
    assert (Hf : In c (List.filter
                         (fun c => String.eqb (summaryLender c) n) qualifying)).
    { apply filter_In. split; [exact Hin|]. apply String.eqb_eq. exact Hc. }
    destruct (List.filter _ qualifying); [destruct Hf|simpl; lia].
  - rewrite Hres, map_map.
    rewrite (map_ext _ (fun n => length (List.filter
               (fun c => String.eqb (summaryLender c) n) qualifying)))
      by (intros n; apply lenderLine_count).
    apply list_sum_by_key; [apply firstSeen_NoDup|].
    intros c Hc. apply firstSeen_In. apply in_map. exact Hc.
Qed.

End CalculationClaims.

Section WeeklyFacts.
Context {E : Engine} {RT : Runtime}.
Import JsString.

Lemma weekOf_window today date :
  notBefore (subDays E today 28) date = true ->
  weekOf today date = 1 \/ weekOf today date = 2
  \/ weekOf today date = 3 \/ weekOf today date = 4.
Proof.
  intros H. unfold weekOf. rewrite H.
  destruct (notBefore (subDays E today 7) date); [auto|].
  destruct (notBefore (subDays E today 14) date); [auto|].
  destruct (notBefore (subDays E today 21) date); auto.
Qed.

Lemma qualifiesWeekly_split start c :
  qualifiesWeekly start c = (isRecent start c && meetsCriteria c)%bool.
Proof.
  unfold qualifiesWeekly, isRecent, dateOf, notBefore.
  destruct (dateTruthy (complaintDate c)), (meetsCriteria c); simpl;
    try reflexivity;
    destruct (complaintDate c) as [d|]; try reflexivity;
    destruct (timeOf d) as [t|]; try reflexivity;
    rewrite ?andb_true_r, ?andb_false_r; reflexivity.
Qed.

Lemma qualifiesWeekly_window start c :
  qualifiesWeekly start c = true -> notBefore start (dateOf c) = true.
Proof.
  unfold qualifiesWeekly.
  destruct (negb (dateTruthy (complaintDate c)) || negb (meetsCriteria c))%bool;
    [discriminate|auto].
Qed.

Lemma weeklyLine_counts today l name :
  Forall (fun c => notBefore (subDays E today 28) (dateOf c) = true) l ->
  let line := weeklyLine today l name in
  w_county line = name
  /\ w_totalComplaints line
     = length (List.filter (fun c => String.eqb (countyOf c) name) l)
  /\ w_totalMeetsCriteria line = w_totalComplaints line
  /\ weekTotal line = w_totalComplaints line
  /\ week (week1 line) = 1 /\ week (week2 line) = 2
  /\ week (week3 line) = 3 /\ week (week4 line) = 4.
Proof.
  intros Hall. unfold weeklyLine, entryAfter.
  assert (Hf : Forall (fun c => notBefore (subDays E today 28) (dateOf c) = true)
                 (List.filter (fun c => String.eqb (countyOf c) name) l)).
  { rewrite List.Forall_forall in Hall |- *. intros c Hc.
    apply filter_In in Hc. apply Hall. apply Hc. }
  induction (List.filter (fun c => String.eqb (countyOf c) name) l)
    as [|c items IH] using rev_ind.
  - simpl. unfold weekTotal. simpl. repeat split; reflexivity.
  - apply Forall_app in Hf. destruct Hf as (Hitems & Hc).
    apply Forall_inv in Hc.
    specialize (IH Hitems). cbv zeta in IH |- *.
    rewrite fold_left_app, length_app. cbn [fold_left length].
    set (stats := fold_left (fun a b => addToWeekly today b a) items
                    (emptyWeekly name)) in *.
    destruct IH as (H0 & H1 & H2 & H3 & H4 & H5 & H6 & H7).
    unfold weekTotal in *. unfold addToWeekly.
    cbn [w_county w_totalComplaints w_totalMeetsCriteria
         week1 week2 week3 week4].
    split; [exact H0|]. split; [rewrite H1; lia|].
    split; [rewrite H2; reflexivity|]. split.
    { rewrite <- H3.
      destruct (weekOf_window today (dateOf c) Hc) as [Hw|[Hw|[Hw|Hw]]];
        rewrite Hw; cbn; lia. }
    repeat match goal with |- _ /\ _ => split end;
      match goal with
      | |- week (if ?b then _ else _) = _ => destruct b; cbn; assumption
      end.
Qed.

End WeeklyFacts.

Section WeeklyClaims.
Context {E : Engine} {RT : Runtime}.
Import JsString.

Lemma weekly_map complaints :
  let qualifying :=
    List.filter (qualifiesWeekly (subDays E (now E) 28))
                (filterValidComplaints complaints) in
  Permutation (calculateFourWeekRollUpWeekly complaints)
    (map (weeklyLine (now E) qualifying) (firstSeen (map countyOf qualifying))).
Proof.
  intros qualifying. unfold calculateFourWeekRollUpWeekly. fold qualifying.
  rewrite sortWith_perm. unfold countWeekly, weeklyLine.
  rewrite (fold_upsert w_county countyOf emptyWeekly (addToWeekly (now E)));
    reflexivity.
Qed.

(** X15. In the weekly roll-up every line has its complaints in exactly
    one of the four weeks, so the four weekly counts add up to the total
    of the line; the total is also its count of complaints that meet the
    criteria, and it is the number of the valid complaints of the county
    that are no duplicates, meet the criteria and are dated on or after
    the instant 28 days before the call. No county has two lines, and no
    line is empty. *)
Theorem X15_weekly_rollup_adds_up (complaints : list ProcessedComplaint) :
  let result := calculateFourWeekRollUpWeekly complaints in
  NoDup (map w_county result)
  /\ forall line, In line result ->
       weekTotal line = w_totalComplaints line
       /\ w_totalMeetsCriteria line = w_totalComplaints line
       /\ 1 <= w_totalComplaints line
       /\ w_totalComplaints line
          = length (List.filter qualifies
                      (List.filter
                         (fun c => (inWindow c
                                    && inCounty (w_county line) c)%bool)
                         complaints)).
Proof.
  intros result.
  set (start := subDays E (now E) 28).
  set (qualifying := List.filter (qualifiesWeekly start)
                       (filterValidComplaints complaints)).
  assert (Hperm : Permutation result
            (map (weeklyLine (now E) qualifying)
                 (firstSeen (map countyOf qualifying))))
    by apply weekly_map.
  assert (Hall : Forall (fun c => notBefore start (dateOf c) = true) qualifying).
  { apply List.Forall_forall. intros c Hc. apply filter_In in Hc.
    apply qualifiesWeekly_window. apply Hc. }
  split.
  - rewrite Hperm, map_map.
    rewrite (map_ext _ (fun n => n)), map_id; [apply firstSeen_NoDup|].
    intros n. apply (weeklyLine_counts (now E) qualifying n Hall).
  - intros line Hin. apply (Permutation_in _ Hperm) in Hin.
    apply in_map_iff in Hin. destruct Hin as (n & <- & Hn).
    destruct (weeklyLine_counts (now E) qualifying n Hall)
      as (H0 & H1 & H2 & H3 & _).
    apply (proj1 (firstSeen_In _ _)) in Hn. apply in_map_iff in Hn.
    destruct Hn as (c & Hc & Hcq).
    split; [exact H3|]. split; [exact H2|]. split.
    { rewrite H1.
      assert (Hf : In c (List.filter
                           (fun c => String.eqb (countyOf c) n) qualifying)).
      { apply filter_In. split; [exact Hcq|]. apply String.eqb_eq. exact Hc. }
      destruct (List.filter _ qualifying); [destruct Hf|simpl; lia]. }
    rewrite H0, H1. unfold qualifying, filterValidComplaints.
    rewrite !filter_filter. f_equal.
    apply List.filter_ext. intros x. rewrite qualifiesWeekly_split.
    unfold qualifies, inWindow, inCounty. fold start.
    destruct (countsAsValid x) eqn:Hv; unfold countsAsValid in Hv;
      destruct (isValid x), (isDuplicate x), (isRecent start x),
        (meetsCriteria x), (String.eqb (countyOf x) n);
      simpl in *; congruence.
Qed.

(** X16. Called at the same instant, that is, when [new Date()] reads
    the same [today] in both, [getLast7DaysComplaints] and
    [getFlowThroughLastWeek] list the same complaints in the same order,
    with the same address, county, lender, balance and date. *)
Theorem X16_last7_is_flowThroughLastWeek (today : Z)
    (complaints : list ProcessedComplaint) :
  map dealOfLast7 (getLast7DaysComplaintsAt today complaints)
  = getFlowThroughLastWeekAt today complaints.
Proof.
  unfold getLast7DaysComplaintsAt, getFlowThroughLastWeekAt, flowThroughSince.
  rewrite (sortWith_map dealOfLast7 _
             (fun a b => newestFirst (ft_complaintDate a) (ft_complaintDate b)))
    by reflexivity.
  rewrite map_map. reflexivity.
Qed.

End WeeklyClaims.

Section FlowClaims.
Context {E : Engine} {RT : Runtime}.
Import JsString.

Lemma StronglySorted_on {A} (R R' : A -> A -> Prop) (P : A -> Prop) l :
  (forall a b, P a -> P b -> R a b -> R' a b) ->
  Forall P l -> StronglySorted R l -> StronglySorted R' l.
Proof.
  intros HR. induction l as [|x l IH]; intros HP Hs; [constructor|].
  inversion Hs as [|? ? Hl Hx]; subst.
  pose proof (Forall_inv HP) as HPx. pose proof (Forall_inv_tail HP) as HPl.
  constructor; [apply IH; assumption|].
  rewrite List.Forall_forall in Hx, HPl |- *. intros y Hy.
  apply HR; [exact HPx|apply HPl; exact Hy|apply Hx; exact Hy].
Qed.

Lemma qualifyingSince_In start complaints c :
  In c (qualifyingSince start complaints) <->
  In c complaints /\ countsAsValid c = true /\ meetsCriteria c = true
  /\ isRecent start c = true.
Proof.
  unfold qualifyingSince, filterValidComplaints.
  rewrite !filter_In. tauto.
Qed.

Lemma isRecent_dateOf start c :
  isRecent start c = true -> exists t, dateOf c = Some t /\ (start <= t)%Z.
Proof.
  unfold isRecent, dateOf.
  destruct (negb (dateTruthy (complaintDate c))); [discriminate|].
  destruct (complaintDate c) as [d|]; [|discriminate].
  destruct (timeOf d) as [t|]; [|discriminate].
  intros H. apply Z.leb_le in H. exists t. split; [reflexivity|exact H].
Qed.

Lemma addressOf_truthy c : truthy (addressOf c) = true.
Proof.
  unfold addressOf, orElse.
  destruct (truthy (getProp (row c) "propertyAddress")) eqn:H;
    [exact H|reflexivity].
Qed.

(** X17. [getRecentComplaints] lists exactly the valid, non-duplicate
    complaints that meet the criteria and are dated within the last 15
    days, newest first; every line has a date, and an address that is
    never blank. *)
Theorem X17_recent_complaints (complaints : list ProcessedComplaint) :
  let start := subDays E (now E) 15 in
  let result := getRecentComplaints complaints in
  Permutation result
    (map toRecentComplaint (qualifyingSince start complaints))
  /\ StronglySorted
       (fun a b => notNewer (rc_complaintDate a) (rc_complaintDate b)) result
  /\ forall line, In line result ->
       truthy (rc_propertyAddress line) = true
       /\ exists c t,
            In c complaints /\ line = toRecentComplaint c
            /\ isValid c = true /\ isDuplicate c = false
            /\ meetsCriteria c = true
            /\ rc_complaintDate line = Some t /\ (start <= t)%Z.
Proof.
  intros start result.
  assert (Hperm : Permutation result
            (map toRecentComplaint (qualifyingSince start complaints)))
    by apply sortWith_perm.
  assert (Hline : forall line, In line result ->
            exists c t, In c complaints /\ line = toRecentComplaint c
              /\ isValid c = true /\ isDuplicate c = false
              /\ meetsCriteria c = true
              /\ rc_complaintDate line = Some t /\ (start <= t)%Z).
  { intros line Hin. apply (Permutation_in _ Hperm) in Hin.
    apply in_map_iff in Hin. destruct Hin as (c & <- & Hc).
    apply qualifyingSince_In in Hc. destruct Hc as (Hc & Hv & Hm & Hr).
    destruct (isRecent_dateOf start c Hr) as (t & Ht & Hle).
    unfold countsAsValid in Hv. apply andb_prop in Hv.
    destruct Hv as (Hv & Hd). apply negb_true_iff in Hd.
    exists c, t. repeat split; assumption. }
  split; [exact Hperm|]. split.
  - set (P := fun line : RecentComplaint =>
                exists t, rc_complaintDate line = Some t).
    assert (HP : Forall P (map toRecentComplaint (qualifyingSince start complaints))).
    { apply List.Forall_forall. intros line Hin.
      apply (Permutation_in _ (Permutation_sym Hperm)) in Hin.
      destruct (Hline line Hin) as (c & t & _ & _ & _ & _ & _ & Ht & _).
      exists t. exact Ht. }
    assert (HPr : Forall P result).
    { apply List.Forall_forall. intros line Hin.
      destruct (Hline line Hin) as (c & t & _ & _ & _ & _ & _ & Ht & _).
      exists t. exact Ht. }
    apply (StronglySorted_on
             (fun a b => (newestFirst (rc_complaintDate a)
                                      (rc_complaintDate b) <= 0)%Z) _ P);
      [|exact HPr|].
    + intros a b (ta & Ha) (tb & Hb). rewrite Ha, Hb. simpl. lia.
    + apply (sortWith_sorted_on _ P); [| |exact HP].
      * intros a b (ta & Ha) (tb & Hb). rewrite Ha, Hb. simpl. lia.
      * intros a b c (ta & Ha) (tb & Hb) (tc & Hc).
        rewrite Ha, Hb, Hc. simpl. lia.
  - intros line Hin. split; [|apply Hline; exact Hin].
    destruct (Hline line Hin) as (c & t & _ & -> & _). apply addressOf_truthy.
Qed.

(** X18. Every line of the last seven days is also a line of
    [getRecentComplaints], when seven days back is not earlier than
    fifteen days back. *)
Theorem X18_last7_within_recent (complaints : list ProcessedComplaint) :
  (subDays E (now E) 15 <= subDays E (now E) 7)%Z ->
  forall line, In line (getLast7DaysComplaints complaints) ->
    In (recentOfLast7 line) (getRecentComplaints complaints).
Proof.
  intros Hle line Hin.
  unfold getLast7DaysComplaints, getLast7DaysComplaintsAt in Hin.
  apply (Permutation_in _ (sortWith_perm _ _)) in Hin.
  apply in_map_iff in Hin. destruct Hin as (c & <- & Hc).
  unfold getRecentComplaints.
  apply (Permutation_in _ (Permutation_sym (sortWith_perm _ _))).
  change (recentOfLast7 (toLast7DaysComplaint c)) with (toRecentComplaint c).
  apply in_map. apply qualifyingSince_In in Hc. apply qualifyingSince_In.
  destruct Hc as (H1 & H2 & H3 & H4). repeat split; try assumption.
  apply (isRecent_later _ _ c Hle H4).
Qed.

End FlowClaims.

Section KeyFacts.
Import JsString Regex.
Context {E : Engine}.

Lemma head_inj p : forall q x y,
  sepFree p = true -> sepFree q = true ->
  p +:+ String "|" x = q +:+ String "|" y -> p = q /\ x = y.
Proof.
  unfold sepFree. induction p as [|a p IH]; intros [|b q] x y Hp Hq; simpl in *.
  - intros [= ->]. split; reflexivity.
  - intros [= <- _]. discriminate.
  - intros [= -> _]. discriminate.
  - apply andb_prop in Hp, Hq. destruct Hp as (_ & Hp), Hq as (_ & Hq).
    intros [= -> H]. destruct (IH q x y Hp Hq H) as (-> & ->).
    split; reflexivity.
Qed.

Lemma sep_clash p x q :
  sepFree q = true -> p +:+ String "|" x = q -> False.
Proof.
  intros Hq <-. unfold sepFree in Hq. rewrite allChars_app in Hq.
  apply andb_prop in Hq. destruct Hq as (_ & Hq). simpl in Hq. discriminate.
Qed.

Lemma sepFree_take n : forall s, sepFree s = true -> sepFree (take n s) = true.
Proof.
  unfold sepFree. induction n as [|n IH]; intros [|c s]; simpl; try reflexivity.
  intros H. apply andb_prop in H. destruct H as (Hc & Hs).
  rewrite Hc, (IH s Hs). reflexivity.
Qed.

Lemma take_take n : forall s, take n (take n s) = take n s.
Proof.
  induction n as [|n IH]; intros [|c s]; simpl; try reflexivity.
  rewrite IH. reflexivity.
Qed.

Lemma take_all n : forall s, String.length s <= n -> take n s = s.
Proof.
  induction n as [|n IH]; intros [|c s]; simpl; try reflexivity; try lia.
  intros H. rewrite IH by lia. reflexivity.
Qed.

Lemma take_min n : forall s, take (Nat.min n (String.length s)) s = take n s.
Proof.
  induction n as [|n IH]; intros [|c s]; simpl; try reflexivity.
  rewrite IH. reflexivity.
Qed.

Lemma drop_0 s : drop 0 s = s.
Proof. destruct s; reflexivity. Qed.

Lemma substring_0 n s : substring 0 n s = take n s.
Proof.
  unfold substring. rewrite !Nat.min_0_l, Nat.max_0_l, Nat.sub_0_r, drop_0.
  apply take_min.
Qed.

(** The comparison text holds letters, digits, underscores and white
    space only. *)
Lemma comparable_chars s :
  allChars (fun c => (isWord c || isSpace c)%bool) (comparable s) = true.
Proof.
  unfold comparable, reNotWordNotSpace. rewrite replaceAll_Class.
  apply (allChars_impl
           (fun c => negb (classMatches false true [CWordChar; CSpace] c)));
    [|apply removeChars_kept].
  intros c. unfold classMatches. cbn [existsb itemMatches].
  destruct (isWord c), (isSpace c); simpl; congruence.
Qed.

Lemma normalizeForComparison_sepFree v :
  sepFree (normalizeForComparison v) = true.
Proof.
  unfold normalizeForComparison, sepFree.
  destruct (negb (truthy v)); [reflexivity|].
  apply (allChars_impl (fun c => (isWord c || isSpace c)%bool));
    [|apply comparable_chars].
  intros c. ascii_cases c.
Qed.

End KeyFacts.

Section KeyClaims.
Import JsString Regex.
Context {E : Engine}.

Lemma createRowKeys_shape r keys :
  createRowKeys r = Normal keys ->
  exists c l u,
    sepFree c = true /\ sepFree l = true
    /\ keys =
       [ addressKey r +:+ String "|" (c +:+ String "|" (l +:+ String "|"
           (dateKey r +:+ String "|" u)));
         addressKey r +:+ String "|" (c +:+ String "|" (l +:+ String "|"
           (dateKey r)));
         addressKey r +:+ String "|" (dateKey r);
         take 20 (addressKey r) +:+ String "|" (c +:+ String "|"
           (l +:+ String "|" (dateKey r))) ].
Proof.
  unfold createRowKeys, dateKey, addressKey.
  destruct (dateStrOf (complaintDate r)) as [d|m]; [|discriminate].
  cbn [bindC join]. intros [= <-]. rewrite substring_0.
  eexists _, _, _. split; [apply normalizeForComparison_sepFree|].
  split; [apply normalizeForComparison_sepFree|]. reflexivity.
Qed.

Ltac peel H :=
  repeat
    (let H1 := fresh "Heq" in
     apply head_inj in H;
     [destruct H as (H1 & H)|solve [auto using sepFree_take]..]).

(** Two records that share a key share the date part and the first 20
    characters of the address as it is compared. *)
Lemma keys_share r r' keys keys' k :
  createRowKeys r = Normal keys -> createRowKeys r' = Normal keys' ->
  sepFree (dateKey r) = true -> sepFree (dateKey r') = true ->
  In k keys -> In k keys' ->
  take 20 (addressKey r) = take 20 (addressKey r')
  /\ dateKey r = dateKey r'.
Proof.
  intros Hk Hk' Hd Hd' Hin Hin'.
  destruct (createRowKeys_shape r keys Hk) as (c & l & u & Hc & Hl & ->).
  destruct (createRowKeys_shape r' keys' Hk') as (c' & l' & u' & Hc' & Hl' & ->).
  pose proof (normalizeForComparison_sepFree (getProp (row r) "propertyAddress"))
    as Ha.
  pose proof (normalizeForComparison_sepFree (getProp (row r') "propertyAddress"))
    as Ha'.
  fold (addressKey r) in Ha. fold (addressKey r') in Ha'.
  set (a := addressKey r) in *. set (a' := addressKey r') in *.
  set (d := dateKey r) in *. set (d' := dateKey r') in *.
  assert (Hclash : forall p x q, sepFree q = true ->
                     p +:+ String "|" x = q -> False)
    by (intros p x q; apply sep_clash).
  assert (Hclash' : forall p x q, sepFree q = true ->
                      q = p +:+ String "|" x -> False)
    by (intros p x q Hq Heq; symmetry in Heq; exact (sep_clash p x q Hq Heq)).
  cbn [In] in Hin, Hin'.
  destruct Hin as [Hin|[Hin|[Hin|[Hin|[]]]]];
    destruct Hin' as [Hin'|[Hin'|[Hin'|[Hin'|[]]]]];
    rewrite <- Hin' in Hin; clear Hin';
    peel Hin;
    try (exfalso; first [ exact (Hclash _ _ _ Hd Hin)
                        | exact (Hclash _ _ _ Hd' Hin)
                        | exact (Hclash' _ _ _ Hd Hin)
                        | exact (Hclash' _ _ _ Hd' Hin) ]);
    (split; [|congruence]);
    first [ congruence
          | match goal with
            | H : a = take 20 a' |- _ => rewrite H, take_take; reflexivity
            | H : take 20 a = a' |- _ => rewrite <- H, take_take; reflexivity
            end ].
Qed.

End KeyClaims.

Section DetectMore.
Import JsString Regex.
Context {E : Engine}.

Lemma keysDefined_readable p :
  keysDefined p = negb (hasUnreadableDate p).
Proof.
  unfold keysDefined, hasUnreadableDate, createRowKeys, dateStrOf, isoDatePart.
  destruct (isValid p); [|reflexivity]. cbn [negb orb andb].
  destruct (complaintDate p) as [[t|s]|]; cbn [dateTruthy timeOf].
  - destruct t; reflexivity.
  - destruct (isEmpty s); [reflexivity|]. cbn [negb andb].
    destruct (dateParse E s); reflexivity.
  - reflexivity.
Qed.

Lemma createRowKeys_throws p m :
  createRowKeys p = Throw m -> m = invalidTimeError E.
Proof.
  unfold createRowKeys, dateStrOf, isoDatePart.
  destruct (complaintDate p) as [[t|s]|]; cbn [bindC].
  - destruct t; [discriminate|]. intros [= <-]. reflexivity.
  - destruct (isEmpty s); [discriminate|].
    destruct (dateParse E s); [discriminate|]. intros [= <-]. reflexivity.
  - discriminate.
Qed.

Lemma detectFrom_throws rows : forall seen index,
  existsb hasUnreadableDate rows = true ->
  detectFrom seen index rows = Throw (invalidTimeError E).
Proof.
  induction rows as [|r rows IH]; intros seen index Hex; [discriminate|].
  cbn [existsb] in Hex. cbn [detectFrom]. unfold detectStep.
  destruct (hasUnreadableDate r) eqn:Hr.
  - pose proof (keysDefined_readable r) as Hk. rewrite Hr in Hk.
    unfold keysDefined in Hk. unfold hasUnreadableDate in Hr.
    destruct (isValid r); [|discriminate]. cbn [negb orb] in Hk |- *.
    destruct (createRowKeys r) as [keys|m] eqn:Hkeys; [discriminate|].
    rewrite (createRowKeys_throws r m Hkeys). reflexivity.
  - cbn [orb] in Hex.
    pose proof (keysDefined_readable r) as Hk. rewrite Hr in Hk.
    unfold keysDefined in Hk.
    destruct (isValid r); cbn [negb orb] in Hk |- *.
    + destruct (createRowKeys r) as [keys|m] eqn:Hkeys; [|discriminate].
      cbn [bindC].
      destruct (findOriginal seen index keys); cbn [bindC];
        rewrite (IH _ _ Hex); reflexivity.
    + cbn [bindC]. rewrite (IH _ _ Hex). reflexivity.
Qed.

(** X10. [detectDuplicates] throws exactly when a valid record carries a
    date that cannot be read, an Invalid Date object or a text that does
    not parse; the error is the [RangeError] of [toISOString]. Otherwise
    it returns one entry per record, in the order of the records. *)
Theorem X10_detectDuplicates_throws_on_unreadable_date
    (rows : list ProcessedComplaint) :
  if existsb hasUnreadableDate rows
  then detectDuplicates rows = Throw (invalidTimeError E)
  else exists entries,
         detectDuplicates rows = Normal entries
         /\ map fst entries = seq 0 (length rows).
Proof.
  destruct (existsb hasUnreadableDate rows) eqn:Hex.
  - apply detectFrom_throws. exact Hex.
  - assert (Hall : Forall (fun p => keysDefined p = true) rows).
    { apply List.Forall_forall. intros p Hp. rewrite keysDefined_readable.
      apply negb_true_iff.
      destruct (hasUnreadableDate p) eqn:Hu; [|reflexivity].
      rewrite <- Hex. symmetry. apply existsb_exists. exists p. auto. }
    destruct (detectDuplicates_spec rows Hall) as (entries & Hrun & Hfst & _).
    exists entries. split; assumption.
Qed.

(** X11. A record that [detectDuplicates] flags shares with the record it
    is a duplicate of the date part of its keys and the first 20
    characters of its address as it is compared, whichever of the four
    keys made the match, when no date part holds the separator of the
    keys. *)
Theorem X11_duplicates_share_address_and_date
    (rows : list ProcessedComplaint) :
  Forall (fun p => keysDefined p = true) rows ->
  Forall (fun p => sepFree (dateKey p) = true) rows ->
  exists entries,
    detectDuplicates rows = Normal entries
    /\ forall i info,
         In (i, info) entries -> di_isDuplicate info = true ->
         exists j r original,
           di_duplicateOf info = Some j
           /\ rows !! i = Some r /\ rows !! j = Some original
           /\ take 20 (addressKey r) = take 20 (addressKey original)
           /\ dateKey r = dateKey original.
Proof.
  intros Hkeys Hsep.
  destruct (detectDuplicates_spec rows Hkeys) as (entries & Hrun & Hfst & Hspec).
  exists entries. split; [exact Hrun|].
  intros i info Hin Hdup.
  pose proof (entries_lookup entries _ i info Hfst Hin) as Hinfo.
  pose proof (entries_in_range entries _ i info Hfst Hin) as Hrange.
  destruct (lookup_lt_is_Some_2 rows i Hrange) as (r & Hr).
  destruct (Hspec i r info Hr Hinfo) as (Hinvalid & Hvalid).
  destruct (isValid r) eqn:Hv.
  2: { rewrite (Hinvalid eq_refl) in Hdup. discriminate. }
  destruct (Hvalid eq_refl) as (keys & Hk & _ & Hfirst & _).
  destruct (Hfirst Hdup) as (b & k & a & j & Hkeys' & Hreg & _ & Hof).
  destruct Hreg as (Hlt & (original & originalInfo & keys' & Ho & Hoi
                           & Hov & Hod & Hok & Hink) & _).
  exists j, r, original. split; [exact Hof|]. split; [exact Hr|].
  split; [exact Ho|].
  rewrite List.Forall_forall in Hsep.
  apply (keys_share r original keys keys' k Hk Hok).
  - apply Hsep. apply list_elem_of_In. apply list_elem_of_lookup. eauto.
  - apply Hsep. apply list_elem_of_In. apply list_elem_of_lookup. eauto.
  - rewrite Hkeys'. apply in_or_app. right. left. reflexivity.
  - exact Hink.
Qed.

End DetectMore.

Section CsvClaims.
Import JsString Csv.

(** X1. [parseCSVLine] undoes the quoting of a CSV writer: a line made of
    one or more fields, each between quotes with its own quotes doubled,
    and commas between them, is split into exactly these fields, whatever
    commas and quotes the fields hold. *)
Theorem X1_parseCSVLine_reads_quoted_fields (fields : list string) :
  fields <> [] -> parseCSVLine (quotedLine fields) = fields.
Proof.
  intros Hne. unfold parseCSVLine.
  rewrite (parseCSVFrom_quotedLine fields [] Hne). reflexivity.
Qed.

(** X2. On a line without quotes [parseCSVLine] is [line.split(',')]. *)
Theorem X2_parseCSVLine_without_quotes (line : string) :
  allChars noQuote line = true -> parseCSVLine line = split1 comma line.
Proof.
  intros Hq. unfold parseCSVLine, split1.
  rewrite (parseCSVFrom_plain line [] EmptyString Hq). reflexivity.
Qed.

End CsvClaims.

Section RegistryClaims.
Context {E : Engine}.

(** X8. A registry without rules normalizes as the plain functions do; a
    rule that is added applies to what the registry returned before,
    so rules apply in the order in which they were added; and a rule for
    lenders changes nothing for counties, nor one for counties anything
    for lenders. *)
Theorem X8_registry_rules_compose (registry : NormalizationRegistry)
    (rule : string -> string) (text : string) :
  registryNormalizeCounty newRegistry text = normalizeCounty (VString text)
  /\ registryNormalizeLender newRegistry text = normalizeLender (VString text)
  /\ registryNormalizeCounty (addCountyRule rule registry) text
     = rule (registryNormalizeCounty registry text)
  /\ registryNormalizeLender (addLenderRule rule registry) text
     = rule (registryNormalizeLender registry text)
  /\ registryNormalizeCounty (addLenderRule rule registry) text
     = registryNormalizeCounty registry text
  /\ registryNormalizeLender (addCountyRule rule registry) text
     = registryNormalizeLender registry text.
Proof.
  unfold registryNormalizeCounty, registryNormalizeLender, addCountyRule,
    addLenderRule. cbn [countyRules lenderRules newRegistry fold_left].
  rewrite !fold_left_app. repeat split.
Qed.

End RegistryClaims.

Section SheetDataClaims.
Context {E : Engine}.
Import JsString.

Lemma setNormalized_same p :
  setNormalized (normalizedCounty p) (normalizedLender p) p = p.
Proof. destruct p; reflexivity. Qed.

Lemma recordOfRow_readable r : readableDate (recordOfRow r) = true.
Proof.
  unfold recordOfRow, validateRow. destruct r as [fields| |]; try reflexivity.
  unfold validateFields, readableDate.
  destruct (collectIssues fields) as [[i u] d]. cbn [complaintDate].
  destruct d; reflexivity.
Qed.

Lemma map_fixed {A} (f : A -> A) (l : list A) :
  (forall x, In x l -> f x = x) -> map f l = l.
Proof.
  induction l as [|x l IH]; intros H; simpl; [reflexivity|].
  rewrite (H x (or_introl eq_refl)), IH; [reflexivity|].
  intros y Hy. apply H. right. exact Hy.
Qed.

(** Every record that the pipeline returns is the normalized record of
    a row, but for its duplicate mark. *)
Lemma pipeline_records (rows : list RawRow) :
  exists report,
    processRowsWithQualityChecks rows = Normal report
    /\ forall p', In p' (processed report) ->
         exists r, sameCore (normalizeRecord (recordOfRow r)) p'.
Proof.
  destruct (pipeline_runs rows)
    as (report & entries & Hrun & _ & _ & Hlen & _ & _ & _ & _ & _ & _ & Hproc).
  exists report. split; [exact Hrun|].
  intros p' Hin. apply list_elem_of_In in Hin.
  apply list_elem_of_lookup in Hin. destruct Hin as (i & Hi).
  assert (Hlt : i < length rows).
  { rewrite <- Hlen. apply lookup_lt_is_Some. eauto. }
  destruct (lookup_lt_is_Some_2 rows i Hlt) as (r & Hr).
  destruct (Hproc i _ (normalized_lookup rows i r Hr)) as (q & Hq & Hcore & _).
  rewrite Hi in Hq. injection Hq as <-. exists r. exact Hcore.
Qed.

(** The pipeline returns for every list of rows. *)
Lemma pipeline_report (rows : list RawRow) :
  exists report, processRowsWithQualityChecks rows = Normal report.
Proof.
  destruct (pipeline_records rows) as (report & Hrun & _).
  exists report. exact Hrun.
Qed.

Lemma processed_records (rows : list RawRow) (report : QualityReport) :
  processRowsWithQualityChecks rows = Normal report ->
  forall p', In p' (processed report) ->
    exists r, sameCore (normalizeRecord (recordOfRow r)) p'.
Proof.
  intros Hrun. destruct (pipeline_records rows) as (report' & Hrun' & Hall).
  rewrite Hrun in Hrun'. injection Hrun' as <-. exact Hall.
Qed.

(** The records of the report have a date that can be read, or none. *)
Lemma processed_readable (rows : list RawRow) (report : QualityReport) :
  processRowsWithQualityChecks rows = Normal report ->
  Forall (fun p => readableDate p = true) (processed report).
Proof.
  intros Hrun. apply List.Forall_forall. intros p' Hin.
  destruct (processed_records rows report Hrun p' Hin) as (r & Hcore).
  destruct Hcore as (_ & _ & _ & Hd & _).
  unfold readableDate. rewrite Hd. apply (recordOfRow_readable r).
Qed.

(** The records of the report carry the names that [fetchData] computes. *)
Lemma processed_renormalized (rows : list RawRow) (report : QualityReport) :
  processRowsWithQualityChecks rows = Normal report ->
  applyNormalization (processed report) = processed report.
Proof.
  intros Hrun. apply map_fixed. intros p' Hin.
  destruct (processed_records rows report Hrun p' Hin) as (r & Hcore).
  destruct Hcore as (_ & Hrow & _ & _ & Hc & Hl).
  rewrite Hrow. cbn [normalizeRecord setNormalized row].
  cbn [normalizeRecord setNormalized normalizedCounty normalizedLender]
    in Hc, Hl.
  rewrite <- Hc, <- Hl. apply setNormalized_same.
Qed.

(** X12. What [fetchData] does to the records that the pipeline returns
    changes nothing: they already carry the names that it computes once
    more. And each of them has a date that can be read, or none: the
    calculations never meet an Invalid Date in them. *)
Theorem X12_fetchData_keeps_processed_records (rows : list RawRow) :
  exists report,
    processRowsWithQualityChecks rows = Normal report
    /\ applyNormalization (processed report) = processed report
    /\ Forall (fun p => readableDate p = true) (processed report).
Proof.
  destruct (pipeline_report rows) as (report & Hrun).
  exists report. split; [exact Hrun|]. split.
  - exact (processed_renormalized rows report Hrun).
  - exact (processed_readable rows report Hrun).
Qed.

End SheetDataClaims.

Section GroupFacts.
Context {E : Engine} {RT : Runtime}.
Import JsString.

(** The loop that updates the entries of a map whose keys are set
    beforehand. *)
Lemma fold_updateEntry {A B} (key : A -> string) (keyOf : B -> string)
    (fresh : string -> A) (step : B -> A -> A) (names : list string)
    (l : list B) :
  (forall n, key (fresh n) = n) ->
  (forall b a, key (step b a) = key a) ->
  NoDup names ->
  fold_left (fun m b => updateEntry key (keyOf b) (step b) m) l
            (map fresh names)
  = map (entryAfter keyOf fresh step l) names.
Proof.
  intros Hfresh Hstep Hnd.
  induction l as [|b l IH] using rev_ind.
  - cbn [fold_left]. apply map_ext. intros n. reflexivity.
  - rewrite fold_left_app, IH. cbn [fold_left].
    rewrite (updateEntry_map key (entryAfter keyOf fresh step l) (step b)
               names (keyOf b)
               (key_entryAfter key keyOf fresh step Hfresh Hstep l) Hnd).
    apply map_ext. intros n. rewrite entryAfter_snoc.
    rewrite (String.eqb_sym n (keyOf b)). reflexivity.
Qed.

Lemma fold_countInGroup_keyed keyOf l : forall m,
  fold_left (countInGroup keyOf) l m
  = fold_left (fun m b => updateEntry gs_key (keyOr keyOf b) (addToGroup b) m)
      (List.filter (fun c => match keyOf c with
                             | Some _ => true | None => false end) l) m.
Proof.
  induction l as [|c l IH]; intros m; [reflexivity|].
  cbn [fold_left List.filter]. destruct (keyOf c) as [n|] eqn:Hk.
  - cbn [fold_left]. rewrite <- IH. f_equal.
    unfold countInGroup, keyOr. rewrite Hk. reflexivity.
  - rewrite <- IH. f_equal. unfold countInGroup. rewrite Hk. reflexivity.
Qed.

Lemma fold_countInGroup keyOf names l :
  NoDup names ->
  fold_left (countInGroup keyOf) l (map emptyGroup names)
  = map (entryAfter (keyOr keyOf) emptyGroup addToGroup
           (List.filter (fun c => match keyOf c with
                                  | Some _ => true | None => false end) l))
        names.
Proof.
  intros Hnd. rewrite fold_countInGroup_keyed.
  apply (fold_updateEntry gs_key (keyOr keyOf) emptyGroup addToGroup
           names _ (fun n => eq_refl) (fun b a => eq_refl) Hnd).
Qed.

Lemma groupLine_counts keyOf l name :
  let keyed := List.filter (fun c => match keyOf c with
                                     | Some _ => true | None => false end) l in
  let line := entryAfter (keyOr keyOf) emptyGroup addToGroup keyed name in
  name <> EmptyString ->
  gs_key line = name
  /\ gs_totalComplaints line = length (List.filter (inGroup keyOf name) l)
  /\ gs_complaintsMeetingCriteria line
     = length (List.filter meetsCriteria (List.filter (inGroup keyOf name) l)).
Proof.
  intros keyed line Hname. unfold line, entryAfter.
  assert (Hf : List.filter (fun c => String.eqb (keyOr keyOf c) name) keyed
               = List.filter (inGroup keyOf name) l).
  { unfold keyed. rewrite filter_filter. apply List.filter_ext. intros c.
    unfold keyOr, inGroup. destruct (keyOf c); reflexivity. }
  rewrite Hf. clear Hf keyed line.
  induction (List.filter (inGroup keyOf name) l) as [|c items IH] using rev_ind.
  - repeat split.
  - rewrite fold_left_app, filter_snoc, !length_app. cbn [fold_left].
    destruct IH as (H0 & H1 & H2).
    set (stats := fold_left (fun a b => addToGroup b a) items (emptyGroup name))
      in *.
    change (gs_key (addToGroup c stats)) with (gs_key stats).
    change (gs_totalComplaints (addToGroup c stats))
      with (S (gs_totalComplaints stats)).
    change (gs_complaintsMeetingCriteria (addToGroup c stats))
      with (if meetsCriteria c then S (gs_complaintsMeetingCriteria stats)
            else gs_complaintsMeetingCriteria stats).
    rewrite H0, H1, H2. split; [reflexivity|]. split; [simpl; lia|].
    destruct (meetsCriteria c); simpl; lia.
Qed.

Lemma getEntry_map {A} (key : A -> string) (G : string -> A) names name :
  (forall n, key (G n) = n) -> In name names ->
  getEntry key name (map G names) = Some (G name).
Proof.
  intros HG. induction names as [|n names IH]; intros Hin; [destruct Hin|].
  cbn [map getEntry]. rewrite HG. destruct (String.eqb n name) eqn:Hn.
  - apply String.eqb_eq in Hn. subst n. reflexivity.
  - destruct Hin as [->|Hin]; [rewrite String.eqb_refl in Hn; discriminate|].
    apply IH. exact Hin.
Qed.

Lemma groupsWithData_map (G : string -> GroupSummary) names selected :
  (forall n, gs_key (G n) = n) ->
  (forall n, In n selected -> In n names) ->
  groupsWithData selected (map G names)
  = Normal (List.filter (fun stats => Nat.ltb 0 (gs_totalComplaints stats))
                        (map G selected)).
Proof.
  intros HG. induction selected as [|n selected IH]; intros Hsel; [reflexivity|].
  cbn [groupsWithData]. rewrite IH by (intros m Hm; apply Hsel; right; exact Hm).
  cbn [bindC]. rewrite (getEntry_map gs_key G names n HG (Hsel n (or_introl eq_refl))).
  cbn [map List.filter]. destruct (Nat.ltb 0 (gs_totalComplaints (G n))); reflexivity.
Qed.

Lemma sublist_map_filter {A B} (f : A -> B) (p : A -> bool) (l : list A) :
  sublist (map f (List.filter p l)) (map f l).
Proof.
  induction l as [|x l IH]; cbn [List.filter map]; [constructor|].
  destruct (p x); cbn [map]; [apply sublist_skip|apply sublist_cons]; exact IH.
Qed.

(** A summary by groups whose keys are set beforehand. *)
Lemma summary_summarizes keyOf names l :
  NoDup names -> ~ In EmptyString names ->
  exists result,
    groupsWithData names (fold_left (countInGroup keyOf) l (map emptyGroup names))
    = Normal result
    /\ summarizes names keyOf l result.
Proof.
  intros Hnd Hne. rewrite (fold_countInGroup keyOf names l Hnd).
  set (keyed := List.filter (fun c => match keyOf c with
                                      | Some _ => true | None => false end) l).
  set (G := entryAfter (keyOr keyOf) emptyGroup addToGroup keyed).
  assert (HG : forall n, gs_key (G n) = n).
  { intros n. apply (key_entryAfter gs_key (keyOr keyOf) emptyGroup addToGroup
                       (fun n => eq_refl) (fun b a => eq_refl)). }
  rewrite (groupsWithData_map G names names HG (fun n H => H)).
  eexists. split; [reflexivity|]. split.
  - replace names with (map gs_key (map G names)) at 2.
    + apply sublist_map_filter.
    + rewrite map_map. rewrite <- (map_id names) at 2.
      apply map_ext. exact HG.
  - intros line Hin. apply filter_In in Hin. destruct Hin as (Hin & Hpos).
    apply in_map_iff in Hin. destruct Hin as (n & <- & Hn).
    assert (Hn0 : n <> EmptyString) by (intros ->; exact (Hne Hn)).
    destruct (groupLine_counts keyOf l n Hn0) as (H0 & H1 & H2).
    fold keyed in H0, H1, H2. fold (G n) in H0, H1, H2.
    rewrite H0. split; [exact H1|]. split; [exact H2|].
    apply Nat.ltb_lt in Hpos. split; [lia|].
    rewrite H1, H2. apply filter_length_le.
Qed.

End GroupFacts.

Section GroupClaims.
Context {E : Engine} {RT : Runtime}.
Import JsString.

(** X21. The two region summaries return, for the valid complaints that
    are no duplicates and are dated in the month or in the year: lines
    for regions among Miami-Dade, Other Florida and New York, in this
    order, never one for Other/Unmapped; each line with the count of the
    complaints of its region, which is not zero, and with no more
    complaints that meet the criteria than complaints. *)
Theorem X21_region_summaries (complaints : list ProcessedComplaint) :
  let valid := filterValidComplaints complaints in
  exists month year,
    calculateCurrentMonthRegionSummary complaints = Normal month
    /\ calculateYTDRegionSummary complaints = Normal year
    /\ summarizes getOrderedRegions regionKey
         (List.filter (isRecent (startOfMonth RT (now E))) valid) month
    /\ summarizes getOrderedRegions regionKey
         (List.filter (isRecent (startOfYear RT (now E))) valid) year
    /\ ~ In "Other/Unmapped" (map gs_key month)
    /\ ~ In "Other/Unmapped" (map gs_key year).
Proof.
  intros valid.
  assert (Hnd : NoDup getOrderedRegions).
  { change getOrderedRegions with (firstSeen getOrderedRegions).
    apply firstSeen_NoDup. }
  assert (Hne : ~ In EmptyString getOrderedRegions)
    by (cbn; intuition discriminate).
  destruct (summary_summarizes regionKey getOrderedRegions
              (List.filter (isRecent (startOfMonth RT (now E))) valid) Hnd Hne)
    as (month & Hm & Hms).
  destruct (summary_summarizes regionKey getOrderedRegions
              (List.filter (isRecent (startOfYear RT (now E))) valid) Hnd Hne)
    as (year & Hy & Hys).
  exists month, year.
  split; [exact Hm|]. split; [exact Hy|]. split; [exact Hms|].
  split; [exact Hys|].
  assert (Hno : forall keys, sublist keys getOrderedRegions ->
                  ~ In "Other/Unmapped" keys).
  { intros keys Hsub Hin. apply list_elem_of_In in Hin.
    pose proof (elem_of_sublist _ _ _ Hin Hsub) as H.
    apply list_elem_of_In in H. cbn in H. intuition discriminate. }
  split; apply Hno; [apply Hms|apply Hys].
Qed.

(** X22. The summary by year returns at most one line for 2024 and then
    at most one for 2025, each with the count of the valid complaints that
    are no duplicates and are dated in that year, which is not zero, and
    with no more complaints that meet the criteria than complaints. *)
Theorem X22_year_summary (complaints : list ProcessedComplaint) :
  exists result,
    calculateYearSummary complaints = Normal result
    /\ summarizes years yearKey (filterValidComplaints complaints) result
    /\ length result <= 2.
Proof.
  assert (Hnd : NoDup years).
  { change years with (firstSeen years). apply firstSeen_NoDup. }
  assert (Hne : ~ In EmptyString years)
    by (cbn; intuition discriminate).
  destruct (summary_summarizes yearKey years
              (filterValidComplaints complaints) Hnd Hne) as (result & Hr & Hs).
  exists result. split; [exact Hr|]. split; [exact Hs|].
  destruct Hs as (Hsub & _). apply sublist_length in Hsub.
  rewrite length_map in Hsub. exact Hsub.
Qed.

End GroupClaims.

Section MonthlyFacts.
Context {E : Engine} {RT : Runtime}.
Import JsString.

Lemma hasUnreadableDate_valid c :
  isValid c = true ->
  hasUnreadableDate c
  = (dated c && match dateOf c with Some _ => false | None => true end)%bool.
Proof.
  intros Hv. unfold hasUnreadableDate, dated, dateOf. rewrite Hv.
  destruct (complaintDate c) as [d|]; reflexivity.
Qed.

Lemma forEachC_throws l : forall m,
  Forall (fun c => isValid c = true) l ->
  existsb hasUnreadableDate l = true ->
  forEachC countMonth l m = Throw (formatRangeError RT).
Proof.
  induction l as [|c l IH]; intros m Hv Hex; [discriminate|].
  pose proof (Forall_inv Hv) as Hc. pose proof (Forall_inv_tail Hv) as Hl.
  cbn [existsb] in Hex. cbn [forEachC]. unfold countMonth.
  rewrite (hasUnreadableDate_valid c Hc) in Hex. unfold dated in Hex.
  destruct (dateTruthy (complaintDate c)); cbn [negb andb orb] in Hex |- *.
  - destruct (dateOf c) as [t|]; cbn [formatYearMonth bindC orb] in Hex |- *.
    + apply IH; assumption.
    + reflexivity.
  - apply IH; assumption.
Qed.

Lemma forEachC_returns l : forall m,
  Forall (fun c => isValid c = true) l ->
  existsb hasUnreadableDate l = false ->
  forEachC countMonth l m
  = Normal (fold_left
              (fun m c => upsert mt_month (monthOf c) (emptyMonth (monthOf c))
                            (addToMonth c) m)
              (List.filter dated l) m).
Proof.
  induction l as [|c l IH]; intros m Hv Hex; [reflexivity|].
  pose proof (Forall_inv Hv) as Hc. pose proof (Forall_inv_tail Hv) as Hl.
  cbn [existsb] in Hex. apply orb_false_iff in Hex. destruct Hex as (Hu & Hex).
  rewrite (hasUnreadableDate_valid c Hc) in Hu.
  cbn [forEachC List.filter]. unfold countMonth.
  unfold dated in Hu |- *.
  destruct (dateTruthy (complaintDate c)); cbn [negb andb] in Hu |- *.
  - cbn [fold_left]. rewrite <- (IH _ Hl Hex). unfold monthOf.
    destruct (dateOf c) as [t|]; [|discriminate]. reflexivity.
  - cbn [bindC]. apply IH; assumption.
Qed.

Lemma monthLine_counts l name :
  mt_month (monthLine l name) = name
  /\ mt_totalComplaints (monthLine l name)
     = length (List.filter (fun c => String.eqb (monthOf c) name) l)
  /\ mt_complaintsMeetingCriteria (monthLine l name)
     <= mt_totalComplaints (monthLine l name).
Proof.
  unfold monthLine, entryAfter.
  induction (List.filter (fun c => String.eqb (monthOf c) name) l)
    as [|c items IH] using rev_ind.
  - repeat split. reflexivity.
  - rewrite fold_left_app, length_app. cbn [fold_left].
    destruct IH as (H0 & H1 & H2).
    set (stats := fold_left (fun a b => addToMonth b a) items (emptyMonth name))
      in *.
    change (mt_month (addToMonth c stats)) with (mt_month stats).
    change (mt_totalComplaints (addToMonth c stats))
      with (S (mt_totalComplaints stats)).
    change (mt_complaintsMeetingCriteria (addToMonth c stats))
      with (if meetsCriteria c then S (mt_complaintsMeetingCriteria stats)
            else mt_complaintsMeetingCriteria stats).
    rewrite H0, H1. split; [reflexivity|]. split; [simpl; lia|].
    rewrite <- H1. destruct (meetsCriteria c); lia.
Qed.

End MonthlyFacts.

Section MonthlyClaims.
Context {E : Engine} {RT : Runtime}.
Import JsString.

Lemma valid_isValid (complaints : list ProcessedComplaint) :
  Forall (fun c => isValid c = true) (filterValidComplaints complaints).
Proof.
  apply List.Forall_forall. intros c Hc. apply filter_In in Hc.
  destruct Hc as (_ & Hc). unfold countsAsValid in Hc.
  apply andb_prop in Hc. apply Hc.
Qed.

(** What the summary returns when every date it formats can be read. *)
Lemma monthly_trend_returns (complaints : list ProcessedComplaint) :
  let valid := filterValidComplaints complaints in
  existsb hasUnreadableDate valid = false ->
  exists result,
    calculateMonthlyTrendSummary complaints = Normal result
    /\ NoDup (map mt_month result)
    /\ (forall line, In line result ->
          1 <= mt_totalComplaints line
          /\ mt_complaintsMeetingCriteria line <= mt_totalComplaints line)
    /\ list_sum (map mt_totalComplaints result)
       = length (List.filter dated valid).
Proof.
  intros valid Hex.
  unfold calculateMonthlyTrendSummary. fold valid.
  rewrite (forEachC_returns valid [] (valid_isValid complaints) Hex).
  cbn [bindC].
  set (l := List.filter dated valid).
  rewrite (fold_upsert mt_month monthOf emptyMonth addToMonth
             (fun n => eq_refl) (fun b a => eq_refl) l).
  fold (monthLine l).
  set (lines := map (monthLine l) (firstSeen (map monthOf l))).
  set (sorted := sortWith
         (fun a b => localeCompare E (mt_month b) (mt_month a)) lines).
  exists sorted. split; [reflexivity|].
  assert (Hperm : Permutation sorted lines) by apply sortWith_perm.
  assert (Hkeys : map mt_month lines = firstSeen (map monthOf l)).
  { unfold lines. rewrite map_map. rewrite <- (map_id (firstSeen _)) at 2.
    apply map_ext. intros n. apply monthLine_counts. }
  split; [|split].
  - rewrite Hperm, Hkeys. apply firstSeen_NoDup.
  - intros line Hin. apply (Permutation_in _ Hperm) in Hin.
    apply in_map_iff in Hin. destruct Hin as (n & <- & Hn).
    destruct (monthLine_counts l n) as (H0 & H1 & H2).
    split; [|exact H2]. rewrite H1.
    apply (proj1 (firstSeen_In _ _)) in Hn. apply in_map_iff in Hn.
    destruct Hn as (c & Hc & Hcl).
    assert (Hf : In c (List.filter (fun c => String.eqb (monthOf c) n) l)).
    { apply filter_In. split; [exact Hcl|]. apply String.eqb_eq. exact Hc. }
    destruct (List.filter _ l); [destruct Hf|simpl; lia].
  - rewrite Hperm. unfold lines. rewrite map_map.
    rewrite (map_ext _ (fun n => length (List.filter
               (fun c => String.eqb (monthOf c) n) l)))
      by (intros n; apply monthLine_counts).
    apply list_sum_by_key; [apply firstSeen_NoDup|].
    intros c Hc. apply firstSeen_In. apply in_map. exact Hc.
Qed.

(** X19. [calculateMonthlyTrendSummary] throws the [RangeError] of
    [format] when a valid complaint that is no duplicate has a date that
    cannot be read. Otherwise it returns one line per month of the valid
    complaints that are no duplicates and have a date; a line counts at
    least one complaint and no more complaints that meet the criteria than
    complaints; and the lines together count each dated complaint once. *)
Theorem X19_monthly_trend_summary (complaints : list ProcessedComplaint) :
  let valid := filterValidComplaints complaints in
  if existsb hasUnreadableDate valid
  then calculateMonthlyTrendSummary complaints = Throw (formatRangeError RT)
  else exists result,
         calculateMonthlyTrendSummary complaints = Normal result
         /\ NoDup (map mt_month result)
         /\ (forall line, In line result ->
               1 <= mt_totalComplaints line
               /\ mt_complaintsMeetingCriteria line <= mt_totalComplaints line)
         /\ list_sum (map mt_totalComplaints result)
            = length (List.filter dated valid).
Proof.
  intros valid.
  destruct (existsb hasUnreadableDate valid) eqn:Hex.
  - unfold calculateMonthlyTrendSummary. fold valid.
    rewrite (forEachC_throws valid [] (valid_isValid complaints) Hex).
    reflexivity.
  - exact (monthly_trend_returns complaints Hex).
Qed.

End MonthlyClaims.

Section DashboardClaims.
Context {E : Engine} {RT : Runtime}.
Import JsString.

Lemma readable_not_unreadable l :
  Forall (fun p => readableDate p = true) l ->
  existsb hasUnreadableDate (filterValidComplaints l) = false.
Proof.
  intros H. unfold filterValidComplaints.
  induction H as [|p l Hp Hl IH]; [reflexivity|].
  cbn [List.filter]. destruct (countsAsValid p); [|exact IH].
  cbn [existsb]. rewrite IH, orb_false_r.
  unfold hasUnreadableDate. unfold readableDate in Hp.
  destruct (complaintDate p) as [[[t|]|s]|]; try discriminate;
    cbn [dateTruthy timeOf andb]; apply andb_false_r.
Qed.

(** X20. On the records that [fetchData] makes of any rows, the monthly
    trend summary returns: no date there makes [format] throw. Its lines
    count every valid record that is no duplicate and has a date. *)
Theorem X20_monthly_trend_returns_on_fetched_data (rows : list RawRow) :
  exists report result,
    processRowsWithQualityChecks rows = Normal report
    /\ calculateMonthlyTrendSummary (applyNormalization (processed report))
       = Normal result
    /\ list_sum (map mt_totalComplaints result)
       = length (List.filter dated
                   (filterValidComplaints (processed report))).
Proof.
  destruct (pipeline_report rows) as (report & Hrun).
  exists report. rewrite (processed_renormalized rows report Hrun).
  destruct (monthly_trend_returns (processed report)
              (readable_not_unreadable _ (processed_readable rows report Hrun)))
    as (result & Hres & _ & _ & Hsum).
  exists result. split; [exact Hrun|]. split; [exact Hres|exact Hsum].
Qed.

End DashboardClaims.

(* ------------------------------------------------------------------ *)
(** ** The hypotheses of the properties above, at concrete inputs *)
(* ------------------------------------------------------------------ *)

Section Runs.
Import JsString.

(** [Broward County] is a text of ASCII characters, and in capitals it has
    the same name. *)
Lemma X6_witness :
  asciiText "Broward County" = true
  /\ normalizeCounty (E := Ref.engine) (VString (toUpperCase "Broward County"))
     = normalizeCounty (E := Ref.engine) (VString "Broward County").
Proof.
  split; [reflexivity|].
  exact (proj1 (X6_normalizeCounty_ignores_case_and_padding (E := Ref.engine)
                  "Broward County" eq_refl)).
Defined.

(** [Harbor Bank, N.A.] is a text of ASCII characters, and in capitals it
    has the same name. *)
Lemma X7_witness :
  asciiText "Harbor Bank, N.A." = true
  /\ normalizeLender (E := Ref.engine)
       (VString (toUpperCase "Harbor Bank, N.A."))
     = normalizeLender (E := Ref.engine) (VString "Harbor Bank, N.A.").
Proof.
  split; [reflexivity|].
  exact (proj1 (X7_normalizeLender_ignores_case_and_padding (E := Ref.engine)
                  "Harbor Bank, N.A." eq_refl)).
Defined.

(** The month of the reference day starts after its year, and the
    figures of the month stay within those of the year on the two records
    of the duplicate test. *)
Lemma X13_witness :
  (RefRuntime.refStartOfYear Ref.refNow
   <= RefRuntime.refStartOfMonth Ref.refNow)%Z
  /\ ytd_totalComplaints
       (calculateCurrentMonthStats (E := Ref.engine) (RT := RefRuntime.runtime)
          Examples.nearDuplicates)
     <= ytd_totalComplaints
          (calculateYTDStats (E := Ref.engine) (RT := RefRuntime.runtime)
             Examples.nearDuplicates).
Proof.
  assert (H : (RefRuntime.refStartOfYear Ref.refNow
               <= RefRuntime.refStartOfMonth Ref.refNow)%Z)
    by (vm_compute; discriminate).
  split; [exact H|].
  exact (proj1 (X13_month_within_year (E := Ref.engine)
                  (RT := RefRuntime.runtime) Examples.nearDuplicates H)).
Defined.

(** The record of five days ago is a line of the last seven days, and a
    line of the recent complaints. *)
Lemma X18_witness :
  (Ref.refSubDays Ref.refNow 15 <= Ref.refSubDays Ref.refNow 7)%Z
  /\ In (toLast7DaysComplaint (E := Ref.engine) MoreExamples.harborStreet)
        (getLast7DaysComplaints (E := Ref.engine) [MoreExamples.harborStreet])
  /\ In (recentOfLast7
           (toLast7DaysComplaint (E := Ref.engine) MoreExamples.harborStreet))
        (getRecentComplaints (E := Ref.engine) [MoreExamples.harborStreet]).
Proof.
  assert (H : (Ref.refSubDays Ref.refNow 15 <= Ref.refSubDays Ref.refNow 7)%Z)
    by (vm_compute; discriminate).
  assert (Hin : In (toLast7DaysComplaint (E := Ref.engine)
                      MoreExamples.harborStreet)
                   (getLast7DaysComplaints (E := Ref.engine)
                      [MoreExamples.harborStreet]))
    by (left; reflexivity).
  split; [exact H|]. split; [exact Hin|].
  exact (X18_last7_within_recent (E := Ref.engine)
           [MoreExamples.harborStreet] H _ Hin).
Defined.

(** The misspelt [Bronxs] is listed, and resolves to New York. *)
Lemma X4_witness :
  In ("Bronxs", "New York") REGION_MAPPING
  /\ getRegionFromCounty (E := Ref.engine) (VString "Bronxs")
     = Region "New York".
Proof.
  assert (H : In ("Bronxs", "New York") REGION_MAPPING)
    by (unfold REGION_MAPPING; simpl; tauto).
  split; [exact H|].
  exact (X4_listed_counties_resolve (E := Ref.engine) "Bronxs" "New York" H).
Defined.

(** The hypotheses of X11 hold at the two records whose addresses differ
    by a full stop. *)
Lemma X11_witness :
  Forall (fun p => keysDefined (E := Ref.engine) p = true)
         Examples.nearDuplicates
  /\ Forall (fun p => sepFree (dateKey (E := Ref.engine) p) = true)
            Examples.nearDuplicates
  /\ exists entries,
       detectDuplicates (E := Ref.engine) Examples.nearDuplicates
       = Normal entries.
Proof.
  assert (H1 : Forall (fun p => keysDefined (E := Ref.engine) p = true)
                      Examples.nearDuplicates)
    by (repeat constructor).
  assert (H2 : Forall (fun p => sepFree (dateKey (E := Ref.engine) p) = true)
                      Examples.nearDuplicates)
    by (repeat constructor).
  split; [exact H1|]. split; [exact H2|].
  destruct (X11_duplicates_share_address_and_date (E := Ref.engine)
              Examples.nearDuplicates H1 H2) as (entries & Hrun & _).
  exists entries. exact Hrun.
Defined.

(** Two fields, the first with a comma in it. *)
Lemma X1_witness :
  ["12 Harbor Street, Apt 4"; "Kings"] <> []
  /\ Csv.parseCSVLine (Csv.quotedLine ["12 Harbor Street, Apt 4"; "Kings"])
     = ["12 Harbor Street, Apt 4"; "Kings"].
Proof.
  assert (H : ["12 Harbor Street, Apt 4"; "Kings"] <> @nil string)
    by discriminate.
  split; [exact H|].
  exact (X1_parseCSVLine_reads_quoted_fields _ H).
Defined.

(** A line with an empty field. *)
Lemma X2_witness :
  allChars Csv.noQuote "Kings,,Harbor Bank" = true
  /\ Csv.parseCSVLine "Kings,,Harbor Bank"
     = split1 Csv.comma "Kings,,Harbor Bank".
Proof.
  split; [reflexivity|].
  exact (X2_parseCSVLine_without_quotes "Kings,,Harbor Bank" eq_refl).
Defined.

End Runs.
